(* ===== verification/_CoqProject ===== *)
-Q . S2P
Prelude.v
Text.v
Decimal.v
Chars.v
F64.v
F64Order.v
Json.v
Serde.v
Errors.v
Models.v
Stores.v
Sql.v
Codec.v
MemoryCounter.v
Pools.v
Config.v
HttpTypes.v
Retry.v
Engine.v
Executor.v
Fingerprint.v
Cache.v
Pricing.v
Tokens.v
LogBody.v
Redaction.v
RateLimit.v
RateWindows.v
Budget.v
BudgetBlocks.v
MemoryMeta.v
SqliteMeta.v
PostgresMeta.v
SqliteRefine.v
PostgresRefine.v
MemoryLog.v
SqlLog.v
SqliteLog.v
SqliteLogCorrect.v
LogPages.v
LogAggregate.v
PostgresLog.v
SqliteKv.v
MemoryKv.v
Redis.v
RedisCorrect.v
RedisRefine.v
Security.v
Auth.v
Seeding.v
HotReload.v
Watcher.v
SqliteSeeding.v
Logging.v
Streaming.v
AdminLogs.v
ConfigSerde.v
AdminPricing.v
SqliteRecompute.v
AdminApi.v
AdminBodies.v
Revocation.v
PriceFrames.v
Startup.v
Proxy.v
ProxyCorrect.v
System.v
SystemCorrect.v
SystemBudgets.v
SystemPrices.v
Liveness.v
Boot.v
ProxyExamples.v
SystemExamples.v
Server.v
Gateway.v
