(* ===== verification/Prelude.v ===== *)
(** * A gateway for language-model APIs, modelled and verified

    The repository is an HTTP gateway (Rust, four crates under src/crates): it accepts
    requests to [/v1/<namespace>/..], authenticates the caller by a gateway key, checks
    budgets and rate limits, answers from a cache or forwards to the providers of a
    route with retries and fallbacks, streams the answer back, and records usage, cost
    and a log.  An Admin API manages keys, users, prices and logs.  State lives in one
    of three sets of stores: in memory, SQLite, or PostgreSQL with Redis.

    ** How the files follow the code

    Foundations.  Prelude (results, panics, the state-and-panic monad [prog], clocks,
    hash maps with an unspecified order [HashOrder], machine integers), Text, Chars and
    Decimal (Rust's strings, characters and integer parsing on UTF-8 bytes), F64
    (binary64 by [SpecFloat]), F64Order (rounding keeps the order), Json
    ([serde_json::Value]), Serde (what a derived [Serialize] writes and a derived
    [Deserialize] reads), Codec (a concrete codec), HttpTypes (header maps, URLs).

    gateway-core.
    - Errors: error.rs of gateway-core, gateway-storage and gateway-api
    - Config: config.rs; ConfigSerde: its derived decoding, defaults included, and
      serialization
    - Retry, Executor: proxy/retry.rs, proxy/fallback.rs, proxy/executor.rs
    - Engine: proxy/engine.rs, providers/; LogBody also models proxy/stream.rs
    - Cache, Fingerprint: cache/policy.rs, cache/payload.rs, cache/fingerprint.rs
    - Pricing: pricing/calculator.rs, catalog.rs, openrouter.rs
    - Security: security/gateway_key.rs, master_key.rs, admin_auth.rs

    gateway-storage.
    - Models, Stores: models.rs, traits.rs (each trait is a class, what its clients rely
      on a class of laws: [KeyLaws], [CounterLaws], [BudgetLaws])
    - MemoryMeta, MemoryLog, MemoryKv, MemoryCounter: memory/mod.rs
    - Sql: tables, statements and failures of a SQL engine; SqliteMeta, SqliteKv,
      SqliteLog: sqlite/metadata.rs, kv.rs, logs.rs; SqlLog: the statements on
      [request_logs] both log stores share; PostgresMeta, PostgresLog:
      postgres/metadata.rs, logs.rs
    - Redis: redis/counter.rs, redis/kv.rs
    - Pools: opening each of them, sqlite/pool.rs, sqlite/mod.rs, postgres/mod.rs,
      redis/mod.rs

    gateway-api and gateway-bin.
    - Tokens: tokens.rs; RateLimit, RateWindows: ratelimit.rs; Budget, BudgetBlocks:
      budget.rs; Logging: logging.rs
    - Auth: auth.rs, routes/admin/keys.rs, routes/admin/auth.rs
    - LogBody, Streaming, Proxy: routes/proxy.rs (body logging; shared state and
      streaming task; request handler); Redaction: what body logging keeps, specified
    - AdminLogs: routes/admin/logs.rs, cost.rs, budgets.rs, routes_cfg.rs,
      routes/health.rs; AdminPricing: routes/admin/pricing.rs; AdminApi: the Admin routes
      of server.rs, over all of these; AdminBodies: their requests and answers as
      documents
    - Seeding: seed_keys.rs, reload.rs and the decisions of gateway-bin/src/main.rs;
      Startup: store and price selection of main.rs; Watcher: the notification thread and
      the debounce loop of reload.rs; Boot: main as a whole, up to serving
    - Server: server.rs (route table, extractors, endpoints, serve), metrics.rs,
      routes/metrics.rs
    - System: state.rs, with every entry point (proxied request, stream, last use, Admin
      API call, reload) as a step over the one [AppState]; Gateway: Boot, then whatever
      arrives at the Server
    - SqliteSeeding, SqliteRecompute, HotReload: components composed (start-up and cost
      recomputation on SQLite, hot reload with authentication)

    A struct is a Record, an enum an Inductive, a function a Definition or Fixpoint of
    the same name (with a prefix where two crates share one, as in [sqlite_get_key]).
    Pure code is a function; code with state takes the store and returns it; [Result] is
    [result], a panic is [Panic], and code that can do both lives in [prog].  Lists
    updated in place are passed on; machine integers are integers whose wrap-around is
    written out ([as_i64], [as_u32], ..).

    ** What the theorems show

    - The whole program (Gateway, SystemCorrect, SystemPrices, Server, Boot): through any
      sequence of entry points slots in use are those of the streams in flight and every
      request let in is logged once or in flight; a revoked key stays out; a blocked
      budget lets nothing upstream until its period ends (SystemBudgets, on BudgetBlocks
      and the monotone rounding of F64Order); the prices in force follow what is stored;
      whoever lacks a credential changes nothing, on whatever path; and what holds when
      start-up succeeds.  Revocation and PriceFrames say which operations leave an
      administrator's keys and the prices alone.
    - The request path (ProxyCorrect, Streaming, Liveness): nothing sent upstream without
      admission, replies and replays that are what the upstream sent, the cache written
      exactly when it may be, streams settled according to how they end, and an answer, and
      the end of its task with its work done, for every request whose upstream ends or
      fails; the log keeps no declared base64 payload (Redaction).
    - The provider chain (Executor) refines an abstract policy of retries and fallbacks.
    - Admission (RateLimit, RateWindows, Budget, Auth, Redis, RedisCorrect): slots in use
      and requests per minute never exceed the limit under any interleaving of the store
      operations, budgets announce each threshold once and block once spent, keys
      authenticate exactly while they are active; the limiter does on Redis what it does in memory (RedisRefine: a simulation
      of counter stores lifted through the limiter's code).
    - The Admin API (AdminApi): through any sequence of requests config-managed keys stay
      as they are, and without a token nothing changes.
    - Prices (Pricing, MemoryLog, AdminPricing, SqliteRecompute): costs at usable rates
      are never negative nor NaN, recomputation is billing in memory and reprices every record once on
      SQLite, overrides take effect at once and stay well-formed.
    - The SQL stores: the SQLite metadata store simulates the in-memory one on every
      operation and fails without effect (SqliteRefine), PostgreSQL agrees with SQLite on
      numbers (PostgresRefine); the log store stores what was appended, once, whatever the
      interleaving with its worker, and enumerates it by cursor (SqliteLogCorrect, LogPages, LogAggregate); the cache of
      two levels returns what was last written (SqliteKv).
    - What is configured (Config, ConfigSerde, Seeding, SqliteSeeding, HotReload): a file
      that loads gives a valid configuration within its types, which the Admin API serves
      so that it reads back; an omitted section is not its fields' defaults; validation
      accepts the well-formed configurations, seeding leaves exactly the declared keys, start-up
      on a new database succeeds exactly for keys of the default project, a reload
      decides who gets in, and the watcher publishes what the file holds once it is at
      rest, which it comes to (Watcher).
    - What goes wrong: theorems about the cases the code does not handle, such as a
      duplicate log id ([duplicate_loses_batch]), a payload no field name declares
      ([input_audio_kept]), a negative rate ([negative_rate_negative_cost]), a cursor PostgreSQL ignores
      ([pg_pages_repeat]), a negative Redis counter ([redis_negative_locks_out]), an
      entry the first cache level keeps beyond its time ([l1_outlives_ttl]).

    ** Parameters

    Code outside the repository is a class the definitions take: [HashOrder] (iteration
    order of hash maps, and of rows without [ORDER BY]), [SerdeJson] and [SerdeLaws],
    [HttpTypes], [Crypto], [Chrono], [SqlEngine] and [LogEngine] (error texts, SQL
    functions on dates, floating point and JSON), [Collation], [Moka], [Redis],
    [FileSystem], [SqliteDriver], [PgDriver], [RedisDriver], [Deserializer] (a parsed
    document: JSON is an instance, YAML's parser is not written), [Extractors] (axum's
    path matching, the documents its Query and Json extractors parse, its refusals), the
    Prometheus recorder, the HTTP client of Engine, bincode, zstd and blake3.  Clocks, random numbers and failures are
    streams, part of the state that is passed on.  Laws state documented behaviour, and
    each class has a concrete instance in the examples of the files that use it
    (ProxyExamples and SystemExamples for the request path and the whole system).

    A SQL statement is applied whole or fails whole.  A failure is either a violated
    constraint, which the model decides, or one of the engine's own, drawn from a stream
    ([Faults]) that statements which write advance; a read consults the stream without
    advancing it.  Values an engine refuses for a reason the schema does not state (a NUL
    byte in PostgreSQL text) count among its own failures.

    ** Bounds and fuel

    Recursion is structural on the data wherever the code loops over data.  Fuel occurs
    where it does not: Text ([dec_go]: one more than the binary digits, and a decimal
    digit takes more than three, Decimal proves the digits read back; [utf8_valid_go],
    [lossy_go]: the bytes, of which each turn drops at least one), LogBody ([write_all]:
    one more than the bytes, and each turn with room takes one), Executor
    ([attempt_loop]: the attempts the policy allows; [attempt_loop_fuel] shows that more
    changes nothing), RedisCorrect ([attempt_run]: the three commands of an acquisition)
    and LogPages ([follow]: one more than the matching rows, which [pages_enumerate]
    proves enough).  [channel] and [buf] of the log store stay within [CHANNEL_CAPACITY]
    and [BATCH_MAX_ROWS] ([log_invariant]).

    ** Concurrency

    The handlers are sequential functions on the stores.  Interleaving is modelled where
    it decides correctness: the operations of many requests on the counter store
    (RateLimit, [store_step]), the single commands of Redis acquisitions (RedisCorrect,
    [conc_step]), and the log store's worker against its clients (LogPages,
    [reachable]; SqliteLogCorrect, [serving]), the watcher's thread against its loop (Watcher, [watch_step]), and the
    tasks handlers leave running against whatever comes later (System, [sys_step]: a
    streaming task, a last-use task and a reload each run in one step, at any time).

    ** Not modelled, and why

    YAML's syntax and the wording of decoding errors, and environment lookup (serde_yaml
    and clap: parameters of Config, ConfigSerde and Seeding); Serde renders what the
    documentation of serde's derive and of its attributes says of struct fields, defaults,
    options, tags and renames, for formats that call its visitors; what axum, sqlx, the Redis client, reqwest, notify and the metrics exporter
    do inside (parameters: the repository's calls of them are modelled; an upstream that
    hangs is the HTTP client's to cut off), sockets, the
    shutdown signal and tracing; the interleaving of two requests inside their handlers,
    but for the counter store; the web interface (one HTML file).  A panic ends a request and is
    not observed further; log metrics are dropped. *)
From Stdlib Require Import ZArith Lia.
From stdpp Require Export prelude gmap strings list sorting pretty.

#[export] Set Default Goal Selector "!".
Open Scope Z_scope.

(** * Rust's [Result] *)

(** [std::result::Result<T, E>]. *)
Inductive result (T E : Type) : Type :=
| Ok (t : T)
| Err (e : E).
Arguments Ok {T E} _.
Arguments Err {T E} _.

(** A computation that either returns or panics (unwinds). *)
Inductive outcome (A : Type) : Type :=
| Ret (a : A)
| Panic.
Arguments Ret {A} _.
Arguments Panic {A}.

Create HintDb gateway.

Declare Scope gateway_scope.
Delimit Scope gateway_scope with gw.
Open Scope gateway_scope.

(** [let x = e?; k] *)
Notation "'let?' x ':=' e 'in' k" :=
  (match e with Ok x => k | Err err => Err err end)
  (at level 200, x pattern, e at level 100, k at level 200) : gateway_scope.

Definition result_map {A B E} (f : A → B) (r : result A E) : result B E :=
  match r with Ok a => Ok (f a) | Err e => Err e end.
Definition map_err {A E F} (f : E → F) (r : result A E) : result A F :=
  match r with Ok a => Ok a | Err e => Err (f e) end.
Definition result_ok {A E} (r : result A E) : option A :=
  match r with Ok a => Some a | Err _ => None end.
Definition ok_or {A E} (o : option A) (e : E) : result A E :=
  match o with Some a => Ok a | None => Err e end.
Definition unwrap_or {A E} (r : result A E) (d : A) : A :=
  match r with Ok a => a | Err _ => d end.
Definition is_ok {A E} (r : result A E) : bool :=
  match r with Ok _ => true | Err _ => false end.

(** [Option::or_else] with a pure alternative. *)
Definition or_else {A} (o o' : option A) : option A :=
  match o with Some a => Some a | None => o' end.
Definition opt_filter {A} (f : A → bool) (o : option A) : option A :=
  match o with Some a => if f a then Some a else None | None => None end.

(** [for x in l { f(x)?; }] *)
Fixpoint for_each {A E} (f : A → result unit E) (l : list A) : result unit E :=
  match l with
  | [] => Ok ()
  | x :: r => match f x with Ok _ => for_each f r | Err e => Err e end
  end.

(** [if c { return Err(e) }] *)
Definition guard_err {E} (c : bool) (e : E) : result unit E :=
  if c then Err e else Ok ().

Lemma for_each_Ok {A E} (f : A → result unit E) l :
  for_each f l = Ok () ↔ Forall (λ x, f x = Ok ()) l.
Proof.
  induction l as [|x l IH]; simpl; [by rewrite Forall_nil|].
  rewrite Forall_cons. destruct (f x) as [[]|]; [naive_solver|].
  split; [done|]. by intros [? _].
Qed.
Lemma guard_err_Ok {E} (c : bool) (e : E) : guard_err c e = Ok () ↔ c = false.
Proof. by destruct c. Qed.

Lemma result_ok_Some {A E} (r : result A E) a : result_ok r = Some a ↔ r = Ok a.
Proof. destruct r; naive_solver. Qed.
Lemma ok_or_Ok {A E} (o : option A) (e : E) a : ok_or o e = Ok a ↔ o = Some a.
Proof. destruct o; naive_solver. Qed.
Lemma or_else_Some {A} (o o' : option A) a :
  or_else o o' = Some a ↔ o = Some a ∨ (o = None ∧ o' = Some a).
Proof. destruct o; naive_solver. Qed.

(** * Stateful code that may panic *)

(** A computation over a state [S]; a panic unwinds through the callers. *)
Definition prog (S A : Type) : Type := S → outcome (A * S).

Definition prog_ret {S A} (a : A) : prog S A := λ s, Ret (a, s).
Definition prog_bind {S A B} (m : prog S A) (k : A → prog S B) : prog S B :=
  λ s, match m s with Ret (a, s) => k a s | Panic => Panic end.

(** [let x = m.await; k] *)
Notation "'let!' x ':=' m 'in' k" :=
  (prog_bind m (λ x, k))
  (at level 200, x pattern, m at level 100, k at level 200) : gateway_scope.

(** A computation that only returns, on the whole state or on a part of it. *)
Definition returning {S A} (f : S → A * S) : prog S A := λ s, Ret (f s).
Definition within {S T A} (part : S → T) (put : S → T → S) (m : prog T A) : prog S A :=
  λ s, match m (part s) with Ret (a, t) => Ret (a, put s t) | Panic => Panic end.
(** A value whose computation may panic. *)
Definition lifted {S A} (o : outcome A) : prog S A :=
  λ s, match o with Ret a => Ret (a, s) | Panic => Panic end.

(** [for x in l { f(x).await; }] *)
Fixpoint prog_for {S A} (f : A → prog S unit) (l : list A) : prog S unit :=
  match l with
  | [] => prog_ret ()
  | x :: r => let! _ := f x in prog_for f r
  end.

Section Inversion.
Context {S A : Type}.

Lemma prog_ret_Ret (a b : A) (s s' : S) : prog_ret a s = Ret (b, s') ↔ a = b ∧ s = s'.
Proof. unfold prog_ret. split; [by intros [= <- <-]|by intros [<- <-]]. Qed.
Lemma prog_bind_Ret {B} (m : prog S A) (k : A → prog S B) s b s' :
  prog_bind m k s = Ret (b, s') ↔
  ∃ a s1, m s = Ret (a, s1) ∧ k a s1 = Ret (b, s').
Proof.
  unfold prog_bind. destruct (m s) as [[a s1]|]; split; [intros Hk; by exists a, s1| |done|].
  - by intros (a' & s2 & [= <- <-] & Hk).
  - by intros (a' & s2 & ? & _).
Qed.
Lemma returning_Ret (f : S → A * S) s a s' : returning f s = Ret (a, s') ↔ f s = (a, s').
Proof. unfold returning. split; [by intros [= ->]|by intros ->]. Qed.
Lemma within_Ret {T} (part : S → T) put (m : prog T A) s a s' :
  within part put m s = Ret (a, s') ↔
  ∃ t, m (part s) = Ret (a, t) ∧ s' = put s t.
Proof.
  unfold within. destruct (m (part s)) as [[b t]|]; split; [intros [= <- <-]; by exists t| |done|].
  - by intros (t' & [= <- <-] & ->).
  - by intros (t' & ? & _).
Qed.
Lemma lifted_Ret (o : outcome A) (s : S) a s' :
  lifted o s = Ret (a, s') ↔ o = Ret a ∧ s = s'.
Proof.
  unfold lifted. destruct o as [b|]; split; [by intros [= <- <-]| |done|by intros [? _]].
  by intros [[= <-] <-].
Qed.
End Inversion.

(** Invert every completed run of the context into the runs of its parts. *)
Ltac prog_inv :=
  repeat match goal with
  | H : prog_ret _ _ = Ret _ |- _ =>
      apply prog_ret_Ret in H as [H <-];
      first [discriminate H
            | match type of H with
              | _ = ?b => is_var b; subst b
              | ?a = _ => is_var a; subst a
              | _ => idtac
              end]
  | H : prog_bind _ _ _ = Ret _ |- _ =>
      let a := fresh "a" in let s := fresh "s" in let H1 := fresh "Hrun" in
      apply prog_bind_Ret in H as (a & s & H1 & H)
  | H : lifted _ _ = Ret _ |- _ =>
      let H1 := fresh "Hlift" in apply lifted_Ret in H as [H1 <-]
  end.

(** ** Programs that move their state along a preorder *)

Definition moves {S A} (R : relation S) (m : prog S A) : Prop :=
  ∀ s a s', m s = Ret (a, s') → R s s'.

Section Moves.
Context {S : Type} (R : relation S) `{!PreOrder R}.

Lemma moves_ret {A} (a : A) : moves R (prog_ret a).
Proof. intros s b s' H. prog_inv. done. Qed.
Lemma moves_lifted {A} (o : outcome A) : moves R (lifted o).
Proof. intros s b s' H. prog_inv. done. Qed.
Lemma moves_bind {A B} (m : prog S A) (k : A → prog S B) :
  moves R m → (∀ a, moves R (k a)) → moves R (prog_bind m k).
Proof.
  intros Hm Hk s b s' H. prog_inv. etransitivity; [by eapply Hm|by eapply Hk].
Qed.
Lemma moves_returning {A} (f : S → A * S) : (∀ s, R s (f s).2) → moves R (returning f).
Proof. intros Hf s a s' H. apply returning_Ret in H. specialize (Hf s). by rewrite H in Hf. Qed.
Lemma moves_within {T A} (part : S → T) put (m : prog T A) (Q : relation T) :
  moves Q m → (∀ s t, Q (part s) t → R s (put s t)) → moves R (within part put m).
Proof.
  intros Hm Hput s a s' H. apply within_Ret in H as (t & Ht & ->).
  by eapply Hput, Hm.
Qed.
Lemma moves_for {A} (f : A → prog S unit) l : (∀ x, moves R (f x)) → moves R (prog_for f l).
Proof.
  intros Hf. induction l as [|x l IH]; [apply moves_ret|]. apply moves_bind; auto.
Qed.
End Moves.

(** [f] is left alone. *)
Definition same {S T} (f : S → T) : relation S := λ s s', f s' = f s.
#[export] Instance same_preorder {S T} (f : S → T) : PreOrder (same f).
Proof. split; [by intros s|]. intros s s1 s2. unfold same. congruence. Qed.

#[export] Hint Resolve moves_ret moves_lifted moves_bind moves_for : gateway.

(** ** Programs that never panic

    [total P m]: from every state that satisfies [P], [m] returns, in a state that
    satisfies [P]. *)
Definition total {S A} (P : S → Prop) (m : prog S A) : Prop :=
  ∀ s, P s → ∃ a s', m s = Ret (a, s') ∧ P s'.

Section Total.
Context {S : Type} (P : S → Prop).

Lemma total_run {A} (m : prog S A) s : total P m → P s → ∃ a s', m s = Ret (a, s').
Proof. intros Hm Hs. destruct (Hm s Hs) as (a & s' & Hr & _). by exists a, s'. Qed.
Lemma total_ret {A} (a : A) : total P (prog_ret a).
Proof. intros s Hs. by exists a, s. Qed.
Lemma total_lifted {A} (o : outcome A) a : o = Ret a → total P (lifted o).
Proof. intros -> s Hs. by exists a, s. Qed.
Lemma total_returning {A} (f : S → A * S) : (∀ s, P s → P (f s).2) → total P (returning f).
Proof.
  intros Hf s Hs. unfold returning. specialize (Hf s Hs). destruct (f s) as [a s'].
  by exists a, s'.
Qed.
Lemma total_within {T A} (Q : T → Prop) (part : S → T) put (m : prog T A) :
  total Q m → (∀ s, P s → Q (part s)) → (∀ s t, P s → Q t → P (put s t)) →
  total P (within part put m).
Proof.
  intros Hm Hpart Hput s Hs. unfold within.
  destruct (Hm (part s) (Hpart s Hs)) as (a & t & -> & Ht). exists a, (put s t). auto.
Qed.
Lemma total_bind {A B} (m : prog S A) (k : A → prog S B) :
  total P m → (∀ a, total P (k a)) → total P (prog_bind m k).
Proof.
  intros Hm Hk s Hs. unfold prog_bind. destruct (Hm s Hs) as (a & s1 & -> & Hs1).
  by apply Hk.
Qed.
Lemma total_bind_lifted {A B} (o : outcome A) a (k : A → prog S B) :
  o = Ret a → total P (k a) → total P (prog_bind (lifted o) k).
Proof. intros -> Hk s Hs. by apply Hk. Qed.
Lemma total_for {A} (f : A → prog S unit) l : (∀ x, total P (f x)) → total P (prog_for f l).
Proof.
  intros Hf. induction l as [|x l IH]; [apply total_ret|]. apply total_bind; auto.
Qed.
End Total.

#[export] Hint Resolve total_ret total_lifted total_returning total_within total_bind
  total_for : gateway.

(** A property that every turn of a loop keeps holds at its end. *)
Lemma prog_for_invariant {S A} (f : A → prog S unit) (P : S → Prop) l s :
  (∀ x s, x ∈ l → P s → ∃ s', f x s = Ret ((), s') ∧ P s') → P s →
  ∃ s', prog_for f l s = Ret ((), s') ∧ P s'.
Proof.
  revert s. induction l as [|x l IH]; intros s Hf Hs; simpl; [by eexists|].
  unfold prog_bind. destruct (Hf x s ltac:(by left) Hs) as (s1 & -> & Hs1).
  apply IH; [|done]. intros y s2 Hy. apply Hf. by right.
Qed.

(** The same when a turn may panic. *)
Lemma prog_for_keeps {S A} (f : A → prog S unit) (P : S → Prop) l s s' u :
  (∀ x s s' u, x ∈ l → P s → f x s = Ret (u, s') → P s') → P s →
  prog_for f l s = Ret (u, s') → P s'.
Proof.
  revert s. induction l as [|x l IH]; intros s Hf Hs; simpl.
  { unfold prog_ret. naive_solver. }
  unfold prog_bind. destruct (f x s) as [[v s1]|] eqn:Hx; [|done].
  apply IH; [|eapply Hf; [by left|done|done]].
  intros y s2 s3 u' Hy. apply Hf. by right.
Qed.

(** * Fixed-width integers (release profile: arithmetic wraps) *)

Definition u32_max : Z := 2 ^ 32 - 1.
Definition u64_max : Z := 2 ^ 64 - 1.
Definition i64_max : Z := 2 ^ 63 - 1.
Definition i64_min : Z := - 2 ^ 63.

(** Reinterpretation of an integer as [u64], [u32], [i64], [i32]. *)
Definition as_u64 (z : Z) : Z := z mod 2 ^ 64.
Definition as_u32 (z : Z) : Z := z mod 2 ^ 32.
Definition as_i64 (z : Z) : Z := (z + 2 ^ 63) mod 2 ^ 64 - 2 ^ 63.
Definition as_i32 (z : Z) : Z := (z + 2 ^ 31) mod 2 ^ 32 - 2 ^ 31.

(** [saturating_sub], [saturating_add], [saturating_mul] on unsigned values
    bounded by [m]. *)
Definition sat_sub (a b : Z) : Z := Z.max 0 (a - b).
Definition sat_add (m a b : Z) : Z := Z.min m (a + b).
Definition sat_mul (m a b : Z) : Z := Z.min m (a * b).

Definition in_i64 (z : Z) : Prop := i64_min ≤ z ≤ i64_max.
Definition in_u64 (z : Z) : Prop := 0 ≤ z ≤ u64_max.

Lemma as_i64_id z : in_i64 z → as_i64 z = z.
Proof.
  unfold in_i64, as_i64, i64_min, i64_max. intros.
  rewrite Z.mod_small; lia.
Qed.
Lemma as_u64_id z : in_u64 z → as_u64 z = z.
Proof. unfold in_u64, as_u64, u64_max. intros. rewrite Z.mod_small; lia. Qed.
Lemma as_u64_add_l a b : as_u64 (as_u64 a + b) = as_u64 (a + b).
Proof. apply Zplus_mod_idemp_l. Qed.
Lemma as_u64_idem z : as_u64 (as_u64 z) = as_u64 z.
Proof. apply Zmod_mod. Qed.
Lemma as_u64_neg z : i64_min ≤ z < 0 → as_u64 z = z + 2 ^ 64.
Proof.
  unfold as_u64, i64_min. intros.
  rewrite <- (Z.mod_add z 1), Z.mod_small by lia. lia.
Qed.
Lemma as_i64_add_l a b : as_i64 (as_i64 a + b) = as_i64 (a + b).
Proof.
  unfold as_i64.
  replace ((a + 2 ^ 63) mod 2 ^ 64 - 2 ^ 63 + b + 2 ^ 63)
    with ((a + 2 ^ 63) mod 2 ^ 64 + b) by lia.
  rewrite Zplus_mod_idemp_l. f_equal. f_equal. lia.
Qed.
Lemma as_i64_range z : in_i64 (as_i64 z).
Proof.
  unfold in_i64, as_i64, i64_min, i64_max.
  pose proof (Z.mod_pos_bound (z + 2 ^ 63) (2 ^ 64)). lia.
Qed.

Lemma as_i64_idem z : as_i64 (as_i64 z) = as_i64 z.
Proof. apply as_i64_id, as_i64_range. Qed.

(** Equal up to wrap-around at 64 bits. *)
Definition eq64 (a b : Z) : Prop := as_i64 a = as_i64 b.

#[export] Instance eq64_equiv : Equivalence eq64.
Proof.
  split; unfold eq64; [intros x|intros x y|intros x y z]; congruence.
Qed.
#[export] Instance eq64_add : Proper (eq64 ==> eq64 ==> eq64) Z.add.
Proof.
  intros a a' Ha b b' Hb. unfold eq64 in *.
  rewrite <- (as_i64_add_l a), Ha, as_i64_add_l.
  rewrite !(Z.add_comm a'), <- (as_i64_add_l b), Hb, as_i64_add_l. done.
Qed.
Lemma eq64_as_i64 z : eq64 (as_i64 z) z.
Proof. apply as_i64_idem. Qed.

(** * Clocks and iteration orders *)

(** The successive readings of a process clock: a state that reads the clock
    carries the readings still to come. *)
Definition Clock : Type := nat → Z.
Definition now (c : Clock) : Z := c 0%nat.
Definition tick (c : Clock) : Clock := λ n, c (S n).

(** The iteration order of a Rust [HashMap]: unspecified, but every entry comes
    up exactly once. *)
Class HashOrder : Type := {
  hash_iter : ∀ {K V : Type} `{Countable K}, gmap K V → list (K * V);
  hash_iter_perm : ∀ {K V : Type} `{Countable K} (m : gmap K V),
    hash_iter m ≡ₚ map_to_list m
}.

(** One such order, for evaluating examples. *)
Definition tree_order : HashOrder.
Proof. refine {| hash_iter K V _ _ m := map_to_list m |}. done. Defined.

Section HashOrder.
Context `{HashOrder} {K V : Type} `{Countable K}.

(** [HashMap::values]. *)
Definition hash_values (m : gmap K V) : list V := (hash_iter m).*2.

Lemma elem_of_hash_iter (m : gmap K V) k v : (k, v) ∈ hash_iter m ↔ m !! k = Some v.
Proof. rewrite hash_iter_perm. apply elem_of_map_to_list. Qed.

Lemma elem_of_hash_values (m : gmap K V) v :
  v ∈ hash_values m ↔ ∃ k, m !! k = Some v.
Proof.
  unfold hash_values. rewrite list_elem_of_fmap. split.
  - intros ([k v'] & -> & Hin). exists k. by apply elem_of_hash_iter.
  - intros [k Hk]. exists (k, v). split; [done|]. by apply elem_of_hash_iter.
Qed.

Lemma Forall_hash_iter (P : K * V → Prop) (m : gmap K V) :
  Forall P (hash_iter m) ↔ ∀ k v, m !! k = Some v → P (k, v).
Proof.
  rewrite Forall_forall. split.
  - intros HP k v Hk. by apply HP, elem_of_hash_iter.
  - intros HP [k v] Hin. by apply HP, elem_of_hash_iter.
Qed.

Lemma length_hash_iter (m : gmap K V) : length (hash_iter m) = size m.
Proof. rewrite hash_iter_perm. apply length_map_to_list. Qed.

Lemma NoDup_hash_iter (m : gmap K V) : NoDup (hash_iter m).*1.
Proof. rewrite hash_iter_perm. apply NoDup_fst_map_to_list. Qed.
End HashOrder.
