(* ===== verification/Text.v ===== *)
(** Rust's [str], [char] and byte-slice operations, on UTF-8 byte strings.

    A Rust [String]/[&str] is a [string] (its UTF-8 bytes); a [Bytes],
    [Vec<u8>] or [&[u8]] is a [list Byte.byte].  Everything here models the
    standard library the sources call: ASCII case folding, prefix and suffix
    tests, splitting, Unicode trimming, integer parsing, UTF-8 validation,
    lossy decoding and the panicking slice [&s[..n]]. *)
From Stdlib Require Import ZArith Lia Ascii String.
From stdpp Require Import prelude gmap strings list.
From S2P Require Import Prelude.
Open Scope Z_scope.

Abbreviation bytes := (list Byte.byte).

#[export] Instance byte_eq_decision : EqDecision Byte.byte := Byte.byte_eq_dec.

Definition byte_val (b : Byte.byte) : Z := Z.of_N (Byte.to_N b).
Definition ascii_val (a : ascii) : Z := Z.of_N (N_of_ascii a).
Definition blen {A} (l : list A) : Z := Z.of_nat (length l).
Definition slen (s : string) : Z := Z.of_nat (String.length s).

Definition str_bytes (s : string) : bytes := String.list_byte_of_string s.
Definition str_of_bytes (b : bytes) : string := String.string_of_list_byte b.

(** * ASCII case *)

Definition ascii_lower (a : ascii) : ascii :=
  let n := N_of_ascii a in
  if (65 <=? n)%N && (n <=? 90)%N then ascii_of_N (n + 32) else a.

(** [str::to_ascii_lowercase]. *)
Fixpoint to_ascii_lowercase (s : string) : string :=
  match s with
  | EmptyString => EmptyString
  | String a r => String (ascii_lower a) (to_ascii_lowercase r)
  end.

(** [str::eq_ignore_ascii_case]. *)
Definition eq_ignore_ascii_case (a b : string) : bool :=
  String.eqb (to_ascii_lowercase a) (to_ascii_lowercase b).

(** [u8::is_ascii_digit] and [u8::is_ascii_whitespace]. *)
Definition is_ascii_digit (a : ascii) : bool :=
  (48 <=? ascii_val a) && (ascii_val a <=? 57).
Definition is_ascii_whitespace (b : Byte.byte) : bool :=
  existsb (Z.eqb (byte_val b)) [32; 9; 10; 12; 13].

(** * Prefixes, suffixes, searching *)

(** [str::strip_prefix]. *)
Fixpoint strip_prefix (p s : string) : option string :=
  match p, s with
  | EmptyString, _ => Some s
  | String a p', String b s' =>
      if Ascii.eqb a b then strip_prefix p' s' else None
  | String _ _, EmptyString => None
  end.

(** [str::starts_with] and [str::ends_with]. *)
Definition starts_with (s p : string) : bool :=
  match strip_prefix p s with Some _ => true | None => false end.

Fixpoint ends_with (s suf : string) : bool :=
  String.eqb s suf ||
  match s with EmptyString => false | String _ r => ends_with r suf end.

(** [str::contains(c)] and [chars().all(f)] for an ASCII test. *)
Fixpoint contains_char (c : ascii) (s : string) : bool :=
  match s with
  | EmptyString => false
  | String a r => Ascii.eqb a c || contains_char c r
  end.

Fixpoint all_chars (f : ascii → bool) (s : string) : bool :=
  match s with
  | EmptyString => true
  | String a r => f a && all_chars f r
  end.

Definition str_is_empty (s : string) : bool :=
  match s with EmptyString => true | _ => false end.

(** * Splitting at an ASCII character *)

(** [str::split(c)]: never empty. *)
Fixpoint split (c : ascii) (s : string) : list string :=
  match s with
  | EmptyString => [EmptyString]
  | String a r =>
      if Ascii.eqb a c then EmptyString :: split c r
      else match split c r with
           | h :: t => String a h :: t
           | [] => [String a EmptyString]
           end
  end.

(** [str::split_once(c)]. *)
Fixpoint split_once (c : ascii) (s : string) : option (string * string) :=
  match s with
  | EmptyString => None
  | String a r =>
      if Ascii.eqb a c then Some (EmptyString, r)
      else match split_once c r with
           | Some (x, y) => Some (String a x, y)
           | None => None
           end
  end.

(** [str::rsplit_once(c)]. *)
Fixpoint rsplit_once (c : ascii) (s : string) : option (string * string) :=
  match s with
  | EmptyString => None
  | String a r =>
      match rsplit_once c r with
      | Some (x, y) => Some (String a x, y)
      | None => if Ascii.eqb a c then Some (EmptyString, r) else None
      end
  end.

(** [s.rsplit(c).next().unwrap()]: what follows the last [c]. *)
Definition rsplit_next (c : ascii) (s : string) : string :=
  match rsplit_once c s with Some (_, y) => y | None => s end.

(** [split] on a byte slice. *)
Fixpoint split_bytes (sep : Z) (bs : bytes) : list bytes :=
  match bs with
  | [] => [[]]
  | b :: r =>
      if byte_val b =? sep then [] :: split_bytes sep r
      else match split_bytes sep r with
           | h :: t => (b :: h) :: t
           | [] => [[b]]
           end
  end.

Fixpoint strip_prefix_bytes (p bs : bytes) : option bytes :=
  match p, bs with
  | [], _ => Some bs
  | a :: p', b :: bs' =>
      if Byte.eqb a b then strip_prefix_bytes p' bs' else None
  | _ :: _, [] => None
  end.

(** * Characters *)

Definition is_cont (a : ascii) : bool := Z.land (ascii_val a) 192 =? 128.

Definition starts_with_cont (s : string) : bool :=
  match s with String a _ => is_cont a | EmptyString => false end.

(** [str::chars], each character as its UTF-8 encoding: a byte that is not a
    continuation byte followed by the continuation bytes after it. *)
Fixpoint chars (s : string) : list string :=
  match s with
  | EmptyString => []
  | String a r =>
      match chars r with
      | c :: cs =>
          if starts_with_cont c then String a c :: cs
          else String a EmptyString :: c :: cs
      | [] => [String a EmptyString]
      end
  end.

Definition collect (cs : list string) : string := String.concat "" cs.

Definition bstr (l : list N) : string :=
  fold_right (λ n s, String (ascii_of_N n) s) EmptyString l.

(** The characters with Unicode property [White_Space]. *)
Definition white_space : list string :=
  map bstr
    ([[9]; [10]; [11]; [12]; [13]; [32]; [194; 133]; [194; 160];
      [225; 154; 128]; [226; 128; 168]; [226; 128; 169]; [226; 128; 175];
      [226; 129; 159]; [227; 128; 128]] ++
     map (λ n, [226; 128; n])
       [128; 129; 130; 131; 132; 133; 134; 135; 136; 137; 138])%N.

Definition is_whitespace (c : string) : bool := existsb (String.eqb c) white_space.

Fixpoint drop_while {A} (f : A → bool) (l : list A) : list A :=
  match l with
  | [] => []
  | x :: r => if f x then drop_while f r else l
  end.
Definition drop_while_end {A} (f : A → bool) (l : list A) : list A :=
  rev (drop_while f (rev l)).

(** [str::trim], [str::trim_start_matches(c)], [str::trim_end_matches(c)]. *)
Definition trim (s : string) : string :=
  collect (drop_while_end is_whitespace (drop_while is_whitespace (chars s))).
Fixpoint trim_start_matches (c : ascii) (s : string) : string :=
  match s with
  | EmptyString => EmptyString
  | String a r => if Ascii.eqb a c then trim_start_matches c r else s
  end.
Definition trim_end_matches (c : ascii) (s : string) : string :=
  String.string_of_list_ascii
    (drop_while_end (Ascii.eqb c) (String.list_ascii_of_string s)).

(** [str::split_whitespace]. *)
Fixpoint split_ws_go (acc : list string) (cs : list string) : list string :=
  match cs with
  | [] => match acc with [] => [] | _ => [collect (rev acc)] end
  | c :: r =>
      if is_whitespace c
      then match acc with
           | [] => split_ws_go [] r
           | _ => collect (rev acc) :: split_ws_go [] r
           end
      else split_ws_go (c :: acc) r
  end.
Definition split_whitespace (s : string) : list string := split_ws_go [] (chars s).

(** The last [n] characters, as
    [chars().rev().take(n).collect::<Vec<_>>().into_iter().rev().collect()]. *)
Definition last_chars (n : nat) (s : string) : string :=
  collect (rev (take n (rev (chars s)))).

(** * Parsing integers *)

Definition digit_val (a : ascii) : Z := ascii_val a - 48.

(** A non-empty run of ASCII digits, as an unbounded number. *)
Fixpoint parse_digits (acc : Z) (s : string) : option Z :=
  match s with
  | EmptyString => Some acc
  | String a r =>
      if is_ascii_digit a then parse_digits (10 * acc + digit_val a) r else None
  end.
Definition parse_nonempty (s : string) : option Z :=
  if str_is_empty s then None else parse_digits 0 s.

Definition slash : ascii := "/"%char.
Definition plus_sign : ascii := "+"%char.
Definition minus_sign : ascii := "-"%char.

(** [str::parse::<u64>], [str::parse::<i64>]: an optional sign, at least one
    digit, no overflow. *)
Definition parse_u64 (s : string) : option Z :=
  let body := match s with
              | String a r => if Ascii.eqb a plus_sign then r else s
              | EmptyString => s
              end in
  opt_filter (λ n, n <=? u64_max) (parse_nonempty body).
Definition parse_i64 (s : string) : option Z :=
  match s with
  | EmptyString => None
  | String a r =>
      if Ascii.eqb a minus_sign
      then opt_filter (λ n, i64_min <=? n) (Z.opp <$> parse_nonempty r)
      else opt_filter (λ n, n <=? i64_max)
             (parse_nonempty (if Ascii.eqb a plus_sign then r else s))
  end.

(** Decimal rendering ([ToString] of an integer). *)
Definition digit_str (n : Z) : string :=
  String (ascii_of_N (Z.to_N (48 + n))) EmptyString.
Fixpoint dec_go (fuel : nat) (n : Z) (acc : string) : string :=
  match fuel with
  | O => acc
  | S f =>
      let acc' := (digit_str (n mod 10) +:+ acc)%string in
      if n / 10 =? 0 then acc' else dec_go f (n / 10) acc'
  end.
(** Sixty-four binary digits hold at most twenty decimal ones; the fuel is the
    number of binary digits. *)
Definition dec_of (n : Z) : string :=
  if n <? 0
  then ("-" +:+ dec_go (S (Z.to_nat (Z.log2 (- n)))) (- n) "")%string
  else dec_go (S (Z.to_nat (Z.log2 n))) n "".

(** * UTF-8 *)

Definition in_range (lo hi : Z) (b : Byte.byte) : bool :=
  (lo <=? byte_val b) && (byte_val b <=? hi).
Definition cont_byte (b : Byte.byte) : bool := in_range 128 191 b.

(** The continuation ranges a leading byte announces ([None]: not a leading
    byte). *)
Definition utf8_tail (b : Byte.byte) : option (list (Byte.byte → bool)) :=
  let v := byte_val b in
  if v <=? 127 then Some []
  else if in_range 194 223 b then Some [cont_byte]
  else if v =? 224 then Some [in_range 160 191; cont_byte]
  else if v =? 237 then Some [in_range 128 159; cont_byte]
  else if in_range 225 239 b then Some [cont_byte; cont_byte]
  else if v =? 240 then Some [in_range 144 191; cont_byte; cont_byte]
  else if v =? 244 then Some [in_range 128 143; cont_byte; cont_byte]
  else if in_range 241 243 b then Some [cont_byte; cont_byte; cont_byte]
  else None.

(** How many bytes of [bs] satisfy the announced ranges, and whether all of
    them are there. *)
Fixpoint match_tail (ts : list (Byte.byte → bool)) (bs : bytes) : nat * bool :=
  match ts, bs with
  | [], _ => (0%nat, true)
  | t :: ts', b :: bs' =>
      if t b then let '(n, ok) := match_tail ts' bs' in (S n, ok)
      else (0%nat, false)
  | _ :: _, [] => (0%nat, false)
  end.

(** The length of the first character, or of the maximal invalid prefix. *)
Definition utf8_head (b : Byte.byte) (r : bytes) : nat * bool :=
  match utf8_tail b with
  | None => (1%nat, false)
  | Some ts => let '(n, ok) := match_tail ts r in (S n, ok)
  end.

Fixpoint utf8_valid_go (fuel : nat) (bs : bytes) : bool :=
  match fuel, bs with
  | _, [] => true
  | O, _ => false
  | S f, b :: r =>
      let '(n, ok) := utf8_head b r in
      ok && utf8_valid_go f (drop n bs)
  end.
Definition utf8_valid (bs : bytes) : bool := utf8_valid_go (length bs) bs.

(** [std::str::from_utf8]. *)
Definition from_utf8 (bs : bytes) : option string :=
  if utf8_valid bs then Some (str_of_bytes bs) else None.

(** U+FFFD. *)
Definition replacement : bytes := [Byte.xef; Byte.xbf; Byte.xbd].

Fixpoint lossy_go (fuel : nat) (bs : bytes) : bytes :=
  match fuel, bs with
  | _, [] => []
  | O, _ => []
  | S f, b :: r =>
      let '(n, ok) := utf8_head b r in
      (if ok then take n bs else replacement) ++ lossy_go f (drop n bs)
  end.
(** [String::from_utf8_lossy]. *)
Definition from_utf8_lossy (bs : bytes) : string :=
  str_of_bytes (lossy_go (length bs) bs).

(** [str::is_char_boundary] and the slice [&s[..n]], which panics when [n] is
    not one. *)
Definition is_char_boundary (s : string) (n : nat) : bool :=
  (n =? 0)%nat || (n =? String.length s)%nat ||
  match String.get n s with Some a => negb (is_cont a) | None => false end.
Definition slice_to (s : string) (n : nat) : outcome string :=
  if is_char_boundary s n then Ret (String.substring 0 n s) else Panic.
