(* ===== verification/Decimal.v ===== *)
(** Printing an [i64] and reading it back: [to_string] and [str::parse]. *)
From Stdlib Require Import ZArith Lia Bool Ascii String.
From stdpp Require Import prelude strings list.
From S2P Require Import Prelude Text.
Open Scope Z_scope.

(** * Concatenation *)

Lemma str_app_cons a s t : (String a s +:+ t = String a (s +:+ t))%string.
Proof. done. Qed.
Lemma str_app_nil s : ("" +:+ s = s)%string.
Proof. done. Qed.
Lemma str_app_nil_r s : (s +:+ "" = s)%string.
Proof. induction s as [|a s IH]; [done|]. by rewrite str_app_cons, IH. Qed.
Lemma str_app_assoc s t u : (s +:+ (t +:+ u) = (s +:+ t) +:+ u)%string.
Proof. induction s as [|a s IH]; [done|]. by rewrite !str_app_cons, IH. Qed.
Lemma slen_app s t : slen (s +:+ t) = slen s + slen t.
Proof.
  unfold slen. induction s as [|a s IH]; [done|]. rewrite str_app_cons. cbn [String.length].
  lia.
Qed.

Lemma all_chars_app f s t : all_chars f (s +:+ t) = all_chars f s && all_chars f t.
Proof.
  induction s as [|a s IH]; [done|]. rewrite str_app_cons. cbn [all_chars].
  by rewrite IH, andb_assoc.
Qed.

(** * One digit *)

Definition digit (n : Z) : ascii := ascii_of_N (Z.to_N (48 + n)).

Lemma digit_ascii_val n : 0 ≤ n < 10 → ascii_val (digit n) = 48 + n.
Proof.
  intros Hn. unfold ascii_val, digit. rewrite N_ascii_embedding by lia. lia.
Qed.

Lemma digit_is_digit n : 0 ≤ n < 10 → is_ascii_digit (digit n) = true.
Proof. intros Hn. unfold is_ascii_digit. rewrite digit_ascii_val by done. lia. Qed.

Lemma digit_not n c : 0 ≤ n < 10 → is_ascii_digit c = false → digit n ≠ c.
Proof. intros Hn Hc <-. by rewrite digit_is_digit in Hc. Qed.

(** * Runs of digits *)

Lemma parse_digits_cons acc n s :
  0 ≤ n < 10 → parse_digits acc (String (digit n) s) = parse_digits (10 * acc + n) s.
Proof.
  intros Hn. cbn [parse_digits]. rewrite digit_is_digit by done.
  unfold digit_val. rewrite digit_ascii_val by done. f_equal. lia.
Qed.

(** With enough fuel the digits of [n] come out in front of [acc], the first one
    first. *)
Lemma dec_go_spec fuel n acc :
  0 ≤ n < 10 ^ Z.of_nat fuel → (0 < fuel)%nat →
  ∃ ds, dec_go fuel n acc = (ds +:+ acc)%string ∧
    all_chars is_ascii_digit ds = true ∧ ds ≠ ""%string ∧
    ∀ k s, parse_digits k (ds +:+ s) = parse_digits (k * 10 ^ slen ds + n) s.
Proof.
  revert n acc. induction fuel as [|fuel IH]; intros n acc Hn Hf; [lia|].
  cbn [dec_go]. assert (Hm : 0 ≤ n mod 10 < 10) by (apply Z.mod_pos_bound; lia).
  change (digit_str (n mod 10)) with (String (digit (n mod 10)) "").
  destruct (Z.eqb_spec (n / 10) 0) as [H0|H0].
  - exists (String (digit (n mod 10)) ""). split; [done|]. split_and!; [|done|].
    + cbn [all_chars]. by rewrite digit_is_digit.
    + intros k s. rewrite str_app_cons, str_app_nil, parse_digits_cons by done. f_equal.
      pose proof (Z.div_mod n 10). change (slen _) with 1. lia.
  - assert (Hq : 0 ≤ n / 10 < 10 ^ Z.of_nat fuel).
    { split; [apply Z.div_pos; lia|]. apply Z.div_lt_upper_bound; [lia|].
      rewrite Nat2Z.inj_succ, Z.pow_succ_r in Hn by lia. lia. }
    assert (Hf' : (0 < fuel)%nat).
    { destruct fuel; [|lia]. simpl in Hq. lia. }
    destruct (IH (n / 10) (String (digit (n mod 10)) acc) Hq Hf')
      as (ds & Hds & Hall & Hne & Hp).
    exists (ds +:+ String (digit (n mod 10)) "")%string. split; [|split_and!].
    + by rewrite str_app_cons, str_app_nil, Hds, <- str_app_assoc.
    + rewrite all_chars_app, Hall. cbn [all_chars]. by rewrite digit_is_digit.
    + by destruct ds.
    + intros k s. rewrite <- str_app_assoc, Hp, str_app_cons, str_app_nil, parse_digits_cons by done. f_equal.
      rewrite slen_app, Z.pow_add_r by (unfold slen; lia).
      change (10 ^ slen (String _ "")) with 10. pose proof (Z.div_mod n 10). lia.
Qed.

Lemma dec_fuel n : 0 ≤ n → n < 10 ^ Z.of_nat (S (Z.to_nat (Z.log2 n))).
Proof.
  intros Hn. rewrite Nat2Z.inj_succ, Z2Nat.id by apply Z.log2_nonneg.
  destruct (Z.eq_dec n 0) as [->|Hne]; [done|].
  apply Z.lt_le_trans with (2 ^ Z.succ (Z.log2 n)); [apply Z.log2_spec; lia|].
  apply Z.pow_le_mono_l. lia.
Qed.

(** The digits of a natural number. *)
Lemma dec_go_nat n :
  0 ≤ n → ∃ ds, dec_go (S (Z.to_nat (Z.log2 n))) n "" = ds ∧
    all_chars is_ascii_digit ds = true ∧ ds ≠ ""%string ∧ parse_nonempty ds = Some n.
Proof.
  intros Hn. destruct (dec_go_spec (S (Z.to_nat (Z.log2 n))) n "")
    as (ds & Hds & Hall & Hne & Hp); [split; [done|by apply dec_fuel]|lia|].
  rewrite str_app_nil_r in Hds. exists ds. split_and!; try done.
  unfold parse_nonempty. destruct (str_is_empty ds) eqn:He; [by destruct ds|].
  specialize (Hp 0 ""%string). rewrite str_app_nil_r in Hp. rewrite Hp. done.
Qed.

(** * The round trip *)

Lemma parse_dec_of n : in_i64 n → parse_i64 (dec_of n) = Some n.
Proof.
  intros [Hlo Hhi]. unfold dec_of. destruct (Z.ltb_spec n 0) as [Hneg|Hpos].
  - destruct (dec_go_nat (- n)) as (ds & -> & _ & _ & Hp); [lia|].
    change ("-" +:+ ds)%string with (String minus_sign ds). unfold parse_i64.
    rewrite Ascii.eqb_refl, Hp. cbn [fmap option_fmap option_map].
    rewrite Z.opp_involutive. unfold opt_filter.
    by rewrite (proj2 (Z.leb_le _ _) Hlo).
  - destruct (dec_go_nat n) as (ds & -> & Hall & Hne & Hp); [lia|].
    destruct ds as [|c ds]; [done|]. unfold parse_i64.
    assert (Hc : is_ascii_digit c = true) by (cbn [all_chars] in Hall; apply andb_true_iff in Hall; tauto).
    destruct (Ascii.eqb_spec c minus_sign) as [->|_]; [done|].
    destruct (Ascii.eqb_spec c plus_sign) as [->|_]; [done|].
    rewrite Hp. unfold opt_filter. by rewrite (proj2 (Z.leb_le _ _) Hhi).
Qed.

Lemma all_chars_no_char f c s :
  f c = false → all_chars f s = true → contains_char c s = false.
Proof.
  intros Hf. induction s as [|a s IH]; [done|]. cbn. intros [Ha Hs]%andb_true_iff.
  rewrite IH by done. destruct (Ascii.eqb_spec a c) as [->|]; [congruence|done].
Qed.

(** No character other than a digit and the sign. *)
Lemma dec_of_chars n c :
  is_ascii_digit c = false → c ≠ minus_sign → contains_char c (dec_of n) = false.
Proof.
  intros Hc Hm. unfold dec_of. destruct (Z.ltb_spec n 0).
  - destruct (dec_go_nat (- n)) as (ds & -> & Hall & _); [lia|].
    change ("-" +:+ ds)%string with (String minus_sign ds). cbn [contains_char].
    rewrite (all_chars_no_char _ _ _ Hc Hall).
    destruct (Ascii.eqb_spec minus_sign c) as [<-|_]; done.
  - destruct (dec_go_nat n) as (ds & -> & Hall & _); [lia|].
    exact (all_chars_no_char _ _ _ Hc Hall).
Qed.

Lemma split_once_app c s t :
  contains_char c s = false → split_once c (s +:+ String c t) = Some (s, t).
Proof.
  induction s as [|a s IH]; intros Hs.
  - rewrite str_app_nil. cbn [split_once]. by rewrite Ascii.eqb_refl.
  - rewrite str_app_cons. cbn [split_once contains_char] in *.
    apply orb_false_iff in Hs as [-> Hs]. by rewrite IH.
Qed.
