(* ===== verification/Chars.v ===== *)
(** Counting the characters of concatenations and of cut texts. *)
From Stdlib Require Import ZArith Lia Bool Ascii String.
From stdpp Require Import prelude strings list.
From S2P Require Import Prelude Text Decimal.
Open Scope Z_scope.

(** The first character starts with the first byte. *)
Lemma chars_first a s : ∃ c cs, chars (String a s) = String a c :: cs.
Proof.
  cbn [chars]. destruct (chars s) as [|c cs]; [by eexists _, _|].
  destruct (starts_with_cont c); by eexists _, _.
Qed.

(** A byte starts a character of its own unless a continuation byte follows. *)
Lemma length_chars_cons a b s :
  length (chars (String a (String b s))) =
  ((if is_cont b then 0 else 1) + length (chars (String b s)))%nat.
Proof.
  destruct (chars_first b s) as (c & cs & Hc).
  change (chars (String a (String b s))) with
    (match chars (String b s) with
     | c :: cs => if starts_with_cont c then String a c :: cs else String a "" :: c :: cs
     | [] => [String a ""]
     end).
  rewrite Hc. cbn [starts_with_cont]. by destruct (is_cont b).
Qed.

Lemma length_chars_app s t :
  (length (chars (s +:+ t)) ≤ length (chars s) + length (chars t))%nat.
Proof.
  induction s as [|a s IH]; [rewrite str_app_nil; cbn; lia|]. rewrite str_app_cons.
  destruct s as [|b s].
  - rewrite str_app_nil. destruct t as [|b t]; [cbn; lia|].
    rewrite length_chars_cons. change (length (chars (String a ""))) with 1%nat.
    destruct (is_cont b); lia.
  - rewrite str_app_cons in IH |- *. rewrite !length_chars_cons. lia.
Qed.

Lemma chars_nonempty s : s ≠ ""%string → (0 < length (chars s))%nat.
Proof. destruct s as [|a s]; [done|]. destruct (chars_first a s) as (c & cs & ->). cbn. lia. Qed.

(** A character is one character. *)
Lemma chars_single s : Forall (λ c, length (chars c) ≤ 1)%nat (chars s).
Proof.
  induction s as [|a s IH]; [constructor|]. cbn [chars].
  destruct (chars s) as [|c cs]; [repeat constructor|].
  apply Forall_cons in IH as [Hc Hcs]. destruct (starts_with_cont c) eqn:Hs.
  - constructor; [|done]. destruct c as [|b c]; [done|]. cbn [starts_with_cont] in Hs.
    rewrite length_chars_cons, Hs. exact Hc.
  - constructor; [done|]. by constructor.
Qed.

Lemma collect_cons c cs : collect (c :: cs) = (c +:+ collect cs)%string.
Proof.
  unfold collect. cbn [String.concat]. destruct cs as [|d cs]; [by rewrite str_app_nil_r|].
  by rewrite str_app_nil.
Qed.

(** Putting characters together makes at most as many. *)
Lemma length_chars_collect cs :
  Forall (λ c, length (chars c) ≤ 1)%nat cs → (length (chars (collect cs)) ≤ length cs)%nat.
Proof.
  induction 1 as [|c cs Hc _ IH]; [done|]. rewrite collect_cons.
  pose proof (length_chars_app c (collect cs)). cbn [length]. lia.
Qed.

Lemma length_chars_take n s : (length (chars (collect (take n (chars s)))) ≤ n)%nat.
Proof.
  etransitivity; [apply length_chars_collect, Forall_take, chars_single|].
  rewrite length_take. lia.
Qed.

Lemma length_chars_drop n s :
  (length (chars (collect (drop n (chars s)))) ≤ length (chars s) - n)%nat.
Proof.
  etransitivity; [apply length_chars_collect, Forall_drop, chars_single|].
  by rewrite length_drop.
Qed.
