(* ===== verification/F64.v ===== *)
(** Rust's [f64]: IEEE-754 binary64 by the Standard Library's [SpecFloat].

    [f64] is [spec_float] at precision 53 and maximal exponent 1024; every
    operation is correctly rounded (ties to even), as the hardware's.  Besides
    the arithmetic the file models [f64::round], [f64::is_finite], the
    saturating casts [as u32]/[as u64], the conversions from integers, decimal
    literals and [str::parse::<f64>], and proves that non-negativity and
    finiteness are preserved by the operations the price computation uses. *)
From Stdlib Require Import ZArith Lia Ascii String SpecFloat.
From stdpp Require Import prelude strings list.
From S2P Require Import Prelude Text.
Open Scope Z_scope.

Abbreviation f64 := spec_float.
Definition prec64 : Z := 53.
Definition emax64 : Z := 1024.

Definition f64_add : f64 → f64 → f64 := SFadd prec64 emax64.
Definition f64_sub : f64 → f64 → f64 := SFsub prec64 emax64.
Definition f64_mul : f64 → f64 → f64 := SFmul prec64 emax64.
Definition f64_div : f64 → f64 → f64 := SFdiv prec64 emax64.
(** [a < b], [a <= b], [a == b]: false when either is NaN. *)
Definition f64_ltb : f64 → f64 → bool := SFltb.
Definition f64_leb : f64 → f64 → bool := SFleb.
Definition f64_eqb : f64 → f64 → bool := SFeqb.

Declare Scope f64_scope.
Delimit Scope f64_scope with f64.
Infix "+" := f64_add : f64_scope.
Infix "*" := f64_mul : f64_scope.
Infix "/" := f64_div : f64_scope.
Infix "<=?" := f64_leb : f64_scope.
Infix "<?" := f64_ltb : f64_scope.
Infix "=?" := f64_eqb : f64_scope.

(** [z as f64] for an integer. *)
Definition f64_of_Z (z : Z) : f64 := binary_normalize prec64 emax64 z 0 false.

(** The double nearest to [± m · 10^e]; beyond the range of doubles the powers
    are not computed. *)
Definition f64_of_dec (neg : bool) (m e : Z) : f64 :=
  match m with
  | Zpos p =>
      if 400 <? e then S754_infinity neg
      else if Z.log2 m + e <? -800 then S754_zero neg
      else if 0 <=? e then
        match m * 10 ^ e with
        | Zpos q => binary_round prec64 emax64 neg q 0
        | _ => S754_zero neg
        end
      else
        let '(q, e', l) := SFdiv_core_binary prec64 emax64 m 0 (10 ^ (- e)) 0 in
        binary_round_aux prec64 emax64 neg q e' l
  | _ => S754_zero neg
  end.

Definition f64_zero : f64 := S754_zero false.
Definition f64_one : f64 := f64_of_Z 1.

(** [f64::is_finite]. *)
Definition is_finite (x : f64) : bool :=
  match x with S754_zero _ | S754_finite _ _ _ => true | _ => false end.

Definition is_nan (x : f64) : bool :=
  match x with S754_nan => true | _ => false end.

(** [f64::round]: half away from zero. *)
Definition f64_round (x : f64) : f64 :=
  match x with
  | S754_finite s m e =>
      if 0 <=? e then x
      else
        let d := 2 ^ (- e) in
        let q := Z.pos m / d in
        let q' := if d <=? 2 * (Z.pos m mod d) then q + 1 else q in
        match q' with
        | Zpos p => binary_round prec64 emax64 s p 0
        | _ => S754_zero s
        end
  | _ => x
  end.

(** Truncation toward zero of a finite value. *)
Definition f64_trunc (x : f64) : Z :=
  match x with
  | S754_finite s m e =>
      let a := if 0 <=? e then Z.pos m * 2 ^ e else Z.pos m / 2 ^ (- e) in
      if s then - a else a
  | _ => 0
  end.

(** [x as u32], [x as u64]: truncate, saturate, NaN to 0. *)
Definition f64_as_unsigned (max : Z) (x : f64) : Z :=
  match x with
  | S754_infinity false => max
  | S754_finite false _ _ => Z.min max (f64_trunc x)
  | _ => 0
  end.
Definition f64_as_u32 : f64 → Z := f64_as_unsigned u32_max.
Definition f64_as_u64 : f64 → Z := f64_as_unsigned u64_max.

(** * [str::parse::<f64>] *)

Fixpoint span_digits (s : string) : string * string :=
  match s with
  | String a r =>
      if is_ascii_digit a
      then let '(d, t) := span_digits r in (String a d, t)
      else (EmptyString, s)
  | EmptyString => (EmptyString, EmptyString)
  end.

Definition parse_exponent (s : string) : option Z :=
  match s with
  | EmptyString => Some 0
  | String a r =>
      if Ascii.eqb (ascii_lower a) "e"%char then
        match r with
        | String c t =>
            if Ascii.eqb c minus_sign then Z.opp <$> parse_nonempty t
            else parse_nonempty (if Ascii.eqb c plus_sign then t else r)
        | EmptyString => None
        end
      else None
  end.

Definition parse_decimal (neg : bool) (s : string) : option f64 :=
  let '(ip, r) := span_digits s in
  let '(fp, r') :=
    match r with
    | String a t => if Ascii.eqb a "."%char then span_digits t else ("", r)%string
    | EmptyString => (""%string, r)
    end in
  if str_is_empty ip && str_is_empty fp then None
  else
    m ← parse_digits 0 (ip +:+ fp)%string;
    e ← parse_exponent r';
    Some (f64_of_dec neg m (e - slen fp)).

Definition parse_f64 (s : string) : option f64 :=
  let '(neg, body) :=
    match s with
    | String a r =>
        if Ascii.eqb a minus_sign then (true, r)
        else if Ascii.eqb a plus_sign then (false, r) else (false, s)
    | EmptyString => (false, s)
    end in
  let l := to_ascii_lowercase body in
  if String.eqb l "inf" || String.eqb l "infinity" then Some (S754_infinity neg)
  else if String.eqb l "nan" then Some S754_nan
  else parse_decimal neg body.

(** * Sign and NaN preservation *)

(** Neither NaN nor negative ([-0.0] counts as zero). *)
Definition ge0 (x : f64) : bool :=
  match x with
  | S754_zero _ | S754_finite false _ _ | S754_infinity false => true
  | _ => false
  end.

(** Positive and finite, not zero. *)
Definition pos_finite (x : f64) : bool :=
  match x with S754_finite false _ _ => true | _ => false end.

Lemma ge0_leb x : ge0 x = true ↔ f64_leb f64_zero x = true.
Proof. by destruct x as [[]|[]| |[] ? ?]. Qed.

Lemma shr_1_nonneg r : 0 ≤ shr_m r → 0 ≤ shr_m (shr_1 r).
Proof. by destruct r as [[|[]|[]] ? ?]. Qed.

Lemma iter_shr_1_nonneg n r :
  0 ≤ shr_m r → 0 ≤ shr_m (SpecFloat.iter_pos shr_1 n r).
Proof.
  revert r. induction n as [n IH|n IH|]; intros r Hr; simpl;
    auto using shr_1_nonneg.
Qed.

Lemma shr_fexp_nonneg m e l :
  0 ≤ m → 0 ≤ shr_m (fst (shr_fexp prec64 emax64 m e l)).
Proof.
  intros Hm. unfold shr_fexp, shr.
  assert (Hl : 0 ≤ shr_m (shr_record_of_loc m l)) by (by destruct l as [|[]]).
  destruct (fexp _ _ _ - e); simpl; auto using iter_shr_1_nonneg.
Qed.

Lemma round_nearest_even_nonneg m l : 0 ≤ m → 0 ≤ round_nearest_even m l.
Proof. intros. destruct l as [|[]]; simpl; try case_match; lia. Qed.

Lemma binary_round_aux_ge0 m e l :
  0 ≤ m → ge0 (binary_round_aux prec64 emax64 false m e l) = true.
Proof.
  intros Hm. unfold binary_round_aux.
  destruct (shr_fexp prec64 emax64 m e l) as [r1 e1] eqn:H1.
  assert (Hr1 : 0 ≤ shr_m r1)
    by (pose proof (shr_fexp_nonneg m e l Hm) as H; by rewrite H1 in H).
  pose proof (round_nearest_even_nonneg _ (loc_of_shr_record r1) Hr1) as Hr.
  destruct (shr_fexp prec64 emax64 (round_nearest_even _ _) e1 _) as [r2 e2] eqn:H2.
  pose proof (shr_fexp_nonneg _ e1 loc_Exact Hr) as Hr2. rewrite H2 in Hr2.
  simpl in Hr2. destruct (shr_m r2); [done|by case_match|lia].
Qed.

Lemma binary_round_ge0 p e :
  ge0 (binary_round prec64 emax64 false p e) = true.
Proof.
  unfold binary_round. destruct (shl_align _ _ _).
  by apply binary_round_aux_ge0.
Qed.

Lemma f64_of_Z_ge0 z : 0 ≤ z → ge0 (f64_of_Z z) = true.
Proof.
  intros. unfold f64_of_Z, binary_normalize.
  destruct z; [done|apply binary_round_ge0|lia].
Qed.

(** Sums of non-negative values: no cancellation, hence no NaN. *)
Lemma f64_add_ge0 x y : ge0 x = true → ge0 y = true → ge0 (f64_add x y) = true.
Proof.
  unfold f64_add.
  destruct x as [[]|[]| |[] mx ex], y as [[]|[]| |[] my ey]; try done.
  intros _ _. cbv beta iota delta [SFadd cond_Zopp].
  destruct (shl_align mx ex (Z.min ex ey)) as [a ?], (shl_align my ey (Z.min ex ey)) as [b ?].
  cbv beta iota zeta delta [fst]. rewrite <- Pos2Z.inj_add.
  unfold binary_normalize. apply binary_round_ge0.
Qed.

(** A product of non-negative values is non-negative unless it is [0 · ∞]. *)
Lemma f64_mul_ge0 x y :
  ge0 x = true → ge0 y = true →
  (is_finite x && is_finite y) || pos_finite y = true →
  ge0 (f64_mul x y) = true.
Proof.
  unfold f64_mul.
  destruct x as [[]|[]| |[] mx ex], y as [[]|[]| |[] my ey]; try done.
  intros _ _ _. by apply binary_round_aux_ge0.
Qed.

Lemma f64_div_ge0 x y :
  ge0 x = true → pos_finite y = true → ge0 (f64_div x y) = true.
Proof.
  unfold f64_div.
  destruct x as [[]|[]| |[] mx ex], y as [[]|[]| |[] my ey]; try done.
  intros _ _. cbv beta iota delta [SFdiv].
  destruct (SFdiv_core_binary _ _ _ _ _ _) as [[q e'] l] eqn:Hc.
  apply binary_round_aux_ge0. revert Hc. unfold SFdiv_core_binary.
  set (e0 := Z.min _ _). set (s := ex - ey - e0).
  destruct (Z.div_eucl _ _) as [q' r'] eqn:Hq. intros [= <- _ _].
  match type of Hq with Z.div_eucl ?a ?b = _ =>
    change (q', r') with (q', r'); assert (Hd : a / b = q')
      by (unfold Z.div; by rewrite Hq)
  end.
  rewrite <- Hd. apply Z.div_pos; [|lia].
  destruct s; [lia| |lia]. apply Z.shiftl_nonneg. lia.
Qed.

Lemma f64_round_ge0 x : ge0 x = true → ge0 (f64_round x) = true.
Proof.
  destruct x as [[]|[]| |[] m e]; try done. intros _. unfold f64_round.
  case_match; [done|]. cbv zeta.
  repeat case_match; done || apply binary_round_ge0.
Qed.

#[export] Hint Resolve f64_add_ge0 f64_round_ge0 f64_of_Z_ge0 : gateway.

(** ** Integers up to 64 bits convert to finite values *)

Lemma digits2_pos_bounds p : 2 ^ (Z.pos (digits2_pos p) - 1) ≤ Z.pos p < 2 ^ Z.pos (digits2_pos p).
Proof.
  induction p as [p IH|p IH|]; cbn [digits2_pos]; [| |done];
    rewrite Pos2Z.inj_succ;
    replace (Z.succ (Z.pos (digits2_pos p)) - 1)
      with (Z.succ (Z.pos (digits2_pos p) - 1)) by lia;
    rewrite !Z.pow_succ_r by lia; lia.
Qed.

Lemma Zdigits2_le m n : 0 ≤ n → 0 ≤ m < 2 ^ n → Zdigits2 m ≤ n.
Proof.
  intros Hn Hm. destruct m as [|p|p]; [done| |lia]. cbn [Zdigits2].
  pose proof (digits2_pos_bounds p) as [Hp _].
  assert (Z.pos (digits2_pos p) - 1 < n); [|lia].
  apply (Z.pow_lt_mono_r_iff 2); lia.
Qed.

Lemma shr_1_le r : 0 ≤ shr_m r → shr_m (shr_1 r) ≤ shr_m r.
Proof. destruct r as [[|[]|[]] ? ?]; simpl; lia. Qed.

Lemma iter_shr_1_le n r :
  0 ≤ shr_m r → shr_m (SpecFloat.iter_pos shr_1 n r) ≤ shr_m r.
Proof.
  revert r. induction n as [n IH|n IH|]; intros r Hr; simpl; [| |by apply shr_1_le].
  - pose proof (shr_1_nonneg r Hr). pose proof (shr_1_le r Hr).
    pose proof (iter_shr_1_nonneg n _ H). pose proof (IH _ H).
    pose proof (IH _ H1). lia.
  - pose proof (iter_shr_1_nonneg n r Hr). pose proof (IH _ Hr).
    pose proof (IH _ H). lia.
Qed.

(** Shifting right never grows the mantissa, and raises the exponent no further
    than the precision asks. *)
Lemma shr_fexp_le m e l d :
  0 ≤ d → 0 ≤ m < 2 ^ d →
  let r := shr_fexp prec64 emax64 m e l in
  shr_m r.1 ≤ m ∧ r.2 ≤ Z.max (Z.max e (-1074)) (d + e - 53).
Proof.
  intros Hd Hm. pose proof (Zdigits2_le m d Hd Hm) as Hdig.
  unfold shr_fexp, shr, fexp, emin, prec64, emax64.
  assert (Hl : shr_m (shr_record_of_loc m l) = m) by (by destruct l as [|[]]).
  destruct (Z.max _ _ - e) as [|p|p] eqn:Hn; simpl; rewrite ?Hl; [lia| |lia].
  pose proof (iter_shr_1_le p (shr_record_of_loc m l)) as Hi. rewrite Hl in Hi. lia.
Qed.

Lemma binary_round_aux_finite s m e l :
  0 ≤ m < 2 ^ 64 → e ≤ 0 → is_finite (binary_round_aux prec64 emax64 s m e l) = true.
Proof.
  intros Hm He. unfold binary_round_aux.
  pose proof (shr_fexp_le m e l 64 ltac:(lia) Hm) as [Hr1 He1].
  pose proof (shr_fexp_nonneg m e l (proj1 Hm)) as Hp1.
  destruct (shr_fexp prec64 emax64 m e l) as [r1 e1]. simpl in *.
  pose proof (round_nearest_even_nonneg _ (loc_of_shr_record r1) Hp1) as Hn.
  assert (Hle : round_nearest_even (shr_m r1) (loc_of_shr_record r1) ≤ shr_m r1 + 1).
  { unfold round_nearest_even. destruct (loc_of_shr_record r1) as [|[]];
      try case_match; lia. }
  set (m2 := round_nearest_even _ _) in *.
  pose proof (shr_fexp_le m2 e1 loc_Exact 65 ltac:(lia) ltac:(lia)) as [_ He2].
  pose proof (shr_fexp_nonneg m2 e1 loc_Exact Hn) as Hp2.
  destruct (shr_fexp prec64 emax64 m2 e1 loc_Exact) as [r2 e2]. simpl in *.
  destruct (shr_m r2); [done| |lia].
  rewrite (proj2 (Z.leb_le _ _)); [done|]. unfold emax64, prec64. lia.
Qed.

Lemma iter_xO n p : Z.pos (Pos.iter xO p n) = Z.pos p * 2 ^ Z.pos n.
Proof.
  induction n as [|n IH] using Pos.peano_ind; [simpl; lia|].
  rewrite Pos.iter_succ, Pos2Z.inj_xO, IH, Pos2Z.inj_succ, Z.pow_succ_r; lia.
Qed.

Lemma f64_of_Z_finite z : Z.abs z < 2 ^ 64 → is_finite (f64_of_Z z) = true.
Proof.
  intros Hz. unfold f64_of_Z, binary_normalize.
  assert (H : ∀ s p, Z.pos p < 2 ^ 64 →
    is_finite (binary_round prec64 emax64 s p 0) = true).
  2: { destruct z; [done|apply H; lia|apply H; lia]. }
  intros s p Hp. unfold binary_round, shl_align, fexp, emin, prec64, emax64.
  pose proof (digits2_pos_bounds p) as [_ Hd].
  destruct (Z.max _ _ - 0) as [|d|d] eqn:Hn; [apply binary_round_aux_finite; lia..|].
  apply binary_round_aux_finite; [|lia]. rewrite iter_xO.
  assert (Z.pos d = 53 - Z.pos (digits2_pos p)) as -> by lia.
  split; [lia|].
  apply (Z.lt_trans _ (2 ^ Z.pos (digits2_pos p) * 2 ^ (53 - Z.pos (digits2_pos p)))).
  - apply Z.mul_lt_mono_pos_r; lia.
  - rewrite <- Z.pow_add_r by lia. apply Z.pow_lt_mono_r; lia.
Qed.
