(* ===== verification/F64Order.v ===== *)
(** The order of rounded results.  Rounding to nearest is monotone, hence so are, on
    non-negative doubles, the addition of a double and the division by one: a sum is at
    least each of its terms, and a larger dividend has a larger quotient.

    A result is compared through the rational it approximates: [located] says where a
    quotient [n / d], scaled by [2^4096], lies with respect to a mantissa and an exponent.
    A double is [valid], as every value of the type is, when its mantissa is normalised. *)
From Stdlib Require Import ZArith Lia SpecFloat.
From stdpp Require Import prelude.
From S2P Require Import Prelude F64.
Open Scope Z_scope.

Definition valid (x : f64) : bool := valid_binary prec64 emax64 x.
Abbreviation fx := (fexp prec64 emax64).

Lemma fx_eq e : fx e = Z.max (e - 53) (-1074).
Proof. done. Qed.

(** * Weights *)

(** [2^e], as an integer. *)
Definition weight (e : Z) : Z := 2 ^ (e + 4096).

Lemma weight_pos e : -4096 ≤ e → 0 < weight e.
Proof. intros. apply Z.pow_pos_nonneg; lia. Qed.

Lemma weight_split e f : -4096 ≤ e → e ≤ f → weight f = 2 ^ (f - e) * weight e.
Proof.
  intros. unfold weight. rewrite <- Z.pow_add_r by lia. f_equal. lia.
Qed.

Lemma weight_succ e : -4096 ≤ e → weight (e + 1) = 2 * weight e.
Proof. intros. rewrite (weight_split e (e + 1)) by lia. by replace (e + 1 - e) with 1 by lia. Qed.

Lemma weight_le e f : -4096 ≤ e → e ≤ f → weight e ≤ weight f.
Proof. intros. apply Z.pow_le_mono_r; lia. Qed.

Lemma weight_lt_inv e f : -4096 ≤ e → -4096 ≤ f → weight e < weight f → e < f.
Proof. intros. apply (Z.pow_lt_mono_r_iff 2) in H1; lia. Qed.

(** * Digits *)

Lemma Zdigits2_nonneg m : 0 ≤ m → 0 ≤ Zdigits2 m.
Proof. by destruct m. Qed.

Lemma Zdigits2_bounds m : 0 < m → 0 < Zdigits2 m ∧ 2 ^ (Zdigits2 m - 1) ≤ m < 2 ^ Zdigits2 m.
Proof.
  destruct m as [|p|p]; try lia. intros _. split; [done|]. apply digits2_pos_bounds.
Qed.

Lemma Zdigits2_ge m n : 0 ≤ n → 2 ^ n ≤ m → n + 1 ≤ Zdigits2 m.
Proof.
  intros Hn Hm. assert (0 < m) as Hp by (pose proof (Z.pow_pos_nonneg 2 n); lia).
  destruct (Zdigits2_bounds m Hp) as (H0 & _ & Hlt).
  assert (n < Zdigits2 m); [|lia]. apply (Z.pow_lt_mono_r_iff 2); lia.
Qed.

(** * Where a quotient lies *)

(** What a location says of a remainder [r] below [u]. *)
Definition remains (u r : Z) (l : location) : Prop :=
  0 ≤ r < u ∧
  match l with loc_Exact => r = 0 | loc_Inexact c => 0 < r ∧ (2 * r ?= u) = c end.

Definition located (n d m e : Z) (l : location) : Prop :=
  0 < d ∧ -4096 ≤ e ∧ 0 ≤ m ∧
  ∃ r, n = m * (weight e * d) + r ∧ remains (weight e * d) r l.

Definition recorded (n d : Z) (mrs : shr_record) (e : Z) : Prop :=
  located n d (shr_m mrs) e (loc_of_shr_record mrs).

(** Dropping a bit of the mantissa, clear or set. *)
Lemma remains_even u r m m' rb sb :
  remains u r (loc_of_shr_record {| shr_m := m; shr_r := rb; shr_s := sb |}) →
  remains (2 * u) r (loc_of_shr_record {| shr_m := m'; shr_r := false; shr_s := rb || sb |}).
Proof.
  intros [Hr Hl]. split; [lia|].
  destruct rb, sb; cbn [orb loc_of_shr_record] in *; [..|done]; (split; [lia|]); apply Z.compare_lt_iff; lia.
Qed.
Lemma remains_odd u r m m' rb sb :
  remains u r (loc_of_shr_record {| shr_m := m; shr_r := rb; shr_s := sb |}) →
  remains (2 * u) (u + r)
    (loc_of_shr_record {| shr_m := m'; shr_r := true; shr_s := rb || sb |}).
Proof.
  intros [Hr Hl]. split; [lia|].
  destruct rb, sb; cbn [orb loc_of_shr_record] in *; (split; [lia|]);
    first [apply Z.compare_gt_iff; lia|apply Z.compare_eq_iff; lia].
Qed.

Lemma shr_1_recorded n d mrs e : recorded n d mrs e → recorded n d (shr_1 mrs) (e + 1).
Proof.
  intros (Hd & He & Hm & r & Hn & Hr).
  unfold recorded, located. rewrite weight_succ by done.
  set (u := weight e * d) in *. replace (2 * weight e * d) with (2 * u) by (unfold u; ring).
  destruct mrs as [m rb sb]. cbn [shr_m] in Hm, Hn.
  destruct m as [|[p|p|]|p]; [| | | |lia]; cbn [shr_1 shr_m];
    (split; [done|]; split; [lia|]; split; [lia|]).
  - exists r. split; [lia|]. by eapply remains_even, Hr.
  - exists (u + r). split; [lia|]. by eapply remains_odd, Hr.
  - exists r. split; [lia|]. by eapply remains_even, Hr.
  - exists (u + r). split; [lia|]. by eapply remains_odd, Hr.
Qed.

Lemma iter_shr_1_recorded k n d mrs e :
  recorded n d mrs e → recorded n d (SpecFloat.iter_pos shr_1 k mrs) (e + Z.pos k).
Proof.
  revert mrs e. induction k as [k IH|k IH|]; intros mrs e Hr; simpl.
  - replace (e + Z.pos k~1) with (e + 1 + Z.pos k + Z.pos k) by lia.
    by apply IH, IH, shr_1_recorded.
  - replace (e + Z.pos k~0) with (e + Z.pos k + Z.pos k) by lia. by apply IH, IH.
  - by apply shr_1_recorded.
Qed.

Lemma recorded_of_loc n d m e l :
  located n d m e l → recorded n d (shr_record_of_loc m l) e.
Proof. unfold recorded. by destruct l as [|[]]. Qed.

(** Shifting to the precision loses no information on where the quotient lies. *)
Lemma shr_fexp_located n d m e l :
  located n d m e l →
  let r := shr_fexp prec64 emax64 m e l in
  recorded n d r.1 r.2 ∧ r.2 = Z.max e (fx (Zdigits2 m + e)).
Proof.
  intros Hl. unfold shr_fexp, shr.
  destruct (fx (Zdigits2 m + e) - e) as [|p|p] eqn:Hp; cbn [fst snd].
  - split; [by apply recorded_of_loc|lia].
  - split; [by apply iter_shr_1_recorded, recorded_of_loc|lia].
  - split; [by apply recorded_of_loc|lia].
Qed.

(** The exponent of the quotient, and where it lies between powers of two. *)
Definition magnitude (m e : Z) : Z := Zdigits2 m + e.

Lemma located_upper n d m e l : located n d m e l → n < (m + 1) * (weight e * d).
Proof. intros (_ & _ & _ & r & -> & Hr & _). lia. Qed.
Lemma located_lower n d m e l : located n d m e l → m * (weight e * d) ≤ n.
Proof. intros (_ & _ & _ & r & -> & Hr & _). lia. Qed.

Lemma located_magnitude n d m e l :
  located n d m e l → 0 < m →
  weight (magnitude m e - 1) * d ≤ n < weight (magnitude m e) * d.
Proof.
  intros Hl Hm. pose proof (located_upper _ _ _ _ _ Hl). pose proof (located_lower _ _ _ _ _ Hl).
  destruct Hl as (Hd & He & _). destruct (Zdigits2_bounds m Hm) as (Hp & Hb1 & Hb2).
  pose proof (weight_pos e He) as Hw. unfold magnitude.
  rewrite (weight_split e (Zdigits2 m + e - 1)), (weight_split e (Zdigits2 m + e)) by lia.
  replace (Zdigits2 m + e - 1 - e) with (Zdigits2 m - 1) by lia.
  replace (Zdigits2 m + e - e) with (Zdigits2 m) by lia.
  assert (0 < weight e * d) by nia. nia.
Qed.

(** The mantissa after rounding, and the exponent it is at. *)
Definition rounded (m e : Z) (l : location) : Z * Z :=
  let r := shr_fexp prec64 emax64 m e l in
  (round_nearest_even (shr_m r.1) (loc_of_shr_record r.1), r.2).

Lemma rounded_located n d m e l :
  located n d m e l → e ≤ fx (magnitude m e) →
  let e1 := fx (magnitude m e) in
  ∃ m1 l1, located n d m1 e1 l1 ∧ rounded m e l = (round_nearest_even m1 l1, e1) ∧
    m1 < 2 ^ 53 ∧ (-1074 < e1 → 0 < m ∧ 2 ^ 52 ≤ m1).
Proof.
  intros Hl He e1. destruct (shr_fexp_located n d m e l Hl) as [Hr Hx].
  fold (magnitude m e) in Hx. rewrite Z.max_r in Hx by done. fold e1 in Hx. unfold rounded.
  destruct (shr_fexp prec64 emax64 m e l) as [mrs e']. cbn [fst snd] in *. subst e'.
  exists (shr_m mrs), (loc_of_shr_record mrs). split; [exact Hr|]. split; [done|].
  pose proof (located_lower _ _ _ _ _ Hr) as Hlow. pose proof (located_upper _ _ _ _ _ Hr) as Hup.
  assert (0 < d ∧ -4096 ≤ e ∧ 0 ≤ m) as (Hd & He0 & Hm) by (destruct Hl; tauto).
  assert (e1 = Z.max (magnitude m e - 53) (-1074)) as He1 by apply fx_eq.
  pose proof (weight_pos e1 ltac:(lia)) as Hw. rewrite fx_eq in He.
  destruct (Z.eq_dec m 0) as [->|Hne].
  - unfold magnitude in *. cbn [Zdigits2] in *. assert (e1 = -1074) as -> by lia.
    pose proof (located_upper _ _ _ _ _ Hl) as Hu0.
    pose proof (weight_le e (-1074) ltac:(lia) ltac:(lia)). split; [|lia].
    assert (n < weight (-1074) * d) by nia.
    assert (shr_m mrs < 1) by (apply (Z.mul_lt_mono_pos_r (weight (-1074) * d)); nia). lia.
  - destruct (located_magnitude _ _ _ _ _ Hl ltac:(lia)) as [Hb1 Hb2].
    assert (0 < magnitude m e - e) by (unfold magnitude; pose proof (Zdigits2_bounds m ltac:(lia)); lia).
    split.
    + assert (weight (magnitude m e) ≤ 2 ^ 53 * weight e1).
      { replace (2 ^ 53) with (2 ^ (53 + e1 - e1)) by (f_equal; lia).
        rewrite <- weight_split by lia. apply weight_le; lia. }
      apply (Z.mul_lt_mono_pos_r (weight e1 * d)); nia.
    + intros Hgt. split; [lia|].
      assert (weight (magnitude m e - 1) = 2 ^ 52 * weight e1) as Hwm.
      { rewrite (weight_split e1 (magnitude m e - 1)) by lia. do 2 f_equal. lia. }
      rewrite Hwm in Hb1.
      assert (2 ^ 52 < shr_m mrs + 1); [|lia].
      apply (Z.mul_lt_mono_pos_r (weight e1 * d)); nia.
Qed.

Lemma rne_bounds m l : m ≤ round_nearest_even m l ≤ m + 1.
Proof. destruct l as [|[]]; simpl; try case_match; lia. Qed.

Lemma remains_scale u r l k : 0 < k → remains u r l → remains (u * k) (r * k) l.
Proof.
  intros Hk [Hr Hl]. split; [nia|]. destruct l as [|c]; [nia|]. split; [nia|].
  destruct Hl as [_ <-]. symmetry. replace (2 * (r * k)) with (2 * r * k) by ring.
  apply Zmult_compare_compat_r. lia.
Qed.

Lemma remains_mono u r r' l l' m :
  remains u r l → remains u r' l' → r ≤ r' → round_nearest_even m l ≤ round_nearest_even m l'.
Proof.
  intros [Hr Hl] [Hr' Hl'] Hle.
  destruct l as [|[]], l' as [|[]]; cbn [round_nearest_even];
    repeat match goal with Hc : _ ∧ _ |- _ => destruct Hc end;
    repeat match goal with
      | Hc : (_ ?= _) = Lt |- _ => apply (proj1 (Z.compare_lt_iff _ _)) in Hc
      | Hc : (_ ?= _) = Eq |- _ => apply (proj1 (Z.compare_eq_iff _ _)) in Hc
      | Hc : (_ ?= _) = Gt |- _ => apply (proj1 (Z.compare_gt_iff _ _)) in Hc
    end; try lia; case_match; lia.
Qed.

(** Rounding at one exponent keeps the order. *)
Lemma rne_mono n d n' d' m m' e l l' :
  located n d m e l → located n' d' m' e l' → n * d' ≤ n' * d →
  round_nearest_even m l ≤ round_nearest_even m' l'.
Proof.
  intros Hl Hl' Hle. pose proof (rne_bounds m l). pose proof (rne_bounds m' l').
  pose proof (located_lower _ _ _ _ _ Hl). pose proof (located_upper _ _ _ _ _ Hl').
  destruct Hl as (Hd & He & Hm & r & Hn & Hr), Hl' as (Hd' & _ & Hm' & r' & Hn' & Hr').
  pose proof (weight_pos e He) as Hw. pose proof (proj1 Hr). pose proof (proj1 Hr').
  destruct (Z.lt_trichotomy m m') as [Hlt|[<-|Hgt]]; [lia| |].
  2: { exfalso. assert (m < m' + 1); [|lia].
       apply (Z.mul_lt_mono_pos_r (weight e * d * d')); nia. }
  apply (remains_mono (weight e * d * d') (r * d') (r' * d)); [by apply remains_scale| |nia].
  replace (weight e * d * d') with (weight e * d' * d) by ring. by apply remains_scale.
Qed.

(** Rounding to nearest is monotone. *)
Lemma rounded_mono n d m e l n' d' m' e' l' :
  located n d m e l → e ≤ fx (magnitude m e) →
  located n' d' m' e' l' → e' ≤ fx (magnitude m' e') →
  n * d' ≤ n' * d →
  (rounded m e l).1 * weight (rounded m e l).2 ≤ (rounded m' e' l').1 * weight (rounded m' e' l').2.
Proof.
  intros Hl He Hl' He' Hle.
  destruct (rounded_located _ _ _ _ _ Hl He) as (m1 & l1 & Hl1 & -> & Hm1 & Hn1).
  destruct (rounded_located _ _ _ _ _ Hl' He') as (m1' & l1' & Hl1' & -> & Hm1' & Hn1').
  cbn [fst snd]. pose proof (fx_eq (magnitude m e)) as Hx. pose proof (fx_eq (magnitude m' e')) as Hx'.
  set (e1 := fx (magnitude m e)) in *. set (e1' := fx (magnitude m' e')) in *.
  pose proof (weight_pos e1 ltac:(lia)) as Hw. pose proof (weight_pos e1' ltac:(lia)) as Hw'.
  pose proof (rne_bounds m1 l1). pose proof (rne_bounds m1' l1').
  destruct (Z.lt_trichotomy e1 e1') as [Hlt|[Heq|Hgt]].
  - destruct (Hn1' ltac:(lia)) as [_ Hlow].
    rewrite (weight_split e1 e1') by lia.
    assert (2 ^ 1 ≤ 2 ^ (e1' - e1)) by (apply Z.pow_le_mono_r; lia).
    set (f := 2 ^ (e1' - e1)) in *.
    assert (round_nearest_even m1 l1 ≤ round_nearest_even m1' l1' * f) by nia. nia.
  - rewrite <- Heq in *. apply Z.mul_le_mono_nonneg_r; [lia|]. by eapply rne_mono.
  - exfalso. destruct (Hn1 ltac:(lia)) as [Hm _].
    destruct (located_magnitude _ _ _ _ _ Hl Hm) as [Hb _].
    assert (0 < d ∧ 0 < d' ∧ -4096 ≤ e ∧ -4096 ≤ e' ∧ 0 ≤ m') as (Hd & Hd' & He0 & He0' & Hm0)
      by (destruct Hl as (? & ? & ? & _), Hl' as (? & ? & ? & _); tauto).
    destruct (Z.eq_dec m' 0) as [->|Hne].
    + assert (n' < weight (-1074) * d') as Hn'.
      { pose proof (located_upper _ _ _ _ _ Hl'). unfold magnitude in *. cbn [Zdigits2] in *.
        pose proof (weight_le e' (-1074) ltac:(lia) ltac:(lia)). nia. }
      assert (weight (magnitude m e - 1) < weight (-1074)) as Hc.
      { apply (Z.mul_lt_mono_pos_r (d * d')); nia. }
      apply weight_lt_inv in Hc; lia.
    + destruct (located_magnitude _ _ _ _ _ Hl' ltac:(lia)) as [_ Hb'].
      assert (0 < magnitude m' e' - e') by (unfold magnitude; pose proof (Zdigits2_bounds m' ltac:(lia)); lia).
      assert (weight (magnitude m e - 1) < weight (magnitude m' e')) as Hc.
      { apply (Z.mul_lt_mono_pos_r (d * d')); nia. }
      apply weight_lt_inv in Hc; lia.
Qed.

(** * Results *)

(** The scaled value of a non-negative double; none for infinity. *)
Definition fval (x : f64) : option Z :=
  match x with
  | S754_zero _ => Some 0
  | S754_finite false m e => Some (Z.pos m * weight e)
  | _ => None
  end.

Definition top_le (x y : option Z) : Prop :=
  match x, y with
  | _, None => True
  | None, Some _ => False
  | Some a, Some b => a ≤ b
  end.

Lemma valid_finite s m e :
  valid (S754_finite s m e) = true ↔
  e = fx (magnitude (Z.pos m) e) ∧ e ≤ 971.
Proof.
  unfold valid, valid_binary, bounded, canonical_mantissa, magnitude. cbn [Zdigits2].
  rewrite andb_true_iff, Z.eqb_eq, Z.leb_le. split; intros [? ?]; (split; [lia|]); done.
Qed.

(** A normalised mantissa has at most 53 bits, and all of them above the least exponent. *)
Lemma valid_mantissa s m e :
  valid (S754_finite s m e) = true →
  -1074 ≤ e ≤ 971 ∧ Z.pos m < 2 ^ 53 ∧ (-1074 < e → 2 ^ 52 ≤ Z.pos m).
Proof.
  intros [He Hmax]%valid_finite. rewrite fx_eq in He. unfold magnitude in He.
  destruct (Zdigits2_bounds (Z.pos m)) as (Hd & Hlo & Hhi); [lia|].
  split; [lia|]. split.
  - eapply Z.lt_le_trans; [exact Hhi|]. apply Z.pow_le_mono_r; lia.
  - intros Hgt. etrans; [|exact Hlo]. apply Z.pow_le_mono_r; lia.
Qed.

Lemma fval_below x v : valid x = true → fval x = Some v → 0 ≤ v < weight 1024.
Proof.
  destruct x as [s|s| |[] m e]; try done; [intros _ [= <-]; split; [done|by apply weight_pos]|].
  intros (He & Hm & _)%valid_mantissa [= <-]. pose proof (weight_pos e ltac:(lia)).
  split; [lia|]. rewrite (weight_split e 1024) by lia.
  assert (2 ^ 53 ≤ 2 ^ (1024 - e)) by (apply Z.pow_le_mono_r; lia). nia.
Qed.

(** Non-negative doubles are ordered as their values. *)
Lemma leb_fval x y :
  valid x = true → valid y = true → ge0 x = true → ge0 y = true →
  (f64_leb x y = true ↔ top_le (fval x) (fval y)).
Proof.
  destruct x as [s|[]| |[] m e], y as [s'|[]| |[] m' e']; try done; intros Hx Hy _ _; simpl.
  - split; [|done]. intros _. pose proof (fval_below _ _ Hy eq_refl). lia.
  - split; [done|]. intros Hle. exfalso. apply valid_mantissa in Hx as (He & _).
    pose proof (weight_pos e ltac:(lia)). nia.
  - apply valid_mantissa in Hx as (He & Hm & Hn), Hy as (He' & Hm' & Hn').
    pose proof (weight_pos e ltac:(lia)) as Hw. pose proof (weight_pos e' ltac:(lia)) as Hw'.
    unfold f64_leb, SFleb. cbn [SFcompare].
    destruct (Z.compare_spec e e') as [->|Hlt|Hgt].
    + change (Pos.compare_cont Eq m m') with (m ?= m')%positive.
      destruct (Pos.compare_spec m m') as [->|Hm1|Hm1]; (split; [|done || nia]); try done; nia.
    + split; [|done]. intros _. specialize (Hn' ltac:(lia)).
      rewrite (weight_split e e') by lia.
      assert (2 ^ 1 ≤ 2 ^ (e' - e)) by (apply Z.pow_le_mono_r; lia).
      set (f := 2 ^ (e' - e)) in *. assert (Z.pos m ≤ Z.pos m' * f) by nia. nia.
    + split; [done|]. intros Hle. exfalso. specialize (Hn ltac:(lia)).
      rewrite (weight_split e' e) in Hle by lia.
      assert (2 ^ 1 ≤ 2 ^ (e - e')) by (apply Z.pow_le_mono_r; lia).
      set (f := 2 ^ (e - e')) in *. assert (Z.pos m' < Z.pos m * f) by nia. nia.
Qed.

(** A rounded mantissa is normalised again when it has grown by a bit. *)
Lemma renormalise m e :
  0 ≤ m ≤ 2 ^ 53 → -1074 ≤ e → (-1074 < e → 2 ^ 52 ≤ m) →
  ∃ m' e', shr_fexp prec64 emax64 m e loc_Exact = ({| shr_m := m'; shr_r := false; shr_s := false |}, e') ∧
    m' * weight e' = m * weight e ∧ 0 ≤ m' < 2 ^ 53 ∧ -1074 ≤ e' ∧ (-1074 < e' → 2 ^ 52 ≤ m').
Proof.
  intros Hm He Hn. destruct (Z.eq_dec m (2 ^ 53)) as [->|Hne].
  - exists (2 ^ 52), (e + 1). split; [|split; [rewrite weight_succ by lia; lia|lia]].
    unfold shr_fexp, shr. rewrite fx_eq. change (Zdigits2 (2 ^ 53)) with 54.
    replace (Z.max (54 + e - 53) (-1074) - e) with 1 by lia. done.
  - exists m, e. split; [|split; [done|lia]]. unfold shr_fexp, shr. rewrite fx_eq.
    pose proof (Zdigits2_le m 53 ltac:(lia) ltac:(lia)).
    destruct (Z.max (Zdigits2 m + e - 53) (-1074) - e) eqn:Hz; [done|lia|done].
Qed.

(** What [binary_round_aux] returns: the rounded mantissa at its exponent, or infinity. *)
Lemma binary_round_aux_fval n d m e l :
  located n d m e l → e ≤ fx (magnitude m e) →
  let v := (rounded m e l).1 * weight (rounded m e l).2 in
  let r := binary_round_aux prec64 emax64 false m e l in
  valid r = true ∧ fval r = if v <? weight 1024 then Some v else None.
Proof.
  intros Hl He v r. destruct (rounded_located _ _ _ _ _ Hl He) as (m1 & l1 & Hl1 & Hr1 & Hm1 & Hn1).
  pose proof (fx_eq (magnitude m e)) as Hx. set (e1 := fx (magnitude m e)) in *.
  pose proof (rne_bounds m1 l1) as Hb. assert (0 ≤ m1) by (destruct Hl1; tauto).
  destruct (renormalise (round_nearest_even m1 l1) e1) as (m3 & e3 & Hs & Hv & Hm3 & He3 & Hn3);
    [lia|lia|lia|].
  assert (Hr : r = match m3 with
    | Z0 => S754_zero false
    | Z.pos p => if e3 <=? 971 then S754_finite false p e3 else S754_infinity false
    | _ => S754_nan end).
  { unfold r, binary_round_aux. revert Hr1. unfold rounded.
    destruct (shr_fexp prec64 emax64 m e l) as [mrs e']. cbn [fst snd]. intros [= Hq ->].
    rewrite Hq, Hs. done. }
  assert (v = m3 * weight e3) as -> by (unfold v; rewrite Hr1; cbn [fst snd]; lia).
  clear Hr1 Hs Hv. pose proof (weight_pos e3 ltac:(lia)) as Hw. rewrite Hr.
  destruct m3 as [|p|p]; [|..|lia].
  { split; [done|]. by rewrite (proj2 (Z.ltb_lt _ _)) by by apply weight_pos. }
  destruct (Z.leb_spec e3 971) as [Hle|Hgt].
  - assert (valid (S754_finite false p e3) = true) as Hvalid.
    { apply valid_finite. split; [|done]. rewrite fx_eq. unfold magnitude.
      destruct (Zdigits2_bounds (Z.pos p)) as (Hd & Hlo & Hhi); [lia|].
      pose proof (Zdigits2_le (Z.pos p) 53 ltac:(lia) ltac:(lia)).
      destruct (Z.eq_dec e3 (-1074)) as [->|]; [lia|].
      pose proof (Zdigits2_ge (Z.pos p) 52 ltac:(lia) ltac:(lia)). lia. }
    split; [done|]. cbn [fval].
    rewrite (proj2 (Z.ltb_lt _ _)); [done|]. by apply (fval_below _ _ Hvalid).
  - split; [done|]. rewrite (proj2 (Z.ltb_ge _ _)); [done|]. specialize (Hn3 ltac:(lia)).
    etrans; [apply (weight_le 1024 (52 + e3)); lia|].
    rewrite (weight_split e3 (52 + e3)) by lia. replace (52 + e3 - e3) with 52 by lia. nia.
Qed.

(** The results of two roundings are in the order of what is rounded. *)
Lemma binary_round_aux_mono n d m e l n' d' m' e' l' :
  located n d m e l → e ≤ fx (magnitude m e) →
  located n' d' m' e' l' → e' ≤ fx (magnitude m' e') → n * d' ≤ n' * d →
  f64_leb (binary_round_aux prec64 emax64 false m e l)
          (binary_round_aux prec64 emax64 false m' e' l') = true.
Proof.
  intros Hl He Hl' He' Hle. pose proof (rounded_mono _ _ _ _ _ _ _ _ _ _ Hl He Hl' He' Hle) as Hm.
  destruct (binary_round_aux_fval _ _ _ _ _ Hl He) as [Hv Hf].
  destruct (binary_round_aux_fval _ _ _ _ _ Hl' He') as [Hv' Hf'].
  apply leb_fval; [done..| | |].
  - apply binary_round_aux_ge0. by destruct Hl as (_ & _ & ? & _).
  - apply binary_round_aux_ge0. by destruct Hl' as (_ & _ & ? & _).
  - rewrite Hf, Hf'. destruct (Z.ltb_spec ((rounded m e l).1 * weight (rounded m e l).2) (weight 1024)),
      (Z.ltb_spec ((rounded m' e' l').1 * weight (rounded m' e' l').2) (weight 1024)); cbn [top_le]; lia.
Qed.

(** * Addition *)

Lemma located_exact m e : 0 ≤ m → -4096 ≤ e → located (m * weight e) 1 m e loc_Exact.
Proof.
  intros Hm He. pose proof (weight_pos e He). split; [lia|]. split; [done|]. split; [done|].
  exists 0. rewrite Z.mul_1_r. split; [lia|]. by split.
Qed.

Lemma rounded_valid s m e :
  valid (S754_finite s m e) = true → rounded (Z.pos m) e loc_Exact = (Z.pos m, e).
Proof.
  intros [He _]%valid_finite. unfold rounded, shr_fexp, shr. fold (magnitude (Z.pos m) e).
  rewrite <- He, Z.sub_diag. done.
Qed.

Lemma digits2_iter_xO m k :
  Z.pos (digits2_pos (Pos.iter xO m k)) = Z.pos (digits2_pos m) + Z.pos k.
Proof.
  induction k as [|k IH] using Pos.peano_ind; [cbn; lia|].
  rewrite Pos.iter_succ. cbn [digits2_pos]. lia.
Qed.

Lemma shl_align_value m e e' :
  -4096 ≤ e' →
  let r := shl_align m e e' in
  Z.pos r.1 * weight r.2 = Z.pos m * weight e ∧ r.2 = Z.min e e' ∧
  magnitude (Z.pos r.1) r.2 = magnitude (Z.pos m) e.
Proof.
  intros He. unfold shl_align, magnitude. cbn [Zdigits2].
  destruct (e' - e) as [|p|p] eqn:Hd; cbn [fst snd]; [split; [done|lia]..|].
  rewrite iter_xO, digits2_iter_xO, (weight_split e' e) by lia.
  replace (e - e') with (Z.pos p) by lia. split; [ring|lia].
Qed.

Lemma valid_binary_round m e :
  -4096 ≤ e → valid (binary_round prec64 emax64 false m e) = true ∧
  ∀ x, valid x = true → ge0 x = true → top_le (fval x) (Some (Z.pos m * weight e)) →
    f64_leb x (binary_round prec64 emax64 false m e) = true.
Proof.
  intros He. unfold binary_round. change (Z.pos (digits2_pos m) + e) with (magnitude (Z.pos m) e).
  pose proof (fx_eq (magnitude (Z.pos m) e)) as Hx.
  destruct (shl_align_value m e (fx (magnitude (Z.pos m) e)) ltac:(lia)) as (Hv & Hmin & Hmag).
  destruct (shl_align m e (fx (magnitude (Z.pos m) e))) as [mz ez]. cbn [fst snd] in *.
  assert (located (Z.pos mz * weight ez) 1 (Z.pos mz) ez loc_Exact) as Hl
    by (apply located_exact; lia).
  assert (ez ≤ fx (magnitude (Z.pos mz) ez)) as Hez by (rewrite Hmag; lia).
  split; [by apply (binary_round_aux_fval _ _ _ _ _ Hl Hez)|].
  intros x Hvx Hgx Hle. destruct x as [s|[]| |[] p q]; try done.
  { by apply ge0_leb, binary_round_aux_ge0. }
  cbn [fval top_le] in Hle. pose proof (valid_mantissa _ _ _ Hvx) as (Hq & _).
  assert (located (Z.pos p * weight q) 1 (Z.pos p) q loc_Exact) as Hlp
    by (apply located_exact; lia).
  pose proof (proj1 (valid_finite _ _ _) Hvx) as [Hfx _].
  destruct (binary_round_aux_fval _ _ _ _ _ Hl Hez) as [Hvr Hfr].
  assert (Hm : Z.pos p * weight q ≤
    (rounded (Z.pos mz) ez loc_Exact).1 * weight (rounded (Z.pos mz) ez loc_Exact).2).
  { pose proof (rounded_mono _ _ _ _ _ _ _ _ _ _ Hlp (Z.eq_le_incl _ _ Hfx) Hl Hez ltac:(lia)) as Hm.
    by rewrite (rounded_valid _ _ _ Hvx) in Hm. }
  apply leb_fval; [done|done|done|by apply binary_round_aux_ge0|]. rewrite Hfr. cbn [fval].
  by case_match.
Qed.

(** A sum of non-negative doubles is one, and at least its first term. *)
Lemma f64_add_ge x y :
  valid x = true → valid y = true → ge0 x = true → ge0 y = true →
  valid (f64_add x y) = true ∧ f64_leb x (f64_add x y) = true.
Proof.
  unfold f64_add. destruct x as [[]|[]| |[] m e], y as [[]|[]| |[] m' e']; try done;
    intros Hx Hy _ _.
  all: cbn [SFadd cond_Zopp]; try (split; [done|]; first [reflexivity|apply leb_fval; [done..|]; cbn [fval top_le]; lia]).
  apply valid_mantissa in Hx as Hx', Hy as Hy'. destruct Hx' as (He & _), Hy' as (He' & _).
  destruct (shl_align_value m e (Z.min e e') ltac:(lia)) as (Hv & Hmin & _).
  destruct (shl_align_value m' e' (Z.min e e') ltac:(lia)) as (Hv' & Hmin' & _).
  destruct (shl_align m e (Z.min e e')) as [a ea], (shl_align m' e' (Z.min e e')) as [b eb].
  cbn [fst snd] in *. assert (ea = Z.min e e') as -> by lia. assert (eb = Z.min e e') as -> by lia.
  rewrite <- Pos2Z.inj_add. cbn [binary_normalize].
  destruct (valid_binary_round (a + b) (Z.min e e') ltac:(lia)) as [Hr Hle].
  split; [exact Hr|]. apply Hle; [done|done|]. cbn [fval top_le].
  pose proof (weight_pos (Z.min e e') ltac:(lia)). lia.
Qed.

(** * Division *)

Lemma new_location_remains u r : 0 < u → 0 ≤ r < u → remains u r (new_location u r).
Proof.
  intros Hu Hr. split; [done|].
  assert (new_location u r = if r =? 0 then loc_Exact else loc_Inexact
    (if Z.even u then 2 * r ?= u
     else match 2 * r + 1 ?= u with Gt => Gt | _ => Lt end)) as ->.
  { unfold new_location, new_location_even, new_location_odd.
    change IntDef.Z.even with Z.even. destruct (Z.even u), (r =? 0) eqn:Hz;
      unfold Z.eqb in Hz; by rewrite ?Hz. }
  destruct (Z.eqb_spec r 0) as [->|Hz]; [done|]. split; [lia|].
  destruct (Z.even u) eqn:Hev; [done|].
  assert (Z.odd u = true) as [k Hk]%Z.odd_spec by (by rewrite <- Z.negb_even, Hev).
  destruct (Z.compare_spec (2 * r + 1) u);
    [apply Z.compare_lt_iff|apply Z.compare_lt_iff|apply Z.compare_gt_iff]; lia.
Qed.

(** The core of a division: the quotient at an exponent precise enough to round. *)
Lemma div_core_located m e a ea q e' l :
  -1074 ≤ e ≤ 971 → -1074 ≤ ea ≤ 971 →
  SFdiv_core_binary prec64 emax64 (Z.pos m) e (Z.pos a) ea = (q, e', l) →
  located (Z.pos m * weight (e + 1074)) (Z.pos a * 2 ^ (ea + 1074)) q e' l ∧
  e' ≤ fx (magnitude q e').
Proof.
  intros He Hea. unfold SFdiv_core_binary.
  set (delta := Zdigits2 (Z.pos m) + e - (Zdigits2 (Z.pos a) + ea)).
  set (e0 := Z.min (fx delta) (e - ea)). set (s := e - ea - e0).
  assert (0 ≤ s) as Hs by lia. pose proof (fx_eq delta) as Hx.
  set (m' := match s with Z.pos _ => _ | _ => _ end).
  assert (m' = Z.pos m * 2 ^ s) as Hm'.
  { unfold m'. destruct s as [|p|p]; [lia| |lia]. by rewrite Z.shiftl_mul_pow2. }
  pose proof (Z_div_mod m' (Z.pos a) ltac:(lia)) as Hqr.
  destruct (Z.div_eucl m' (Z.pos a)) as [q0 r]. destruct Hqr as [Hq Hr].
  intros [= <- <- <-]. pose proof (Z.pow_pos_nonneg 2 s ltac:(lia) Hs) as Hps.
  assert (0 ≤ q0) as Hq0 by nia.
  assert (-4096 ≤ e0) as He0 by lia. pose proof (weight_pos e0 He0) as Hw.
  pose proof (Z.pow_pos_nonneg 2 (ea + 1074) ltac:(lia) ltac:(lia)) as Hpa.
  split.
  - split; [nia|]. split; [done|]. split; [done|].
    set (k := weight e0 * 2 ^ (ea + 1074)). assert (0 < k) as Hk by (unfold k; nia).
    exists (r * k).
    replace (weight e0 * (Z.pos a * 2 ^ (ea + 1074))) with (Z.pos a * k) by (unfold k; ring).
    split; [|apply remains_scale; [done|]; apply new_location_remains; lia].
    assert (weight (e + 1074) = 2 ^ s * k) as ->.
    { unfold k, weight. rewrite <- !Z.pow_add_r by lia. f_equal. lia. }
    rewrite Z.mul_assoc, <- Hm', Hq. ring.
  - etrans; [apply Z.le_min_l|]. rewrite !fx_eq.
    assert (delta ≤ magnitude q0 e0); [|lia]. unfold magnitude.
    destruct (Zdigits2_bounds (Z.pos m)) as (Hd1 & Hlo1 & _); [lia|].
    destruct (Zdigits2_bounds (Z.pos a)) as (Hd2 & _ & Hhi2); [lia|].
    set (d1 := Zdigits2 (Z.pos m)) in *. set (d2 := Zdigits2 (Z.pos a)) in *.
    assert (d1 + s - d2 ≤ Zdigits2 q0); [|lia].
    pose proof (Zdigits2_nonneg q0 Hq0).
    destruct (Z.le_gt_cases (d1 + s - d2) 0) as [Hneg|Hpos]; [lia|].
    assert (2 ^ (d1 + s - d2 - 1) ≤ q0) as Hge; [|pose proof (Zdigits2_ge q0 (d1 + s - d2 - 1) ltac:(lia) Hge); lia].
    assert (2 ^ (d1 + s - d2 - 1) * 2 ^ d2 ≤ m') as Hlow.
    { rewrite <- Z.pow_add_r by lia. replace (d1 + s - d2 - 1 + d2) with (d1 - 1 + s) by lia.
      rewrite Z.pow_add_r by lia. nia. }
    assert (2 ^ (d1 + s - d2 - 1) < q0 + 1); [|lia].
    pose proof (Z.pow_pos_nonneg 2 d2 ltac:(lia) ltac:(lia)).
    apply (Z.mul_lt_mono_pos_r (2 ^ d2)); [lia|]. nia.
Qed.

(** A quotient by a positive double grows with its dividend. *)
Lemma f64_div_mono x y a :
  valid x = true → valid y = true → valid a = true →
  ge0 x = true → ge0 y = true → pos_finite a = true →
  f64_leb x y = true → f64_leb (f64_div x a) (f64_div y a) = true.
Proof.
  intros Hx Hy Ha Hgx Hgy Hga Hle. apply leb_fval in Hle; [|done..].
  destruct a as [| | |[] a ea]; try done. apply valid_mantissa in Ha as (Hea & _).
  pose proof (f64_div_ge0 y (S754_finite false a ea) Hgy eq_refl) as Hq.
  destruct x as [s|[]| |[] m e]; try done.
  - unfold f64_div. cbn [SFdiv]. apply ge0_leb in Hq. unfold f64_div in Hq.
    revert Hq. generalize (SFdiv prec64 emax64 y (S754_finite false a ea)). intros z Hz.
    by destruct s, z as [[]|[]| |[] ? ?].
  - by destruct y as [[]|[]| |[] m' e'].
  - apply valid_mantissa in Hx as (He & _).
    destruct y as [s|[]| |[] m' e']; try done.
    + exfalso. cbn in Hle. pose proof (weight_pos e ltac:(lia)). nia.
    + unfold f64_div in *. cbn [SFdiv xorb] in *.
      destruct (SFdiv_core_binary _ _ (Z.pos m) _ _ _) as [[q0 e0] l0] eqn:Hc.
      pose proof (f64_div_ge0 (S754_finite false m e) (S754_finite false a ea) eq_refl eq_refl) as Hg.
      unfold f64_div in Hg. cbn [SFdiv xorb] in Hg. rewrite Hc in Hg.
      revert Hg. generalize (binary_round_aux prec64 emax64 false q0 e0 l0). intros z Hz.
      by destruct z as [[]|[]| |[] ? ?].
    + apply valid_mantissa in Hy as (He' & _). unfold f64_div. cbn [SFdiv xorb].
      destruct (SFdiv_core_binary _ _ (Z.pos m) _ _ _) as [[q0 e0] l0] eqn:Hc.
      destruct (SFdiv_core_binary _ _ (Z.pos m') _ _ _) as [[q1 e1] l1] eqn:Hc'.
      apply div_core_located in Hc as [Hl Hb]; [|done..].
      apply div_core_located in Hc' as [Hl' Hb']; [|done..].
      apply (binary_round_aux_mono _ _ _ _ _ _ _ _ _ _ Hl Hb Hl' Hb').
      cbn [fval top_le] in Hle. apply Z.mul_le_mono_nonneg_r; [nia|].
      unfold weight in *. rewrite !(Z.add_shuffle0 _ 1074), !(Z.pow_add_r 2 (_ + 4096) 1074) by lia.
      nia.
Qed.

(** ** Amounts: non-negative doubles *)

Definition amount_ok (x : f64) : Prop := valid x = true ∧ ge0 x = true.

Lemma f64_add_ok x y : amount_ok x → amount_ok y → amount_ok (f64_add x y).
Proof.
  intros [Hx Hgx] [Hy Hgy]. split; [by apply f64_add_ge|by apply f64_add_ge0].
Qed.

Lemma f64_div_ok x a :
  amount_ok x → valid a = true → pos_finite a = true → amount_ok (f64_div x a).
Proof.
  intros [Hx Hgx] Ha Hpa. split; [|by apply f64_div_ge0].
  destruct a as [| | |[] a ea]; try done. apply valid_mantissa in Ha as (Hea & _).
  destruct x as [[]|[]| |[] m e]; try done. apply valid_mantissa in Hx as (He & _).
  unfold f64_div. cbn [SFdiv xorb].
  destruct (SFdiv_core_binary _ _ (Z.pos m) _ _ _) as [[q e0] l] eqn:Hc.
  apply div_core_located in Hc as [Hl Hb]; [|done..].
  by apply (binary_round_aux_fval _ _ _ _ _ Hl Hb).
Qed.

Lemma f64_leb_refl x : amount_ok x → f64_leb x x = true.
Proof. intros [Hx Hgx]. apply leb_fval; [done..|]. unfold top_le. destruct (fval x); [lia|done]. Qed.

(** What an amount is at least, a larger one is too. *)
Lemma f64_leb_trans t x y :
  valid t = true → amount_ok x → amount_ok y →
  f64_leb t x = true → f64_leb x y = true → f64_leb t y = true.
Proof.
  intros Ht [Hx Hgx] [Hy Hgy] Htx Hxy. destruct (ge0 t) eqn:Hgt.
  - apply leb_fval in Htx, Hxy; [|done..]. apply leb_fval; [done..|].
    revert Htx Hxy. unfold top_le. destruct (fval t), (fval x), (fval y); lia || done.
  - destruct t as [[]|[]| |[] m e], y as [[]|[]| |[] m' e']; try done; by destruct x as [[]|[]| |[] ? ?].
Qed.
