(* ===== verification/Json.v ===== *)
(** [serde_json::Value], as the gateway uses it.

    The tree type and its accessors are data; the parser and printer
    ([from_slice], [to_vec], number rendering) live in the third-party crate
    and are the fields of the class [SerdeJson].  An object is the crate's
    default [BTreeMap]: an association list in increasing key order. *)
From Stdlib Require Import ZArith Lia Ascii String SpecFloat.
From stdpp Require Import prelude strings list.
From S2P Require Import Prelude Text F64.
Open Scope Z_scope.

(** [serde_json::Number]: [u64], negative [i64] or [f64]. *)
Inductive number : Type :=
| PosInt (u : Z)
| NegInt (i : Z)
| Float (f : f64).

Inductive Value : Type :=
| VNull
| VBool (b : bool)
| VNumber (n : number)
| VString (s : string)
| VArray (vs : list Value)
| VObject (m : list (string * Value)).

(** Structural induction through the nested lists. *)
Definition Value_ind' (P : Value → Prop)
  (Hnull : P VNull) (Hbool : ∀ b, P (VBool b)) (Hnum : ∀ n, P (VNumber n))
  (Hstr : ∀ s, P (VString s))
  (Harr : ∀ vs, Forall P vs → P (VArray vs))
  (Hobj : ∀ m, Forall (λ kv, P kv.2) m → P (VObject m)) : ∀ v, P v :=
  fix go v := match v with
  | VNull => Hnull
  | VBool b => Hbool b
  | VNumber n => Hnum n
  | VString s => Hstr s
  | VArray vs =>
      Harr vs ((fix all vs := match vs return Forall P vs with
                | [] => Forall_nil_2 P
                | v :: r => Forall_cons_2 P v r (go v) (all r)
                end) vs)
  | VObject m =>
      Hobj m ((fix all m := match m return Forall (λ kv, P kv.2) m with
               | [] => Forall_nil_2 _
               | kv :: r => Forall_cons_2 (λ kv, P kv.2) kv r (go kv.2) (all r)
               end) m)
  end.

(** * Objects *)

(** [Map::get], [Map::contains_key], [Map::insert]. *)
Fixpoint map_get {V} (m : list (string * V)) (k : string) : option V :=
  match m with
  | [] => None
  | (k', v) :: r => if String.eqb k k' then Some v else map_get r k
  end.

Definition contains_key {V} (m : list (string * V)) (k : string) : bool :=
  match map_get m k with Some _ => true | None => false end.

Fixpoint map_insert {V} (m : list (string * V)) (k : string) (v : V) :
    list (string * V) :=
  match m with
  | [] => [(k, v)]
  | (k', v') :: r =>
      match String.compare k k' with
      | Lt => (k, v) :: m
      | Eq => (k, v) :: r
      | Gt => (k', v') :: map_insert r k v
      end
  end.

(** Keys in strictly increasing byte order: the [BTreeMap] invariant. *)
Definition key_lt (a b : string) : Prop := String.compare a b = Lt.
Definition keys_sorted {V} (m : list (string * V)) : Prop :=
  StronglySorted key_lt m.*1.

(** * Accessors *)

Definition get (v : Value) (k : string) : option Value :=
  match v with VObject m => map_get m k | _ => None end.
Definition as_str (v : Value) : option string :=
  match v with VString s => Some s | _ => None end.
Definition as_array (v : Value) : option (list Value) :=
  match v with VArray vs => Some vs | _ => None end.
Definition as_object (v : Value) : option (list (string * Value)) :=
  match v with VObject m => Some m | _ => None end.

(** [Value::as_i64]: integers that fit; never a float. *)
Definition as_i64_value (v : Value) : option Z :=
  match v with
  | VNumber (PosInt u) => if u <=? i64_max then Some u else None
  | VNumber (NegInt i) => Some i
  | _ => None
  end.
(** [Value::as_f64]: every number. *)
Definition as_f64_value (v : Value) : option f64 :=
  match v with
  | VNumber (PosInt u) => Some (f64_of_Z u)
  | VNumber (NegInt i) => Some (f64_of_Z i)
  | VNumber (Float f) => Some f
  | _ => None
  end.

(** The parser and printer of the crate. *)
Class SerdeJson : Type := {
  from_slice : bytes → option Value;
  to_vec : Value → bytes;
  number_to_string : number → string
}.

(** * Lemmas on objects *)

Lemma string_compare_Eq a b : String.compare a b = Eq ↔ a = b.
Proof.
  split; [apply String.compare_eq_iff|]. intros ->.
  induction b as [|c b IH]; simpl; [done|].
  unfold Ascii.compare. by rewrite N.compare_refl.
Qed.

Lemma map_get_insert {V} (m : list (string * V)) k v k' :
  map_get (map_insert m k v) k' = if String.eqb k' k then Some v else map_get m k'.
Proof.
  induction m as [|[k0 v0] m IH]; simpl; [done|].
  destruct (String.compare k k0) eqn:Hc; simpl.
  - apply string_compare_Eq in Hc as ->. by destruct (String.eqb k' k0).
  - done.
  - rewrite IH. destruct (String.eqb k' k0) eqn:H0; [|done].
    apply String.eqb_eq in H0 as ->.
    destruct (String.eqb k0 k) eqn:H1; [|done].
    apply String.eqb_eq in H1 as ->.
    by rewrite (proj2 (string_compare_Eq k k) eq_refl) in Hc.
Qed.

Lemma map_get_Some_in {V} (m : list (string * V)) k v :
  map_get m k = Some v → (k, v) ∈ m.
Proof.
  induction m as [|[k0 v0] m IH]; simpl; [done|].
  destruct (String.eqb k k0) eqn:H0.
  - apply String.eqb_eq in H0 as ->. intros [= ->]. by left.
  - intros H. right. by apply IH.
Qed.

(** * Byte order on strings *)

(** [a <= b] on Rust strings. *)
Definition str_le (a b : string) : Prop := String.leb a b = true.
#[export] Instance str_le_dec : RelDecision str_le.
Proof. intros a b. unfold Decision, str_le. apply bool_eq_dec. Defined.

Lemma str_le_cons c s d t :
  str_le (String c s) (String d t) ↔
  (N_of_ascii c < N_of_ascii d)%N ∨ (c = d ∧ str_le s t).
Proof.
  unfold str_le, String.leb. simpl. unfold Ascii.compare.
  destruct (N.compare_spec (N_of_ascii c) (N_of_ascii d)) as [Heq|Hlt|Hgt].
  - assert (c = d) as ->.
    { by rewrite <- (ascii_N_embedding c), Heq, ascii_N_embedding. }
    split; [naive_solver|]. intros [|[_ ?]]; [lia|done].
  - naive_solver.
  - split; [done|]. intros [|[-> _]]; lia.
Qed.

#[export] Instance str_le_trans : Transitive str_le.
Proof.
  intros a. induction a as [|c a IH]; intros [|d b] [|e z]; try done.
  rewrite !str_le_cons. intros [|[-> ?]] [|[-> ?]];
    [left; lia|by left|by left|right; eauto].
Qed.
#[export] Instance str_le_total : Total str_le.
Proof. intros a b. apply String.leb_total. Qed.
#[export] Instance str_le_antisymm : AntiSymm (=) str_le.
Proof. intros a b. apply String.leb_antisym. Qed.

Lemma key_lt_le a b : key_lt a b → str_le a b.
Proof. unfold key_lt, str_le, String.leb. by intros ->. Qed.
Lemma key_lt_irrefl a : ¬ key_lt a a.
Proof. unfold key_lt. by rewrite (proj2 (string_compare_Eq a a) eq_refl). Qed.

Lemma keys_sorted_le {V} (m : list (string * V)) :
  keys_sorted m → StronglySorted str_le m.*1.
Proof.
  unfold keys_sorted. induction 1 as [|k ks Hs IH Hk]; constructor; [done|].
  eapply Forall_impl; [exact Hk|]. apply key_lt_le.
Qed.
Lemma keys_sorted_NoDup {V} (m : list (string * V)) : keys_sorted m → NoDup m.*1.
Proof.
  unfold keys_sorted. induction 1 as [|k ks Hs IH Hk]; constructor; [|done].
  rewrite Forall_forall in Hk. intros Hin. by apply (key_lt_irrefl k), Hk.
Qed.

Lemma map_get_NoDup {V} (m : list (string * V)) k v :
  NoDup m.*1 → (k, v) ∈ m → map_get m k = Some v.
Proof.
  induction m as [|[k0 v0] m IH]; intros Hnd Hin; [by apply not_elem_of_nil in Hin|].
  apply NoDup_cons in Hnd as [Hk0 Hnd]. simpl.
  apply elem_of_cons in Hin as [[= -> ->]|Hin]; [by rewrite String.eqb_refl|].
  rewrite (proj2 (String.eqb_neq k k0)); [by apply IH|]. intros ->.
  apply Hk0, list_elem_of_fmap. by exists (k0, v).
Qed.
