(* ===== verification/Serde.v ===== *)
(** What serde's derived code does with the types of the program: a [Serialize] writes a
    JSON value member by member, a [Deserialize] reads a struct from the entries of a
    mapping, or from the elements of a sequence, of any format.

    A format is the class [Deserializer]: what its parsed text answers when a string, a
    number, a sequence is asked of it.  JSON is the instance below; YAML's parser is a
    third-party crate and stays an instance to be given. *)
From Stdlib Require Import ZArith Lia Bool Ascii String SpecFloat Permutation.
From stdpp Require Import prelude gmap strings list.
From S2P Require Import Prelude Text F64 Json.
Open Scope Z_scope.

(** * Writing *)

Definition json_u64 (z : Z) : Value := VNumber (PosInt z).
Definition json_i64 (z : Z) : Value := VNumber (if 0 <=? z then PosInt z else NegInt z).
(** A number that is not finite is written [null]. *)
Definition json_f64 (x : f64) : Value := if is_finite x then VNumber (Float x) else VNull.
Definition json_opt {A} (f : A → Value) (o : option A) : Value :=
  match o with Some a => f a | None => VNull end.
Definition json_vec {A} (f : A → Value) (l : list A) : Value := VArray (f <$> l).

(** An object with the given members. *)
Definition object_of (fields : list (string * Value)) : list (string * Value) :=
  foldl (λ m kv, map_insert m kv.1 kv.2) [] fields.
Definition json_struct (fields : list (string * Value)) : Value := VObject (object_of fields).

(** A [HashMap<String, _>]: the members of an object have no order. *)
Definition json_map {A} (f : A → Value) (m : gmap string A) : Value :=
  json_struct (prod_map (λ k, k) f <$> map_to_list m).

(** * Reading *)

(** A parsed document.  [None]: a value of that type cannot be made of it.  [de_content] is
    the value as serde buffers it while it looks for the tag of an enum. *)
Class Deserializer (Doc : Type) : Type := {
  de_map : Doc → option (list (string * Doc));
  de_seq : Doc → option (list Doc);
  de_str : Doc → option string;
  de_bool : Doc → option bool;
  de_u64 : Doc → option Z;
  de_i64 : Doc → option Z;
  de_f64 : Doc → option f64;
  de_null : Doc → bool;
  de_content : Doc → Doc
}.

(** A [u64] is one. *)
Class DeserializerLaws (Doc : Type) `{Deserializer Doc} : Prop := {
  de_u64_range n z : de_u64 n = Some z → 0 ≤ z ≤ u64_max
}.

Section Reading.
Context `{Deserializer Doc}.

Definition de_u32 (n : Doc) : option Z :=
  z ← de_u64 n; if z <=? u32_max then Some z else None.
Definition de_option {A} (dec : Doc → option A) (n : Doc) : option (option A) :=
  if de_null n then Some None else Some <$> dec n.
Definition de_vec {A} (dec : Doc → option A) (n : Doc) : option (list A) :=
  de_seq n ≫= mapM dec.
(** A [HashMap<String, _>]: the last entry of a key wins. *)
Definition de_hash_map {A} (dec : Doc → option A) (n : Doc) : option (gmap string A) :=
  entries ← de_map n;
  kvs ← mapM (λ kv, pair kv.1 <$> dec kv.2) entries;
  Some (foldl (λ m kv, <[kv.1 := kv.2]> m) ∅ kvs).

(** What the visitor of a struct is given: entries, or elements in the order of the fields. *)
Definition entries_of (n : Doc) : option (list (string * Doc) + list Doc) :=
  match de_map n with Some kvs => Some (inl kvs) | None => inr <$> de_seq n end.

(** The values of the fields: an unknown entry is ignored, a repeated field refused, and so
    is an element too many. *)
Definition pick (names : list string) (e : list (string * Doc) + list Doc) :
    option (list (string * Doc)) :=
  match e with
  | inl kvs =>
      let known := filter (λ kv, kv.1 ∈ names) kvs in
      if decide (NoDup known.*1) then Some known else None
  | inr vs => if (length vs <=? length names)%nat then Some (zip names vs) else None
  end.

Definition de_struct (names : list string) (n : Doc) : option (list (string * Doc)) :=
  entries_of n ≫= pick names.

(** [#[serde(tag = "…")]]: the tag, wherever it stands in a mapping or first in a sequence,
    and the rest as buffered content. *)
Definition de_tagged (tag : string) (n : Doc) :
    option (Doc * (list (string * Doc) + list Doc)) :=
  e ← entries_of n;
  match e with
  | inl kvs =>
      match filter (λ kv, kv.1 = tag) kvs with
      | [(_, t)] => Some (t, inl (prod_map (λ k, k) de_content <$> filter (λ kv, kv.1 ≠ tag) kvs))
      | _ => None
      end
  | inr (t :: vs) => Some (t, inr (de_content <$> vs))
  | inr [] => None
  end.

(** A field that must be there, and one with [#[serde(default)]]. *)
Definition field {A} (name : string) (dec : Doc → option A) (fields : list (string * Doc)) :
    option A := map_get fields name ≫= dec.
Definition field_or {A} (name : string) (d : A) (dec : Doc → option A)
    (fields : list (string * Doc)) : option A :=
  match map_get fields name with Some n => dec n | None => Some d end.

(** ** What the reading guarantees *)

Lemma de_vec_Forall {A} (P : A → Prop) dec n l :
  (∀ m a, dec m = Some a → P a) → de_vec dec n = Some l → Forall P l.
Proof.
  intros Hd. unfold de_vec. intros (ns & _ & Hl)%bind_Some.
  apply mapM_Some in Hl. induction Hl as [|x a ns l Hx Hl IH]; constructor; eauto using Hd.
Qed.

Lemma de_hash_map_Forall {A} (P : A → Prop) dec n (m : gmap string A) :
  (∀ x a, dec x = Some a → P a) → de_hash_map dec n = Some m → map_Forall (λ _, P) m.
Proof.
  intros Hd. unfold de_hash_map. intros (es & _ & (kvs & Hk & [= <-])%bind_Some)%bind_Some.
  assert (Forall (λ kv, P kv.2) kvs) as HP.
  { apply mapM_Some in Hk. induction Hk as [|e kv es kvs He]; [constructor|].
    apply fmap_Some in He as (a & Ha & ->). constructor; eauto. }
  clear Hk. revert HP. induction kvs as [|[k a] kvs IH] using rev_ind; intros HP;
    [apply map_Forall_empty|].
  apply Forall_app in HP as [HP Ha]. apply Forall_cons in Ha as [Ha _].
  rewrite foldl_app. cbn [foldl fst snd]. apply map_Forall_insert_2; [exact Ha|]. by apply IH.
Qed.

Lemma de_option_Some {A} (P : A → Prop) dec n (o : option A) :
  (∀ m a, dec m = Some a → P a) → de_option dec n = Some o → from_option P True o.
Proof.
  intros Hd. unfold de_option. destruct (de_null n); [by intros [= <-]|].
  intros (a & Ha & ->)%fmap_Some. simpl. eauto.
Qed.

Lemma field_Some {A} (P : A → Prop) name dec fields a :
  (∀ m a, dec m = Some a → P a) → field name dec fields = Some a → P a.
Proof. intros Hd (n & _ & Hn)%bind_Some. eauto. Qed.

Lemma field_or_Some {A} (P : A → Prop) name d dec fields a :
  P d → (∀ m a, dec m = Some a → P a) → field_or name d dec fields = Some a → P a.
Proof.
  intros Hp Hd. unfold field_or. destruct (map_get fields name); [by apply Hd|].
  by intros [= <-].
Qed.

Lemma de_u32_range `{!DeserializerLaws Doc} n z : de_u32 n = Some z → 0 ≤ z ≤ u32_max.
Proof.
  unfold de_u32. intros (x & Hx%de_u64_range & Hz)%bind_Some.
  destruct (Z.leb_spec x u32_max); [|done]. injection Hz as <-. lia.
Qed.

(** A section that is left out, or a struct whose mapping is empty, is its defaults. *)
Lemma field_or_absent {A} name (d : A) dec fields :
  map_get fields name = None → field_or name d dec fields = Some d.
Proof. unfold field_or. by intros ->. Qed.

(** The value of a field is the value of its entry. *)
Lemma map_get_filter (names : list string) (kvs : list (string * Doc)) k :
  k ∈ names → map_get (filter (λ kv, kv.1 ∈ names) kvs) k = map_get kvs k.
Proof.
  intros Hk. induction kvs as [|[k' v] kvs IH]; [done|].
  rewrite filter_cons. case_decide as Hin; cbn [map_get].
  - destruct (String.eqb k k'); [done|apply IH].
  - destruct (String.eqb_spec k k') as [->|_]; [done|apply IH].
Qed.

Lemma de_struct_get names n kvs fields k :
  de_map n = Some kvs → de_struct names n = Some fields → k ∈ names →
  map_get fields k = map_get kvs k.
Proof.
  intros Hn. unfold de_struct, entries_of. rewrite Hn. cbn [mbind option_bind pick].
  case_decide; [|done]. intros [= <-]. apply map_get_filter.
Qed.

(** A name no entry has is not among the values of the fields. *)
Lemma pick_absent names kvs fields k :
  pick names (inl kvs) = Some fields → k ∉ kvs.*1 → map_get fields k = None.
Proof.
  simpl. case_decide; [|done]. intros [= <-] Hk.
  destruct (map_get _ k) as [v|] eqn:Hv; [|done]. apply map_get_Some_in in Hv.
  apply list_elem_of_filter in Hv as [_ Hv]. destruct Hk.
  apply list_elem_of_fmap. by exists (k, v).
Qed.
End Reading.

(** * JSON *)

#[export] Instance json_deserializer : Deserializer Value := {
  de_map := as_object;
  de_seq := as_array;
  de_str := as_str;
  de_bool v := match v with VBool b => Some b | _ => None end;
  de_u64 v := match v with
              | VNumber (PosInt u) => if (0 <=? u) && (u <=? u64_max) then Some u else None
              | _ => None
              end;
  de_i64 := as_i64_value;
  de_f64 := as_f64_value;
  de_null v := match v with VNull => true | _ => false end;
  de_content v := v
}.

#[export] Instance json_deserializer_laws : DeserializerLaws Value.
Proof.
  split. intros [|b|[u|i|f]|s|vs|m] z; simpl; try done.
  destruct (Z.leb_spec 0 u), (Z.leb_spec u u64_max); simpl; try done. by intros [= <-].
Qed.

(** * What is written reads back *)

Lemma object_absent fields k : k ∉ fields.*1 → map_get (object_of fields) k = None.
Proof.
  unfold object_of. induction fields as [|[k' v] fields IH] using rev_ind; [done|].
  rewrite fmap_app, not_elem_of_app. intros [Hk Hk']. rewrite foldl_app. cbn [foldl fst snd].
  rewrite map_get_insert. destruct (String.eqb_spec k k') as [->|_]; [|by apply IH].
  destruct Hk'. by left.
Qed.

Lemma map_insert_fresh {V} (m : list (string * V)) k v :
  k ∉ m.*1 → map_insert m k v ≡ₚ (k, v) :: m.
Proof.
  induction m as [|[k' v'] m IH]; intros Hk; [done|]. cbn [map_insert].
  apply not_elem_of_cons in Hk as [Hne Hk]. destruct (String.compare k k') eqn:Hc; [|done|].
  - by apply string_compare_Eq in Hc.
  - rewrite (IH Hk). apply Permutation_swap.
Qed.

(** An object has exactly the members it was given. *)
Lemma object_of_perm fields : NoDup fields.*1 → object_of fields ≡ₚ fields.
Proof.
  unfold object_of. induction fields as [|[k v] fields IH] using rev_ind; [done|].
  rewrite fmap_app, NoDup_app. intros (Hnd & Hk & _). rewrite foldl_app. cbn [foldl fst snd].
  pose proof (IH Hnd) as Hp. rewrite map_insert_fresh.
  - by rewrite Hp, Permutation_cons_append.
  - rewrite Hp. intros Hin. apply (Hk k Hin). by left.
Qed.

Lemma map_get_object_of fields k :
  NoDup fields.*1 → map_get (object_of fields) k = map_get fields k.
Proof.
  intros Hnd. pose proof (object_of_perm fields Hnd) as Hp.
  destruct (map_get fields k) as [v|] eqn:Hk.
  - apply map_get_NoDup; [by rewrite Hp|]. rewrite Hp. by apply map_get_Some_in.
  - apply object_absent. intros ([k' v] & -> & Hin)%list_elem_of_fmap.
    cbn in Hk. by rewrite (map_get_NoDup _ _ _ Hnd Hin) in Hk.
Qed.

Lemma filter_keeps {A} (P : A → Prop) `{!∀ a, Decision (P a)} (l : list A) :
  Forall P l → filter P l = l.
Proof.
  induction 1 as [|a l Ha Hl IH]; [done|]. by rewrite filter_cons_True, IH.
Qed.

(** A derived [Deserialize] finds the members a derived [Serialize] wrote. *)
Lemma pick_json names fields :
  fields.*1 = names → NoDup names →
  pick names (inl (object_of fields)) = Some (object_of fields).
Proof.
  intros <- Hnd. pose proof (object_of_perm fields Hnd) as Hp. unfold pick.
  rewrite filter_keeps; [rewrite decide_True; [done|by rewrite Hp]|].
  rewrite Hp. apply Forall_forall. intros kv Hin. apply list_elem_of_fmap. by exists kv.
Qed.

Lemma de_struct_json names fields :
  fields.*1 = names → NoDup names →
  de_struct names (json_struct fields) = Some (object_of fields).
Proof. apply pick_json. Qed.

(** Reading back what [enc] wrote of a value that is [wf]. *)
Class RoundTrip {A} (wf : A → Prop) (enc : A → Value) (dec : Value → option A) : Prop :=
  round_trip a : wf a → dec (enc a) = Some a.
(** What [enc] writes is never mistaken for an absent option. *)
Class NotNull {A} (enc : A → Value) : Prop := not_null a : de_null (enc a) = false.

Definition any {A} (_ : A) : Prop := True.
Definition u64_ok (z : Z) : Prop := 0 ≤ z ≤ u64_max.
Definition u32_ok (z : Z) : Prop := 0 ≤ z ≤ u32_max.
Definition finite_ok (x : f64) : Prop := is_finite x = true.

#[export] Instance round_trip_str : RoundTrip any VString de_str.
Proof. done. Qed.
#[export] Instance round_trip_bool : RoundTrip any VBool de_bool.
Proof. done. Qed.
#[export] Instance round_trip_u64 : RoundTrip u64_ok json_u64 de_u64.
Proof.
  intros z [H0 H1]. simpl. by rewrite (proj2 (Z.leb_le _ _) H0), (proj2 (Z.leb_le _ _) H1).
Qed.
#[export] Instance round_trip_u32 : RoundTrip u32_ok json_u64 de_u32.
Proof.
  intros z Hz. unfold de_u32. rewrite (round_trip_u64 z) by (unfold u64_ok, u32_ok, u32_max, u64_max in *; lia).
  cbn. destruct Hz as [_ H1]. by rewrite (proj2 (Z.leb_le _ _) H1).
Qed.
#[export] Instance round_trip_f64 : RoundTrip finite_ok json_f64 de_f64.
Proof. intros x Hx. unfold json_f64. by rewrite Hx. Qed.
#[export] Instance not_null_str : NotNull VString.
Proof. done. Qed.
#[export] Instance not_null_u64 : NotNull json_u64.
Proof. done. Qed.

#[export] Instance round_trip_option {A} (wf : A → Prop) enc dec :
  RoundTrip wf enc dec → NotNull enc →
  RoundTrip (from_option wf True) (json_opt enc) (de_option dec).
Proof.
  intros Hr Hn [a|] Ha; [|done]. unfold de_option, json_opt. by rewrite Hn, (Hr a Ha).
Qed.

#[export] Instance round_trip_vec {A} (wf : A → Prop) enc dec :
  RoundTrip wf enc dec → RoundTrip (Forall wf) (json_vec enc) (de_vec dec).
Proof.
  intros Hr l Hl. unfold de_vec, json_vec. cbn. apply mapM_Some.
  induction Hl; cbn; constructor; auto.
Qed.

Lemma foldl_insert {A} (kvs : list (string * A)) :
  foldl (λ (m : gmap string A) kv, <[kv.1 := kv.2]> m) ∅ kvs = list_to_map (reverse kvs).
Proof.
  induction kvs as [|kv kvs IH] using rev_ind; [done|].
  by rewrite foldl_app, reverse_snoc, IH.
Qed.

#[export] Instance round_trip_map {A} (wf : A → Prop) enc dec :
  RoundTrip wf enc dec → RoundTrip (map_Forall (λ _, wf)) (json_map enc) (de_hash_map dec).
Proof.
  intros Hr m Hm. unfold de_hash_map, json_map, json_struct. cbn.
  set (written := prod_map (λ k, k) enc <$> map_to_list m).
  assert (NoDup written.*1) as Hnd.
  { unfold written. rewrite <- list_fmap_compose.
    erewrite list_fmap_ext; [apply NoDup_fst_map_to_list|]. by intros ? [??]. }
  pose proof (object_of_perm written Hnd) as Hp.
  assert (∀ es, es ≡ₚ written → ∃ kvs, kvs ≡ₚ map_to_list m ∧
    mapM (λ kv : string * Value, pair kv.1 <$> dec kv.2) es = Some kvs) as Hread.
  { intros es He. unfold written in He.
    apply (Permutation_map_inv (prod_map (λ k : string, k) enc)) in He as (kvs & -> & Hk).
    exists kvs. split; [by symmetry|]. apply mapM_Some.
    assert (Forall (λ kv, wf kv.2) kvs) as Hwf.
    { rewrite <- Hk. apply Forall_forall. intros [k a] Hin%elem_of_map_to_list.
      by apply (Hm k a). }
    clear - Hr Hwf. induction Hwf as [|[k a] kvs Ha Hwf IH]; [constructor|].
    constructor; [|done]. cbn. by rewrite (Hr a Ha). }
  destruct (Hread _ Hp) as (kvs & Hk & ->). cbn. f_equal.
  rewrite foldl_insert. rewrite <- (list_to_map_to_list m). apply list_to_map_proper.
  - rewrite reverse_Permutation, Hk. apply NoDup_fst_map_to_list.
  - by rewrite reverse_Permutation.
Qed.

(** ** Field by field *)

Lemma bind_intro {A B} (o : option A) (k : A → option B) a r :
  o = Some a → k a = r → o ≫= k = r.
Proof. by intros ->. Qed.

Lemma field_json {A} (wf : A → Prop) enc dec name fields a :
  NoDup fields.*1 → map_get fields name = Some (enc a) → RoundTrip wf enc dec → wf a →
  field name dec (object_of fields) = Some a.
Proof.
  intros Hnd Hg Hr Hwf. unfold field. rewrite map_get_object_of, Hg by done.
  by apply (round_trip a).
Qed.

Lemma field_or_json {A} (wf : A → Prop) enc dec name d fields a :
  NoDup fields.*1 → map_get fields name = Some (enc a) → RoundTrip wf enc dec → wf a →
  field_or name d dec (object_of fields) = Some a.
Proof.
  intros Hnd Hg Hr Hwf. unfold field_or. rewrite map_get_object_of, Hg by done.
  by apply (round_trip a).
Qed.

(** Strings and booleans are always well-formed, and so is what is made of them alone. *)
Lemma any_option {A} (o : option A) : from_option any True o.
Proof. by destruct o. Qed.
Lemma any_vec {A} (l : list A) : Forall any l.
Proof. by apply Forall_forall. Qed.
Lemma any_map {A} (m : gmap string A) : map_Forall (λ _, any) m.
Proof. done. Qed.

(** Distinct names, by computation. *)
Ltac distinct_names := apply (bool_decide_unpack _); vm_compute; reflexivity.

Ltac well_formed :=
  first [ exact I | apply any_option | apply any_vec | apply any_map | solve [ intuition eauto ] ].

(** One field of a struct read back from what was written. *)
Ltac read_field :=
  eapply bind_intro;
  [ first [ eapply field_json | eapply field_or_json ];
    [ distinct_names | reflexivity | typeclasses eauto | well_formed ]
  | cbv beta ].

(** A struct read back from what was written. *)
Ltac read_struct :=
  rewrite ?de_struct_json, ?pick_json by first [ reflexivity | distinct_names ];
  cbn [mbind option_bind]; repeat read_field; reflexivity.
