(* ===== verification/Errors.v ===== *)
(** The error types of the gateway and their HTTP rendering.

    [StorageError] (gateway-storage/src/error.rs), [GatewayError]
    (gateway-core/src/error.rs) and [ApiError] (gateway-api/src/error.rs).
    A wrapped third-party error is represented by its rendered message. *)
From Stdlib Require Import ZArith Lia String.
From stdpp Require Import prelude strings list.
From S2P Require Import Prelude Text.
Open Scope Z_scope.

Inductive StorageError : Type :=
| SDatabase (msg : string)
| SMigration (msg : string)
| SSerde (msg : string)
| SNotFound
| SConflict (msg : string)
| SInvalid (msg : string)
| SUnavailable (msg : string)
| SIo (msg : string)
| SOther (msg : string).

Inductive GatewayError : Type :=
| Unauthorized
| Forbidden (msg : string)
| RateLimited
| NotFound
| NoRoute (ns : string)
| BadRequest (msg : string)
| ProviderUnknown (name : string)
| UpstreamTimeout
| UpstreamError (status : Z) (body : option string)
| Internal (msg : string)
| GStorage (e : StorageError)
| Http (msg : string)
| Serde (msg : string)
| Other (msg : string).

Inductive ApiError : Type :=
| AGateway (e : GatewayError)
| AStorage (e : StorageError)
| ABadRequest (msg : string)
| AUnauthorized.

Definition status_code (e : GatewayError) : Z :=
  match e with
  | Unauthorized => 401
  | Forbidden _ => 403
  | RateLimited => 429
  | NotFound => 404
  | NoRoute _ => 404
  | BadRequest _ => 400
  | ProviderUnknown _ => 400
  | UpstreamTimeout => 504
  | UpstreamError status _ => status
  | _ => 500
  end.

Definition classification (e : GatewayError) : string :=
  match e with
  | Unauthorized | Forbidden _ => "auth"
  | RateLimited => "rate_limited"
  | NoRoute _ => "not_found"
  | BadRequest _ | ProviderUnknown _ => "bad_request"
  | UpstreamTimeout => "timeout"
  | UpstreamError _ _ => "upstream_error"
  | _ => "gateway_error"
  end.

(** The [Display] texts of the [thiserror] attributes. *)
Definition storage_error_to_string (e : StorageError) : string :=
  match e with
  | SDatabase m => "database error: " +:+ m
  | SMigration m => "migration error: " +:+ m
  | SSerde m => "serialization error: " +:+ m
  | SNotFound => "not found"
  | SConflict m => "conflict: " +:+ m
  | SInvalid m => "invalid argument: " +:+ m
  | SUnavailable m => "backend unavailable: " +:+ m
  | SIo m => "io error: " +:+ m
  | SOther m => m
  end.

Section Display.
(** [{:?}] of an [Option<String>]. *)
Variable debug_body : option string → string.

Definition gateway_error_to_string (e : GatewayError) : string :=
  match e with
  | Unauthorized => "unauthorized"
  | Forbidden m => "forbidden: " +:+ m
  | RateLimited => "rate limited"
  | NotFound => "not found"
  | NoRoute n => "no route configured for namespace '" +:+ n +:+ "'"
  | BadRequest m => "invalid request: " +:+ m
  | ProviderUnknown n => "provider not configured: " +:+ n
  | UpstreamTimeout => "upstream timeout"
  | UpstreamError s b =>
      "upstream error: status=" +:+ dec_of s +:+ ", body=" +:+ debug_body b
  | Internal m => "internal: " +:+ m
  | GStorage e => storage_error_to_string e
  | Http m | Serde m | Other m => m
  end.

(** [StatusCode::from_u16(..).unwrap_or(INTERNAL_SERVER_ERROR)]. *)
Definition status_code_or_500 (s : Z) : Z :=
  if (100 <=? s) && (s <=? 999) then s else 500.

(** The triple [ApiError::into_response] renders: status, code, message. *)
Definition into_response (e : ApiError) : Z * string * string :=
  match e with
  | AGateway e =>
      (status_code_or_500 (status_code e), classification e,
       gateway_error_to_string e)
  | AStorage e => (500, "storage_error", storage_error_to_string e)
  | ABadRequest m => (400, "bad_request", m)
  | AUnauthorized => (401, "unauthorized", "unauthorized")
  end.
End Display.
