(* ===== verification/Models.v ===== *)
(** The records of gateway-storage/src/models.rs. *)
From Stdlib Require Import ZArith Lia String SpecFloat.
From stdpp Require Import prelude strings list.
From S2P Require Import Prelude Text F64 Json.
Open Scope Z_scope.

(** Unix milliseconds. *)
Abbreviation Timestamp := Z.

Record Project : Type := {
  project_row_id : string;
  project_name : string;
  project_created_at : Timestamp
}.

Record NewProject : Type := { np_id : string; np_name : string }.

Definition KEY_ORIGIN_ADMIN : string := "admin".
Definition KEY_ORIGIN_CONFIG : string := "config".

Record GatewayKeyRow : Type := {
  key_id : string;
  key_project_id : string;
  key_name : string;
  key_prefix : string;
  key_hash : bytes;
  key_last4 : string;
  key_scopes : list string;
  key_status : string;
  key_expires_at : option Timestamp;
  key_last_used_at : option Timestamp;
  key_created_at : Timestamp;
  key_revoked_at : option Timestamp;
  key_origin : string
}.

Record NewGatewayKey : Type := {
  nk_id : string;
  nk_project_id : string;
  nk_name : string;
  nk_prefix : string;
  nk_hash : bytes;
  nk_last4 : string;
  nk_scopes : list string;
  nk_expires_at : option Timestamp;
  nk_origin : string
}.

Record RoutesConfig : Type := { raw : Value }.

Record RequestLogRecord : Type := {
  id : string;
  project_id : string;
  gateway_key_id : option string;
  namespace : option string;
  model : option string;
  endpoint : option string;
  request_ts : Timestamp;
  duration_ms : option Z;
  upstream_ms : option Z;
  ttfb_ms : option Z;
  status : string;
  http_status : option Z;
  cached : bool;
  retry_count : Z;
  fallback_used : option string;
  prompt_tokens : option Z;
  completion_tokens : option Z;
  cached_tokens : option Z;
  total_tokens : option Z;
  cost_usd : option f64;
  would_have_cost_usd : option f64;
  metadata : option Value;
  client_ip : option string;
  user_agent : option string;
  error_message : option string;
  request_body : option string;
  response_body : option string
}.

Record RequestLogRow : Type := {
  row_id : string;
  row_project_id : string;
  row_gateway_key_id : option string;
  row_namespace : option string;
  row_model : option string;
  row_endpoint : option string;
  row_request_ts : Timestamp;
  row_duration_ms : option Z;
  row_status : string;
  row_http_status : option Z;
  row_cached : bool;
  row_retry_count : Z;
  row_prompt_tokens : option Z;
  row_completion_tokens : option Z;
  row_cost_usd : option f64;
  row_request_body : option string
}.

Record LogQuery : Type := {
  q_project_id : option string;
  q_gateway_key_id : option string;
  q_namespace : option string;
  q_model : option string;
  q_status : option string;
  q_from_ts : option Timestamp;
  q_to_ts : option Timestamp;
  q_limit : Z;
  q_cursor : option string
}.

(** [LogQuery::with_limit]: [limit.clamp(1, 500)]. *)
Definition with_limit (q : LogQuery) (limit : Z) : LogQuery :=
  {| q_project_id := q_project_id q; q_gateway_key_id := q_gateway_key_id q;
     q_namespace := q_namespace q; q_model := q_model q; q_status := q_status q;
     q_from_ts := q_from_ts q; q_to_ts := q_to_ts q;
     q_limit := Z.max 1 (Z.min limit 500); q_cursor := q_cursor q |}.

Record Page (T : Type) : Type := {
  items : list T;
  next_cursor : option string
}.
Arguments items {T} _.
Arguments next_cursor {T} _.

Inductive AggregateDimension : Type :=
| Namespace | Model | Day | Hour | GatewayKey.

#[export] Instance AggregateDimension_eq_dec : EqDecision AggregateDimension.
Proof. solve_decision. Defined.

Record AggregateQuery : Type := {
  aq_project_id : option string;
  aq_from_ts : option Timestamp;
  aq_to_ts : option Timestamp;
  aq_group_by : list AggregateDimension
}.

Record AggregateGroup : Type := {
  ag_key : Value;
  ag_requests : Z;
  ag_prompt_tokens : Z;
  ag_completion_tokens : Z;
  ag_cost_usd : f64;
  ag_cached_savings_usd : f64
}.

Record AggregateResult : Type := {
  groups : list AggregateGroup;
  total_cost_usd : f64
}.

Record PricingRow : Type := {
  pr_provider : string;
  pr_model : string;
  pr_input_per_1k : f64;
  pr_output_per_1k : f64;
  pr_cached_input_per_1k : option f64
}.

Record AdminUser : Type := {
  admin_id : string;
  admin_username : string;
  admin_password_hash : string;
  admin_created_at : Timestamp;
  admin_last_login_at : option Timestamp
}.

Record NewAdminUser : Type := {
  na_id : string;
  na_username : string;
  na_password_hash : string
}.

Record Budget : Type := {
  b_id : string;
  b_name : string;
  b_target_type : string;
  b_target_id : string;
  b_period : string;
  b_amount_usd : f64;
  b_thresholds : Value;
  b_status : string
}.

#[export] Instance spec_float_eq_dec : EqDecision spec_float.
Proof. solve_decision. Defined.
