(* ===== verification/Stores.v ===== *)
(** The storage interfaces of gateway-storage/src/traits.rs.

    Each trait is a class whose operations thread the store explicitly; what
    the clients rely on is stated as a separate class of laws, discharged by
    the in-memory implementation (MemoryMeta, MemoryLog, MemoryKv,
    MemoryCounter).  Two operations can panic: [kv_put], which adds a
    caller-chosen duration to an [Instant], and [append], which drops the oldest
    record of a full ring buffer. *)
From Stdlib Require Import ZArith Lia String SpecFloat.
From stdpp Require Import prelude gmap strings list.
From S2P Require Import Prelude Text F64 Json Errors Models.
Open Scope Z_scope.

Abbreviation store_result T := (result T StorageError).

Class MetadataStore (M : Type) : Type := {
  create_project : M → NewProject → store_result Project * M;
  get_project : M → string → store_result (option Project);
  list_projects : M → store_result (list Project);
  create_key : M → NewGatewayKey → store_result GatewayKeyRow * M;
  list_keys : M → string → store_result (list GatewayKeyRow);
  get_key : M → string → store_result (option GatewayKeyRow);
  find_key_by_hash : M → bytes → store_result (option GatewayKeyRow);
  revoke_key : M → string → store_result unit * M;
  touch_key_last_used : M → string → Timestamp → store_result unit * M;
  upsert_seeded_key : M → NewGatewayKey → store_result GatewayKeyRow * M;
  prune_seeded_keys_not_in : M → string → list string → store_result Z * M;
  upsert_routes : M → string → RoutesConfig → Z → store_result unit * M;
  load_routes : M → string → store_result (option (RoutesConfig * Z));
  upsert_budget : M → Budget → store_result unit * M;
  list_budgets : M → store_result (list Budget);
  get_budget : M → string → store_result (option Budget);
  upsert_pricing : M → PricingRow → store_result unit * M;
  list_pricing : M → store_result (list PricingRow);
  delete_pricing : M → string → string → store_result unit * M;
  create_admin_user : M → NewAdminUser → store_result AdminUser * M;
  find_admin_user : M → string → store_result (option AdminUser);
  list_admin_users : M → store_result (list AdminUser);
  touch_admin_last_login : M → string → Timestamp → store_result unit * M
}.

Class LogStore (L : Type) : Type := {
  append : RequestLogRecord → prog L (store_result unit);
  query : L → LogQuery → store_result (Page RequestLogRow);
  get_by_id : L → string → store_result (option RequestLogRecord);
  aggregate : L → AggregateQuery → store_result AggregateResult;
  purge_older_than : L → Timestamp → store_result Z * L;
  distinct_cost_keys :
    L → option Timestamp → option Timestamp → store_result (list (string * string));
  recompute_costs :
    L → string → string → f64 → f64 → f64 → option Timestamp → option Timestamp →
    store_result Z * L;
  flush : L → store_result unit * L
}.

Class KvStore (K : Type) : Type := {
  kv_get : K → string → store_result (option bytes) * K;
  (** time to live in seconds *)
  kv_put : string → bytes → Z → prog K (store_result unit);
  kv_delete : K → string → store_result unit * K
}.

(** A held concurrency slot: what the release closure captures. *)
Record ConcurrencyPermit : Type := { permit_key : string }.

Class CounterStore (C : Type) : Type := {
  incr_window : C → string → Z → Z → store_result Z * C;
  current : C → string → Z → store_result Z * C;
  try_acquire_concurrency :
    C → string → Z → store_result (option ConcurrencyPermit) * C;
  (** [ConcurrencyPermit::drop]: runs the closure the store put in the permit. *)
  release : C → ConcurrencyPermit → C;
  incr_budget : C → string → Timestamp → f64 → store_result f64 * C;
  read_budget : C → string → Timestamp → store_result f64 * C
}.

(** What the rate limiter relies on.  [live c k] is the number of slots in use
    for [k]; [charged c k w] is what has been added to the windows of length
    [w] of [k] so far, as an [i64]. *)
Class CounterLaws (C : Type) `{CounterStore C} : Type := {
  live : C → string → Z;
  charged : C → string → Z → Z;
  live_nonneg c k : 0 ≤ live c k;
  acquire_granted c k m p c' :
    try_acquire_concurrency c k m = (Ok (Some p), c') →
    permit_key p = k ∧ live c k < m ∧
    ∀ k', live c' k' = live c k' + (if String.eqb k' k then 1 else 0);
  acquire_denied c k m r c' :
    try_acquire_concurrency c k m = (r, c') → (∀ p, r ≠ Ok (Some p)) →
    (r = Ok None → m ≤ live c k) ∧ ∀ k', live c' k' = live c k';
  acquire_charged c k m k' w :
    charged (try_acquire_concurrency c k m).2 k' w = charged c k' w;
  release_live c p k' :
    0 < live c (permit_key p) →
    live (release c p) k' =
      live c k' - (if String.eqb k' (permit_key p) then 1 else 0);
  release_charged c p k' w : charged (release c p) k' w = charged c k' w;
  incr_window_live c k w b k' : live (incr_window c k w b).2 k' = live c k';
  incr_budget_live c b p d k' : live (incr_budget c b p d).2 k' = live c k';
  read_budget_live c b p k' : live (read_budget c b p).2 k' = live c k';
  incr_window_charged c k w b n c' k' w' :
    incr_window c k w b = (Ok n, c') →
    charged c' k' w' =
      as_i64 (charged c k' w' +
              (if String.eqb k' k && (w' =? w) then b else 0))
}.

(** What the budgets rely on: the spending of a budget in a period is a number
    that only its own increments change. *)
Class BudgetLaws (C : Type) `{CounterStore C} : Type := {
  spent : C → string → Timestamp → f64;
  read_budget_spec c b p :
    ∃ c', read_budget c b p = (Ok (spent c b p), c') ∧
          ∀ b' p', spent c' b' p' = spent c b' p';
  incr_budget_spec c b p d :
    ∃ c', incr_budget c b p d = (Ok (f64_add (spent c b p) d), c') ∧
          ∀ b' p', spent c' b' p' =
            (if String.eqb b' b && (p' =? p) then f64_add (spent c b p) d
             else spent c b' p')
}.

(** The row of a key after revocation, and after use. *)
Definition revoked_row (k : GatewayKeyRow) (t : Z) : GatewayKeyRow :=
  {| key_id := key_id k; key_project_id := key_project_id k; key_name := key_name k;
     key_prefix := key_prefix k; key_hash := key_hash k; key_last4 := key_last4 k;
     key_scopes := key_scopes k; key_status := "revoked";
     key_expires_at := key_expires_at k; key_last_used_at := key_last_used_at k;
     key_created_at := key_created_at k; key_revoked_at := Some t;
     key_origin := key_origin k |}.
Definition touched_row (k : GatewayKeyRow) (t : Z) : GatewayKeyRow :=
  {| key_id := key_id k; key_project_id := key_project_id k; key_name := key_name k;
     key_prefix := key_prefix k; key_hash := key_hash k; key_last4 := key_last4 k;
     key_scopes := key_scopes k; key_status := key_status k;
     key_expires_at := key_expires_at k; key_last_used_at := Some t;
     key_created_at := key_created_at k; key_revoked_at := key_revoked_at k;
     key_origin := key_origin k |}.

(** What key authentication, administration and seeding rely on: the store is a
    finite map of key rows, each under its own id ([keys_wf]). *)
Class KeyLaws (M : Type) `{MetadataStore M} : Type := {
  keys_of : M → gmap string GatewayKeyRow;
  keys_wf : M → Prop;
  keys_wf_id m : keys_wf m → ∀ i row, keys_of m !! i = Some row → key_id row = i;
  find_key_sound m h row :
    find_key_by_hash m h = Ok (Some row) →
    key_hash row = h ∧ ∃ i, keys_of m !! i = Some row;
  find_key_complete m h :
    find_key_by_hash m h = Ok None →
    ∀ i row, keys_of m !! i = Some row → key_hash row ≠ h;
  get_key_spec m i r : get_key m i = Ok r → keys_of m !! i = r;
  create_key_spec m k row m' :
    create_key m k = (Ok row, m') →
    key_id row = nk_id k ∧ key_project_id row = nk_project_id k ∧
    key_hash row = nk_hash k ∧ key_status row = "active" ∧
    key_origin row = nk_origin k ∧ key_expires_at row = nk_expires_at k ∧
    keys_of m' = <[nk_id k := row]> (keys_of m) ∧ (keys_wf m → keys_wf m');
  revoke_key_spec m i m' :
    revoke_key m i = (Ok (), m') →
    (∃ row ts, keys_of m !! i = Some row ∧
       keys_of m' = <[i := revoked_row row ts]> (keys_of m)) ∧ (keys_wf m → keys_wf m');
  touch_key_spec m i ts m' :
    touch_key_last_used m i ts = (Ok (), m') →
    match keys_of m !! i with
    | Some row => keys_of m' = <[i := touched_row row ts]> (keys_of m)
    | None => keys_of m' = keys_of m
    end ∧ (keys_wf m → keys_wf m');
  upsert_seeded_key_ok m k row m' :
    upsert_seeded_key m k = (Ok row, m') →
    (∀ old, keys_of m !! nk_id k = Some old → key_origin old = KEY_ORIGIN_CONFIG) ∧
    key_id row = nk_id k ∧ key_project_id row = nk_project_id k ∧
    key_hash row = nk_hash k ∧ key_status row = "active" ∧
    key_origin row = KEY_ORIGIN_CONFIG ∧ key_expires_at row = nk_expires_at k ∧
    keys_of m' = <[nk_id k := row]> (keys_of m) ∧ (keys_wf m → keys_wf m');
  upsert_seeded_key_err m k e m' :
    upsert_seeded_key m k = (Err e, m') →
    (∀ i, i ≠ nk_id k → keys_of m' !! i = keys_of m !! i) ∧ (keys_wf m → keys_wf m');
  prune_spec m p keep n m' :
    prune_seeded_keys_not_in m p keep = (Ok n, m') →
    (keys_wf m → keys_of m' =
      filter (λ kv, ¬ (key_project_id kv.2 = p ∧
                       key_origin kv.2 = KEY_ORIGIN_CONFIG ∧
                       key_id kv.2 ∉ keep)) (keys_of m)) ∧ (keys_wf m → keys_wf m');
  prune_err m p keep e m' :
    prune_seeded_keys_not_in m p keep = (Err e, m') → keys_of m' = keys_of m
}.
