(* ===== verification/Sql.v ===== *)
(** The SQL the stores send, as functions on tables: the schema of migrations/
    (SQLite and PostgreSQL declare the same tables, keys and references) and the
    statements of gateway-storage/src/sqlite and gateway-storage/src/postgres.

    A table is a finite map from its primary key.  A statement either changes the
    tables it names or, when a constraint is violated, changes nothing and
    fails.  The engine adds what no statement decides: the order in which rows
    without an [ORDER BY] come up ([HashOrder]), the text of its errors, and
    failures of its own, drawn from a stream that every writing operation
    advances. *)
From Stdlib Require Import ZArith Lia Bool String SpecFloat.
From stdpp Require Import prelude gmap strings list sorting.
From S2P Require Import Prelude Text F64 Json Errors Models Stores.
Open Scope Z_scope.

(** * The engine *)

Inductive DbError : Type :=
| UniqueViolation
| ForeignKeyViolation
| NotNullViolation
| RowNotFound
| EngineFailure (msg : string).

(** How an error prints: [sqlx::Error]'s [Display]. *)
Class SqlEngine : Type := { db_error_text : DbError → string }.

(** Whether the n-th statement from now on fails on its own. *)
Definition Faults : Type := nat → option DbError.
Definition reliable : Faults := λ _, None.

(** [From<sqlx::Error>] *)
Definition database_error `{SqlEngine} (e : DbError) : StorageError :=
  SDatabase (db_error_text e).

(** [serde_json::to_string] and [from_str]. *)
Definition to_text `{SerdeJson} (v : Value) : string := str_of_bytes (to_vec v).
Definition from_text `{SerdeJson} (s : string) : option Value := from_slice (str_bytes s).
Definition serde_error : StorageError := SSerde "json".

(** A [Vec<String>] and back. *)
Definition strings_text `{SerdeJson} (l : list string) : string :=
  to_text (VArray (VString <$> l)).
Definition text_strings `{SerdeJson} (s : string) : option (list string) :=
  v ← from_text s; vs ← as_array v; mapM as_str vs.

(** A value without numbers that print inexactly. *)
Fixpoint exact (v : Value) : bool :=
  match v with
  | VNumber (Float _) => false
  | VNumber _ | VNull | VBool _ | VString _ => true
  | VArray vs => forallb exact vs
  | VObject m => forallb (λ kv, exact kv.2) m
  end.

(** What serde_json guarantees: such a value reads back as it was written, and no
    value prints as nothing. *)
Class SerdeLaws `{SerdeJson} : Prop := {
  text_roundtrip v : exact v = true → from_text (to_text v) = Some v;
  text_nonempty v : to_text v ≠ ""%string
}.

Lemma strings_roundtrip `{SerdeLaws} l : text_strings (strings_text l) = Some l.
Proof.
  unfold text_strings, strings_text. rewrite text_roundtrip; simpl.
  - apply mapM_Some. induction l; by constructor.
  - induction l; simpl; auto.
Qed.

(** * Queries *)

(** The rows of a table, in the engine's order. *)
Definition scan `{HashOrder} {K V} `{Countable K} (t : gmap K V) : list V := hash_values t.

(** [SELECT .. WHERE p] *)
Definition select_where {V} (p : V → bool) (rows : list V) : list V := List.filter p rows.

(** [ORDER BY k ASC], and [DESC]. *)
Definition ascending {V} (k : V → Z) : relation V := λ a b, k a ≤ k b.
Definition descending {V} (k : V → Z) : relation V := λ a b, k b ≤ k a.
#[export] Instance ascending_dec {V} (k : V → Z) : RelDecision (ascending k).
Proof. intros a b. unfold ascending. apply _. Defined.
#[export] Instance descending_dec {V} (k : V → Z) : RelDecision (descending k).
Proof. intros a b. unfold descending. apply _. Defined.

Definition order_by {V} (R : relation V) `{!RelDecision R} (rows : list V) : list V :=
  merge_sort R rows.

(** [UPDATE .. WHERE key = k]: the number of rows affected, and the table. *)
Definition update_at {K V} `{Countable K} (k : K) (f : V → V) (t : gmap K V) :
    Z * gmap K V :=
  match t !! k with Some v => (1, <[k := f v]> t) | None => (0, t) end.

(** [DELETE .. WHERE p]: likewise. *)
Definition delete_where {K V} `{Countable K} (p : K → V → bool) (t : gmap K V) :
    Z * gmap K V :=
  (Z.of_nat (size (filter (λ kv, p kv.1 kv.2 = true) t)),
   filter (λ kv, p kv.1 kv.2 = false) t).

(** [INSERT]: the key must be new. *)
Definition insert_new {K V} `{Countable K} (k : K) (v : V) (t : gmap K V) :
    result (gmap K V) DbError :=
  match t !! k with Some _ => Err UniqueViolation | None => Ok (<[k := v]> t) end.

(** [INSERT .. ON CONFLICT(key) DO UPDATE SET ..]: [merge old new]. *)
Definition insert_or {K V} `{Countable K} (k : K) (v : V) (merge : V → V → V)
    (t : gmap K V) : gmap K V :=
  match t !! k with Some old => <[k := merge old v]> t | None => <[k := v]> t end.

(** * The tables of the metadata store *)

Record KeyRecord : Type := {
  kc_id : string;
  kc_project_id : string;
  kc_name : string;
  kc_prefix : string;
  kc_hash : bytes;
  kc_last4 : string;
  (** JSON *)
  kc_scopes : string;
  kc_status : string;
  kc_expires_at : option Timestamp;
  kc_last_used_at : option Timestamp;
  kc_created_at : Timestamp;
  kc_revoked_at : option Timestamp;
  kc_origin : string
}.

Record RouteRecord : Type := {
  rc_config : string;
  rc_version : Z;
  rc_updated_at : Timestamp
}.

Record BudgetRecord : Type := {
  bc_id : string;
  bc_name : string;
  bc_target_type : string;
  bc_target_id : string;
  bc_period : string;
  bc_amount_usd : f64;
  bc_thresholds : string;
  bc_status : string
}.

Record SqlDb : Type := {
  t_projects : gmap string Project;
  t_keys : gmap string KeyRecord;
  t_routes : gmap string RouteRecord;
  (** by provider, model and [effective_from] *)
  t_pricing : gmap (string * string * Z) PricingRow;
  t_budgets : gmap string BudgetRecord;
  t_admins : gmap string AdminUser;
  db_faults : Faults;
  db_utc : Clock
}.

(** After the migrations. *)
Definition db_new (f : Faults) (clk : Clock) : SqlDb :=
  {| t_projects := ∅; t_keys := ∅; t_routes := ∅; t_pricing := ∅; t_budgets := ∅;
     t_admins := ∅; db_faults := f; db_utc := clk |}.

Definition set_t_projects (d : SqlDb) x : SqlDb :=
  {| t_projects := x; t_keys := t_keys d; t_routes := t_routes d;
     t_pricing := t_pricing d; t_budgets := t_budgets d; t_admins := t_admins d;
     db_faults := db_faults d; db_utc := db_utc d |}.
Definition set_t_keys (d : SqlDb) x : SqlDb :=
  {| t_projects := t_projects d; t_keys := x; t_routes := t_routes d;
     t_pricing := t_pricing d; t_budgets := t_budgets d; t_admins := t_admins d;
     db_faults := db_faults d; db_utc := db_utc d |}.
Definition set_t_routes (d : SqlDb) x : SqlDb :=
  {| t_projects := t_projects d; t_keys := t_keys d; t_routes := x;
     t_pricing := t_pricing d; t_budgets := t_budgets d; t_admins := t_admins d;
     db_faults := db_faults d; db_utc := db_utc d |}.
Definition set_t_pricing (d : SqlDb) x : SqlDb :=
  {| t_projects := t_projects d; t_keys := t_keys d; t_routes := t_routes d;
     t_pricing := x; t_budgets := t_budgets d; t_admins := t_admins d;
     db_faults := db_faults d; db_utc := db_utc d |}.
Definition set_t_budgets (d : SqlDb) x : SqlDb :=
  {| t_projects := t_projects d; t_keys := t_keys d; t_routes := t_routes d;
     t_pricing := t_pricing d; t_budgets := x; t_admins := t_admins d;
     db_faults := db_faults d; db_utc := db_utc d |}.
Definition set_t_admins (d : SqlDb) x : SqlDb :=
  {| t_projects := t_projects d; t_keys := t_keys d; t_routes := t_routes d;
     t_pricing := t_pricing d; t_budgets := t_budgets d; t_admins := x;
     db_faults := db_faults d; db_utc := db_utc d |}.

(** [now_ms()] *)
Definition db_now_ms (d : SqlDb) : Z * SqlDb :=
  (now (db_utc d),
   {| t_projects := t_projects d; t_keys := t_keys d; t_routes := t_routes d;
      t_pricing := t_pricing d; t_budgets := t_budgets d; t_admins := t_admins d;
      db_faults := db_faults d; db_utc := tick (db_utc d) |}).

(** * Running statements *)

(** A statement that reads: the engine may fail instead. *)
Definition fetch {A} (d : SqlDb) (f : SqlDb → A) : result A DbError :=
  match db_faults d 0%nat with Some e => Err e | None => Ok (f d) end.

Definition next_faults (d : SqlDb) : SqlDb :=
  {| t_projects := t_projects d; t_keys := t_keys d; t_routes := t_routes d;
     t_pricing := t_pricing d; t_budgets := t_budgets d; t_admins := t_admins d;
     db_faults := λ n, db_faults d (S n); db_utc := db_utc d |}.

(** The operations that write: a state and error monad. *)
Definition db (A : Type) : Type := SqlDb → store_result A * SqlDb.
Definition db_ret {A} (a : A) : db A := λ d, (Ok a, d).
Definition db_fail {A} (e : StorageError) : db A := λ d, (Err e, d).
Definition db_bind {A B} (m : db A) (k : A → db B) : db B :=
  λ d, match m d with (Ok a, d) => k a d | (Err e, d) => (Err e, d) end.
Notation "'let*' x ':=' m 'in' k" :=
  (db_bind m (λ x, k))
  (at level 200, x pattern, m at level 100, k at level 200) : gateway_scope.

Definition db_clock : db Z := λ d, let '(t, d) := db_now_ms d in (Ok t, d).

(** One statement: it is applied whole or not at all, and how it failed is kept
    for the caller ([sqlx::Error]). *)
Definition execute {A} (f : SqlDb → result (A * SqlDb) DbError) :
    db (result A DbError) := λ d,
  match db_faults d 0%nat with
  | Some e => (Ok (Err e), next_faults d)
  | None =>
      match f (next_faults d) with
      | Ok (a, d) => (Ok (Ok a), d)
      | Err e => (Ok (Err e), next_faults d)
      end
  end.

(** The same with [?]. *)
Definition statement `{SqlEngine} {A} (f : SqlDb → result (A * SqlDb) DbError) : db A :=
  let* r := execute f in
  match r with Ok a => db_ret a | Err e => db_fail (database_error e) end.

(** A [SELECT] within a writing operation. *)
Definition query_with `{SqlEngine} {A} (f : SqlDb → A) : db A :=
  statement (λ d, Ok (f d, d)).

(** An operation that only reads. *)
Definition reading `{SqlEngine} {A} (f : SqlDb → A) (d : SqlDb) : store_result A :=
  map_err database_error (fetch d f).
