(* ===== verification/Codec.v ===== *)
(** A concrete JSON codec that satisfies the laws of [SerdeLaws]: values as trees,
    trees as binary numerals.  The examples of the SQL stores run on it. *)
From Stdlib Require Import ZArith Lia Bool String Ascii SpecFloat.
From stdpp Require Import prelude countable gmap strings list.
From S2P Require Import Prelude Text F64 Json Errors Models Stores Sql.
Open Scope Z_scope.

(** * Values as trees *)

Definition leaf : Type := bool + (Z + Z) + string.

Fixpoint value_tree (v : Value) : gen_tree leaf :=
  match v with
  | VNull | VNumber (Float _) => GenNode 0 []
  | VBool b => GenLeaf (inl (inl b))
  | VNumber (PosInt n) => GenLeaf (inl (inr (inl n)))
  | VNumber (NegInt n) => GenLeaf (inl (inr (inr n)))
  | VString s => GenLeaf (inr s)
  | VArray vs => GenNode 1 (value_tree <$> vs)
  | VObject m => GenNode 2 ((λ kv, GenNode 3 [GenLeaf (inr kv.1); value_tree kv.2]) <$> m)
  end.

Fixpoint tree_value (t : gen_tree leaf) : Value :=
  match t with
  | GenLeaf (inl (inl b)) => VBool b
  | GenLeaf (inl (inr (inl n))) => VNumber (PosInt n)
  | GenLeaf (inl (inr (inr n))) => VNumber (NegInt n)
  | GenLeaf (inr s) => VString s
  | GenNode 1 ts => VArray (tree_value <$> ts)
  | GenNode 2 ts => VObject
      ((λ t, match t with
             | GenNode _ [GenLeaf (inr k); v] => (k, tree_value v)
             | _ => (""%string, VNull)
             end) <$> ts)
  | GenNode _ _ => VNull
  end.

Lemma tree_value_tree v : exact v = true → tree_value (value_tree v) = v.
Proof.
  induction v as [|b|n|s|vs IH|m IH] using Value_ind'; intros He; simpl; try done.
  - by destruct n.
  - f_equal. rewrite <- list_fmap_compose. simpl in He.
    induction IH as [|v vs Hv _ IH]; [done|]. simpl in He. apply andb_true_iff in He as [He Hes].
    cbn. f_equal; [by apply Hv|by apply IH].
  - f_equal. rewrite <- list_fmap_compose. simpl in He.
    induction IH as [|[k v] m Hv _ IH]; [done|]. simpl in He.
    apply andb_true_iff in He as [He Hes]. cbn in *. f_equal; [by rewrite Hv|by apply IH].
Qed.

(** * Trees as text *)

Fixpoint numeral (p : positive) : string :=
  match p with
  | xH => "."
  | xO p => String "0" (numeral p)
  | xI p => String "1" (numeral p)
  end.

Fixpoint read_numeral (s : string) : positive :=
  match s with
  | EmptyString => xH
  | String c s =>
      if Ascii.eqb c "0" then xO (read_numeral s)
      else if Ascii.eqb c "1" then xI (read_numeral s) else xH
  end.

Lemma read_numeral_numeral p : read_numeral (numeral p) = p.
Proof. induction p; cbn; by f_equal. Qed.

#[local] Instance codec : SerdeJson := {
  from_slice b := tree_value <$> decode (read_numeral (str_of_bytes b));
  to_vec v := str_bytes (numeral (encode (value_tree v)));
  number_to_string n := match n with Float _ => "" | PosInt z | NegInt z => pretty z end
}.

#[local] Instance codec_laws : SerdeLaws.
Proof.
  constructor; [intros v He|intros v; unfold to_text, to_vec, codec, str_bytes, str_of_bytes;
    rewrite String.string_of_list_byte_of_string; by destruct (encode _)]. unfold from_text, to_text, from_slice, to_vec, codec.
  unfold str_bytes, str_of_bytes. rewrite !String.string_of_list_byte_of_string.
  rewrite read_numeral_numeral, decode_encode. cbn [fmap option_fmap option_map]. by rewrite tree_value_tree.
Qed.
