(* ===== verification/MemoryCounter.v ===== *)
(** [MemoryCounterStore] (gateway-storage/src/memory/mod.rs): window counters,
    concurrency slots and budget totals behind mutexes, and the proof that it
    satisfies the interface the rate limiter relies on. *)
From Stdlib Require Import ZArith Lia String SpecFloat.
From stdpp Require Import prelude gmap strings list.
From S2P Require Import Prelude Text F64 Json Errors Models Stores.
Open Scope Z_scope.

Record MemoryCounterStore : Type := {
  (** (key, window length, bucket index) *)
  windows : gmap (string * Z * Z) Z;
  (** [u32] counts *)
  concurrency : gmap string N;
  budgets : gmap (string * Timestamp) f64;
  utc : Clock
}.

Definition counter_new (clk : Clock) : MemoryCounterStore :=
  {| windows := ∅; concurrency := ∅; budgets := ∅; utc := clk |}.

(** [now / window_ms.max(1)]. *)
Definition bucket_of (now_ms window_ms : Z) : Z :=
  as_u64 now_ms / Z.max window_ms 1.

Definition mem_incr_window (c : MemoryCounterStore) (key : string)
    (window_ms by_ : Z) : store_result Z * MemoryCounterStore :=
  let bucket := bucket_of (now (utc c)) window_ms in
  let slot := (key, window_ms, bucket) in
  let entry := as_i64 (default 0 (windows c !! slot) + by_) in
  (Ok entry,
   {| windows := <[slot := entry]> (windows c); concurrency := concurrency c;
      budgets := budgets c; utc := tick (utc c) |}).

Definition mem_current (c : MemoryCounterStore) (key : string) (window_ms : Z) :
    store_result Z * MemoryCounterStore :=
  let bucket := bucket_of (now (utc c)) window_ms in
  (Ok (default 0 (windows c !! (key, window_ms, bucket))),
   {| windows := windows c; concurrency := concurrency c; budgets := budgets c;
      utc := tick (utc c) |}).

Definition set_concurrency (c : MemoryCounterStore) (m : gmap string N) :
    MemoryCounterStore :=
  {| windows := windows c; concurrency := m; budgets := budgets c; utc := utc c |}.

Definition mem_try_acquire (c : MemoryCounterStore) (key : string) (max : Z) :
    store_result (option ConcurrencyPermit) * MemoryCounterStore :=
  let cur := default 0%N (concurrency c !! key) in
  if max <=? Z.of_N cur
  then (Ok None, set_concurrency c (<[key := cur]> (concurrency c)))
  else (Ok (Some {| permit_key := key |}),
        set_concurrency c (<[key := (cur + 1)%N]> (concurrency c))).

Definition mem_release (c : MemoryCounterStore) (p : ConcurrencyPermit) :
    MemoryCounterStore :=
  match concurrency c !! permit_key p with
  | Some n => set_concurrency c (<[permit_key p := (n - 1)%N]> (concurrency c))
  | None => c
  end.

Definition mem_incr_budget (c : MemoryCounterStore) (budget_id : string)
    (period_start : Timestamp) (delta : f64) :
    store_result f64 * MemoryCounterStore :=
  let entry :=
    f64_add (default f64_zero (budgets c !! (budget_id, period_start))) delta in
  (Ok entry,
   {| windows := windows c; concurrency := concurrency c;
      budgets := <[(budget_id, period_start) := entry]> (budgets c);
      utc := utc c |}).

Definition mem_read_budget (c : MemoryCounterStore) (budget_id : string)
    (period_start : Timestamp) : store_result f64 * MemoryCounterStore :=
  (Ok (default f64_zero (budgets c !! (budget_id, period_start))), c).

#[export] Instance memory_counter : CounterStore MemoryCounterStore := {
  incr_window := mem_incr_window;
  current := mem_current;
  try_acquire_concurrency := mem_try_acquire;
  release := mem_release;
  incr_budget := mem_incr_budget;
  read_budget := mem_read_budget
}.

(** * The interface laws *)

(** Everything added to the windows of length [w] of [k]. *)
Definition slot_share (k : string) (w : Z) (slot : string * Z * Z) (v : Z) : Z :=
  if String.eqb k slot.1.1 && (w =? slot.1.2) then v else 0.
Definition window_sum (m : gmap (string * Z * Z) Z) (k : string) (w : Z) : Z :=
  map_fold (λ slot v acc, acc + slot_share k w slot v) 0 m.

Lemma as_i64_congr_r x y : as_i64 (x + as_i64 y) = as_i64 (x + y).
Proof.
  rewrite (Z.add_comm x (as_i64 y)), as_i64_add_l. f_equal. lia.
Qed.

Lemma window_sum_fresh m k w slot v :
  m !! slot = None →
  window_sum (<[slot := v]> m) k w = window_sum m k w + slot_share k w slot v.
Proof.
  intros Hm. unfold window_sum.
  rewrite map_fold_insert_L; [lia|intros; lia|done].
Qed.

Lemma window_sum_insert m k w slot v :
  window_sum (<[slot := v]> m) k w =
  window_sum m k w + slot_share k w slot (v - default 0 (m !! slot)).
Proof.
  destruct (m !! slot) as [old|] eqn:Hm; simpl.
  - assert (Hsum : window_sum m k w =
      window_sum (delete slot m) k w + slot_share k w slot old).
    { rewrite <- (insert_delete_id m slot old Hm) at 1.
      apply window_sum_fresh, lookup_delete_eq. }
    rewrite <- insert_delete_eq, window_sum_fresh by apply lookup_delete_eq.
    rewrite Hsum. unfold slot_share. case_match; lia.
  - rewrite window_sum_fresh by done. by rewrite Z.sub_0_r.
Qed.

Definition live_count (c : MemoryCounterStore) (k : string) : Z :=
  Z.of_N (default 0%N (concurrency c !! k)).

Lemma live_set_concurrency c k n k' :
  live_count (set_concurrency c (<[k := n]> (concurrency c))) k' =
  if String.eqb k' k then Z.of_N n else live_count c k'.
Proof.
  unfold live_count. simpl. destruct (String.eqb_spec k' k) as [->|Hne].
  - by rewrite lookup_insert_eq.
  - by rewrite lookup_insert_ne.
Qed.

Lemma mem_acquire_granted c k m p c' :
  mem_try_acquire c k m = (Ok (Some p), c') →
  permit_key p = k ∧ live_count c k < m ∧
  ∀ k', live_count c' k' = live_count c k' + (if String.eqb k' k then 1 else 0).
Proof.
  unfold mem_try_acquire. case_match eqn:Hle; [done|]. intros [= <- <-].
  apply Z.leb_gt in Hle. split; [done|split; [done|]]. intros k'.
  rewrite live_set_concurrency. unfold live_count.
  destruct (String.eqb_spec k' k) as [->|]; lia.
Qed.

Lemma mem_acquire_denied c k m r c' :
  mem_try_acquire c k m = (r, c') → (∀ p, r ≠ Ok (Some p)) →
  (r = Ok None → m ≤ live_count c k) ∧ ∀ k', live_count c' k' = live_count c k'.
Proof.
  unfold mem_try_acquire. case_match eqn:Hle.
  - apply Z.leb_le in Hle. intros [= <- <-] _. split; [done|]. intros k'.
    rewrite live_set_concurrency. unfold live_count.
    destruct (String.eqb_spec k' k) as [->|]; done.
  - intros [= <- <-] Hr. by destruct (Hr {| permit_key := k |}).
Qed.

Lemma mem_release_live c p k' :
  0 < live_count c (permit_key p) →
  live_count (mem_release c p) k' =
  live_count c k' - (if String.eqb k' (permit_key p) then 1 else 0).
Proof.
  unfold mem_release. destruct (concurrency c !! permit_key p) as [n|] eqn:Hn.
  - intros Hpos. rewrite live_set_concurrency.
    destruct (String.eqb_spec k' (permit_key p)) as [->|]; [|lia].
    revert Hpos. unfold live_count. rewrite Hn. simpl. lia.
  - unfold live_count. rewrite Hn. simpl. lia.
Qed.

Lemma mem_incr_window_charged c k w b n c' k' w' :
  mem_incr_window c k w b = (Ok n, c') →
  as_i64 (window_sum (windows c') k' w') =
  as_i64 (as_i64 (window_sum (windows c) k' w') +
          (if String.eqb k' k && (w' =? w) then b else 0)).
Proof.
  unfold mem_incr_window. intros [= _ <-]. simpl.
  rewrite window_sum_insert, as_i64_add_l. unfold slot_share. simpl.
  destruct (String.eqb k' k && (w' =? w)); [|done].
  set (old := default 0 _). set (s := window_sum _ _ _).
  replace (s + (as_i64 (old + b) - old)) with ((s - old) + as_i64 (old + b)) by lia.
  rewrite as_i64_congr_r. f_equal. lia.
Qed.

#[export] Instance memory_counter_laws : CounterLaws MemoryCounterStore.
Proof.
  refine {| live := live_count;
            charged c k w := as_i64 (window_sum (windows c) k w) |}; simpl.
  - intros c k. unfold live_count. lia.
  - exact mem_acquire_granted.
  - exact mem_acquire_denied.
  - intros c k m k' w. unfold mem_try_acquire. by case_match.
  - exact mem_release_live.
  - intros c p k' w. unfold mem_release. by case_match.
  - done.
  - done.
  - done.
  - exact mem_incr_window_charged.
Defined.

#[export] Instance memory_budget_laws : BudgetLaws MemoryCounterStore.
Proof.
  refine {| spent c b p := default f64_zero (budgets c !! (b, p)) |}; simpl.
  - intros c b p. by eexists.
  - intros c b p d. eexists. split; [done|]. intros b' p'. simpl.
    destruct (String.eqb_spec b' b) as [->|Hb]; simpl.
    2: { by rewrite lookup_insert_ne by congruence. }
    destruct (Z.eqb_spec p' p) as [->|Hp].
    + by rewrite lookup_insert_eq.
    + by rewrite lookup_insert_ne by congruence.
Defined.
