(* ===== verification/Pools.v ===== *)
(** How the databases and servers are opened: gateway-storage/src/sqlite/pool.rs and mod.rs,
    postgres/mod.rs, redis/mod.rs.  The file system, the drivers and the migrations are
    parameters; what the code asks of them, in which order, is not. *)
From Stdlib Require Import ZArith Lia Bool Ascii String.
From stdpp Require Import prelude strings list.
From S2P Require Import Prelude Text Decimal Errors Models Stores.
Open Scope Z_scope.

(** * sqlite/pool.rs *)

Record SqlitePoolConfig : Type := {
  pool_path : string;
  max_connections : Z;
  busy_timeout_s : Z;
  cache_size_kb : Z;
  mmap_size : Z
}.

Definition sqlite_pool_config_new (path : string) : SqlitePoolConfig :=
  {| pool_path := path; max_connections := 8; busy_timeout_s := 5;
     cache_size_kb := 64 * 1024; mmap_size := 256 * 1024 * 1024 |}.

(** What a path's file system answers; [fs_parent] is [Path::parent]. *)
Class FileSystem (F : Type) : Type := {
  fs_parent : string → option string;
  fs_create_dir_all : F → string → result unit string * F;
  fs_exists : F → string → bool;
  fs_readonly : F → string → result bool string
}.

(** The options a pool is opened with. *)
Record ConnectOptions : Type := {
  co_url : string;
  co_create_if_missing : bool;
  co_journal_mode : string;
  co_synchronous : string;
  co_busy_timeout_s : Z;
  co_foreign_keys : bool;
  co_pragmas : list (string * string);
  co_max_connections : Z;
  co_acquire_timeout_s : Z
}.

(** The driver: [SqliteConnectOptions::from_str], [connect_with], the embedded migrations. *)
Class SqliteDriver (F P : Type) : Type := {
  sqlite_url : string → result unit string;
  sqlite_connect : F → ConnectOptions → result P string;
  sqlite_migrate : P → result P string
}.

Section Sqlite.
Context `{FileSystem F} `{SqliteDriver F P}.

(** The parent directory, when the path names one. *)
Definition named_parent (path : string) : option string :=
  parent ← fs_parent path; if str_is_empty parent then None else Some parent.

Definition ensure_writable (fs : F) (path : string) : store_result unit :=
  match named_parent path with
  | Some parent =>
      if fs_exists fs parent then
        let? readonly := map_err SIo (fs_readonly fs parent) in
        guard_err readonly
          (SInvalid ("sqlite parent directory is read-only: " +:+ parent)%string)
      else Ok ()
  | None => Ok ()
  end.

Definition connect_options (cfg : SqlitePoolConfig) (url : string) : ConnectOptions :=
  {| co_url := url; co_create_if_missing := true; co_journal_mode := "wal";
     co_synchronous := "normal"; co_busy_timeout_s := busy_timeout_s cfg;
     co_foreign_keys := true;
     co_pragmas := [("cache_size", "-" +:+ dec_of (cache_size_kb cfg)); ("temp_store", "MEMORY");
                    ("mmap_size", dec_of (mmap_size cfg))]%string;
     co_max_connections := max_connections cfg; co_acquire_timeout_s := 10 |}.

(** The directory is created first; that it could not be is not an error by itself. *)
Definition open_sqlite_pool (cfg : SqlitePoolConfig) (fs : F) : store_result P * F :=
  let fs := match named_parent (pool_path cfg) with
            | Some parent => (fs_create_dir_all fs parent).2
            | None => fs
            end in
  (let? _ := ensure_writable fs (pool_path cfg) in
   let url := ("sqlite://" +:+ pool_path cfg)%string in
   let? _ := map_err SDatabase (sqlite_url url) in
   map_err SDatabase (sqlite_connect fs (connect_options cfg url)), fs).

Definition run_migrations (pool : P) : store_result P := map_err SMigration (sqlite_migrate pool).

(** [SqliteBackend::open] *)
Definition sqlite_open (cfg : SqlitePoolConfig) (fs : F) : store_result P * F :=
  let '(r, fs) := open_sqlite_pool cfg fs in (let? pool := r in run_migrations pool, fs).

(** A database in a directory that is read-only is never connected to. *)
Lemma open_readonly cfg fs parent :
  named_parent (pool_path cfg) = Some parent →
  let fs' := (fs_create_dir_all fs parent).2 in
  fs_exists fs' parent = true → fs_readonly fs' parent = Ok true →
  sqlite_open cfg fs =
    (Err (SInvalid ("sqlite parent directory is read-only: " +:+ parent)%string), fs').
Proof.
  intros Hp fs' He Hr. unfold sqlite_open, open_sqlite_pool, ensure_writable.
  rewrite Hp. fold fs'. by rewrite He, Hr.
Qed.

(** One that was opened enforces references (which the stores rely on), is a WAL database
    made if it was missing, and has been migrated. *)
Lemma open_Ok cfg fs pool fs' :
  sqlite_open cfg fs = (Ok pool, fs') →
  ∃ opened opts, sqlite_connect fs' opts = Ok opened ∧ sqlite_migrate opened = Ok pool ∧
    co_foreign_keys opts = true ∧ co_create_if_missing opts = true ∧
    co_journal_mode opts = "wal"%string ∧
    co_url opts = ("sqlite://" +:+ pool_path cfg)%string ∧
    co_max_connections opts = max_connections cfg.
Proof.
  unfold sqlite_open, open_sqlite_pool, run_migrations. intros [= Hr <-].
  destruct (ensure_writable _ _) as [[]|e]; [|done]. simpl in Hr.
  destruct (sqlite_url _) as [[]|e]; [|done]. simpl in Hr.
  destruct (sqlite_connect _ _) as [opened|e] eqn:Hc; [|done]. simpl in Hr.
  destruct (sqlite_migrate opened) as [p|e] eqn:Hm; [|done]. injection Hr as ->.
  by exists opened, (connect_options cfg ("sqlite://" +:+ pool_path cfg)).
Qed.
End Sqlite.

(** * postgres/mod.rs *)

Record PostgresConfig : Type := { pg_url : string; pg_max_connections : Z }.

Class PgDriver (P : Type) : Type := {
  (** url, connections, seconds to acquire one *)
  pg_connect : string → Z → Z → result P string;
  pg_migrate : P → result P string
}.

Definition postgres_open `{PgDriver P} (cfg : PostgresConfig) : store_result P :=
  let? pool := map_err SDatabase (pg_connect (pg_url cfg) (pg_max_connections cfg) 10) in
  map_err SMigration (pg_migrate pool).

(** * redis/mod.rs *)

Class RedisDriver (Cl R : Type) : Type := {
  redis_client : string → result Cl string;
  redis_manager : Cl → result R string
}.

Definition redis_connect `{RedisDriver Cl R} (url : string) : store_result R :=
  let? client := map_err (λ e, SUnavailable ("redis open: " +:+ e)%string) (redis_client url) in
  map_err (λ e, SUnavailable ("redis connect: " +:+ e)%string) (redis_manager client).
