(* ===== verification/Config.v ===== *)
(** The YAML configuration: gateway-core/src/config.rs.

    The records are the serde structs with their defaults; [validate] is the
    check every load and hot reload runs.  What a document must hold to be a configuration
    is in ConfigSerde; the syntax of YAML and reading the file are outside the model. *)
From Stdlib Require Import ZArith Lia String SpecFloat.
From stdpp Require Import prelude gmap strings list.
From S2P Require Import Prelude Text F64 Errors.
Open Scope Z_scope.

Record ServerConfig : Type := {
  bind : string;
  request_timeout_ms : Z;
  default_project_id : string
}.
Definition default_server : ServerConfig :=
  {| bind := "0.0.0.0:8080"; request_timeout_ms := 600000;
     default_project_id := "default" |}.

Record SqliteConfig : Type := {
  sqlite_path : string;
  max_size_mb : Z;
  log_retention_days : Z
}.
Definition default_sqlite : SqliteConfig :=
  {| sqlite_path := "./data/gateway.db"; max_size_mb := 10240;
     log_retention_days := 30 |}.

Record PostgresConfig : Type := { pg_url : string; max_connections : Z }.
Definition default_pg_max_connections : Z := 32.
Record RedisConfig : Type := { redis_url : string }.

Record CacheConfig : Type := { l1_memory_mb : Z; l2_max_size_mb : Z }.
Definition default_cache_config : CacheConfig :=
  {| l1_memory_mb := 256; l2_max_size_mb := 1024 |}.

Inductive StorageConfig : Type :=
| Lite (sqlite : SqliteConfig) (cache : CacheConfig)
| Standard (postgres : PostgresConfig) (redis : RedisConfig) (cache : CacheConfig)
| Memory (cache : CacheConfig).

Definition profile_name (s : StorageConfig) : string :=
  match s with
  | Lite _ _ => "lite"
  | Standard _ _ _ => "standard"
  | Memory _ => "memory"
  end.

Record AdminConfig : Type := { root_token : string; password_login : bool }.
Definition default_root_token : string := "env://GATEWAY_ROOT_TOKEN".

Record ProviderConfig : Type := {
  kind : option string;
  base_url : string;
  credential : string;
  headers : gmap string string
}.

Record RouteMatch : Type := {
  match_namespace : option string;
  model_prefix : option string
}.

Record RouteTarget : Type := {
  provider : string;
  target_model : option string;
  trigger : list string
}.

Record RouteCacheConfig : Type := {
  enabled : bool;
  ttl : Z;
  allow_nondeterministic : bool
}.
Definition default_cache_ttl : Z := 3600.

Record RouteRetryConfig : Type := {
  max_attempts : Z;
  initial_backoff_ms : Z
}.
Definition default_retry : RouteRetryConfig :=
  {| max_attempts := 3; initial_backoff_ms := 500 |}.

Record RouteConfig : Type := {
  match_ : RouteMatch;
  primary : RouteTarget;
  cache : RouteCacheConfig;
  retry : RouteRetryConfig;
  fallbacks : list RouteTarget
}.

Record LimitTarget : Type := {
  limit_kind : string;
  limit_id : option string;
  limit_key : option string
}.

Record LimitConfig : Type := {
  limit_target : LimitTarget;
  rpm : option Z;
  tpm : option Z;
  conc : option Z
}.

Record BudgetTarget : Type := {
  target_project_id : option string;
  target_gateway_key_id : option string
}.

Record BudgetThreshold : Type := {
  at_ : f64;
  action : string;
  webhook : option string
}.

Record BudgetConfig : Type := {
  budget_name : string;
  budget_target : BudgetTarget;
  period : string;
  amount_usd : f64;
  thresholds : list BudgetThreshold
}.

Record GatewayKeyConfig : Type := {
  gk_id : string;
  gk_name : string;
  gk_project_id : option string;
  gk_secret : string;
  gk_scopes : list string
}.

Record TracingConfig : Type := {
  tracing_enabled : bool;
  tracing_format : string;
  otlp_endpoint : option string
}.
Record ObservabilityConfig : Type := { obs_metrics : bool; obs_tracing : TracingConfig }.
Definition default_observability : ObservabilityConfig :=
  {| obs_metrics := true;
     obs_tracing := {| tracing_enabled := true; tracing_format := "json";
                       otlp_endpoint := None |} |}.

Record AppConfig : Type := {
  server : ServerConfig;
  storage : StorageConfig;
  admin : AdminConfig;
  providers : gmap string ProviderConfig;
  routes : list RouteConfig;
  limits : list LimitConfig;
  budget_configs : list BudgetConfig;
  observability : ObservabilityConfig;
  gateway_keys : list GatewayKeyConfig
}.

Definition env_prefix : string := "env://".

(** [GatewayKeyConfig::resolve_secret]; [env] is the process environment. *)
Definition resolve_secret (env : string → option string) (k : GatewayKeyConfig) :
    result string string :=
  match strip_prefix env_prefix (gk_secret k) with
  | Some var =>
      if str_is_empty var then Err "env:// reference is missing a var name"
      else ok_or (env var) ("env var '" +:+ var +:+ "' not set or empty")
  | None =>
      if str_is_empty (gk_secret k) then Err "secret is empty"
      else Ok (gk_secret k)
  end%string.

(** What [Debug for GatewayKeyConfig] prints for the secret. *)
Definition secret_repr (k : GatewayKeyConfig) : string :=
  if starts_with (gk_secret k) env_prefix then gk_secret k else "<redacted>".

(** [is_known_provider_kind] (providers/mod.rs). *)
Definition is_known_provider_kind (k : string) : bool :=
  String.eqb k "openai" || String.eqb k "anthropic".

(** [p.kind.as_deref().unwrap_or(name)] *)
Definition provider_kind (name : string) (p : ProviderConfig) : string :=
  default name (kind p).

Section Validate.
Context `{HashOrder}.

Definition validate_provider (np : string * ProviderConfig) :
    result unit GatewayError :=
  let '(name, p) := np in
  guard_err (negb (is_known_provider_kind (provider_kind name p)))
    (BadRequest ("provider '" +:+ name +:+ "' has unsupported kind '" +:+
       provider_kind name p +:+ "'; supported: openai, anthropic")).

Definition known_provider (cfg : AppConfig) (name : string) : bool :=
  match providers cfg !! name with Some _ => true | None => false end.

Definition validate_route (cfg : AppConfig) (r : RouteConfig) :
    result unit GatewayError :=
  let? _ := guard_err (default true (str_is_empty <$> match_namespace (match_ r)))
    (BadRequest ("route for primary.provider '" +:+ provider (primary r) +:+
       "' must declare match.namespace")) in
  let? _ := guard_err (negb (known_provider cfg (provider (primary r))))
    (BadRequest ("route references unknown provider: " +:+ provider (primary r))) in
  for_each (λ fb, guard_err (negb (known_provider cfg (provider fb)))
    (BadRequest ("fallback references unknown provider: " +:+ provider fb)))
    (fallbacks r).

Definition PREFIX_LIVE : string := "sk-gw-live-".
Definition PREFIX_TEST : string := "sk-gw-test-".

(** The checks on one key, given the ids declared before it. *)
Definition validate_key (seen : gset string) (k : GatewayKeyConfig) :
    result unit GatewayError :=
  let? _ := guard_err (str_is_empty (trim (gk_id k)))
    (BadRequest "gateway_keys[].id must be non-empty") in
  let? _ := guard_err (bool_decide (gk_id k ∈ seen))
    (BadRequest ("gateway_keys[].id '" +:+ gk_id k +:+
       "' is declared more than once")) in
  let? _ := guard_err (str_is_empty (trim (gk_name k)))
    (BadRequest ("gateway_keys[id=" +:+ gk_id k +:+ "].name must be non-empty")) in
  let? _ := guard_err (str_is_empty (gk_secret k))
    (BadRequest ("gateway_keys[id=" +:+ gk_id k +:+
       "].secret must be non-empty")) in
  guard_err (negb (starts_with (gk_secret k) env_prefix) &&
             negb (starts_with (gk_secret k) PREFIX_LIVE ||
                   starts_with (gk_secret k) PREFIX_TEST))
    (BadRequest ("gateway_keys[id=" +:+ gk_id k +:+ "].secret must start with 'sk-gw-live-' or 'sk-gw-test-' (or use env://VAR)")).

Fixpoint validate_keys (seen : gset string) (ks : list GatewayKeyConfig) :
    result unit GatewayError :=
  match ks with
  | [] => Ok ()
  | k :: r =>
      let? _ := validate_key seen k in
      validate_keys ({[gk_id k]} ∪ seen) r
  end.

(** [AppConfig::validate]. *)
Definition validate (cfg : AppConfig) : result unit GatewayError :=
  let? _ := for_each validate_provider (hash_iter (providers cfg)) in
  let? _ := for_each (validate_route cfg) (routes cfg) in
  validate_keys ∅ (gateway_keys cfg).

(** [load_from_str] and [load_from_path], given the YAML parser and what reading the
    file at the (displayed) path gave. *)
Definition load_from_str (parse_yaml : string → result AppConfig string) (text : string) :
    result AppConfig GatewayError :=
  let? cfg := map_err (λ e, Internal ("failed to parse config yaml: " +:+ e)%string)
                (parse_yaml text) in
  let? _ := validate cfg in
  Ok cfg.

Definition load_from_path (parse_yaml : string → result AppConfig string) (path : string)
    (file : result string string) : result AppConfig GatewayError :=
  let? text := map_err (λ e, Internal ("failed to read config " +:+ path +:+ ": " +:+ e)%string)
                 file in
  load_from_str parse_yaml text.
End Validate.

(** * What a valid configuration is *)

Definition provider_ok (name : string) (p : ProviderConfig) : Prop :=
  provider_kind name p = "openai" ∨ provider_kind name p = "anthropic".

Definition route_ok (cfg : AppConfig) (r : RouteConfig) : Prop :=
  (∃ ns, match_namespace (match_ r) = Some ns ∧ ns ≠ "") ∧
  Forall (λ t, is_Some (providers cfg !! provider t)) (primary r :: fallbacks r).

Definition key_ok (k : GatewayKeyConfig) : Prop :=
  trim (gk_id k) ≠ "" ∧ trim (gk_name k) ≠ "" ∧ gk_secret k ≠ "" ∧
  (starts_with (gk_secret k) env_prefix = true ∨
   starts_with (gk_secret k) PREFIX_LIVE = true ∨
   starts_with (gk_secret k) PREFIX_TEST = true).

Record valid_config (cfg : AppConfig) : Prop := {
  vc_providers : map_Forall provider_ok (providers cfg);
  vc_routes : Forall (route_ok cfg) (routes cfg);
  vc_keys : Forall key_ok (gateway_keys cfg);
  vc_key_ids : NoDup (gk_id <$> gateway_keys cfg)
}.

Lemma str_is_empty_false s : str_is_empty s = false ↔ s ≠ "".
Proof. by destruct s. Qed.

Lemma is_known_provider_kind_spec k :
  is_known_provider_kind k = true ↔ k = "openai" ∨ k = "anthropic".
Proof. unfold is_known_provider_kind. by rewrite orb_true_iff, !String.eqb_eq. Qed.

Section ValidateSpec.
Context `{HashOrder}.

Lemma validate_provider_Ok np :
  validate_provider np = Ok () ↔ provider_ok np.1 np.2.
Proof.
  destruct np as [name p]. simpl.
  by rewrite guard_err_Ok, negb_false_iff, is_known_provider_kind_spec.
Qed.

Lemma known_provider_true cfg n :
  negb (known_provider cfg n) = false ↔ is_Some (providers cfg !! n).
Proof. unfold known_provider, is_Some. destruct (_ !! _); naive_solver. Qed.

Lemma let_unit_Ok {E} (r : result unit E) (k : result unit E) :
  (let? _ := r in k) = Ok () ↔ r = Ok () ∧ k = Ok ().
Proof. destruct r as [[]|]; naive_solver. Qed.

Lemma validate_route_Ok cfg r : validate_route cfg r = Ok () ↔ route_ok cfg r.
Proof.
  unfold validate_route, route_ok.
  rewrite !let_unit_Ok, !guard_err_Ok, known_provider_true, for_each_Ok, Forall_cons.
  setoid_rewrite guard_err_Ok. setoid_rewrite known_provider_true.
  destruct (match_namespace (match_ r)) as [ns|]; simpl; [|naive_solver].
  rewrite str_is_empty_false. naive_solver.
Qed.

Lemma validate_key_Ok seen k :
  validate_key seen k = Ok () ↔ key_ok k ∧ gk_id k ∉ seen.
Proof.
  unfold validate_key, key_ok.
  rewrite !let_unit_Ok, !guard_err_Ok, !str_is_empty_false, bool_decide_eq_false.
  rewrite andb_false_iff, !negb_false_iff, orb_true_iff. naive_solver.
Qed.

Lemma validate_keys_Ok seen ks :
  validate_keys seen ks = Ok () ↔
  Forall key_ok ks ∧ NoDup (gk_id <$> ks) ∧ Forall (λ k, gk_id k ∉ seen) ks.
Proof.
  revert seen. induction ks as [|k ks IH]; intros seen; simpl.
  { rewrite !Forall_nil. naive_solver constructor. }
  rewrite let_unit_Ok, IH, validate_key_Ok, !Forall_cons, NoDup_cons.
  rewrite list_elem_of_fmap, !Forall_forall. set_solver.
Qed.
End ValidateSpec.

Lemma validate_Ok `{HashOrder} cfg : validate cfg = Ok () ↔ valid_config cfg.
Proof.
  unfold validate.
  rewrite !let_unit_Ok, !for_each_Ok, validate_keys_Ok, Forall_hash_iter.
  setoid_rewrite validate_provider_Ok. setoid_rewrite validate_route_Ok.
  split.
  - intros (Hp & Hr & Hk & Hids & _). by constructor.
  - intros [Hp Hr Hk Hids]. split_and!; try done.
    apply Forall_forall. set_solver.
Qed.

(** What is loaded is valid. *)
Lemma load_valid `{HashOrder} parse_yaml path file cfg :
  load_from_path parse_yaml path file = Ok cfg → valid_config cfg.
Proof.
  unfold load_from_path, load_from_str. destruct file as [text|e]; [|done]. cbn [map_err].
  destruct (parse_yaml text) as [c|e]; [|done]. cbn [map_err].
  destruct (validate c) as [[]|e] eqn:Hv; [|done]. intros [= <-]. by apply validate_Ok.
Qed.

(** C39: [AppConfig::validate] accepts exactly the configurations in which every
    provider has a supported kind, every route declares a non-empty namespace
    and names only configured providers, and the declared gateway keys have
    distinct non-blank ids, non-blank names and well-formed secrets; the verdict
    does not depend on the order in which the provider map is iterated. *)
Theorem validate_correct `{HashOrder} cfg :
  validate cfg = Ok () ↔ valid_config cfg.
Proof. apply validate_Ok. Qed.
