(* ===== verification/HttpTypes.v ===== *)
(** The vocabulary of the third-party [http] crate the gateway is written in.

    Header names are strings (the crate stores them in lower case); header
    values, header maps and the conversions are the fields of the class
    [HttpTypes], with the documented behaviour the proofs rely on in
    [HttpLaws].  [plain_http] instantiates them with association lists so that
    examples evaluate. *)
From Stdlib Require Import ZArith Lia String.
From stdpp Require Import prelude strings list.
From S2P Require Import Prelude Text.
Open Scope Z_scope.

Class HttpTypes : Type := {
  HeaderValue : Type;
  HeaderMap : Type;
  (** [HeaderValue::from_str], [HeaderValue::to_str], [HeaderName::try_from]. *)
  hv_from_str : string → option HeaderValue;
  hv_to_str : HeaderValue → option string;
  hn_try_from : string → option string;
  hm_empty : HeaderMap;
  (** [HeaderMap::iter] and [get_all]. *)
  hm_iter : HeaderMap → list (string * HeaderValue);
  hm_get_all : HeaderMap → string → list HeaderValue;
  (** [insert] replaces every value of the name, [append] adds one. *)
  hm_insert : HeaderMap → string → HeaderValue → HeaderMap;
  hm_append : HeaderMap → string → HeaderValue → HeaderMap;
  hm_remove : HeaderMap → string → HeaderMap
}.

Class HttpLaws `{HttpTypes} : Type := {
  get_all_empty k : hm_get_all hm_empty k = [];
  get_all_insert m k v k' :
    hm_get_all (hm_insert m k v) k' =
    if String.eqb k' k then [v] else hm_get_all m k';
  get_all_append m k v k' :
    hm_get_all (hm_append m k v) k' =
    hm_get_all m k' ++ (if String.eqb k' k then [v] else []);
  get_all_remove m k k' :
    hm_get_all (hm_remove m k) k' =
    if String.eqb k' k then [] else hm_get_all m k';
  get_all_iter m k :
    hm_get_all m k = (filter (λ kv, kv.1 = k) (hm_iter m)).*2;
  (** a value that reads as text is built back from that text *)
  to_str_from_str v s : hv_to_str v = Some s → hv_from_str s = Some v
}.

Section Accessors.
Context `{HttpTypes}.

(** [HeaderMap::get] and [contains_key]. *)
Definition hm_get (m : HeaderMap) (k : string) : option HeaderValue :=
  head (hm_get_all m k).
Definition hm_contains (m : HeaderMap) (k : string) : bool :=
  match hm_get m k with Some _ => true | None => false end.

(** [headers.get(k).and_then(|v| v.to_str().ok())] *)
Definition hm_get_str (m : HeaderMap) (k : string) : option string :=
  v ← hm_get m k; hv_to_str v.
End Accessors.

(** A concrete instance: values are text, a map is the list of its entries. *)
Definition plain_insert (m : list (string * string)) (k v : string) :
    list (string * string) :=
  filter (λ kv, kv.1 ≠ k) m ++ [(k, v)].

Definition plain_http : HttpTypes :=
  {| HeaderValue := string;
     HeaderMap := list (string * string);
     hv_from_str s := Some s;
     hv_to_str s := Some s;
     hn_try_from s := Some (to_ascii_lowercase s);
     hm_empty := [];
     hm_iter m := m;
     hm_get_all m k := (filter (λ kv, kv.1 = k) m).*2;
     hm_insert := plain_insert;
     hm_append m k v := m ++ [(k, v)];
     hm_remove m k := filter (λ kv, kv.1 ≠ k) m |}.

Lemma plain_filter_ne (m : list (string * string)) k k' :
  filter (λ kv, kv.1 = k') (filter (λ kv, kv.1 ≠ k) m) =
  if String.eqb k' k then [] else filter (λ kv, kv.1 = k') m.
Proof.
  rewrite list_filter_filter. destruct (String.eqb_spec k' k) as [->|Hne].
  - induction m as [|kv m IH]; [done|]. rewrite filter_cons_False; [done|naive_solver].
  - apply list_filter_iff. naive_solver.
Qed.

Definition plain_http_laws : @HttpLaws plain_http.
Proof.
  constructor; simpl.
  - done.
  - intros m k v k'. unfold plain_insert.
    rewrite filter_app, fmap_app, plain_filter_ne.
    destruct (String.eqb_spec k' k) as [->|Hne].
    + by rewrite filter_cons_True.
    + rewrite filter_cons_False by (simpl; congruence). by rewrite app_nil_r.
  - intros m k v k'. rewrite filter_app, fmap_app. f_equal.
    destruct (String.eqb_spec k' k) as [->|Hne].
    + by rewrite filter_cons_True.
    + by rewrite filter_cons_False by (simpl; congruence).
  - intros m k k'. rewrite plain_filter_ne. by case_match.
  - done.
  - naive_solver.
Defined.
