(* ===== verification/Retry.v ===== *)
(** Retry and fallback policy: gateway-core/src/proxy/retry.rs and fallback.rs. *)
From Stdlib Require Import ZArith Lia String SpecFloat.
From stdpp Require Import prelude strings list.
From S2P Require Import Prelude Text F64 Errors Config.
Open Scope Z_scope.

Inductive AttemptOutcome : Type :=
| Success
| RetryableStatus (s : Z)
| RetryableNetwork
| NonRetryable (s : Z)
| Timeout.

#[export] Instance AttemptOutcome_eq_dec : EqDecision AttemptOutcome.
Proof. solve_decision. Defined.

Definition is_retryable_status (status : Z) : bool :=
  existsb (Z.eqb status) [408; 425; 429; 500; 502; 503; 504].

Definition from_status (status : Z) : AttemptOutcome :=
  if is_retryable_status status then RetryableStatus status
  else if (200 <=? status) && (status <? 400) then Success
  else NonRetryable status.

Definition from_error (e : GatewayError) : AttemptOutcome :=
  match e with
  | UpstreamTimeout => Timeout
  | Http _ => RetryableNetwork
  | _ => NonRetryable (status_code e)
  end.

Definition is_retryable (o : AttemptOutcome) : bool :=
  match o with
  | RetryableStatus _ | RetryableNetwork | Timeout => true
  | _ => false
  end.

(** The exponential backoff before jitter, in milliseconds. *)
Definition backoff_cap (cfg : RouteRetryConfig) (attempt : Z) : Z :=
  let base :=
    sat_mul u64_max (initial_backoff_ms cfg) (Z.shiftl 1 (Z.min attempt 8)) in
  Z.min base 10000.

(** [backoff_duration]; [jitter] is the value of [rand::random::<f64>()]. *)
Definition backoff_duration (cfg : RouteRetryConfig) (attempt : Z) (jitter : f64) : Z :=
  f64_as_u64 (f64_mul jitter (f64_of_Z (backoff_cap cfg attempt))).

Definition one_of (t : string) (l : list string) : bool := existsb (String.eqb t) l.

(** The trigger vocabulary, on a lower-cased trigger. *)
Definition trigger_matches (outcome : AttemptOutcome) (t : string) : bool :=
  match outcome with
  | RetryableStatus s =>
      if (500 <=? s) && (s <? 600) then one_of t ["upstream_5xx"; "upstream_error"]
      else if s =? 429 then one_of t ["rate_limited"; "ratelimited"]
      else false
  | NonRetryable s =>
      if (500 <=? s) && (s <? 600) then one_of t ["upstream_5xx"; "upstream_error"]
      else false
  | Timeout => one_of t ["timeout"]
  | RetryableNetwork => one_of t ["network"; "timeout"]
  | Success => false
  end.

Definition matches_fallback_trigger (outcome : AttemptOutcome)
    (triggers : list string) : bool :=
  match triggers with
  | [] => match outcome with Success => false | _ => true end
  | _ => existsb (λ t, trigger_matches outcome (to_ascii_lowercase t)) triggers
  end.

Definition outcome_label (o : AttemptOutcome) : string :=
  match o with
  | Success => "success"
  | RetryableStatus _ => "retryable_status"
  | RetryableNetwork => "retryable_network"
  | NonRetryable _ => "non_retryable"
  | Timeout => "timeout"
  end.

(** * The provider chain *)

Record ProviderChainEntry : Type := {
  entry_provider : string;
  model_override : option string;
  entry_trigger : list string
}.

Record ProviderChain : Type := {
  entries : list ProviderChainEntry;
  chain_retry : RouteRetryConfig
}.

Definition from_target (t : RouteTarget) : ProviderChainEntry :=
  {| entry_provider := provider t; model_override := target_model t;
     entry_trigger := trigger t |}.

Definition from_route (route : RouteConfig) : ProviderChain :=
  {| entries := from_target (primary route) :: (from_target <$> fallbacks route);
     chain_retry := retry route |}.

Record AttemptTrace : Type := {
  trace_provider : string;
  trace_model : option string;
  trace_status : option Z;
  trace_outcome : string;
  trace_duration_ms : Z
}.

(** * Facts *)

(** A retryable outcome is exactly what a [Success]/[NonRetryable] one is not. *)
Lemma is_retryable_false o :
  is_retryable o = false ↔ o = Success ∨ ∃ s, o = NonRetryable s.
Proof. destruct o; naive_solver. Qed.

Lemma from_status_success s :
  from_status s = Success → 200 ≤ s < 400.
Proof.
  unfold from_status. case_match; [done|]. case_match eqn:H1; [|done].
  rewrite andb_true_iff, Z.leb_le, Z.ltb_lt in H1. lia.
Qed.

(** A 2xx or 3xx status is never retried. *)
Lemma from_status_2xx s : 200 ≤ s < 400 → from_status s = Success.
Proof.
  intros Hs. unfold from_status, is_retryable_status.
  destruct (existsb _ _) eqn:He.
  - apply existsb_exists in He as (x & Hin & Hx). apply Z.eqb_eq in Hx. subst x.
    simpl in Hin. lia.
  - rewrite (proj2 (andb_true_iff _ _)); [done|].
    rewrite Z.leb_le, Z.ltb_lt. lia.
Qed.
