(* ===== verification/Engine.v ===== *)
(** The proxy engine: gateway-core/src/proxy/engine.rs and providers/.

    Resolution of the configured providers, the URL and header rewriting of a
    forwarded request, and [forward] itself.  The HTTP client of the third-party
    [reqwest] crate is the parameter [send]. *)
From Stdlib Require Import ZArith Lia Ascii String SpecFloat.
From stdpp Require Import prelude gmap strings list.
From S2P Require Import Prelude Text F64 Errors Config HttpTypes.
Open Scope Z_scope.

Definition STRIP_REQUEST_HEADERS : list string :=
  ["host"; "authorization"; "x-api-key"; "connection"; "keep-alive";
   "transfer-encoding"; "te"; "trailer"; "upgrade"; "proxy-authenticate";
   "proxy-authorization"; "content-length"].

Definition STRIP_RESPONSE_HEADERS : list string :=
  ["connection"; "keep-alive"; "transfer-encoding"; "te"; "trailer"; "upgrade";
   "content-encoding"; "content-length"].

(** The two [AuthInjector] implementations. *)
Inductive AuthInjector : Type := OpenAiAuth | AnthropicAuth.

Definition build_auth_injector (k : string) : result AuthInjector GatewayError :=
  if String.eqb k "openai" then Ok OpenAiAuth
  else if String.eqb k "anthropic" then Ok AnthropicAuth
  else Err (ProviderUnknown k).

(** [resolve_credential]; [env_overrides] then the process environment. *)
Definition resolve_credential (env : string → option string)
    (cfg : ProviderConfig) (env_overrides : gmap string string) :
    result string GatewayError :=
  match strip_prefix env_prefix (credential cfg) with
  | Some rest =>
      if str_is_empty rest
      then Err (Internal "provider credential env:// reference is missing a var name")
      else ok_or (or_else (env_overrides !! rest) (env rest))
             (Internal ("env var " +:+ rest +:+ " not set for provider credential"))
  | None =>
      if str_is_empty (credential cfg)
      then Err (Internal "provider credential is empty")
      else Ok (credential cfg)
  end.

Record ResolvedProvider : Type := {
  rp_base_url : string;
  rp_api_key : string;
  rp_injector : AuthInjector;
  rp_extra_headers : gmap string string
}.

Definition resolve_provider (env : string → option string) (name : string)
    (cfg : ProviderConfig) (env_overrides : gmap string string) :
    result ResolvedProvider GatewayError :=
  let? injector := build_auth_injector (provider_kind name cfg) in
  let? api_key := resolve_credential env cfg env_overrides in
  Ok {| rp_base_url := base_url cfg; rp_api_key := api_key;
        rp_injector := injector; rp_extra_headers := headers cfg |}.

(** [build_url]. *)
Definition build_url (base path : string) (query : option string) : string :=
  let base := trim_end_matches slash base in
  let path := if starts_with path "/" then path else ("/" +:+ path)%string in
  let url := (base +:+ path)%string in
  match query with
  | Some q => if str_is_empty q then url else (url +:+ "?" +:+ q)%string
  | None => url
  end.

(** [ProxyEngine::new]: resolve every configured provider. *)
Section New.
Context `{HashOrder} (env : string → option string).

Fixpoint resolve_all (l : list (string * ProviderConfig))
    (acc : gmap string ResolvedProvider) :
    result (gmap string ResolvedProvider) GatewayError :=
  match l with
  | [] => Ok acc
  | (name, cfg) :: r =>
      let? resolved := resolve_provider env name cfg ∅ in
      resolve_all r (<[name := resolved]> acc)
  end.

Definition engine_new (config : AppConfig) :
    result (gmap string ResolvedProvider) GatewayError :=
  resolve_all (hash_iter (providers config)) ∅.
End New.

Section Engine.
Context `{HashOrder} `{HttpTypes}.

Definition stripped (names : list string) (k : string) : bool :=
  existsb (String.eqb (to_ascii_lowercase k)) names.

Definition filter_headers (drop_name : string → bool) (src : HeaderMap) : HeaderMap :=
  foldl (λ out kv, if drop_name kv.1 then out else hm_append out kv.1 kv.2)
    hm_empty (hm_iter src).

Definition drop_request_header (k : string) : bool :=
  stripped STRIP_REQUEST_HEADERS k ||
  starts_with (to_ascii_lowercase k) "x-gateway-".

Definition filter_request_headers : HeaderMap → HeaderMap :=
  filter_headers drop_request_header.
Definition filter_response_headers : HeaderMap → HeaderMap :=
  filter_headers (stripped STRIP_RESPONSE_HEADERS).

(** [if let Ok(v) = HeaderValue::from_str(s) { headers.insert(k, v) }] *)
Definition insert_str (m : HeaderMap) (k s : string) : HeaderMap :=
  match hv_from_str s with Some v => hm_insert m k v | None => m end.

(** [OpenAiAuth::inject] and [AnthropicAuth::inject]. *)
Definition inject_openai (m : HeaderMap) (api_key : string) : HeaderMap :=
  insert_str (insert_str m "authorization" ("Bearer " +:+ api_key)%string)
    "api-key" api_key.
Definition inject_anthropic (m : HeaderMap) (api_key : string) : HeaderMap :=
  let m := insert_str m "x-api-key" api_key in
  if hm_contains m "anthropic-version" then m
  else insert_str m "anthropic-version" "2023-06-01".

(** The trait method, dispatched on the boxed injector. *)
Definition inject (i : AuthInjector) : HeaderMap → string → HeaderMap :=
  match i with
  | OpenAiAuth => inject_openai
  | AnthropicAuth => inject_anthropic
  end.

Definition add_extra_headers (extra : list (string * string)) (m : HeaderMap) :
    HeaderMap :=
  foldl (λ m kv,
    match hn_try_from kv.1, hv_from_str kv.2 with
    | Some name, Some val => hm_insert m name val
    | _, _ => m
    end) m extra.

(** The headers of the outgoing request. *)
Definition outgoing_headers (p : ResolvedProvider) (src : HeaderMap) : HeaderMap :=
  let m := filter_request_headers src in
  let m := inject (rp_injector p) m (rp_api_key p) in
  let m := add_extra_headers (hash_iter (rp_extra_headers p)) m in
  hm_remove m "host".

Record ForwardRequest : Type := {
  fr_provider : string;
  fr_path : string;
  fr_query : option string;
  fr_method : string;
  fr_headers : HeaderMap;
  fr_body : option bytes
}.

(** The items of a body stream, to its end or first error. *)
Abbreviation stream := (list (result bytes string)).

Record ForwardResponse : Type := {
  resp_status : Z;
  resp_headers : HeaderMap;
  resp_upstream_ms : Z;
  resp_ttfb_ms : Z;
  resp_body : stream
}.

(** What the HTTP client is given and answers. *)
Record OutgoingRequest : Type := {
  out_method : string;
  out_url : string;
  out_headers : HeaderMap;
  out_body : option bytes
}.
Inductive SendError : Type := SendTimeout | SendOther (msg : string).
Record IncomingResponse : Type := {
  in_status : Z;
  in_headers : HeaderMap;
  in_body : stream
}.

Context {U : Type} (send : U → OutgoingRequest → result IncomingResponse SendError * U).

(** The upstream world and the monotonic clock. *)
Record Net : Type := { upstream : U; instant : Clock }.

Definition read_instant (n : Net) : Z * Net :=
  (now (instant n), {| upstream := upstream n; instant := tick (instant n) |}).

(** [started.elapsed().as_millis().min(u64::MAX)] *)
Definition elapsed_ms (started ended : Z) : Z :=
  Z.min (Z.max 0 (ended - started)) u64_max.

Definition set_provider (r : ForwardRequest) (p : string) : ForwardRequest :=
  {| fr_provider := p; fr_path := fr_path r; fr_query := fr_query r;
     fr_method := fr_method r; fr_headers := fr_headers r; fr_body := fr_body r |}.

Definition outgoing (p : ResolvedProvider) (req : ForwardRequest) : OutgoingRequest :=
  {| out_method := fr_method req;
     out_url := build_url (rp_base_url p) (fr_path req) (fr_query req);
     out_headers := outgoing_headers p (fr_headers req);
     out_body := fr_body req |}.

(** [ProxyEngine::forward]. *)
Definition forward (engine : gmap string ResolvedProvider) (req : ForwardRequest)
    (n : Net) : result ForwardResponse GatewayError * Net :=
  match engine !! fr_provider req with
  | None => (Err (ProviderUnknown (fr_provider req)), n)
  | Some p =>
      let '(started, n) := read_instant n in
      let '(r, u) := send (upstream n) (outgoing p req) in
      let n := {| upstream := u; instant := instant n |} in
      match r with
      | Err SendTimeout => (Err UpstreamTimeout, n)
      | Err (SendOther m) => (Err (Http m), n)
      | Ok resp =>
          let '(ended, n) := read_instant n in
          let ttfb := elapsed_ms started ended in
          (Ok {| resp_status := in_status resp;
                 resp_headers := filter_response_headers (in_headers resp);
                 resp_upstream_ms := ttfb; resp_ttfb_ms := ttfb;
                 resp_body := in_body resp |}, n)
      end
  end.
End Engine.

(** * Header rewriting *)

Section HeaderLemmas.
Context `{HashOrder} `{HttpLaws}.

Lemma get_all_foldl_append (f : string → bool)
    (l : list (string * HeaderValue)) m k :
  hm_get_all (foldl (λ out (kv : string * HeaderValue), if f kv.1 then out else hm_append out kv.1 kv.2) m l) k =
  hm_get_all m k ++
  (if f k then [] else (filter (λ kv : string * HeaderValue, kv.1 = k) l).*2).
Proof.
  revert m. induction l as [|[k0 v0] l IH]; intros m; simpl.
  { case_match; by rewrite app_nil_r. }
  rewrite IH. destruct (decide (k0 = k)) as [->|Hne].
  - rewrite filter_cons_True by done. destruct (f k); [done|].
    rewrite get_all_append, String.eqb_refl, <- app_assoc. done.
  - rewrite filter_cons_False by done. f_equal.
    destruct (f k0); [done|]. rewrite get_all_append.
    rewrite (proj2 (String.eqb_neq k k0)) by congruence. by rewrite app_nil_r.
Qed.

(** Filtering keeps every value of a name or none of them. *)
Lemma get_all_filter_headers f src k :
  hm_get_all (filter_headers f src) k = if f k then [] else hm_get_all src k.
Proof.
  unfold filter_headers. rewrite get_all_foldl_append, get_all_empty.
  case_match; [done|]. by rewrite get_all_iter.
Qed.

Lemma get_all_insert_str m k s k' :
  hm_get_all (insert_str m k s) k' =
  match hv_from_str s with
  | Some v => if String.eqb k' k then [v] else hm_get_all m k'
  | None => hm_get_all m k'
  end.
Proof. unfold insert_str. case_match; [apply get_all_insert|done]. Qed.

(** [extra] sets the header [k]. *)
Definition sets_header (extra : list (string * string)) (k : string) : Prop :=
  Exists (λ kv, hn_try_from kv.1 = Some k) extra.

Lemma get_all_add_extra extra m k :
  ¬ sets_header extra k →
  hm_get_all (add_extra_headers extra m) k = hm_get_all m k.
Proof.
  unfold sets_header, add_extra_headers.
  revert m. induction extra as [|[k0 v0] extra IH]; intros m Hk; simpl; [done|].
  rewrite Exists_cons in Hk. simpl in Hk.
  rewrite IH by tauto.
  destruct (hn_try_from k0) as [n|]; [|done]. destruct (hv_from_str v0); [|done].
  rewrite get_all_insert, (proj2 (String.eqb_neq k n)); [done|]. naive_solver.
Qed.

(** The names an injector may set. *)
Definition injected_names (i : AuthInjector) : list string :=
  match i with
  | OpenAiAuth => ["authorization"; "api-key"]
  | AnthropicAuth => ["x-api-key"; "anthropic-version"]
  end.

Lemma get_all_inject_other i m key k :
  k ∉ injected_names i → hm_get_all (inject i m key) k = hm_get_all m k.
Proof.
  rewrite <- (elem_of_list_to_set (C:=gset string)).
  destruct i; simpl; unfold inject_openai, inject_anthropic; intros Hk.
  - rewrite !get_all_insert_str.
    rewrite !(proj2 (String.eqb_neq k _)) by set_solver. by repeat case_match.
  - case_match; rewrite !get_all_insert_str;
      rewrite !(proj2 (String.eqb_neq k _)) by set_solver; by repeat case_match.
Qed.
End HeaderLemmas.

(** What the upstream sees of a header.  For a name that the provider's
    [headers] block does not set: [host] is gone; a name the auth injector does
    not set is dropped entirely when it is a stripped or [x-gateway-*] name (so
    the client's [authorization], [x-api-key], ... never leak) and otherwise
    carries exactly the client's values. *)
Theorem outgoing_headers_passthrough `{HashOrder} `{HttpLaws} p src k :
  ¬ sets_header (hash_iter (rp_extra_headers p)) k →
  k ∉ injected_names (rp_injector p) →
  hm_get_all (outgoing_headers p src) k =
  if String.eqb k "host" || drop_request_header k then [] else hm_get_all src k.
Proof.
  intros Hx Hi. unfold outgoing_headers, filter_request_headers.
  rewrite get_all_remove.
  destruct (String.eqb k "host"); [done|].
  by rewrite get_all_add_extra, get_all_inject_other, get_all_filter_headers.
Qed.

(** An OpenAI-style upstream gets exactly one [authorization] header, the
    gateway's own bearer credential, whatever the client sent. *)
Theorem outgoing_authorization `{HashOrder} `{HttpLaws} p src v :
  rp_injector p = OpenAiAuth →
  hv_from_str ("Bearer " +:+ rp_api_key p)%string = Some v →
  ¬ sets_header (hash_iter (rp_extra_headers p)) "authorization" →
  hm_get_all (outgoing_headers p src) "authorization" = [v].
Proof.
  intros Hi Hv Hx. unfold outgoing_headers. rewrite Hi, get_all_remove. simpl.
  rewrite get_all_add_extra by done. simpl. unfold inject_openai.
  rewrite !get_all_insert_str, Hv. simpl. by case_match.
Qed.

(** * Provider resolution *)

Section ResolveLemmas.
Context (env : string → option string).

Lemma resolve_all_lookup l acc m :
  NoDup l.*1 → resolve_all env l acc = Ok m →
  (∀ k cfg, (k, cfg) ∈ l → ∃ rp, resolve_provider env k cfg ∅ = Ok rp ∧ m !! k = Some rp) ∧
  (∀ k, k ∉ l.*1 → m !! k = acc !! k).
Proof.
  revert acc. induction l as [|[k0 c0] l IH]; intros acc Hnd; simpl.
  { intros [= ->]. split; [set_solver|done]. }
  destruct (resolve_provider env k0 c0 ∅) as [rp|] eqn:Hrp; [|done].
  apply NoDup_cons in Hnd as [Hk0 Hnd].
  intros Hm. destruct (IH _ Hnd Hm) as [IH1 IH2]. split.
  - intros k cfg [[= -> ->]|Hin]%elem_of_cons; [|by apply IH1].
    exists rp. split; [done|]. by rewrite IH2, lookup_insert_eq.
  - intros k Hk. apply not_elem_of_cons in Hk as [Hk Hl].
    rewrite IH2 by done. by apply lookup_insert_ne.
Qed.
End ResolveLemmas.

(** A successfully built engine knows exactly the configured providers,
    each resolved from its own entry, in whatever order the provider map is
    iterated. *)
Theorem engine_new_spec `{HashOrder} env cfg m :
  engine_new env cfg = Ok m →
  ∀ name,
    match providers cfg !! name with
    | Some pc => ∃ rp, resolve_provider env name pc ∅ = Ok rp ∧ m !! name = Some rp
    | None => m !! name = None
    end.
Proof.
  intros Hm name. unfold engine_new in Hm.
  apply resolve_all_lookup in Hm as [H1 H2]; [|apply NoDup_hash_iter].
  destruct (providers cfg !! name) as [pc|] eqn:Hp.
  - by apply H1, elem_of_hash_iter.
  - rewrite H2, lookup_empty; [done|].
    intros ([k pc] & -> & Hin)%list_elem_of_fmap.
    apply elem_of_hash_iter in Hin. simpl in *. congruence.
Qed.

(** * Witnesses *)

Definition sample_provider : ResolvedProvider :=
  {| rp_base_url := "https://api.openai.com"; rp_api_key := "sk-upstream";
     rp_injector := OpenAiAuth; rp_extra_headers := {["x-team" := "a"]} |}.

Definition sample_headers : list (string * string) :=
  [("authorization", "Bearer sk-gw-live-x"); ("x-api-key", "leak");
   ("x-gateway-cache", "bypass"); ("accept", "text/event-stream")].

Lemma outgoing_headers_passthrough_witness :
  let out := @outgoing_headers tree_order plain_http sample_provider sample_headers in
  @hm_get_all plain_http out "x-api-key" = [] ∧
  @hm_get_all plain_http out "x-gateway-cache" = [] ∧
  @hm_get_all plain_http out "accept" = ["text/event-stream"].
Proof.
  assert (Hx : ∀ k, String.eqb k "x-team" = false →
    ¬ @sets_header plain_http
      (@hash_iter tree_order _ _ _ _ (rp_extra_headers sample_provider)) k).
  { intros k Hk Hs.
    replace (@hash_iter tree_order _ _ _ _ (rp_extra_headers sample_provider))
      with [("x-team", "a")] in Hs by (vm_compute; reflexivity).
    apply Exists_exists in Hs as (kv & Hin & Hs).
    apply list_elem_of_singleton in Hin as ->. injection Hs as <-. discriminate Hk. }
  assert (Hi : ∀ k, existsb (String.eqb k) ["authorization"; "api-key"] = false →
    k ∉ injected_names (rp_injector sample_provider)).
  { intros k Hk Hin. apply not_true_iff_false in Hk. apply Hk, existsb_exists.
    exists k. split; [by apply list_elem_of_In|apply String.eqb_refl]. }
  split_and!;
    (etransitivity;
     [apply (@outgoing_headers_passthrough tree_order plain_http plain_http_laws);
      [apply Hx; reflexivity|apply Hi; reflexivity]|reflexivity]).
Defined.

Lemma outgoing_authorization_witness :
  @hm_get_all plain_http
    (@outgoing_headers tree_order plain_http sample_provider sample_headers)
    "authorization" = ["Bearer sk-upstream"].
Proof.
  apply (@outgoing_authorization tree_order plain_http plain_http_laws);
    [reflexivity|reflexivity|].
  intros Hs.
  replace (@hash_iter tree_order _ _ _ _ (rp_extra_headers sample_provider))
    with [("x-team", "a")] in Hs by (vm_compute; reflexivity).
  apply Exists_exists in Hs as (kv & Hin & Hs).
  apply list_elem_of_singleton in Hin as ->. discriminate Hs.
Defined.

Definition sample_openai : ProviderConfig :=
  {| kind := None; base_url := "https://api.openai.com";
     credential := "env://KEY"; headers := ∅ |}.

Definition sample_engine_config : AppConfig :=
  {| server := default_server; storage := Memory default_cache_config;
     admin := {| root_token := ""; password_login := false |};
     providers := {["openai" := sample_openai]};
     routes := []; limits := []; budget_configs := [];
     observability := default_observability; gateway_keys := [] |}.

Definition sample_env (v : string) : option string :=
  if String.eqb v "KEY" then Some "sk-1" else None.

Lemma engine_new_spec_witness :
  ∃ m rp, @engine_new tree_order sample_env sample_engine_config = Ok m ∧
          resolve_provider sample_env "openai" sample_openai ∅ = Ok rp ∧
          m !! "openai" = Some rp.
Proof.
  assert (Hok : is_ok (@engine_new tree_order sample_env sample_engine_config) = true)
    by (vm_compute; reflexivity).
  remember (@engine_new tree_order sample_env sample_engine_config) as r eqn:Hm.
  destruct r as [m|e]; [|discriminate Hok].
  pose proof (@engine_new_spec tree_order sample_env sample_engine_config m
    (eq_sym Hm) "openai") as Hspec.
  replace (providers sample_engine_config !! "openai") with (Some sample_openai)
    in Hspec by (vm_compute; reflexivity).
  destruct Hspec as (rp & Hrp & Hl). exists m, rp. split; [reflexivity|].
  split; [exact Hrp|exact Hl].
Defined.
