(* ===== verification/Executor.v ===== *)
(** Running a provider chain: gateway-core/src/proxy/executor.rs. *)
From Stdlib Require Import ZArith Lia String SpecFloat.
From stdpp Require Import prelude gmap strings list.
From S2P Require Import Prelude Text F64 Errors Config HttpTypes Retry Engine.
Open Scope Z_scope.

Section Executor.
Context `{HashOrder} `{HttpTypes}.
Context {U : Type}
  (send : U → OutgoingRequest → result IncomingResponse SendError * U).
Context (engine : gmap string ResolvedProvider).

Record ChainResult : Type := {
  cr_response : result ForwardResponse GatewayError;
  cr_attempts : list AttemptTrace;
  cr_fallback_used : option string
}.

(** What running a chain reads and accumulates: the network with its clock,
    the random generator, the trace, and the sleeps (in milliseconds) spent
    backing off. *)
Record ExecState : Type := {
  es_net : Net (U := U);
  es_rng : nat → f64;
  es_attempts : list AttemptTrace;
  es_sleeps : list Z
}.

Definition outcome_of (r : result ForwardResponse GatewayError) : AttemptOutcome :=
  match r with
  | Ok resp => from_status (resp_status resp)
  | Err e => from_error e
  end.

(** One turn of the inner loop up to the trace entry. *)
Definition do_attempt (template : ForwardRequest) (entry : ProviderChainEntry)
    (st : ExecState) : result ForwardResponse GatewayError * ExecState :=
  let req := set_provider template (entry_provider entry) in
  let '(start, n) := read_instant (es_net st) in
  let '(r, n) := forward send engine req n in
  let '(ended, n) := read_instant n in
  let trace :=
    {| trace_provider := entry_provider entry;
       trace_model := model_override entry;
       trace_status := resp_status <$> result_ok r;
       trace_outcome := outcome_label (outcome_of r);
       trace_duration_ms := elapsed_ms start ended |} in
  (r, {| es_net := n; es_rng := es_rng st;
         es_attempts := es_attempts st ++ [trace]; es_sleeps := es_sleeps st |}).

Definition do_sleep (cfg : RouteRetryConfig) (attempt : Z) (st : ExecState) : ExecState :=
  let ms := backoff_duration cfg attempt (es_rng st 0%nat) in
  {| es_net := es_net st; es_rng := λ n, es_rng st (S n);
     es_attempts := es_attempts st; es_sleeps := es_sleeps st ++ [ms] |}.

(** How an entry ends: with the result to return, or with its retries spent. *)
Inductive entry_end : Type :=
| Returned (r : result ForwardResponse GatewayError)
| Exhausted (r : result ForwardResponse GatewayError).

(** The inner [loop].  [left] bounds the turns still possible; the guard of
    the code, [attempt >= max_attempts], stops it first (lemma
    [attempt_loop_fuel]). *)
Fixpoint attempt_loop (cfg : RouteRetryConfig) (template : ForwardRequest)
    (entry : ProviderChainEntry) (left : nat) (attempt : Z) (st : ExecState) :
    entry_end * ExecState :=
  let attempt := attempt + 1 in
  let '(r, st) := do_attempt template entry st in
  match outcome_of r with
  | Success | NonRetryable _ => (Returned r, st)
  | _ =>
      if max_attempts cfg <=? attempt then (Exhausted r, st)
      else
        let st := do_sleep cfg (attempt - 1) st in
        match left with
        | O => (Exhausted r, st)
        | S l => attempt_loop cfg template entry l attempt st
        end
  end.

Definition run_entry (cfg : RouteRetryConfig) (template : ForwardRequest)
    (entry : ProviderChainEntry) : ExecState → entry_end * ExecState :=
  attempt_loop cfg template entry (Z.to_nat (max_attempts cfg)) 0.

(** The loop variables of the outer [for]. *)
Record Lasts : Type := {
  last_outcome : option AttemptOutcome;
  last_error : option GatewayError;
  last_response : option ForwardResponse;
  fallback_so_far : option string
}.
Definition no_lasts : Lasts :=
  {| last_outcome := None; last_error := None; last_response := None;
     fallback_so_far := None |}.

(** After the loop: a kept response wins over a kept error. *)
Definition final_response (l : Lasts) : result ForwardResponse GatewayError :=
  match last_response l, last_error l with
  | Some resp, _ => Ok resp
  | None, Some e => Err e
  | None, None => Err (Internal "empty provider chain")
  end.
Definition chain_end (l : Lasts) (st : ExecState) : ChainResult * ExecState :=
  ({| cr_response := final_response l; cr_attempts := es_attempts st;
      cr_fallback_used := fallback_so_far l |}, st).

(** Whether the entry at [idx] may run, and the loop variables it starts
    with. *)
Definition enter (idx : nat) (entry : ProviderChainEntry) (l : Lasts) : option Lasts :=
  match idx with
  | O => Some l
  | S _ =>
      match last_outcome l with
      | None => None
      | Some prev =>
          if matches_fallback_trigger prev (entry_trigger entry)
          then Some {| last_outcome := last_outcome l; last_error := last_error l;
                       last_response := last_response l;
                       fallback_so_far := Some (entry_provider entry) |}
          else None
      end
  end.

Definition keep (r : result ForwardResponse GatewayError) (l : Lasts) : Lasts :=
  {| last_outcome := Some (outcome_of r);
     last_error := match r with Err e => Some e | Ok _ => last_error l end;
     last_response := match r with Ok resp => Some resp | Err _ => last_response l end;
     fallback_so_far := fallback_so_far l |}.

Fixpoint run_entries (cfg : RouteRetryConfig) (template : ForwardRequest)
    (idx : nat) (es : list ProviderChainEntry) (l : Lasts) (st : ExecState) :
    ChainResult * ExecState :=
  match es with
  | [] => chain_end l st
  | entry :: rest =>
      match enter idx entry l with
      | None => chain_end l st
      | Some l =>
          match run_entry cfg template entry st with
          | (Returned r, st) =>
              ({| cr_response := r; cr_attempts := es_attempts st;
                  cr_fallback_used := fallback_so_far l |}, st)
          | (Exhausted r, st) =>
              run_entries cfg template (S idx) rest (keep r l) st
          end
      end
  end.

(** [execute_chain]. *)
Definition execute_chain (chain : ProviderChain) (template : ForwardRequest)
    (n : Net (U := U)) (rng : nat → f64) : ChainResult * ExecState :=
  run_entries (chain_retry chain) template 0 (entries chain) no_lasts
    {| es_net := n; es_rng := rng; es_attempts := []; es_sleeps := [] |}.
End Executor.

(** * Abstract specification

    The traces a chain may produce, with no network, clock or randomness: which
    attempts are made, in which order, and what is returned. *)
Section Spec.
Context `{HttpTypes}.
Context (cfg : RouteRetryConfig).

Definition trace_of (e : ProviderChainEntry) (r : result ForwardResponse GatewayError)
    (t : AttemptTrace) : Prop :=
  trace_provider t = entry_provider e ∧
  trace_status t = resp_status <$> result_ok r ∧
  trace_outcome t = outcome_label (outcome_of r).

(** An entry whose attempt counter stands at [a]. *)
Inductive entry_spec (e : ProviderChainEntry) :
    Z → list AttemptTrace → entry_end → Prop :=
| entry_return a t r :
    trace_of e r t → is_retryable (outcome_of r) = false →
    entry_spec e a [t] (Returned r)
| entry_exhaust a t r :
    trace_of e r t → is_retryable (outcome_of r) = true →
    max_attempts cfg ≤ a + 1 →
    entry_spec e a [t] (Exhausted r)
| entry_retry a t r ts en :
    trace_of e r t → is_retryable (outcome_of r) = true →
    a + 1 < max_attempts cfg →
    entry_spec e (a + 1) ts en →
    entry_spec e a (t :: ts) en.

Inductive chain_spec : nat → list ProviderChainEntry → Lasts →
    list AttemptTrace → result ForwardResponse GatewayError → option string → Prop :=
| chain_out idx l :
    chain_spec idx [] l [] (final_response l) (fallback_so_far l)
| chain_blocked idx e es l :
    enter idx e l = None →
    chain_spec idx (e :: es) l [] (final_response l) (fallback_so_far l)
| chain_return idx e es l l' ts r :
    enter idx e l = Some l' →
    entry_spec e 0 ts (Returned r) →
    chain_spec idx (e :: es) l ts r (fallback_so_far l')
| chain_next idx e es l l' ts r ts' resp fb :
    enter idx e l = Some l' →
    entry_spec e 0 ts (Exhausted r) →
    chain_spec (S idx) es (keep r l') ts' resp fb →
    chain_spec idx (e :: es) l (ts ++ ts') resp fb.
End Spec.

Section Refinement.
Context `{HashOrder} `{HttpTypes} {U : Type}
  (send : U → OutgoingRequest → result IncomingResponse SendError * U)
  (engine : gmap string ResolvedProvider).

Lemma do_attempt_trace template e st r st' :
  do_attempt send engine template e st = (r, st') →
  ∃ t, trace_of e r t ∧ es_attempts st' = es_attempts st ++ [t] ∧
       es_sleeps st' = es_sleeps st.
Proof.
  unfold do_attempt, read_instant. simpl.
  destruct (forward _ _ _ _) as [r0 n0]. intros [= <- <-].
  eexists. split_and!; [| done | done]. by repeat split.
Qed.

Lemma attempt_loop_refines cfg template e left a st en st' :
  (Z.to_nat (max_attempts cfg - (a + 1)) ≤ left)%nat →
  attempt_loop send engine cfg template e left a st = (en, st') →
  ∃ ts, es_attempts st' = es_attempts st ++ ts ∧ entry_spec cfg e a ts en.
Proof.
  revert a st. induction left as [|left IH]; intros a st Hleft; simpl;
    destruct (do_attempt _ _ _ _ _) as [r st1] eqn:Hd;
    apply do_attempt_trace in Hd as (t & Ht & Hst1 & _);
    (destruct (is_retryable (outcome_of r)) eqn:Hr;
     [|apply is_retryable_false in Hr as Hr'; intros Hres;
       exists [t]; rewrite <- Hst1;
       destruct Hr' as [Hr'|[s Hr']]; rewrite Hr' in Hres;
       injection Hres as <- <-; split; eauto using entry_spec]).
  - assert (Hle : (max_attempts cfg <=? a + 1) = true) by lia.
    intros Hres. exists [t]. rewrite <- Hst1.
    destruct (outcome_of r) eqn:Ho; try done;
      rewrite Hle in Hres; injection Hres as <- <-;
      (split; [done|]; apply entry_exhaust; [done|by rewrite Ho|lia]).
  - destruct (max_attempts cfg <=? a + 1) eqn:Hle.
    + intros Hres. exists [t]. rewrite <- Hst1.
      destruct (outcome_of r) eqn:Ho; try done;
        injection Hres as <- <-;
        (split; [done|]; apply entry_exhaust; [done|by rewrite Ho|lia]).
    + intros Hres.
      assert (Hgo : attempt_loop send engine cfg template e left (a + 1)
        (do_sleep cfg (a + 1 - 1) st1) = (en, st'))
        by (destruct (outcome_of r); done).
      apply IH in Hgo as (ts & Hts & Hspec); [|lia].
      exists (t :: ts). rewrite Hts. simpl. rewrite Hst1, <- app_assoc.
      split; [done|]. eapply entry_retry; eauto. lia.
Qed.

(** The fuel is enough: more of it changes nothing. *)
Lemma run_entry_refines cfg template e st en st' :
  run_entry send engine cfg template e st = (en, st') →
  ∃ ts, es_attempts st' = es_attempts st ++ ts ∧ entry_spec cfg e 0 ts en.
Proof. apply attempt_loop_refines. lia. Qed.

Lemma run_entries_refines cfg template idx es l st res st' :
  run_entries send engine cfg template idx es l st = (res, st') →
  ∃ ts, cr_attempts res = es_attempts st ++ ts ∧
        chain_spec cfg idx es l ts (cr_response res) (cr_fallback_used res).
Proof.
  revert idx l st. induction es as [|e es IH]; intros idx l st; simpl.
  { intros [= <- <-]. exists []. rewrite app_nil_r. split; [done|].
    apply chain_out. }
  destruct (enter idx e l) as [l'|] eqn:He.
  - destruct (run_entry _ _ _ _ _ _) as [[r|r] st1] eqn:Hrun;
      apply run_entry_refines in Hrun as (ts & Hts & Hspec).
    + intros [= <- <-]. exists ts. split; [done|]. by eapply chain_return.
    + intros Hres. apply IH in Hres as (ts' & Hts' & Hchain).
      exists (ts ++ ts'). rewrite Hts', Hts, app_assoc. split; [done|].
      by eapply chain_next.
  - intros [= <- <-]. exists []. rewrite app_nil_r. split; [done|].
    by apply chain_blocked.
Qed.
End Refinement.

(** The trace, the response and the fallback reported are ones the policy
    allows. *)
Lemma execute_chain_policy `{HashOrder} `{HttpTypes} {U}
    (send : U → OutgoingRequest → result IncomingResponse SendError * U)
    engine chain template n rng :
  let res := (execute_chain send engine chain template n rng).1 in
  chain_spec (chain_retry chain) 0 (entries chain) no_lasts
    (cr_attempts res) (cr_response res) (cr_fallback_used res).
Proof.
  destruct (execute_chain _ _ _ _ _ _) as [res st] eqn:Hres. simpl.
  apply run_entries_refines in Hres as (ts & -> & Hspec). done.
Qed.

Section SpecFacts.
Context `{HttpTypes} (cfg : RouteRetryConfig).

Lemma entry_spec_length e a ts en :
  entry_spec cfg e a ts en →
  1 ≤ blen ts ≤ Z.max 1 (max_attempts cfg - a).
Proof. unfold blen. induction 1; simpl in *; lia. Qed.

Lemma entry_spec_provider e a ts en :
  entry_spec cfg e a ts en → Forall (λ t, trace_provider t = entry_provider e) ts.
Proof. induction 1; repeat constructor; unfold trace_of in *; naive_solver. Qed.

(** Every attempt but the last of an entry was retryable; so was the last
    one, unless the entry returned. *)
Definition final_label (l : string) : Prop := l = "success" ∨ l = "non_retryable".

Lemma label_final o : final_label (outcome_label o) ↔ is_retryable o = false.
Proof. unfold final_label. destruct o; naive_solver. Qed.

Lemma entry_spec_final e a ts en :
  entry_spec cfg e a ts en →
  ∃ pre t r, ts = pre ++ [t] ∧ trace_of e r t ∧
    Forall (λ t, ¬ final_label (trace_outcome t)) pre ∧
    match en with
    | Returned r' => r = r' ∧ is_retryable (outcome_of r) = false
    | Exhausted r' => r = r' ∧ is_retryable (outcome_of r) = true
    end.
Proof.
  induction 1 as [a t r Ht Hr|a t r Ht Hr Ha|a t r ts en Ht Hr Ha _ IH].
  - by exists [], t, r.
  - by exists [], t, r.
  - destruct IH as (pre & t' & r' & -> & Ht' & Hpre & Hen).
    exists (t :: pre), t', r'. split_and!; try done. constructor; [|done].
    destruct Ht as (_ & _ & ->). rewrite label_final. by rewrite Hr.
Qed.

Lemma chain_spec_length idx es l ts resp fb :
  chain_spec cfg idx es l ts resp fb →
  blen ts ≤ blen es * Z.max 1 (max_attempts cfg).
Proof.
  unfold blen.
  induction 1 as [| |idx e es l l' ts r He Hs|idx e es l l' ts r ts' resp fb He Hs _ IH].
  - simpl. lia.
  - simpl. nia.
  - apply entry_spec_length in Hs. unfold blen in Hs. simpl. nia.
  - apply entry_spec_length in Hs. unfold blen in Hs.
    rewrite length_app. simpl. nia.
Qed.
End SpecFacts.

Section ChainFacts.
Context `{HttpTypes} (cfg : RouteRetryConfig).

(** A response is only kept across entries when it was retryable. *)
Definition kept_retryable (l : Lasts) : Prop :=
  ∀ r, last_response l = Some r → is_retryable (from_status (resp_status r)) = true.

Lemma enter_kept idx e l l' :
  enter idx e l = Some l' → kept_retryable l → kept_retryable l'.
Proof. destruct idx; simpl; intros; repeat case_match; naive_solver. Qed.

Lemma keep_kept r l :
  is_retryable (outcome_of r) = true → kept_retryable l → kept_retryable (keep r l).
Proof. unfold kept_retryable. destruct r; naive_solver. Qed.

Lemma exhausted_retryable e a ts r :
  entry_spec cfg e a ts (Exhausted r) → is_retryable (outcome_of r) = true.
Proof. intros Hs. apply entry_spec_final in Hs as (? & ? & ? & ?). naive_solver. Qed.

Lemma enter_fallback idx e l l' :
  enter idx e l = Some l' →
  (idx = 0%nat ∧ l' = l) ∨ fallback_so_far l' = Some (entry_provider e).
Proof. destruct idx; simpl; intros; repeat case_match; naive_solver. Qed.

Lemma chain_spec_served idx es l ts resp fb :
  chain_spec cfg idx es l ts resp fb →
  kept_retryable l → outcome_of resp = Success →
  ∃ pre t, ts = pre ++ [t] ∧ trace_status t = resp_status <$> result_ok resp ∧
    ((idx = 0%nat ∧ fb = fallback_so_far l ∧
      head (entry_provider <$> es) = Some (trace_provider t)) ∨
     fb = Some (trace_provider t)).
Proof.
  assert (Hend : ∀ l, kept_retryable l → outcome_of (final_response l) ≠ Success).
  { unfold final_response. intros l0 Hl Ho.
    destruct (last_response l0) as [r|] eqn:Hr.
    - specialize (Hl r Hr). simpl in Ho. by rewrite Ho in Hl.
    - by destruct (last_error l0) as [[]|]. }
  induction 1 as [| |idx e es l l' ts r He Hs|idx e es l l' ts r ts' resp fb He Hs _ IH];
    intros Hl Ho.
  - by apply Hend in Ho.
  - by apply Hend in Ho.
  - pose proof (entry_spec_provider _ _ _ _ _ Hs) as Hp.
    apply entry_spec_final in Hs as (pre & t & r' & -> & Ht & _ & <- & _).
    apply Forall_app in Hp as [_ Hp]. rewrite Forall_singleton in Hp.
    exists pre, t. split; [done|]. split; [apply Ht|].
    destruct (enter_fallback _ _ _ _ He) as [[-> ->]| ->].
    + left. simpl. by rewrite Hp.
    + right. by rewrite Hp.
  - destruct IH as (pre & t & -> & Ht & Hfb); [|done|].
    { apply keep_kept; eauto using exhausted_retryable, enter_kept. }
    exists (ts ++ pre), t. rewrite app_assoc. naive_solver.
Qed.

Lemma chain_spec_final idx es l ts resp fb i t :
  chain_spec cfg idx es l ts resp fb →
  ts !! i = Some t → final_label (trace_outcome t) →
  S i = length ts ∧ trace_outcome t = outcome_label (outcome_of resp).
Proof.
  intros Hc. revert i t.
  induction Hc as [| |idx e es l l' ts r He Hs|idx e es l l' ts r ts' resp fb He Hs _ IH];
    intros i t Hi Hfin; [done|done| |].
  - apply entry_spec_final in Hs as (pre & t' & r' & -> & Ht & Hpre & <- & _).
    apply lookup_app_Some in Hi as [Hi|[Hlen Hi]].
    + rewrite Forall_lookup in Hpre. by destruct (Hpre _ _ Hi).
    + apply list_lookup_singleton_Some in Hi as [Hi <-].
      rewrite length_app. simpl. split; [lia|]. apply Ht.
  - apply lookup_app_Some in Hi as [Hi|[Hlen Hi]].
    + apply entry_spec_final in Hs as (pre & t' & r' & -> & Ht & Hpre & -> & Hr).
      apply lookup_app_Some in Hi as [Hi|[Hlen Hi]].
      * rewrite Forall_lookup in Hpre. by destruct (Hpre _ _ Hi).
      * apply list_lookup_singleton_Some in Hi as [Hi <-].
        destruct Ht as (_ & _ & Ht). rewrite Ht, label_final in Hfin. congruence.
    + destruct (IH _ _ Hi Hfin) as [Hl Ho]. rewrite length_app. split; [lia|done].
Qed.
End ChainFacts.


(** Termination bound: a chain of [n] entries makes at most
    [n * max(1, max_attempts)] upstream attempts, whatever the upstream does. *)
Theorem attempts_bounded `{HashOrder} `{HttpTypes} {U}
    (send : U → OutgoingRequest → result IncomingResponse SendError * U)
    engine chain template n rng :
  blen (cr_attempts (execute_chain send engine chain template n rng).1) ≤
  blen (entries chain) * Z.max 1 (max_attempts (chain_retry chain)).
Proof. eapply chain_spec_length, execute_chain_policy. Qed.

(** The provider the proxy bills is the one that answered: when the chain of
    a route ends in a 2xx/3xx response, that response is the one of the last
    attempt in the trace, and the fallback used, or else the primary, is the
    provider of that attempt. *)
Theorem served_by_last_attempt `{HashOrder} `{HttpTypes} {U}
    (send : U → OutgoingRequest → result IncomingResponse SendError * U)
    engine route template n rng resp :
  let res := (execute_chain send engine (from_route route) template n rng).1 in
  cr_response res = Ok resp → 200 ≤ resp_status resp < 400 →
  ∃ t, last (cr_attempts res) = Some t ∧
    trace_provider t = default (provider (primary route)) (cr_fallback_used res) ∧
    trace_status t = Some (resp_status resp).
Proof.
  intros res Hresp Hs.
  pose proof (execute_chain_policy send engine (from_route route) template n rng) as Hc.
  fold res in Hc. simpl in Hc. rewrite Hresp in Hc.
  apply chain_spec_served in Hc as (pre & t & -> & Ht & Hfb);
    [|done|by apply from_status_2xx].
  exists t. rewrite last_snoc. split; [done|]. split; [|done].
  destruct Hfb as [(_ & -> & [= Hp])| ->]; [|done]. by rewrite <- Hp.
Qed.

(** A success or a non-retryable answer (4xx, 501, an unknown provider, ...)
    ends the whole chain: nothing is attempted after it, no fallback runs, and
    it decides the chain's result.  In particular the [NonRetryable] case of
    the trigger matcher never selects a fallback. *)
Theorem final_outcome_stops_chain `{HashOrder} `{HttpTypes} {U}
    (send : U → OutgoingRequest → result IncomingResponse SendError * U)
    engine chain template n rng i t :
  let res := (execute_chain send engine chain template n rng).1 in
  cr_attempts res !! i = Some t → final_label (trace_outcome t) →
  S i = length (cr_attempts res) ∧
  trace_outcome t = outcome_label (outcome_of (cr_response res)).
Proof. intros res. eapply chain_spec_final, execute_chain_policy. Qed.

(** * A concrete run: the primary answers 503 twice, the fallback 200 *)
Module Example.
#[local] Existing Instance tree_order.
#[local] Existing Instance plain_http.

(** An upstream that plays back a list of statuses. *)
Definition scripted (u : list Z) (_ : OutgoingRequest) :
    result IncomingResponse SendError * list Z :=
  match u with
  | s :: r => (Ok {| in_status := s; in_headers := []; in_body := [] |}, r)
  | [] => (Err SendTimeout, [])
  end.

Definition prov (url : string) : ResolvedProvider :=
  {| rp_base_url := url; rp_api_key := "k"; rp_injector := OpenAiAuth;
     rp_extra_headers := ∅ |}.
Definition two_providers : gmap string ResolvedProvider :=
  {["a" := prov "http://a"; "b" := prov "http://b"]}.

Definition target (p : string) (tr : list string) : RouteTarget :=
  {| provider := p; target_model := None; trigger := tr |}.
Definition two_route : RouteConfig :=
  {| match_ := {| match_namespace := Some "ns"; model_prefix := None |};
     primary := target "a" [];
     cache := {| enabled := false; ttl := 0; allow_nondeterministic := false |};
     retry := {| max_attempts := 2; initial_backoff_ms := 500 |};
     fallbacks := [target "b" ["upstream_5xx"]] |}.
Definition request : ForwardRequest :=
  {| fr_provider := ""; fr_path := "/v1/x"; fr_query := None; fr_method := "POST";
     fr_headers := []; fr_body := None |}.
Definition net (u : list Z) : Net := {| upstream := u; instant := λ _, 0 |}.
Definition run (u : list Z) : ChainResult :=
  (execute_chain scripted two_providers (from_route two_route) request (net u)
     (λ _, f64_zero)).1.
End Example.

Lemma served_by_last_attempt_witness :
  ∃ t, last (cr_attempts (Example.run [503; 503; 200])) = Some t ∧
    trace_provider t = "b" ∧ trace_status t = Some 200.
Proof.
  destruct (@served_by_last_attempt tree_order plain_http (list Z) Example.scripted
    Example.two_providers Example.two_route Example.request
    (Example.net [503; 503; 200]) (λ _, f64_zero)
    (@Build_ForwardResponse plain_http 200 [] 0 0 [])) as (t & Ht & Hp & Hs).
  - vm_compute. reflexivity.
  - split; vm_compute; congruence.
  - exists t. split; [exact Ht|]. split; [|exact Hs].
    rewrite Hp. vm_compute. reflexivity.
Defined.

Lemma final_outcome_stops_chain_witness :
  length (cr_attempts (Example.run [503; 501])) = 2%nat.
Proof.
  assert (Ht : ∃ t, cr_attempts (Example.run [503; 501]) !! 1%nat = Some t ∧
    final_label (trace_outcome t)).
  { eexists. split; [vm_compute; reflexivity|]. right. reflexivity. }
  destruct Ht as (t & Ht & Hf).
  destruct (@final_outcome_stops_chain tree_order plain_http (list Z) Example.scripted
    Example.two_providers (from_route Example.two_route) Example.request
    (Example.net [503; 501]) (λ _, f64_zero) 1 t Ht Hf) as [Hl _].
  symmetry. exact Hl.
Defined.
