(* ===== verification/Fingerprint.v ===== *)
(** Cache keys: gateway-core/src/cache/fingerprint.rs.

    The BLAKE3 hasher is fed a sequence of byte strings; since updates
    concatenate, a fingerprint is the digest of their concatenation, the
    preimage.  The digest itself is the parameter [blake3_hex]. *)
From Stdlib Require Import ZArith Lia Ascii String.
From stdpp Require Import prelude strings list sorting.
From S2P Require Import Prelude Text F64 Json.
Open Scope Z_scope.

(** [(len as u64).to_le_bytes()]. *)
Definition byte_of_Z (z : Z) : Byte.byte :=
  default Byte.x00 (Byte.of_N (Z.to_N (z mod 256))).
Fixpoint le_bytes (n : nat) (z : Z) : bytes :=
  match n with
  | O => []
  | S n => byte_of_Z z :: le_bytes n (z / 256)
  end.
Definition hash_len (len : Z) : bytes := le_bytes 8 len.

Definition tag (s : string) : bytes := str_bytes s.

Section Hash.
Context `{SerdeJson}.

Definition hash_str (s : string) : bytes := hash_len (slen s) ++ str_bytes s.

(** [hash_json_value]: what a value feeds to the hasher. *)
Fixpoint hash_json_value (v : Value) : bytes :=
  match v with
  | VNull => tag "n"
  | VBool b => tag (if b then "b1" else "b0")
  | VNumber n => tag "d" ++ hash_str (number_to_string n)
  | VString s => tag "s" ++ hash_str s
  | VArray vs =>
      tag "a" ++ hash_len (blen vs) ++ List.concat (List.map hash_json_value vs)
  | VObject m =>
      let hashed := List.map (λ kv, (kv.1, hash_json_value kv.2)) m in
      let keys := merge_sort str_le (List.map fst m) in
      tag "o" ++ hash_len (blen keys) ++
      List.concat (List.map
        (λ k, hash_str k ++ default [] (map_get hashed k)) keys)
  end.

Record FingerprintInputs : Type := {
  fp_namespace : string;
  fp_endpoint : string;
  fp_body : bytes;
  fp_json_body : option Value;
  fp_cache_scope : option string
}.

Definition preimage (inp : FingerprintInputs) : bytes :=
  str_bytes (fp_namespace inp) ++ tag "|" ++
  str_bytes (fp_endpoint inp) ++ tag "|" ++
  (match fp_cache_scope inp with Some s => str_bytes s | None => [] end) ++
  tag "|" ++
  (match fp_json_body inp with
   | Some value => hash_json_value value
   | None => fp_body inp
   end).

Context (blake3_hex : bytes → string).

Definition fingerprint (inp : FingerprintInputs) : string :=
  blake3_hex (preimage inp).
End Hash.

(** * The encoding of a JSON value is unambiguous *)

Lemma byte_of_Z_inj a b :
  0 ≤ a < 256 → 0 ≤ b < 256 → byte_of_Z a = byte_of_Z b → a = b.
Proof.
  intros Ha Hb Heq. unfold byte_of_Z in Heq. rewrite !Z.mod_small in Heq by done.
  assert (Hof : ∀ z, 0 ≤ z < 256 → ∃ x, Byte.of_N (Z.to_N z) = Some x ∧ Byte.to_N x = Z.to_N z).
  { intros z Hz. destruct (Byte.of_N (Z.to_N z)) as [x|] eqn:Hx.
    - exists x. split; [done|]. by apply Byte.to_of_N.
    - apply Byte.of_N_None_iff in Hx. lia. }
  destruct (Hof a Ha) as (x & Hx & Hxa), (Hof b Hb) as (y & Hy & Hyb).
  rewrite Hx, Hy in Heq. simpl in Heq. subst y. lia.
Qed.

Lemma length_le_bytes n z : length (le_bytes n z) = n.
Proof. revert z. induction n; intros; simpl; auto. Qed.

Lemma le_bytes_inj n a b :
  0 ≤ a < 256 ^ Z.of_nat n → 0 ≤ b < 256 ^ Z.of_nat n →
  le_bytes n a = le_bytes n b → a = b.
Proof.
  revert a b. induction n as [|n IH]; intros a b Ha Hb; simpl in *; [lia|].
  rewrite Nat2Z.inj_succ, Z.pow_succ_r in Ha, Hb by lia.
  intros [= H0 Hr].
  assert (Hq : a / 256 = b / 256).
  { apply IH; [..|done]; split;
      [apply Z.div_pos; lia|apply Z.div_lt_upper_bound; lia|
       apply Z.div_pos; lia|apply Z.div_lt_upper_bound; lia]. }
  assert (Hm : a mod 256 = b mod 256).
  { apply byte_of_Z_inj; [apply Z.mod_pos_bound; lia..|].
    revert H0. unfold byte_of_Z. by rewrite !Z.mod_mod by lia. }
  rewrite (Z.div_mod a 256), (Z.div_mod b 256) by lia. by rewrite Hq, Hm.
Qed.

(** A prefix of known length is determined by what follows it. *)
Lemma app_length_inj {A} (l1 l2 r1 r2 : list A) :
  length l1 = length l2 → l1 ++ r1 = l2 ++ r2 → l1 = l2 ∧ r1 = r2.
Proof. intros. by apply app_inj_1. Qed.

Definition fits (n : Z) : Prop := 0 ≤ n < 256 ^ 8.

Lemma hash_len_inj a b r s :
  fits a → fits b → hash_len a ++ r = hash_len b ++ s → a = b ∧ r = s.
Proof.
  intros Ha Hb Heq. apply app_length_inj in Heq as [Hl ->];
    [|unfold hash_len; by rewrite !length_le_bytes].
  split; [|done]. by apply (le_bytes_inj 8).
Qed.

Lemma str_bytes_length s : length (str_bytes s) = String.length s.
Proof.
  unfold str_bytes. rewrite <- (String.string_of_list_byte_of_string s) at 2.
  generalize (String.list_byte_of_string s). intros l.
  induction l; simpl; auto.
Qed.

Lemma str_bytes_inj a b : str_bytes a = str_bytes b → a = b.
Proof.
  intros Heq. rewrite <- (String.string_of_list_byte_of_string a).
  unfold str_bytes in Heq. by rewrite Heq, String.string_of_list_byte_of_string.
Qed.

Lemma hash_str_inj a b r s :
  fits (slen a) → fits (slen b) →
  hash_str a ++ r = hash_str b ++ s → a = b ∧ r = s.
Proof.
  unfold hash_str. rewrite <- !app_assoc. intros Ha Hb Heq.
  apply hash_len_inj in Heq as [Hl Heq]; [|done|done].
  apply app_length_inj in Heq as [Hs ->].
  - split; [|done]. by apply str_bytes_inj.
  - rewrite !str_bytes_length. unfold slen in Hl. lia.
Qed.

Section Unambiguous.
Context `{SerdeJson}.

(** Equal up to the numbers that render alike. *)
Inductive json_eqv : Value → Value → Prop :=
| eqv_null : json_eqv VNull VNull
| eqv_bool b : json_eqv (VBool b) (VBool b)
| eqv_number n n' :
    number_to_string n = number_to_string n' → json_eqv (VNumber n) (VNumber n')
| eqv_string s : json_eqv (VString s) (VString s)
| eqv_array vs ws : Forall2 json_eqv vs ws → json_eqv (VArray vs) (VArray ws)
| eqv_object m m' :
    Forall2 (λ kv kw, kv.1 = kw.1 ∧ json_eqv kv.2 kw.2) m m' →
    json_eqv (VObject m) (VObject m').

(** Objects are sorted maps, and every length is a [u64]. *)
Inductive wf_json : Value → Prop :=
| wf_null : wf_json VNull
| wf_bool b : wf_json (VBool b)
| wf_number n : fits (slen (number_to_string n)) → wf_json (VNumber n)
| wf_string s : fits (slen s) → wf_json (VString s)
| wf_array vs : fits (blen vs) → Forall wf_json vs → wf_json (VArray vs)
| wf_object m :
    fits (blen m) → keys_sorted m →
    Forall (λ kv, fits (slen kv.1) ∧ wf_json kv.2) m → wf_json (VObject m).

Definition hash_entry (kv : string * Value) : bytes :=
  hash_str kv.1 ++ hash_json_value kv.2.

Lemma map_get_hashed m k v :
  map_get m k = Some v →
  map_get (List.map (λ kv, (kv.1, hash_json_value kv.2)) m) k =
  Some (hash_json_value v).
Proof.
  induction m as [|[k0 v0] m IH]; simpl; [done|].
  case_match; [by intros [= ->]|done].
Qed.

(** On a map with distinct keys, the object case hashes the entries in key
    order. *)
Lemma hash_object m :
  NoDup m.*1 →
  hash_json_value (VObject m) =
  tag "o" ++ hash_len (blen m) ++
  List.concat (List.map
    (λ k, hash_str k ++ default [] (hash_json_value <$> map_get m k))
    (merge_sort str_le m.*1)).
Proof.
  intros Hnd. cbn [hash_json_value]. cbv zeta. f_equal.
  change (List.map fst m) with m.*1. f_equal.
  - f_equal. unfold blen. rewrite merge_sort_Permutation.
    by rewrite length_fmap.
  - f_equal. apply map_ext_in. intros k Hk. f_equal.
    apply list_elem_of_In in Hk. rewrite merge_sort_Permutation in Hk.
    apply list_elem_of_fmap in Hk as ([k' v] & -> & Hin).
    pose proof (map_get_NoDup _ _ _ Hnd Hin) as Hg. simpl.
    by rewrite (map_get_hashed _ _ _ Hg), Hg.
Qed.

Lemma hash_object_sorted m :
  keys_sorted m →
  hash_json_value (VObject m) =
  tag "o" ++ hash_len (blen m) ++ List.concat (List.map hash_entry m).
Proof.
  intros Hs. pose proof (keys_sorted_NoDup _ Hs) as Hnd.
  rewrite hash_object by done. do 3 f_equal.
  rewrite (StronglySorted_unique str_le (merge_sort str_le m.*1) m.*1);
    [|apply (StronglySorted_merge_sort _)|by apply keys_sorted_le
     |apply merge_sort_Permutation].
  rewrite map_map. apply map_ext_in. intros [k v] Hin.
  apply list_elem_of_In in Hin. unfold hash_entry. simpl.
  by rewrite (map_get_NoDup _ _ _ Hnd Hin).
Qed.

Lemma concat_map_inj {A} (f : A → bytes) (R : A → A → Prop) l1 l2 r s :
  length l1 = length l2 →
  Forall (λ x, ∀ y r s, y ∈ l2 → f x ++ r = f y ++ s → R x y ∧ r = s) l1 →
  List.concat (List.map f l1) ++ r = List.concat (List.map f l2) ++ s →
  Forall2 R l1 l2 ∧ r = s.
Proof.
  revert l2. induction l1 as [|x l1 IH]; intros [|y l2] Hl HF; try done; simpl.
  apply Forall_cons in HF as [Hx HF]. rewrite <- !app_assoc. intros Heq.
  apply Hx in Heq as [HR Heq]; [|by left].
  destruct (IH l2) as [? ->]; [by injection Hl| |exact Heq|].
  - eapply Forall_impl; [exact HF|]. intros z Hz y' r' s' Hy'. apply Hz. by right.
  - split; [by constructor|done].
Qed.

Lemma hash_json_value_inj v w r s :
  wf_json v → wf_json w →
  hash_json_value v ++ r = hash_json_value w ++ s → json_eqv v w ∧ r = s.
Proof.
  intros Hv. revert w r s.
  induction v as [|b|n|x|vs IH|m IH] using Value_ind'; intros w r s Hw Heq.
  all: inversion Hv; subst; clear Hv.
  all: try (rewrite hash_object_sorted in Heq by done).
  all: inversion Hw; subst; clear Hw.
  all: try (rewrite hash_object_sorted in Heq by done).
  all: try (destruct b); try (destruct b0); try discriminate Heq.
  all: cbn [hash_json_value] in Heq; rewrite <- ?app_assoc in Heq;
    apply app_inv_head in Heq.
  all: try (split; [constructor|exact Heq]).
  - apply hash_str_inj in Heq as [? ->]; [|done..]. split; [by constructor|done].
  - apply hash_str_inj in Heq as [-> ->]; [|done..]. split; [by constructor|done].
  - apply hash_len_inj in Heq as [Hl Heq]; [|done..].
    apply (concat_map_inj _ json_eqv) in Heq as [HF ->].
    + split; [by constructor|done].
    + unfold blen in Hl. lia.
    + rewrite Forall_forall in *. intros x Hx y r' s' Hy. eauto.
  - apply hash_len_inj in Heq as [Hl Heq]; [|done..].
    apply (concat_map_inj _ (λ kv kw, kv.1 = kw.1 ∧ json_eqv kv.2 kw.2))
      in Heq as [HF ->].
    + split; [by constructor|done].
    + unfold blen in Hl. lia.
    + rewrite Forall_forall in *. intros x Hx y r' s' Hy Hxy.
      unfold hash_entry in Hxy. rewrite <- !app_assoc in Hxy.
      repeat match goal with
        Hl : ∀ z, z ∈ ?l → fits _ ∧ wf_json _, Hz : ?z ∈ ?l |- _ =>
          destruct (Hl z Hz) as [? ?]; clear Hl end.
      apply hash_str_inj in Hxy as [Hk Hxy]; [|done..].
      by apply (IH x Hx) in Hxy as [? ->].
Qed.
End Unambiguous.

(** * Properties of the fingerprint *)

(** C38: Two requests with the same namespace, endpoint and scope get the same
    cache key only if their JSON bodies are the same value (numbers compared as
    rendered), as long as the digest separates the two preimages; and equal
    bodies do get the same key. *)
Theorem fingerprint_body_sound `{SerdeJson} (blake3_hex : bytes → string) ns ep sc b1 b2 v1 v2 :
  let inp b v := {| fp_namespace := ns; fp_endpoint := ep; fp_body := b;
                    fp_json_body := Some v; fp_cache_scope := sc |} in
  wf_json v1 → wf_json v2 →
  (blake3_hex (preimage (inp b1 v1)) = blake3_hex (preimage (inp b2 v2)) →
   preimage (inp b1 v1) = preimage (inp b2 v2)) →
  fingerprint blake3_hex (inp b1 v1) = fingerprint blake3_hex (inp b2 v2) →
  json_eqv v1 v2.
Proof.
  intros inp Hv1 Hv2 Hdigest Heq. apply Hdigest in Heq.
  unfold preimage, inp in Heq. simpl fp_namespace in Heq. simpl fp_endpoint in Heq.
  simpl fp_cache_scope in Heq. simpl fp_json_body in Heq.
  do 6 apply app_inv_head in Heq.
  apply (hash_json_value_inj v1 v2 [] []); [done|done|].
  by rewrite !app_nil_r.
Qed.

(** The order in which an object's fields were written does not change what
    is hashed. *)
Theorem hash_object_order `{SerdeJson} (m m' : list (string * Value)) :
  NoDup m.*1 → m ≡ₚ m' →
  hash_json_value (VObject m) = hash_json_value (VObject m').
Proof.
  intros Hnd Hp. assert (Hnd' : NoDup m'.*1) by by rewrite <- Hp.
  rewrite !hash_object by done.
  assert (Hk : merge_sort str_le m.*1 = merge_sort str_le m'.*1).
  { apply (StronglySorted_unique str_le);
      [apply (StronglySorted_merge_sort _)..|].
    by rewrite !merge_sort_Permutation, Hp. }
  rewrite Hk. unfold blen. rewrite Hp. do 3 f_equal.
  apply map_ext_in. intros k Hin. do 3 f_equal.
  apply list_elem_of_In in Hin. rewrite merge_sort_Permutation in Hin.
  apply list_elem_of_fmap in Hin as ([k' v] & -> & Hin). simpl.
  rewrite (map_get_NoDup m' k' v) by done.
  apply map_get_NoDup; [done|by rewrite Hp].
Qed.

(** The fields before the body are joined with an unescaped [|], so the key
    is not injective in them: endpoint [/a|b] without a scope and endpoint [/a]
    with the client-supplied scope [b|] share one cache entry, for every digest
    and body. *)
Theorem fingerprint_scope_collision `{SerdeJson} (blake3_hex : bytes → string) ns b v :
  fingerprint blake3_hex
    {| fp_namespace := ns; fp_endpoint := "/a|b"; fp_body := b;
       fp_json_body := v; fp_cache_scope := None |} =
  fingerprint blake3_hex
    {| fp_namespace := ns; fp_endpoint := "/a"; fp_body := b;
       fp_json_body := v; fp_cache_scope := Some "b|" |}.
Proof. unfold fingerprint, preimage. done. Qed.

(** A printer for examples. *)
Definition toy_json : SerdeJson :=
  {| from_slice _ := None;
     to_vec _ := [];
     number_to_string n :=
       match n with PosInt u => dec_of u | NegInt i => dec_of i | Float _ => "f" end |}.

Lemma fingerprint_body_sound_witness :
  let v := VObject [("a", VNumber (PosInt 1)); ("b", VArray [VNull; VString "x"])] in
  @json_eqv toy_json v v.
Proof.
  assert (Hwf : @wf_json toy_json
    (VObject [("a", VNumber (PosInt 1)); ("b", VArray [VNull; VString "x"])])).
  { constructor; [split; vm_compute; congruence| |].
    - repeat constructor.
    - repeat constructor; vm_compute; congruence. }
  apply (@fingerprint_body_sound toy_json str_of_bytes "ns" "/v1" None [] []);
    [exact Hwf|exact Hwf|reflexivity|reflexivity].
Defined.

Lemma hash_object_order_witness :
  @hash_json_value toy_json (VObject [("b", VNull); ("a", VBool true)]) =
  @hash_json_value toy_json (VObject [("a", VBool true); ("b", VNull)]).
Proof.
  apply (@hash_object_order toy_json).
  - apply NoDup_cons. split; [|apply NoDup_singleton].
    intros Hin. apply list_elem_of_singleton in Hin. discriminate Hin.
  - apply perm_swap.
Defined.
