(* ===== verification/Cache.v ===== *)
(** The response cache's per-request policy and its stored form:
    gateway-core/src/cache/policy.rs and payload.rs.  The serializer (bincode)
    and the compressor (zstd) are parameters. *)
From Stdlib Require Import ZArith Lia String SpecFloat.
From stdpp Require Import prelude strings list.
From S2P Require Import Prelude Text F64 Json HttpTypes.
Open Scope Z_scope.

(** * policy.rs *)

Inductive CacheDirective : Type :=
| CDefault
| CBypass
| CRefresh
| OnlyIfCached.

#[export] Instance CacheDirective_eq_dec : EqDecision CacheDirective.
Proof. solve_decision. Defined.

Inductive CacheStatus : Type :=
| Hit
| Miss
| Bypass
| Refresh
| Disabled.

#[export] Instance CacheStatus_eq_dec : EqDecision CacheStatus.
Proof. solve_decision. Defined.

Definition as_header (s : CacheStatus) : string :=
  match s with
  | Hit => "hit"
  | Miss => "miss"
  | Bypass => "bypass"
  | Refresh => "refresh"
  | Disabled => "disabled"
  end.

(** [ttl] is in seconds. *)
Record CachePolicy : Type := {
  directive : CacheDirective;
  policy_ttl : Z;
  cache_scope : option string;
  policy_nondeterministic : bool
}.

(** The [x-gateway-cache] vocabulary, on a lower-cased value. *)
Definition directive_of (v : option string) : CacheDirective :=
  match v with
  | Some s =>
      if String.eqb s "bypass" then CBypass
      else if String.eqb s "refresh" then CRefresh
      else if String.eqb s "only" || String.eqb s "only-if-cached" then OnlyIfCached
      else CDefault
  | None => CDefault
  end.

(** [x-gateway-cache-force]. *)
Definition force_of (v : option string) : bool :=
  match v with
  | Some s =>
      let s := to_ascii_lowercase (trim s) in
      String.eqb s "1" || String.eqb s "true" || String.eqb s "yes"
  | None => false
  end.

Section Policy.
Context `{HttpTypes}.

(** [CachePolicy::from_headers]; [default_ttl] is in seconds. *)
Definition from_headers (headers : HeaderMap) (route_enabled : bool)
    (default_ttl : Z) (route_allow_nondeterministic : bool) : option CachePolicy :=
  if negb route_enabled then None
  else
    let header_force := force_of (hm_get_str headers "x-gateway-cache-force") in
    Some {|
      directive :=
        directive_of (to_ascii_lowercase <$> hm_get_str headers "x-gateway-cache");
      policy_ttl :=
        default default_ttl
          (hm_get_str headers "x-gateway-cache-ttl" ≫= parse_u64);
      cache_scope := hm_get_str headers "x-gateway-cache-scope";
      policy_nondeterministic := route_allow_nondeterministic || header_force
    |}.
End Policy.

(** [0.999] *)
Definition top_p_floor : f64 := f64_of_dec false 999 (-3).

(** The numeric member [k] of a body, or [d]. *)
Definition f64_member (body : Value) (k : string) (d : f64) : f64 :=
  default d (get body k ≫= as_f64_value).

Definition body_is_cacheable (p : CachePolicy) (body : option Value) : bool :=
  match body with
  | None => false
  | Some body =>
      if policy_nondeterministic p then true
      else
        let temperature := f64_member body "temperature" f64_zero in
        let top_p := f64_member body "top_p" f64_one in
        f64_eqb temperature f64_zero && f64_leb top_p_floor top_p
  end.

(** * payload.rs *)

Record CachedChunk : Type := { data : bytes }.

Record CachedResponse : Type := {
  cached_status : Z;
  cached_headers : list (string * string);
  chunks : list CachedChunk;
  finished_at_ms : Z;
  served_by : option string
}.

#[export] Instance CachedChunk_eq_dec : EqDecision CachedChunk.
Proof. solve_decision. Defined.
#[export] Instance CachedResponse_eq_dec : EqDecision CachedResponse.
Proof. solve_decision. Defined.

(** The two third-party codecs. *)
Class Codecs : Type := {
  bincode_encode : CachedResponse → result bytes string;
  bincode_decode : bytes → result CachedResponse string;
  zstd_encode_all : bytes → result bytes string;
  zstd_decode_all : bytes → result bytes string
}.

(** Both undo themselves: what was encoded decodes to itself. *)
Class CodecLaws `{Codecs} : Prop := {
  bincode_roundtrip r b : bincode_encode r = Ok b → bincode_decode b = Ok r;
  zstd_roundtrip b c : zstd_encode_all b = Ok c → zstd_decode_all c = Ok b
}.

Section Payload.
Context `{Codecs}.

Definition encode (r : CachedResponse) : result bytes string :=
  let? b := bincode_encode r in zstd_encode_all b.

Definition decode (blob : bytes) : result CachedResponse string :=
  let? b := zstd_decode_all blob in bincode_decode b.
End Payload.

(** A stored response reads back as itself. *)
Lemma encode_decode `{Codecs, !CodecLaws} r blob :
  encode r = Ok blob → decode blob = Ok r.
Proof.
  unfold encode, decode. destruct (bincode_encode r) as [b|] eqn:Hb; [|done].
  intros Hc. rewrite (zstd_roundtrip _ _ Hc). by apply bincode_roundtrip.
Qed.

(** * Facts *)

Definition member_is (body : Value) (k : string) (P : f64 → Prop) : Prop :=
  ∀ x, get body k ≫= as_f64_value = Some x → P x.

Lemma f64_member_spec (f : f64 → bool) body k d :
  f d = true →
  f (f64_member body k d) = true ↔ member_is body k (λ x, f x = true).
Proof.
  intros Hd. unfold f64_member, member_is.
  destruct (get body k ≫= as_f64_value) as [x|]; simpl; [|naive_solver].
  split; [by intros Hx y [= <-]|auto].
Qed.

(** Without the force flag a response may be cached only for a JSON body
    that asks for deterministic sampling: a numeric [temperature] must equal
    zero and a numeric [top_p] be at least 0.999; an absent or non-numeric field
    counts as deterministic.  With the flag any JSON body qualifies, and a body
    that is not JSON never does. *)
Theorem body_is_cacheable_spec p body :
  body_is_cacheable p body = true ↔
  ∃ v, body = Some v ∧
    (policy_nondeterministic p = true ∨
     member_is v "temperature" (λ x, f64_eqb x f64_zero = true) ∧
     member_is v "top_p" (λ x, f64_leb top_p_floor x = true)).
Proof.
  unfold body_is_cacheable. destruct body as [v|]; [|naive_solver].
  destruct (policy_nondeterministic p); [naive_solver|].
  rewrite andb_true_iff.
  rewrite (f64_member_spec (λ x, f64_eqb x f64_zero) v "temperature" f64_zero)
    by done.
  rewrite (f64_member_spec (f64_leb top_p_floor) v "top_p" f64_one)
    by (vm_compute; done).
  naive_solver.
Qed.
