(* ===== verification/Pricing.v ===== *)
(** Prices and costs: gateway-core/src/pricing (calculator.rs, catalog.rs,
    openrouter.rs).  The HTTP fetch and the JSON deserializer are parameters. *)
From Stdlib Require Import ZArith Lia Ascii String SpecFloat.
From stdpp Require Import prelude gmap strings list.
From S2P Require Import Prelude Text F64 Json Errors.
Open Scope Z_scope.

(** * catalog.rs *)

Record PricingEntry : Type := {
  pe_provider : string;
  pe_model : string;
  input_per_1k : f64;
  output_per_1k : f64;
  cached_input_per_1k : option f64
}.

Definition pe_key (e : PricingEntry) : string * string := (pe_provider e, pe_model e).

Record PricingCatalog : Type := {
  by_key : gmap (string * string) PricingEntry;
  openrouter : gmap string PricingEntry;
  openrouter_by_slug : gmap string string;
  openrouter_by_slug_model : gmap string string;
  openrouter_by_id_model : gmap string string;
  openrouter_slugs : gmap string string
}.

Definition empty_catalog : PricingCatalog :=
  {| by_key := ∅; openrouter := ∅; openrouter_by_slug := ∅;
     openrouter_by_slug_model := ∅; openrouter_by_id_model := ∅;
     openrouter_slugs := ∅ |}.

Definition set_by_key (c : PricingCatalog) (m : gmap (string * string) PricingEntry) :
    PricingCatalog :=
  {| by_key := m; openrouter := openrouter c;
     openrouter_by_slug := openrouter_by_slug c;
     openrouter_by_slug_model := openrouter_by_slug_model c;
     openrouter_by_id_model := openrouter_by_id_model c;
     openrouter_slugs := openrouter_slugs c |}.

(** [by_key.insert((e.provider, e.model), e)] for each entry in turn. *)
Definition insert_entries (es : list PricingEntry)
    (m : gmap (string * string) PricingEntry) : gmap (string * string) PricingEntry :=
  foldl (λ m e, <[pe_key e := e]> m) m es.

(** [PricingCatalog::from_str]; [parse] is the deserialized [CatalogFile]. *)
Definition from_str (parse : string → result (list PricingEntry) string)
    (json : string) : result PricingCatalog GatewayError :=
  let? models := map_err (λ e, Internal ("pricing catalog parse: " +:+ e)%string)
                   (parse json) in
  Ok (set_by_key empty_catalog (insert_entries models ∅)).

Inductive ReadError : Type := NotFound | Unreadable (msg : string).

(** [PricingCatalog::from_optional_path], on what reading the file gave. *)
Definition from_optional_path (parse : string → result (list PricingEntry) string)
    (path : string) (file : result string ReadError) :
    result PricingCatalog GatewayError :=
  match file with
  | Ok text => from_str parse text
  | Err NotFound => Ok empty_catalog
  | Err (Unreadable e) =>
      Err (Internal ("read catalog " +:+ path +:+ ": " +:+ e)%string)
  end.

Definition with_overrides (c : PricingCatalog) (overrides : list PricingEntry) :
    PricingCatalog :=
  set_by_key c (insert_entries overrides (by_key c)).

Definition has_key (c : PricingCatalog) (p m : string) : bool :=
  match by_key c !! (p, m) with Some _ => true | None => false end.

(** Whether a local price replaces the fetched entry [e] in listings. *)
Definition shadowed (c : PricingCatalog) (e : PricingEntry) : bool :=
  has_key c (pe_provider e) (pe_model e) ||
  match openrouter_slugs c !! pe_model e with
  | Some slug => has_key c (pe_provider e) slug
  | None => false
  end.

(** [PricingCatalog::entries]. *)
Definition catalog_entries `{HashOrder} (c : PricingCatalog) : list PricingEntry :=
  hash_values (by_key c) ++
  List.filter (λ e, negb (shadowed c e)) (hash_values (openrouter c)).

Definition source (c : PricingCatalog) (provider model : string) : string :=
  if has_key c provider model then "catalog" else "openrouter".

Definition dash : ascii := "-"%char.

(** The model without a date suffix, if it has one. *)
Definition strip_date (model : string) : option string :=
  match rsplit_once dash model with
  | Some (prefix, suffix) => if all_chars is_ascii_digit suffix then Some prefix else None
  | None => None
  end.

(** The entry a model name denotes in the fetched prices. *)
Definition openrouter_entry (c : PricingCatalog) (model : string) :
    option PricingEntry :=
  or_else (or_else
    (or_else (openrouter_by_slug c !! model) (openrouter_by_slug_model c !! model)
       ≫= λ id, openrouter c !! id)
    (openrouter c !! model))
    (openrouter_by_id_model c !! model ≫= λ id, openrouter c !! id).

(** The local prices that apply to a fetched entry, in order. *)
Definition local_price (c : PricingCatalog) (provider : string) (e : PricingEntry)
    (slug : string) : option PricingEntry :=
  or_else (or_else (or_else
    (by_key c !! (provider, pe_model e)) (by_key c !! (provider, slug)))
    (by_key c !! ("*", pe_model e))) (by_key c !! ("*", slug)).

Definition lookup_openrouter (c : PricingCatalog) (provider model : string) :
    option PricingEntry :=
  entry ← openrouter_entry c model;
  slug ← openrouter_slugs c !! pe_model entry;
  or_else (local_price c provider entry slug) (Some entry).

(** [PricingCatalog::lookup]. *)
Definition catalog_lookup (c : PricingCatalog) (provider model : string) :
    option PricingEntry :=
  or_else (or_else (or_else
    (by_key c !! (provider, model))
    (strip_date model ≫= λ m, by_key c !! (provider, m)))
    (by_key c !! ("*", model)))
    (lookup_openrouter c provider model).

(** ** What a lookup depends on *)

(** The pairs whose local price a lookup consults, in order: the pair itself, the model
    without its date, the model of any provider, and the names of the fetched entry. *)
Definition consulted (c : PricingCatalog) (provider model : string) :
    list (string * string) :=
  [(provider, model)] ++
  match strip_date model with Some m => [(provider, m)] | None => [] end ++
  [("*", model)] ++
  match openrouter_entry c model with
  | Some e =>
      match openrouter_slugs c !! pe_model e with
      | Some slug =>
          [(provider, pe_model e); (provider, slug); ("*", pe_model e); ("*", slug)]
      | None => []
      end
  | None => []
  end.

Fixpoint first_price (m : gmap (string * string) PricingEntry) (ks : list (string * string)) :
    option PricingEntry :=
  match ks with
  | [] => None
  | k :: ks => match m !! k with Some e => Some e | None => first_price m ks end
  end.

(** The fetched entry of a model, where no local price applies. *)
Definition fetched_price (c : PricingCatalog) (model : string) : option PricingEntry :=
  e ← openrouter_entry c model; _ ← openrouter_slugs c !! pe_model e; Some e.

Lemma catalog_lookup_consulted c p m :
  catalog_lookup c p m =
  or_else (first_price (by_key c) (consulted c p m)) (fetched_price c m).
Proof.
  unfold catalog_lookup, lookup_openrouter, local_price, fetched_price, consulted, or_else.
  destruct (openrouter_entry c m) as [e|]; simpl;
    [destruct (openrouter_slugs c !! pe_model e) as [slug|]; simpl|];
    destruct (strip_date m) as [m'|]; simpl; repeat case_match; simplify_eq; done.
Qed.

Lemma consulted_by_key c keys p m : consulted (set_by_key c keys) p m = consulted c p m.
Proof. done. Qed.

(** A price that is set answers the lookups that come to it first, and no other. *)
Lemma first_price_insert m k e ks :
  first_price (<[k:=e]> m) ks = first_price m ks ∨
  (first_price (<[k:=e]> m) ks = Some e ∧ k ∈ ks).
Proof.
  induction ks as [|k' ks IH]; [by left|]. cbn [first_price].
  destruct (decide (k = k')) as [<-|Hne].
  - rewrite lookup_insert_eq. right. split; [done|by left].
  - rewrite lookup_insert_ne by done. destruct (m !! k'); [by left|].
    destruct IH as [IH|[IH Hin]]; [by left|right]. split; [done|by right].
Qed.

Lemma lookup_set_price c keys k e p m :
  catalog_lookup (set_by_key c (<[k:=e]> keys)) p m = catalog_lookup (set_by_key c keys) p m ∨
  (catalog_lookup (set_by_key c (<[k:=e]> keys)) p m = Some e ∧ k ∈ consulted c p m).
Proof.
  rewrite !catalog_lookup_consulted. cbn [by_key set_by_key]. rewrite !consulted_by_key.
  destruct (first_price_insert keys k e (consulted c p m)) as [->|[-> Hin]];
    [by left|by right].
Qed.

(** * calculator.rs *)

Record TokenUsage : Type := { u_prompt : Z; u_completion : Z; u_cached : Z }.

Record CostBreakdown : Type := { bd_cost_usd : f64; bd_would_have_cost_usd : f64 }.

Definition f64_1000 : f64 := f64_of_Z 1000.
Definition f64_1e6 : f64 := f64_of_Z 1000000.

Definition round6 (v : f64) : f64 := f64_div (f64_round (f64_mul v f64_1e6)) f64_1e6.

(** [count as f64 * rate / 1000.0], the count clamped at zero. *)
Definition charge (count : Z) (rate : f64) : f64 :=
  f64_div (f64_mul (f64_of_Z (Z.max count 0)) rate) f64_1000.

Definition raw_cost (e : PricingEntry) (u : TokenUsage) : f64 :=
  let cached_input_rate := default (input_per_1k e) (cached_input_per_1k e) in
  f64_add (f64_add
    (charge (as_i64 (u_prompt u - u_cached u)) (input_per_1k e))
    (charge (u_cached u) cached_input_rate))
    (charge (u_completion u) (output_per_1k e)).

Definition apply (e : PricingEntry) (u : TokenUsage) : CostBreakdown :=
  let cost := raw_cost e u in
  {| bd_cost_usd := round6 cost; bd_would_have_cost_usd := round6 cost |}.

Definition compute_cost (c : PricingCatalog) (provider model : string)
    (u : TokenUsage) : option CostBreakdown :=
  e ← catalog_lookup c provider model; Some (apply e u).

(** * openrouter.rs *)

(** A fetched model, as the derived deserializer builds it. *)
Record Model : Type := {
  model_id : string;
  canonical_slug : string;
  price_prompt : string;
  price_completion : string;
  input_cache_read : option string
}.

(** [(price.is_finite() && price >= 0.0)] *)
Definition usable_price (x : f64) : bool := is_finite x && f64_leb f64_zero x.

Definition per_1k (value : string) : option f64 :=
  x ← parse_f64 value;
  opt_filter usable_price (Some (f64_mul x f64_1000)).

(** The loop of [unique_last_segments]: the aliases, and those found ambiguous. *)
Definition alias_step (st : gmap string string * gset string) (kv : string * string) :
    gmap string string * gset string :=
  let short := rsplit_next slash kv.1 in
  let ambiguous :=
    match st.1 !! short with
    | Some previous => if decide (previous = kv.2) then st.2 else {[short]} ∪ st.2
    | None => st.2
    end in
  (<[short := kv.2]> st.1, ambiguous).

Definition unique_last_segments (names : list (string * string)) : gmap string string :=
  let '(aliases, ambiguous) := foldl alias_step (∅, ∅) names in
  filter (λ kv, kv.1 ∉ ambiguous) aliases.

(** [sort_by_key] on a boolean key: stable, [false] first. *)
Definition sort_by_flag {A} (key : A → bool) (l : list A) : list A :=
  List.filter (λ x, negb (key x)) l ++ List.filter key l.

Definition colon : ascii := ":"%char.

(** The flag entries are sorted by: variants such as [name:batch] go last. *)
Definition is_variant (v : Value) : bool :=
  match get v "id" ≫= as_str with
  | Some id => contains_char colon id
  | None => false
  end.

(** What one usable model adds to the catalog; [None]: it is skipped. *)
Definition model_entry (c : PricingCatalog) (m : Model) : option (string * PricingEntry) :=
  let slug := canonical_slug m in
  if str_is_empty slug || ends_with slug "/" then None
  else
    let id := if str_is_empty (model_id m) then slug else model_id m in
    if ends_with id "/" || bool_decide (is_Some (openrouter c !! id)) then None
    else
      input ← per_1k (price_prompt m);
      output ← per_1k (price_completion m);
      cached ← match input_cache_read m with
               | Some value => price ← per_1k value; Some (Some price)
               | None => Some None
               end;
      Some (id, {| pe_provider := "*"; pe_model := id; input_per_1k := input;
                   output_per_1k := output; cached_input_per_1k := cached |}).

(** [entry(k).or_insert(v)] *)
Definition or_insert (m : gmap string string) (k v : string) : gmap string string :=
  match m !! k with Some _ => m | None => <[k := v]> m end.

Definition add_model (c : PricingCatalog) (m : Model) : PricingCatalog :=
  match model_entry c m with
  | None => c
  | Some (id, e) =>
      {| by_key := by_key c;
         openrouter := <[id := e]> (openrouter c);
         openrouter_by_slug := or_insert (openrouter_by_slug c) (canonical_slug m) id;
         openrouter_by_slug_model := openrouter_by_slug_model c;
         openrouter_by_id_model := openrouter_by_id_model c;
         openrouter_slugs := <[id := canonical_slug m]> (openrouter_slugs c) |}
  end.

Section OpenRouter.
Context `{HashOrder}.
(** The derived deserializers of the response and of one model. *)
Context (models_response : string → result (list Value) string)
  (from_value : Value → option Model).

Definition add_value (c : PricingCatalog) (v : Value) : PricingCatalog :=
  match from_value v with Some m => add_model c m | None => c end.

(** The aliases computed once every model is in. *)
Definition finish_catalog (c : PricingCatalog) : PricingCatalog :=
  {| by_key := by_key c; openrouter := openrouter c;
     openrouter_by_slug := openrouter_by_slug c;
     openrouter_by_slug_model := unique_last_segments (hash_iter (openrouter_by_slug c));
     openrouter_by_id_model :=
       unique_last_segments ((λ id, (id, id)) <$> (hash_iter (openrouter c)).*1);
     openrouter_slugs := openrouter_slugs c |}.

Definition parse_openrouter (json : string) : result PricingCatalog GatewayError :=
  let? values := map_err Serde (models_response json) in
  let c := foldl add_value empty_catalog (sort_by_flag is_variant values) in
  if decide (openrouter c = ∅)
  then Err (Internal "OpenRouter returned no usable model prices")
  else Ok (finish_catalog c).
End OpenRouter.

(** * Facts: costs *)

(** A rate a cost may be computed from: non-negative and finite. *)
Definition rate_ok (x : f64) : Prop := ge0 x = true ∧ is_finite x = true.

Definition entry_ok (e : PricingEntry) : Prop :=
  rate_ok (input_per_1k e) ∧ rate_ok (output_per_1k e) ∧
  (∀ x, cached_input_per_1k e = Some x → rate_ok x).

Lemma charge_ge0 n r : n ≤ i64_max → rate_ok r → ge0 (charge n r) = true.
Proof.
  intros Hn [Hr Hf]. unfold i64_max in Hn. unfold charge.
  apply f64_div_ge0; [|by vm_compute].
  apply f64_mul_ge0; [apply f64_of_Z_ge0; lia|done|].
  by rewrite f64_of_Z_finite, Hf by lia.
Qed.

Lemma raw_cost_ge0 e u :
  entry_ok e → in_i64 (u_completion u) → in_i64 (u_cached u) →
  ge0 (raw_cost e u) = true.
Proof.
  intros (Hi & Ho & Hc) Hu1 Hu2. unfold raw_cost.
  assert (Hcr : rate_ok (default (input_per_1k e) (cached_input_per_1k e))).
  { destruct (cached_input_per_1k e); simpl; auto. }
  pose proof (as_i64_range (u_prompt u - u_cached u)) as Hp.
  unfold in_i64 in *. repeat apply f64_add_ge0; apply charge_ge0; try done; lia.
Qed.

Lemma round6_ge0 x : ge0 x = true → ge0 (round6 x) = true.
Proof.
  intros Hx. unfold round6. apply f64_div_ge0; [|by vm_compute].
  apply f64_round_ge0, f64_mul_ge0; [done|by vm_compute|].
  apply orb_true_r || (apply orb_true_iff; right; by vm_compute).
Qed.

#[export] Hint Resolve round6_ge0 raw_cost_ge0 : gateway.

(** * Facts: the local prices *)

(** The last entry for a key wins. *)
Lemma lookup_insert_entries es m k :
  insert_entries es m !! k =
  or_else (last (List.filter (λ e, bool_decide (pe_key e = k)) es)) (m !! k).
Proof.
  revert m. induction es as [|e es IH] using rev_ind; intros m; [done|].
  unfold insert_entries in *. rewrite foldl_app, List.filter_app. simpl.
  case_bool_decide as He.
  - rewrite He, lookup_insert_eq, last_snoc. done.
  - rewrite lookup_insert_ne, app_nil_r by done. apply IH.
Qed.

(** * Facts: short names *)

Definition short_of (kv : string * string) : string := rsplit_next slash kv.1.

(** The ids listed under a short name. *)
Definition ids_of (names : list (string * string)) (s : string) : list string :=
  (List.filter (λ kv, String.eqb (short_of kv) s) names).*2.

Lemma ids_of_snoc names kv s :
  ids_of (names ++ [kv]) s =
  ids_of names s ++ (if String.eqb (short_of kv) s then [kv.2] else []).
Proof.
  unfold ids_of. rewrite List.filter_app, fmap_app. simpl. by case_match.
Qed.

(** After the loop an alias is the last id listed, and a name is ambiguous when
    two different ids were listed for it. *)
Lemma alias_fold names :
  let st := foldl alias_step (∅, ∅) names in
  ∀ s, st.1 !! s = last (ids_of names s) ∧
    (s ∉ st.2 ↔ ∃ id, ∀ x, x ∈ ids_of names s → x = id).
Proof.
  induction names as [|kv names IH] using rev_ind.
  { split; [done|]. split; [|set_solver]. exists "". set_solver. }
  intros st s. subst st. rewrite foldl_app. simpl.
  destruct (foldl alias_step (∅, ∅) names) as [al am]. simpl in *.
  destruct (IH s) as [Hl Ha]. unfold alias_step. fold (short_of kv). simpl.
  rewrite ids_of_snoc. destruct (String.eqb_spec (short_of kv) s) as [Hs|Hs].
  - subst s. rewrite lookup_insert_eq, last_snoc. split; [done|].
    rewrite Hl. setoid_rewrite elem_of_app. setoid_rewrite list_elem_of_singleton.
    destruct (last (ids_of names (short_of kv))) as [prev|] eqn:Hp.
    + apply last_Some_elem_of in Hp. case_decide as Hd.
      * subst prev. rewrite Ha. split; [|naive_solver].
        intros [id Hid]. exists id. intros x [|]; [auto|subst; auto].
      * split; [set_solver|]. intros [id Hid]. exfalso. apply Hd.
        transitivity id; [auto|symmetry; auto].
    + rewrite Ha. apply last_None in Hp. rewrite Hp. split; [|naive_solver].
      intros _. exists (kv.2). set_solver.
  - rewrite lookup_insert_ne, app_nil_r by done. split; [done|]. rewrite <- Ha.
    repeat case_match; set_solver.
Qed.

(** A short name resolves exactly when everything listed under it is one id. *)
Lemma unique_last_segments_spec names s id :
  unique_last_segments names !! s = Some id ↔
  (∃ kv, kv ∈ names ∧ short_of kv = s) ∧
  (∀ kv, kv ∈ names → short_of kv = s → kv.2 = id).
Proof.
  assert (Hids : ∀ x, x ∈ ids_of names s ↔ ∃ kv, kv ∈ names ∧ short_of kv = s ∧ kv.2 = x).
  { intros x. unfold ids_of. rewrite list_elem_of_fmap.
    setoid_rewrite list_elem_of_In. setoid_rewrite filter_In.
    setoid_rewrite String.eqb_eq. naive_solver. }
  unfold unique_last_segments. pose proof (alias_fold names) as Hf.
  destruct (foldl alias_step (∅, ∅) names) as [al am]. simpl in Hf.
  destruct (Hf s) as [Hl Ha]. rewrite map_lookup_filter_Some, Hl. simpl. rewrite Ha.
  split.
  - intros [Hlast [id' Hid']]. apply last_Some_elem_of in Hlast.
    pose proof (proj1 (Hids id) Hlast) as (kv & ? & ? & ?).
    rewrite (Hid' _ Hlast). split; [eauto|]. intros kv' ? ?. apply Hid', Hids. eauto.
  - intros [(kv & Hin & Hs) Hall]. split; [|exists id; naive_solver].
    assert (Hne : kv.2 ∈ ids_of names s) by (apply Hids; eauto).
    destruct (last (ids_of names s)) as [x|] eqn:Hx.
    + apply last_Some_elem_of, Hids in Hx as (kv' & ? & ? & <-). f_equal. auto.
    + apply last_None in Hx. rewrite Hx in Hne. set_solver.
Qed.

(** * Facts: the fetched catalog *)

(** What the lookup relies on: every fetched entry is listed under its own id
    with a usable price and has a canonical slug, and the slug table only names
    fetched ids. *)
Record wf_fetched (c : PricingCatalog) : Prop := {
  wf_no_local : by_key c = ∅;
  wf_entry id e : openrouter c !! id = Some e →
    pe_model e = id ∧ pe_provider e = "*" ∧ entry_ok e;
  wf_slug id : is_Some (openrouter c !! id) → is_Some (openrouter_slugs c !! id);
  wf_by_slug s id : openrouter_by_slug c !! s = Some id → is_Some (openrouter c !! id)
}.

Lemma per_1k_ok v x : per_1k v = Some x → rate_ok x.
Proof.
  unfold per_1k, rate_ok. destruct (parse_f64 v) as [y|]; simpl; [|done].
  unfold usable_price. case_match eqn:Hu; [|done]. intros [= <-].
  apply andb_true_iff in Hu as [Hf Hg]. split; [by apply ge0_leb|done].
Qed.

Lemma model_entry_ok c m id e :
  model_entry c m = Some (id, e) →
  pe_model e = id ∧ pe_provider e = "*" ∧ entry_ok e.
Proof.
  unfold model_entry. case_match; [done|]. case_match; [done|].
  destruct (per_1k (price_prompt m)) as [i|] eqn:Hi; simpl; [|done].
  destruct (per_1k (price_completion m)) as [o|] eqn:Ho; simpl; [|done].
  apply per_1k_ok in Hi, Ho.
  destruct (input_cache_read m) as [v|]; simpl.
  - destruct (per_1k v) as [x|] eqn:Hx; simpl; [|done]. apply per_1k_ok in Hx.
    intros [= <- <-]. simpl. do 2 (split; [done|]). split_and!; [done..|].
    by intros ? [= <-].
  - intros [= <- <-]. simpl. do 2 (split; [done|]). by split_and!.
Qed.

Lemma add_model_wf c m : wf_fetched c → wf_fetched (add_model c m).
Proof.
  intros [Hk He Hs Hb]. unfold add_model.
  destruct (model_entry c m) as [[id e]|] eqn:Hm; [|done].
  apply model_entry_ok in Hm as (Hid & Hp & Hok). constructor; simpl.
  - done.
  - intros id' e' [[<- <-]|[_ Hl]]%lookup_insert_Some; [done|by apply He].
  - intros id'. rewrite !lookup_insert_is_Some'. intros [->|Hl]; [by left|].
    right. by apply Hs.
  - intros s id'. rewrite lookup_insert_is_Some'. unfold or_insert.
    destruct (_ !! canonical_slug m); [intros Hl; right; by apply (Hb s)|].
    intros [[_ <-]|[_ Hl]]%lookup_insert_Some; [by left|right; by apply (Hb s)].
Qed.

Lemma add_values_wf fv vs c :
  wf_fetched c → wf_fetched (foldl (add_value fv) c vs).
Proof.
  revert c. induction vs as [|v vs IH]; intros c Hc; simpl; [done|].
  apply IH. unfold add_value. case_match; [by apply add_model_wf|done].
Qed.

Lemma empty_catalog_wf : wf_fetched empty_catalog.
Proof.
  constructor; simpl; [done|..].
  - intros id e He. by rewrite lookup_empty in He.
  - intros id [e He]. by rewrite lookup_empty in He.
  - intros s id Hs. by rewrite lookup_empty in Hs.
Qed.

Lemma finish_catalog_wf `{HashOrder} c : wf_fetched c → wf_fetched (finish_catalog c).
Proof. intros [? ? ? ?]. by constructor. Qed.

(** The two short-name tables of a finished catalog only name fetched ids. *)
Lemma finish_catalog_short `{HashOrder} c s id :
  wf_fetched c →
  openrouter_by_slug_model (finish_catalog c) !! s = Some id ∨
  openrouter_by_id_model (finish_catalog c) !! s = Some id →
  is_Some (openrouter c !! id).
Proof.
  intros Hwf [Hs|Hs]; simpl in Hs; apply unique_last_segments_spec in Hs
    as [(kv & Hin & Hkv) Hall]; pose proof (Hall kv Hin Hkv) as <-.
  - destruct kv as [sl id]. apply elem_of_hash_iter in Hin.
    by apply (wf_by_slug c Hwf) in Hin.
  - apply list_elem_of_fmap in Hin as (id & -> & Hin).
    apply list_elem_of_fmap in Hin as ([id' e] & -> & Hin).
    apply elem_of_hash_iter in Hin. simpl. by exists e.
Qed.

Lemma parse_openrouter_wf `{HashOrder} mr fv json c :
  parse_openrouter mr fv json = Ok c →
  ∃ c', c = finish_catalog c' ∧ wf_fetched c'.
Proof.
  unfold parse_openrouter. destruct (mr json) as [vs|]; [|done]. simpl.
  case_decide; [done|]. intros [= <-]. eexists. split; [done|].
  apply add_values_wf, empty_catalog_wf.
Qed.

(** An entry found by name is a fetched one. *)
Lemma fetched_entry c model e :
  wf_fetched c → openrouter_entry c model = Some e →
  ∃ id, openrouter c !! id = Some e.
Proof.
  intros _. unfold openrouter_entry.
  destruct (or_else (openrouter_by_slug c !! model) _) as [id|]; simpl.
  - destruct (openrouter c !! id) eqn:Hid; simpl; [intros [= <-]; eauto|].
    destruct (openrouter c !! model) eqn:Hm; simpl; [intros [= <-]; eauto|].
    destruct (openrouter_by_id_model c !! model) as [id'|]; simpl; [eauto|done].
  - destruct (openrouter c !! model) eqn:Hm; simpl; [intros [= <-]; eauto|].
    destruct (openrouter_by_id_model c !! model) as [id'|]; simpl; [eauto|done].
Qed.

(** With no local price the lookup is the fetched entry. *)
Lemma fetched_lookup c provider model :
  wf_fetched c → catalog_lookup c provider model = openrouter_entry c model.
Proof.
  intros Hwf. unfold catalog_lookup, lookup_openrouter, local_price.
  rewrite (wf_no_local c Hwf), !lookup_empty. simpl.
  assert (strip_date model ≫= (λ m, (∅ : gmap (string * string) PricingEntry) !! (provider, m))
    = None) as -> by by destruct (strip_date model).
  simpl. destruct (openrouter_entry c model) as [e|] eqn:He; simpl; [|done].
  destruct (fetched_entry c model e Hwf He) as [id Hid].
  destruct (wf_entry c Hwf id e Hid) as (<- & _ & _).
  destruct (wf_slug c Hwf (pe_model e)) as [s Hs]; [by exists e|].
  by rewrite Hs.
Qed.

(** A name resolves when one of the tables lists it. *)
Lemma openrouter_entry_Some c model :
  (∀ s id, openrouter_by_slug c !! s = Some id → is_Some (openrouter c !! id)) →
  (∀ s id, openrouter_by_slug_model c !! s = Some id → is_Some (openrouter c !! id)) →
  (∀ s id, openrouter_by_id_model c !! s = Some id → is_Some (openrouter c !! id)) →
  is_Some (openrouter c !! model) ∨ is_Some (openrouter_by_slug c !! model) ∨
  is_Some (openrouter_by_slug_model c !! model) ∨
  is_Some (openrouter_by_id_model c !! model) ↔
  is_Some (openrouter_entry c model).
Proof.
  intros H1 H2 H3. unfold openrouter_entry.
  specialize (H1 model). specialize (H2 model). specialize (H3 model).
  destruct (openrouter_by_slug c !! model) as [i1|]; simpl.
  { destruct (H1 i1) as [e ->]; [done|]. naive_solver. }
  destruct (openrouter_by_slug_model c !! model) as [i2|]; simpl.
  { destruct (H2 i2) as [e ->]; [done|]. naive_solver. }
  destruct (openrouter c !! model) as [e|]; simpl; [naive_solver|].
  destruct (openrouter_by_id_model c !! model) as [i3|]; simpl.
  { destruct (H3 i3) as [e ->]; [done|]. naive_solver. }
  rewrite !is_Some_alt. naive_solver.
Qed.

(** * Properties *)

(** C40: The cost of a request is never negative and never NaN when the rates of the
    entry that prices it are finite and not negative, for any token counts the wire
    can carry, even negative ones or more cached than prompt tokens. The Admin API and
    the OpenRouter parser accept no other rates; the entries of a catalog file are not
    validated, and a negative rate there gives a negative cost:
    [negative_rate_negative_cost]. *)
Theorem compute_cost_nonneg c provider model u cb :
  (∀ e, catalog_lookup c provider model = Some e → entry_ok e) →
  in_i64 (u_completion u) → in_i64 (u_cached u) →
  compute_cost c provider model u = Some cb →
  f64_leb f64_zero (bd_cost_usd cb) = true ∧ bd_would_have_cost_usd cb = bd_cost_usd cb.
Proof.
  intros Hok Hu1 Hu2. unfold compute_cost.
  destruct (catalog_lookup c provider model) as [e|]; simpl; [|done].
  intros [= <-]. split; [|done]. apply ge0_leb. cbn [apply bd_cost_usd].
  auto with gateway.
Qed.

(** A rate below zero, which a catalog file may hold, makes a cost below zero. *)
Lemma negative_rate_negative_cost :
  let e := {| pe_provider := "p"; pe_model := "m"; input_per_1k := f64_of_dec true 1 0;
              output_per_1k := f64_zero; cached_input_per_1k := None |} in
  ∃ cb, compute_cost (with_overrides empty_catalog [e]) "p" "m"
          {| u_prompt := 1000; u_completion := 0; u_cached := 0 |} = Some cb ∧
        f64_leb f64_zero (bd_cost_usd cb) = false.
Proof. eexists. split; vm_compute; reflexivity. Qed.

(** An override decides the price of its own provider and model, whatever
    else the catalog holds; the last of several overrides for a pair wins, and
    exact prices of other pairs are untouched. *)
Theorem with_overrides_lookup c es provider model :
  let given := List.filter (λ e, bool_decide (pe_key e = (provider, model))) es in
  (∀ e, last given = Some e →
     catalog_lookup (with_overrides c es) provider model = Some e) ∧
  (given = [] → ∀ e, by_key c !! (provider, model) = Some e →
     catalog_lookup (with_overrides c es) provider model = Some e).
Proof.
  unfold catalog_lookup. cbn [with_overrides set_by_key by_key].
  split; [intros e He|intros Hg e He]; rewrite lookup_insert_entries.
  - by rewrite He.
  - rewrite Hg, He. done.
Qed.

(** A catalog parsed from OpenRouter is never empty and prices exactly what
    it lists: each of its ids, canonical slugs and unambiguous short names, and
    no other name, resolves for every provider to a fetched entry with a usable
    (non-negative, finite) price, so costs computed from it are well defined. *)
Theorem parse_openrouter_priced `{HashOrder} mr fv json c provider model :
  parse_openrouter mr fv json = Ok c →
  (is_Some (openrouter c !! model) ∨ is_Some (openrouter_by_slug c !! model) ∨
   is_Some (openrouter_by_slug_model c !! model) ∨
   is_Some (openrouter_by_id_model c !! model)) ↔
  ∃ e, catalog_lookup c provider model = Some e ∧ openrouter c !! pe_model e = Some e ∧
       entry_ok e.
Proof.
  intros (c' & -> & Hwf)%parse_openrouter_wf.
  rewrite (fetched_lookup _ _ _ (finish_catalog_wf _ Hwf)).
  rewrite (openrouter_entry_Some (finish_catalog c')).
  - split.
    + intros [e He]. exists e. split; [done|].
      destruct (fetched_entry _ _ _ (finish_catalog_wf _ Hwf) He) as (id & Hid).
      destruct (wf_entry c' Hwf id e Hid) as (<- & _ & ?). by split.
    + intros (e & He & _). by exists e.
  - intros s id. apply (wf_by_slug c' Hwf).
  - intros s id Hs. apply (finish_catalog_short c' s); auto.
  - intros s id Hs. apply (finish_catalog_short c' s); auto.
Qed.

(** * A concrete catalog *)

Definition sample_price (p m : string) : PricingEntry :=
  {| pe_provider := p; pe_model := m; input_per_1k := f64_of_dec false 15 (-5);
     output_per_1k := f64_of_dec false 6 (-4);
     cached_input_per_1k := Some (f64_of_dec false 75 (-6)) |}.

Definition sample_catalog : PricingCatalog :=
  with_overrides empty_catalog [sample_price "openai" "gpt-4o-mini"].

Definition sample_model : Model :=
  {| model_id := "vendor/alias"; canonical_slug := "vendor/model-20260101";
     price_prompt := "0.000002"; price_completion := "0.00001";
     input_cache_read := None |}.

Lemma compute_cost_nonneg_witness :
  ∃ cb, compute_cost sample_catalog "openai" "gpt-4o-mini"
          {| u_prompt := 10; u_completion := -5; u_cached := 800 |} = Some cb ∧
        f64_leb f64_zero (bd_cost_usd cb) = true.
Proof.
  eexists. split; [vm_compute; reflexivity|].
  refine (proj1 (compute_cost_nonneg sample_catalog "openai" "gpt-4o-mini"
    {| u_prompt := 10; u_completion := -5; u_cached := 800 |} _ _ _ _ _)).
  - intros e He. vm_compute in He. injection He as <-.
    split; [split; vm_compute; reflexivity|].
    split; [split; vm_compute; reflexivity|].
    intros x Hx. injection Hx as <-. split; vm_compute; reflexivity.
  - split; vm_compute; congruence.
  - split; vm_compute; congruence.
  - vm_compute. reflexivity.
Defined.

Lemma parse_openrouter_priced_witness :
  ∃ c e, @parse_openrouter tree_order (λ _, Ok [VNull]) (λ _, Some sample_model) ""
           = Ok c ∧
         catalog_lookup c "any" "alias" = Some e ∧ pe_model e = "vendor/alias".
Proof.
  destruct (@parse_openrouter tree_order (λ _, Ok [VNull]) (λ _, Some sample_model) "")
    as [c|] eqn:Hc; [|vm_compute in Hc; discriminate Hc].
  assert (Ha : openrouter_by_id_model c !! "alias" = Some "vendor/alias").
  { vm_compute in Hc. injection Hc as <-. vm_compute. reflexivity. }
  destruct (proj1 (@parse_openrouter_priced tree_order (λ _, Ok [VNull])
    (λ _, Some sample_model) "" c "any" "alias" Hc)) as (e & He & Ho & _).
  { right. right. right. exists "vendor/alias". exact Ha. }
  exists c, e. split; [reflexivity|]. split; [exact He|].
  vm_compute in Hc. injection Hc as <-. vm_compute in He. injection He as <-. reflexivity.
Defined.
