(* ===== verification/Tokens.v ===== *)
(** Token usage read from a response body: gateway-api/src/tokens.rs. *)
From Stdlib Require Import ZArith Lia String.
From stdpp Require Import prelude strings list.
From S2P Require Import Prelude Text Json.
Open Scope Z_scope.

Record TokenUsage : Type := {
  usage_prompt : option Z;
  usage_completion : option Z;
  usage_cached : option Z;
  usage_total : option Z
}.

Definition no_usage : TokenUsage :=
  {| usage_prompt := None; usage_completion := None; usage_cached := None;
     usage_total := None |}.

(** [TokenUsage::total_tokens]; the sum wraps at 64 bits. *)
Definition total_tokens (u : TokenUsage) : option Z :=
  match usage_total u with
  | Some t => Some t
  | None =>
      match usage_prompt u, usage_completion u with
      | Some p, Some c => Some (as_i64 (p + c))
      | _, _ => None
      end
  end.

(** [usage.get(a).or_else(|| usage.get(b))] on an object. *)
Definition get_either (m : list (string * Value)) (a b : string) : option Value :=
  or_else (map_get m a) (map_get m b).

(** [usage.get(k).and_then(|d| d.get("cached_tokens")).and_then(as_i64)] *)
Definition cached_detail (m : list (string * Value)) (k : string) : option Z :=
  (map_get m k ≫= λ d, get d "cached_tokens") ≫= as_i64_value.

(** The [usage] object of a response, or of the response an event wraps. *)
Definition usage_object (v : Value) : option (list (string * Value)) :=
  or_else (get v "usage" ≫= as_object)
    ((get v "response" ≫= λ r, get r "usage") ≫= as_object).

Definition from_value (v : Value) : TokenUsage :=
  match usage_object v with
  | None => no_usage
  | Some usage =>
      {| usage_prompt := get_either usage "prompt_tokens" "input_tokens" ≫= as_i64_value;
         usage_completion :=
           get_either usage "completion_tokens" "output_tokens" ≫= as_i64_value;
         usage_cached :=
           or_else (or_else (cached_detail usage "prompt_tokens_details")
             (cached_detail usage "input_tokens_details"))
             (map_get usage "cache_read_input_tokens" ≫= as_i64_value);
         usage_total := map_get usage "total_tokens" ≫= as_i64_value |}
  end.

(** [trim_ascii]: blanks, tabs and carriage returns at both ends. *)
Definition is_blank (b : Byte.byte) : bool :=
  (byte_val b =? 32) || (byte_val b =? 9) || (byte_val b =? 13).

Definition trim_ascii (s : bytes) : bytes := drop_while_end is_blank (drop_while is_blank s).

Definition newline : Z := 10.
Definition data_prefix : bytes := str_bytes "data: ".
Definition done_marker : bytes := str_bytes "[DONE]".

(** [if u.f.is_some() { usage.f = u.f }] *)
Definition overwrite {A} (old new : option A) : option A :=
  match new with Some _ => new | None => old end.

Definition merge_usage (usage u : TokenUsage) : TokenUsage :=
  {| usage_prompt := overwrite (usage_prompt usage) (usage_prompt u);
     usage_completion := overwrite (usage_completion usage) (usage_completion u);
     usage_cached := overwrite (usage_cached usage) (usage_cached u);
     usage_total := overwrite (usage_total usage) (usage_total u) |}.

Section Extract.
Context `{SerdeJson}.

(** The JSON payload of one line of an event stream, if it has one. *)
Definition line_event (line : bytes) : option Value :=
  match strip_prefix_bytes data_prefix (trim_ascii line) with
  | None => None
  | Some payload =>
      if bool_decide (payload = done_marker) then None else from_slice payload
  end.

Definition merge_line (usage : TokenUsage) (line : bytes) : TokenUsage :=
  match line_event line with
  | Some v => merge_usage usage (from_value v)
  | None => usage
  end.

Definition extract_token_usage (body : bytes) : TokenUsage :=
  match body with
  | [] => no_usage
  | _ =>
      match from_slice body with
      | Some v => from_value v
      | None => foldl merge_line no_usage (split_bytes newline body)
      end
  end.

(** [value.as_str().filter(|s| !s.is_empty())] *)
Definition non_empty_id (v : Value) : option string :=
  opt_filter (λ s, negb (str_is_empty s)) (as_str v).

Definition id_from_value (v : Value) : option string :=
  or_else (get v "id" ≫= non_empty_id)
    ((get v "response" ≫= λ r, get r "id") ≫= non_empty_id).

(** The [for] loop with its early return. *)
Fixpoint first_id (lines : list bytes) : option string :=
  match lines with
  | [] => None
  | line :: rest =>
      match line_event line ≫= id_from_value with
      | Some i => Some i
      | None => first_id rest
      end
  end.

Definition extract_response_id (body : bytes) : option string :=
  match body with
  | [] => None
  | _ =>
      match from_slice body with
      | Some v => id_from_value v
      | None => first_id (split_bytes newline body)
      end
  end.

(** The events of a body, in order: the body itself when it is one JSON value,
    else the payloads of its lines. *)
Definition body_events (body : bytes) : list Value :=
  match body with
  | [] => []
  | _ =>
      match from_slice body with
      | Some v => [v]
      | None => omap line_event (split_bytes newline body)
      end
  end.

Lemma merge_lines_last {A} (f : TokenUsage → option A) :
  (∀ u u', f (merge_usage u u') = overwrite (f u) (f u')) →
  ∀ lines u,
    f (foldl merge_line u lines) =
    overwrite (f u) (last (omap (λ v, f (from_value v)) (omap line_event lines))).
Proof.
  intros Hf lines. induction lines as [|line lines IH] using rev_ind; intros u.
  { simpl. by destruct (f u). }
  rewrite foldl_app, !omap_app. simpl. unfold merge_line at 1.
  destruct (line_event line) as [v|] eqn:Hv; simpl.
  - rewrite Hf. destruct (f (from_value v)) as [x|]; simpl.
    + by rewrite last_snoc.
    + rewrite app_nil_r. apply IH.
  - rewrite app_nil_r. apply IH.
Qed.

(** Each field is the one of the last event that carries it. *)
Lemma extract_field {A} (f : TokenUsage → option A) body :
  f no_usage = None →
  (∀ u u', f (merge_usage u u') = overwrite (f u) (f u')) →
  f (extract_token_usage body) = last (omap (λ v, f (from_value v)) (body_events body)).
Proof.
  intros H0 Hf. unfold extract_token_usage, body_events.
  destruct body as [|b body]; [done|].
  destruct (from_slice (b :: body)) as [v|]; simpl.
  - by destruct (f (from_value v)).
  - rewrite merge_lines_last, H0 by done. simpl. by destruct (last _).
Qed.

Lemma first_id_spec lines : first_id lines = head (omap id_from_value (omap line_event lines)).
Proof.
  induction lines as [|line lines IH]; [done|]. simpl.
  destruct (line_event line) as [v|]; simpl; [|done].
  by destruct (id_from_value v).
Qed.
End Extract.

(** What a response is billed on: every counter of the usage is the one
    reported by the last event of the body that reports it, and the log id is
    the first non-empty id among the events. *)
Theorem extract_usage_last_id_first `{SerdeJson} body :
  let events := body_events body in
  let u := extract_token_usage body in
  usage_prompt u = last (omap (λ v, usage_prompt (from_value v)) events) ∧
  usage_completion u = last (omap (λ v, usage_completion (from_value v)) events) ∧
  usage_cached u = last (omap (λ v, usage_cached (from_value v)) events) ∧
  usage_total u = last (omap (λ v, usage_total (from_value v)) events) ∧
  extract_response_id body = head (omap id_from_value events).
Proof.
  intros events u. split_and!; try by apply extract_field.
  unfold extract_response_id, events, body_events. destruct body as [|b body]; [done|].
  destruct (from_slice (b :: body)) as [v|]; simpl.
  - by destruct (id_from_value v).
  - apply first_id_spec.
Qed.
