(* ===== verification/LogBody.v ===== *)
(** What of the request and response bodies is kept for the log: the redaction,
    clipping and capture helpers of gateway-api/src/routes/proxy.rs, and the
    capturing stream of gateway-core/src/proxy/stream.rs.  What the redaction
    amounts to is specified in Redaction. *)
From Stdlib Require Import ZArith Lia Ascii String.
From stdpp Require Import prelude strings list.
From S2P Require Import Prelude Text Json Cache.
Open Scope Z_scope.

Definition MAX_LOG_BODY_BYTES : nat := Z.to_nat 65536.
#[global] Arguments MAX_LOG_BODY_BYTES : simpl never.

(** ["\n…[truncated]"] *)
Definition truncated_marker : string := String (ascii_of_nat 10) "…[truncated]".

Definition mark (truncated : bool) (s : string) : string :=
  if truncated then (s +:+ truncated_marker)%string else s.

(** * Redaction of base64 payloads *)

Definition is_base64_field_name (name : string) : bool :=
  eq_ignore_ascii_case name "base64" || eq_ignore_ascii_case name "base64_data" ||
  eq_ignore_ascii_case name "b64_json" || ends_with (to_ascii_lowercase name) "_base64".

Definition comma : ascii := ","%char.
Definition semicolon : ascii := ";"%char.

(** [value.as_bytes().get(..5)] equal to [data:], and what follows it. *)
Definition after_data (value : string) : option string :=
  if (5 <=? slen value) && eq_ignore_ascii_case (String.substring 0 5 value) "data:"
  then Some (String.substring 5 (String.length value - 5) value) else None.

Definition data_url_parts (value : string) : option (string * string) :=
  rest ← after_data value;
  '(metadata, payload) ← split_once comma rest;
  if existsb (λ part, eq_ignore_ascii_case part "base64") (split semicolon metadata)
  then
    let media_type :=
      default "text/plain"
        (opt_filter (λ v, negb (str_is_empty v)) (head (split semicolon metadata))) in
    Some (media_type, payload)
  else None.

(** The loop over the bytes: the significant ones and the padding. *)
Definition count_base64 (st : Z * Z) (b : Byte.byte) : Z * Z :=
  if is_ascii_whitespace b then st
  else (sat_add u64_max st.1 1,
        if byte_val b =? 61 then sat_add u64_max st.2 1 else st.2).

Definition decoded_base64_len (value : string) : Z :=
  let '(significant, padding) := foldl count_base64 (0, 0) (str_bytes value) in
  sat_sub (sat_mul u64_max significant 6 / 8) (Z.min padding 2).

Definition base64_summary (value : string) (force : bool) (media_type : option string) :
    option string :=
  '(media_type, payload) ←
    (if force then Some (default "application/octet-stream" media_type, value)
     else data_url_parts value);
  Some ("[base64 " +:+ media_type +:+ ", " +:+ dec_of (decoded_base64_len payload)
        +:+ " bytes]")%string.

Definition media_type_of (values : list (string * Value)) : option string :=
  or_else (map_get values "media_type") (map_get values "mime_type") ≫= as_str.

Definition declares_base64 (values : list (string * Value)) : bool :=
  match map_get values "type" ≫= as_str with
  | Some kind => eq_ignore_ascii_case kind "base64"
  | None => false
  end ||
  (bool_decide (is_Some (media_type_of values)) && contains_key values "data").

(** Whether the member [key] of the object holds base64 whatever it looks like. *)
Definition forced (values : list (string * Value)) (key : string) : bool :=
  is_base64_field_name key ||
  (declares_base64 values && eq_ignore_ascii_case key "data").

(** The value [RedactedJson] serializes as. *)
Fixpoint redact (force_base64 : bool) (media_type : option string) (v : Value) : Value :=
  match v with
  | VString s => VString (default s (base64_summary s force_base64 media_type))
  | VArray values => VArray (map (redact false None) values)
  | VObject values =>
      VObject (map (λ kv : string * Value,
        let f := forced values kv.1 in
        (kv.1, redact f (if f then media_type_of values else None) kv.2)) values)
  | v => v
  end.

Definition plain : Value → Value := redact false None.

(** * The bounded writer *)

Record LogBodyWriter : Type := { w_bytes : bytes; w_truncated : bool }.

Definition writer_new : LogBodyWriter := {| w_bytes := []; w_truncated := false |}.

(** [LogBodyWriter::write]: how much was taken, or an error when full. *)
Definition write (w : LogBodyWriter) (buf : bytes) : result nat unit * LogBodyWriter :=
  let remaining := (MAX_LOG_BODY_BYTES - length (w_bytes w))%nat in
  if (remaining =? 0)%nat
  then (Err (), {| w_bytes := w_bytes w; w_truncated := true |})
  else
    let taken := (remaining `min` length buf)%nat in
    (Ok taken,
     {| w_bytes := w_bytes w ++ take taken buf;
        w_truncated := w_truncated w || (taken <? length buf)%nat |}).

(** [Write::write_all] of the standard library; every turn with room takes a
    byte, so as many turns as bytes are enough. *)
Fixpoint write_all (fuel : nat) (w : LogBodyWriter) (buf : bytes) :
    result unit unit * LogBodyWriter :=
  match buf, fuel with
  | [], _ => (Ok (), w)
  | _, O => (Ok (), w)
  | _, S fuel =>
      match write w buf with
      | (Ok O, w) => (Err (), w)
      | (Ok n, w) => write_all fuel w (drop n buf)
      | (Err e, w) => (Err e, w)
      end
  end.

(** The serializer hands its output over piece by piece and stops at an error. *)
Fixpoint write_pieces (w : LogBodyWriter) (pieces : list bytes) :
    result unit unit * LogBodyWriter :=
  match pieces with
  | [] => (Ok (), w)
  | p :: rest =>
      match write_all (S (length p)) w p with
      | (Ok _, w) => write_pieces w rest
      | (Err e, w) => (Err e, w)
      end
  end.

Definition clip_body_for_log (body : bytes) : string :=
  let taken := (length body `min` MAX_LOG_BODY_BYTES)%nat in
  mark (taken <? length body)%nat (from_utf8_lossy (take taken body)).

Section Request.
(** The pieces in which serde_json writes a value. *)
Context (json_pieces : Value → list bytes).

Definition redacted_json_for_log (value : Value) : string :=
  let '(r, w) := write_pieces writer_new (json_pieces (plain value)) in
  if negb (is_ok r) && negb (w_truncated w) then "[failed to serialize request JSON]"
  else mark (w_truncated w) (from_utf8_lossy (w_bytes w)).

Definition request_body_for_log (body : bytes) (json : option Value) : option string :=
  match body with
  | [] => None
  | _ =>
      match json with
      | Some json => Some (redacted_json_for_log json)
      | None => Some (clip_body_for_log body)
      end
  end.
End Request.

(** * Response capture *)

(** The capture of the streaming task: the bytes kept, and whether some were
    not. *)
Definition capture_chunk (st : bytes * bool) (chunk : bytes) : bytes * bool :=
  let '(buf, truncated) := st in
  if (length buf <? MAX_LOG_BODY_BYTES)%nat then
    let taken := ((MAX_LOG_BODY_BYTES - length buf) `min` length chunk)%nat in
    (buf ++ take taken chunk, truncated || (taken <? length chunk)%nat)
  else (buf, truncated || bool_decide (chunk ≠ [])).

Definition captured_body_to_string (buf : bytes) (truncated : bool) : option string :=
  match buf with
  | [] => None
  | _ =>
      let s := default ("[binary " +:+ dec_of (blen buf) +:+ " bytes]")%string
                 (from_utf8 buf) in
      Some (mark truncated s)
  end.

(** The loop of [cached_body_preview]; [&s[..n]] may panic. *)
Fixpoint preview_go (out : string) (cs : list CachedChunk) : outcome string :=
  match cs with
  | [] => Ret out
  | c :: rest =>
      if (MAX_LOG_BODY_BYTES <=? String.length out)%nat
      then Ret (out +:+ truncated_marker)%string
      else
        match from_utf8 (data c) with
        | Some s =>
            let remaining := (MAX_LOG_BODY_BYTES - String.length out)%nat in
            match slice_to s (String.length s `min` remaining) with
            | Ret t => preview_go (out +:+ t)%string rest
            | Panic => Panic
            end
        | None => preview_go out rest
        end
  end.

Definition cached_body_preview (c : CachedResponse) : outcome (option string) :=
  match preview_go "" (chunks c) with
  | Ret out => Ret (if str_is_empty out then None else Some out)
  | Panic => Panic
  end.

(** * stream.rs *)

Record TeeStream : Type := {
  accumulator : bytes;
  max_capture : nat;
  tee_truncated : bool
}.

Definition tee_new (max_capture : nat) : TeeStream :=
  {| accumulator := []; max_capture := max_capture; tee_truncated := false |}.

(** What a poll that found an item of the inner stream does and passes on. *)
Definition poll_next (t : TeeStream) (item : result bytes string) :
    result bytes string * TeeStream :=
  match item with
  | Ok chunk =>
      let remaining := (max_capture t - length (accumulator t))%nat in
      if (0 <? remaining)%nat then
        let taken := (remaining `min` length chunk)%nat in
        (Ok chunk,
         {| accumulator := accumulator t ++ take taken chunk;
            max_capture := max_capture t;
            tee_truncated := tee_truncated t || (taken <? length chunk)%nat |})
      else
        (Ok chunk,
         {| accumulator := accumulator t; max_capture := max_capture t;
            tee_truncated := tee_truncated t || bool_decide (chunk ≠ []) |})
  | Err e => (Err e, t)
  end.

Definition into_captured (t : TeeStream) : bytes * bool := (accumulator t, tee_truncated t).

(** Draining the stream: the items passed on and the state at the end. *)
Fixpoint drain (t : TeeStream) (items : list (result bytes string)) :
    list (result bytes string) * TeeStream :=
  match items with
  | [] => ([], t)
  | i :: rest =>
      let '(o, t) := poll_next t i in
      let '(os, t) := drain t rest in (o :: os, t)
  end.

(** * Facts: bounded accumulation *)

Lemma max_log_body_pos : (0 < MAX_LOG_BODY_BYTES)%nat.
Proof. unfold MAX_LOG_BODY_BYTES. lia. Qed.

(** What any of the bounded buffers holds after receiving [s]: its first [max]
    bytes, and whether more came. *)
Definition clipped (max : nat) (s : bytes) : bytes * bool :=
  (take max s, (max <? length s)%nat).

Lemma clipped_app max s chunk :
  let kept := (max - length s)%nat in
  clipped max (s ++ chunk) =
  ((clipped max s).1 ++ take kept chunk,
   (clipped max s).2 || (kept <? length chunk)%nat).
Proof.
  intros kept. subst kept. unfold clipped. simpl. rewrite take_app, length_app. f_equal.
  apply eq_bool_prop_intro. rewrite orb_True, !Is_true_true, !Nat.ltb_lt. lia.
Qed.

Lemma clipped_1_length max s : length (clipped max s).1 = (max `min` length s)%nat.
Proof. apply length_take. Qed.

Lemma take_min {A} n (l : list A) : take (n `min` length l) l = take n l.
Proof.
  destruct (Nat.le_ge_cases n (length l)).
  - by rewrite Nat.min_l.
  - rewrite Nat.min_r, !take_ge; auto with lia.
Qed.

Lemma ltb_min n m : ((n `min` m) <? m)%nat = (n <? m)%nat.
Proof. apply eq_bool_prop_intro. rewrite !Is_true_true, !Nat.ltb_lt. lia. Qed.

(** When the buffer is full, only emptiness of what comes matters. *)
Lemma full_ltb (chunk : bytes) : bool_decide (chunk ≠ []) = (0 <? length chunk)%nat.
Proof. by destruct chunk. Qed.

Lemma capture_chunk_clipped s chunk :
  capture_chunk (clipped MAX_LOG_BODY_BYTES s) chunk =
  clipped MAX_LOG_BODY_BYTES (s ++ chunk).
Proof.
  rewrite clipped_app. unfold capture_chunk, clipped. set (max := MAX_LOG_BODY_BYTES).
  simpl. rewrite length_take.
  destruct (Nat.ltb_spec (max `min` length s) max) as [Hl|Hl].
  - replace (max `min` length s)%nat with (length s) in * by lia.
    by rewrite take_min, ltb_min.
  - replace (max - length s)%nat with 0%nat by lia.
    by rewrite full_ltb, app_nil_r.
Qed.

Lemma capture_fold chunks s :
  foldl capture_chunk (clipped MAX_LOG_BODY_BYTES s) chunks =
  clipped MAX_LOG_BODY_BYTES (s ++ concat chunks).
Proof.
  revert s. induction chunks as [|c chunks IH]; intros s;
    cbn [foldl concat].
  - by rewrite app_nil_r.
  - by rewrite capture_chunk_clipped, IH, app_assoc.
Qed.

(** The capture of a whole stream, from the empty buffer. *)
Lemma capture_stream chunks :
  foldl capture_chunk ([], false) chunks = clipped MAX_LOG_BODY_BYTES (concat chunks).
Proof. apply (capture_fold chunks []). Qed.

(** The writer after receiving [s]. *)
Definition writer_at (s : bytes) : LogBodyWriter :=
  {| w_bytes := (clipped MAX_LOG_BODY_BYTES s).1;
     w_truncated := (clipped MAX_LOG_BODY_BYTES s).2 |}.

Lemma write_at s buf :
  buf ≠ [] →
  write (writer_at s) buf =
  (if (length s <? MAX_LOG_BODY_BYTES)%nat
   then (Ok ((MAX_LOG_BODY_BYTES - length s) `min` length buf)%nat, writer_at (s ++ buf))
   else (Err (), writer_at (s ++ buf))).
Proof.
  intros Hb. unfold writer_at. rewrite clipped_app. unfold write, clipped.
  set (max := MAX_LOG_BODY_BYTES). simpl. rewrite length_take.
  destruct (Nat.ltb_spec (length s) max) as [Hl|Hl].
  - rewrite (proj2 (Nat.eqb_neq _ _)) by lia.
    replace (max `min` length s)%nat with (length s) by lia.
    by rewrite take_min, ltb_min.
  - rewrite (proj2 (Nat.eqb_eq _ _)) by lia.
    replace (max - length s)%nat with 0%nat by lia.
    rewrite take_0, app_nil_r, <- full_ltb, bool_decide_true, orb_true_r; done.
Qed.

(** Once the limit is exceeded nothing further changes the writer. *)
Lemma writer_at_over s t :
  (MAX_LOG_BODY_BYTES < length s)%nat → writer_at (s ++ t) = writer_at s.
Proof.
  intros Hl. unfold writer_at. rewrite clipped_app. simpl.
  replace (MAX_LOG_BODY_BYTES - length s)%nat with 0%nat by lia.
  rewrite take_0, app_nil_r. f_equal.
  by rewrite (proj2 (Nat.ltb_lt _ _)).
Qed.

Lemma write_all_at s p :
  (length s ≤ MAX_LOG_BODY_BYTES)%nat →
  write_all (S (length p)) (writer_at s) p =
  (if (length (s ++ p) <=? MAX_LOG_BODY_BYTES)%nat then Ok () else Err (),
   writer_at (s ++ p)).
Proof.
  intros Hs. destruct (decide (p = [])) as [->|Hp].
  { rewrite app_nil_r, (proj2 (Nat.leb_le _ _)) by done. done. }
  assert (Hlen : (0 < length p)%nat) by (destruct p; [done|simpl; lia]).
  assert (Hunf : ∀ f w, write_all (S f) w p =
    match write w p with
    | (Ok O, w) => (Err (), w)
    | (Ok n, w) => write_all f w (drop n p)
    | (Err e, w) => (Err e, w)
    end) by (by destruct p).
  rewrite Hunf, write_at, length_app by done.
  destruct (Nat.ltb_spec (length s) MAX_LOG_BODY_BYTES) as [Hl|Hl].
  2: { by rewrite (proj2 (Nat.leb_gt _ _)) by lia. }
  destruct ((MAX_LOG_BODY_BYTES - length s) `min` length p)%nat as [|n] eqn:Hn; [lia|].
  destruct (Nat.leb_spec (length s + length p) MAX_LOG_BODY_BYTES) as [Hle|Hle].
  - rewrite drop_ge by lia. by destruct (length p).
  - assert (Hd : drop (S n) p ≠ []).
    { intros Hd. apply (f_equal length) in Hd. rewrite length_drop in Hd. simpl in Hd. lia. }
    destruct (length p) as [|l] eqn:Hlp; [lia|].
    destruct (drop (S n) p) as [|b r] eqn:Hdr; [done|].
    cbn [write_all]. rewrite write_at by done. rewrite length_app, Hlp.
    rewrite (proj2 (Nat.ltb_ge _ _)) by lia.
    by rewrite writer_at_over by (rewrite length_app; lia).
Qed.

Lemma write_pieces_at ps s :
  (length s ≤ MAX_LOG_BODY_BYTES)%nat →
  write_pieces (writer_at s) ps =
  (if (length (s ++ concat ps) <=? MAX_LOG_BODY_BYTES)%nat then Ok () else Err (),
   writer_at (s ++ concat ps)).
Proof.
  revert s. induction ps as [|p ps IH]; intros s Hs;
    cbn [write_pieces concat].
  { by rewrite app_nil_r, (proj2 (Nat.leb_le _ _)). }
  rewrite write_all_at by done.
  destruct (Nat.leb_spec (length (s ++ p)) MAX_LOG_BODY_BYTES) as [Hl|Hl].
  - rewrite IH by done. by rewrite <- app_assoc.
  - rewrite app_assoc, (writer_at_over (s ++ p)) by done.
    rewrite (length_app (s ++ p)). by rewrite (proj2 (Nat.leb_gt _ _)) by lia.
Qed.

(** The redacted log line is the clipped serialization: the failure message
    cannot appear, since the writer fails only when it is full. *)
Lemma redacted_json_for_log_clipped json_pieces v :
  let ser := concat (json_pieces (plain v)) in
  redacted_json_for_log json_pieces v =
  mark (MAX_LOG_BODY_BYTES <? length ser)%nat
    (from_utf8_lossy (take MAX_LOG_BODY_BYTES ser)).
Proof.
  intros ser. unfold redacted_json_for_log.
  change writer_new with (writer_at []). rewrite write_pieces_at by (simpl; lia).
  rewrite app_nil_l. fold ser. cbn [w_bytes w_truncated writer_at clipped fst snd].
  replace (_ && _) with false; [done|]. symmetry.
  destruct (Nat.leb_spec (length ser) MAX_LOG_BODY_BYTES); [done|].
  by rewrite (proj2 (Nat.ltb_lt _ _)).
Qed.

(** The capturing stream after the good chunks [s]. *)
Definition tee_at (max : nat) (s : bytes) : TeeStream :=
  {| accumulator := (clipped max s).1; max_capture := max;
     tee_truncated := (clipped max s).2 |}.

Lemma poll_next_at max s chunk :
  poll_next (tee_at max s) (Ok chunk) = (Ok chunk, tee_at max (s ++ chunk)).
Proof.
  unfold tee_at. rewrite clipped_app. unfold poll_next, clipped. simpl.
  rewrite length_take.
  destruct (Nat.ltb_spec 0 (max - max `min` length s)) as [Hl|Hl].
  - replace (max `min` length s)%nat with (length s) by lia.
    by rewrite take_min, ltb_min.
  - replace (max - length s)%nat with 0%nat by lia.
    by rewrite full_ltb, take_0, app_nil_r.
Qed.

Lemma drain_at max items s :
  drain (tee_at max s) items = (items, tee_at max (s ++ concat (omap result_ok items))).
Proof.
  revert s. induction items as [|[c|e] items IH]; intros s; cbn [drain].
  - simpl. by rewrite app_nil_r.
  - rewrite poll_next_at, IH. simpl. by rewrite app_assoc.
  - cbn [poll_next]. rewrite IH. done.
Qed.

(** * Properties *)

(** The logged request body is the redacted serialization cut at 64 KiB (a
    non-JSON body: the body itself), with the truncation marker exactly when
    something was cut; serialization never fails otherwise, however the
    serializer splits its writes. *)
Theorem request_body_for_log_spec json_pieces body json :
  request_body_for_log json_pieces body json =
  match body with
  | [] => None
  | _ =>
      let raw := match json with
                 | Some v => concat (json_pieces (plain v))
                 | None => body
                 end in
      Some (mark (MAX_LOG_BODY_BYTES <? length raw)%nat
              (from_utf8_lossy (take MAX_LOG_BODY_BYTES raw)))
  end.
Proof.
  destruct body as [|b body]; [done|]. cbn [request_body_for_log].
  destruct json as [v|]; f_equal.
  - apply redacted_json_for_log_clipped.
  - unfold clip_body_for_log.
    by rewrite (Nat.min_comm (length _)), take_min, ltb_min.
Qed.

(** The capturing stream is transparent and bounded: every item, errors
    included, is passed on unchanged and in order, and what it captured is the
    first [max_capture] bytes of the good chunks, flagged exactly when there
    were more. *)
Theorem tee_transparent_bounded max_capture items :
  let '(out, t) := drain (tee_new max_capture) items in
  out = items ∧
  into_captured t = clipped max_capture (concat (omap result_ok items)).
Proof.
  replace (tee_new max_capture) with (tee_at max_capture [])
    by (unfold tee_at, clipped; by rewrite take_nil).
  by rewrite drain_at.
Qed.

(** Replaying a cached body can crash the request: the preview cuts the
    text at 64 KiB without regard to character boundaries, so a first chunk of
    more than 64 KiB of text whose cut falls inside a character panics. *)
Theorem cached_body_preview_panics cached c rest s :
  chunks cached = c :: rest →
  from_utf8 (data c) = Some s →
  (MAX_LOG_BODY_BYTES < String.length s)%nat →
  is_char_boundary s MAX_LOG_BODY_BYTES = false →
  cached_body_preview cached = Panic.
Proof.
  intros Hc Hs Hl Hb. unfold cached_body_preview. rewrite Hc. cbn [preview_go].
  pose proof max_log_body_pos as Hp. rewrite Hs. cbn [String.length].
  rewrite (proj2 (Nat.leb_gt _ _)) by done. rewrite Nat.sub_0_r, Nat.min_r by lia.
  unfold slice_to. by rewrite Hb.
Qed.

(** [n] times [a], then an e with an acute accent in two bytes. *)
Definition long_text (n : nat) : bytes := repeat Byte.x61 n ++ [Byte.xc3; Byte.xa9].

Lemma long_text_valid n : utf8_valid (long_text n) = true.
Proof.
  unfold utf8_valid, long_text. rewrite length_app, repeat_length.
  replace (n + length [Byte.xc3; Byte.xa9])%nat with (S (S n)) by (simpl; lia).
  induction n as [|n IH]; [reflexivity|]. exact IH.
Qed.

Lemma str_of_bytes_length bs : String.length (str_of_bytes bs) = length bs.
Proof. induction bs; simpl; auto. Qed.

Lemma long_text_boundary n :
  is_char_boundary (str_of_bytes (long_text n)) (S n) = false.
Proof.
  unfold is_char_boundary. rewrite str_of_bytes_length. unfold long_text.
  rewrite length_app, repeat_length.
  replace (S n =? n + length [Byte.xc3; Byte.xa9])%nat with false
    by (symmetry; apply Nat.eqb_neq; simpl; lia).
  replace (String.get (S n) _) with (Some (ascii_of_nat 169)); [reflexivity|].
  induction n as [|n IH]; [reflexivity|]. exact IH.
Qed.

Definition long_response (n : nat) : CachedResponse :=
  {| cached_status := 200; cached_headers := []; chunks := [{| data := long_text n |}];
     finished_at_ms := 0; served_by := None |}.

Lemma cached_body_preview_panics_witness :
  cached_body_preview (long_response (Nat.pred MAX_LOG_BODY_BYTES)) = Panic.
Proof.
  assert (HS : S (Nat.pred MAX_LOG_BODY_BYTES) = MAX_LOG_BODY_BYTES)
    by apply (Nat.lt_succ_pred 0 _ max_log_body_pos).
  revert HS. generalize (Nat.pred MAX_LOG_BODY_BYTES) as n. intros n HS.
  apply (cached_body_preview_panics (long_response n) {| data := long_text n |} []
    (str_of_bytes (long_text n))).
  - reflexivity.
  - cbn [data]. unfold from_utf8. rewrite long_text_valid. reflexivity.
  - rewrite str_of_bytes_length. unfold long_text.
    rewrite length_app, repeat_length, <- HS. cbn [length]. lia.
  - rewrite <- HS. apply long_text_boundary.
Defined.
