(* ===== verification/Redaction.v ===== *)
(** What the log keeps of the base64 payloads of a JSON request: the redaction of
    [LogBody] against a description of its own, the members that are
    declared to hold base64 and the form of a base64 data URL written out. *)
From Stdlib Require Import ZArith Lia Ascii String.
From stdpp Require Import prelude strings list.
From S2P Require Import Prelude Text Decimal Json Cache LogBody.
Open Scope Z_scope.

(** * The description *)

(** Parts separated by a character. *)
Fixpoint joined (c : ascii) (first : string) (rest : list string) : string :=
  match rest with
  | [] => first
  | p :: rest => (first +:+ String c (joined c p rest))%string
  end.

(** [s] is a data URL ([data:<type>;<parameter>...,<payload>]) one of whose parts
    is [base64], letter case apart. *)
Inductive data_url (s media_type payload : string) : Prop :=
| data_url_intro scheme first parameters :
    s = (scheme +:+ joined ";" first parameters +:+ String "," payload)%string →
    to_ascii_lowercase scheme = "data:" →
    Forall (λ part, contains_char ";" part = false ∧ contains_char "," part = false)
      (first :: parameters) →
    (∃ part, part ∈ first :: parameters ∧ to_ascii_lowercase part = "base64") →
    media_type = (if String.eqb first "" then "text/plain" else first) →
    data_url s media_type payload.

(** The media type an object names: [media_type], or [mime_type] without one. *)
Inductive names_media (m : list (string * Value)) (media_type : string) : Prop :=
| names_media_type :
    map_get m "media_type" = Some (VString media_type) → names_media m media_type
| names_mime_type :
    map_get m "media_type" = None →
    map_get m "mime_type" = Some (VString media_type) → names_media m media_type.

(** The members of an object that are declared to hold base64, letter case apart:
    by their name, or as the [data] of an object that says so. *)
Inductive base64_member (m : list (string * Value)) (key : string) : Prop :=
| member_named :
    to_ascii_lowercase key ∈ ["base64"; "base64_data"; "b64_json"] → base64_member m key
| member_suffixed stem :
    to_ascii_lowercase key = (stem +:+ "_base64")%string → base64_member m key
| member_typed kind :
    to_ascii_lowercase key = "data" →
    map_get m "type" = Some (VString kind) → to_ascii_lowercase kind = "base64" →
    base64_member m key
| member_of_media media_type x :
    to_ascii_lowercase key = "data" →
    map_get m "data" = Some x → names_media m media_type → base64_member m key.

(** The bytes a base64 text stands for: six bits a character that is not
    white space, less the padding, of which two count at most. *)
Definition payload_size (payload : string) : Z :=
  let significant :=
    List.filter (λ b, negb (is_ascii_whitespace b)) (str_bytes payload) in
  let padding := List.filter (Byte.eqb Byte.x3d) significant in
  Z.max 0 (blen significant * 6 / 8 - Z.min (blen padding) 2).

(** What the log has in place of a payload. *)
Definition summary (media_type payload : string) : string :=
  ("[base64 " +:+ media_type +:+ ", " +:+ dec_of (payload_size payload) +:+ " bytes]")%string.

(** Where a value stands: in a member declared base64, with the media type its
    object names, or elsewhere. *)
Inductive place : Type :=
| Elsewhere
| Declared (media_type : option string).

Inductive place_in (m : list (string * Value)) (key : string) : place → Prop :=
| place_elsewhere : ¬ base64_member m key → place_in m key Elsewhere
| place_named media_type :
    base64_member m key → names_media m media_type →
    place_in m key (Declared (Some media_type))
| place_unnamed :
    base64_member m key → (∀ media_type, ¬ names_media m media_type) →
    place_in m key (Declared None).

(** [logged_as p v w]: the log has [w] where the request has [v]. *)
Inductive logged_as : place → Value → Value → Prop :=
| logged_text s :
    (∀ media_type payload, ¬ data_url s media_type payload) →
    logged_as Elsewhere (VString s) (VString s)
| logged_url s media_type payload :
    data_url s media_type payload →
    logged_as Elsewhere (VString s) (VString (summary media_type payload))
| logged_payload media_type s :
    logged_as (Declared media_type) (VString s)
      (VString (summary (default "application/octet-stream" media_type) s))
| logged_array p l l' :
    Forall2 (logged_as Elsewhere) l l' → logged_as p (VArray l) (VArray l')
| logged_object p m m' :
    Forall2 (λ kv kv' : string * Value,
      kv'.1 = kv.1 ∧ ∃ q, place_in m kv.1 q ∧ logged_as q kv.2 kv'.2) m m' →
    logged_as p (VObject m) (VObject m')
| logged_same p v :
    match v with VString _ | VArray _ | VObject _ => False | _ => True end →
    logged_as p v v.

(** The strings a value holds. *)
Fixpoint leaves (v : Value) : list string :=
  match v with
  | VString s => [s]
  | VArray l => concat (map leaves l)
  | VObject m => concat (map (λ kv : string * Value, leaves kv.2) m)
  | _ => []
  end.

(** No string of the value is long enough for the count of its bits to saturate. *)
Definition countable (v : Value) : Prop :=
  Forall (λ s, slen s * 6 ≤ u64_max) (leaves v).

(** * Facts: text *)

Lemma lowercase_app s t :
  to_ascii_lowercase (s +:+ t) = (to_ascii_lowercase s +:+ to_ascii_lowercase t)%string.
Proof.
  induction s as [|a s IH]; [by rewrite !str_app_nil|].
  rewrite str_app_cons. cbn [to_ascii_lowercase]. by rewrite str_app_cons, IH.
Qed.

Lemma eq_ignore_ascii_case_lower s t :
  to_ascii_lowercase t = t → eq_ignore_ascii_case s t = true ↔ to_ascii_lowercase s = t.
Proof. unfold eq_ignore_ascii_case. intros ->. apply String.eqb_eq. Qed.

Lemma ends_with_spec s suf : ends_with s suf = true ↔ ∃ stem, s = (stem +:+ suf)%string.
Proof.
  split.
  - induction s as [|a s IH]; cbn [ends_with]; rewrite orb_true_iff, String.eqb_eq.
    + intros [<-|]; [by exists ""|done].
    + intros [<-|Hs]; [by exists ""|]. destruct (IH Hs) as [stem ->].
      by exists (String a stem).
  - intros [stem ->]. induction stem as [|a stem IH].
    + rewrite str_app_nil. destruct suf; cbn [ends_with]; by rewrite String.eqb_refl.
    + rewrite str_app_cons. cbn [ends_with]. by rewrite IH, orb_true_r.
Qed.

Lemma split_once_spec c s x y :
  split_once c s = Some (x, y) ↔ s = (x +:+ String c y)%string ∧ contains_char c x = false.
Proof.
  split; [|intros [-> Hx]; by apply split_once_app].
  revert x. induction s as [|a s IH]; intros x; cbn [split_once]; [done|].
  destruct (Ascii.eqb_spec a c) as [->|Hac]; [by intros [= <- <-]|].
  destruct (split_once c s) as [[x' y']|]; [|done]. intros [= <- <-].
  destruct (IH x' eq_refl) as [-> Hx]. split; [done|]. cbn [contains_char].
  by rewrite (proj2 (Ascii.eqb_neq _ _) Hac).
Qed.

Lemma split_joined c first rest :
  Forall (λ part, contains_char c part = false) (first :: rest) →
  split c (joined c first rest) = first :: rest.
Proof.
  revert first. induction rest as [|p rest IH]; intros first Hall.
  all: apply Forall_cons in Hall as [Hf Hr]; cbn [joined].
  - clear Hr. induction first as [|a first IHf]; [done|].
    cbn [contains_char split] in *. apply orb_false_iff in Hf as [-> Hf]. by rewrite IHf.
  - specialize (IH p Hr). induction first as [|a first IHf].
    + rewrite str_app_nil. cbn [split]. by rewrite Ascii.eqb_refl, IH.
    + cbn [contains_char] in Hf. apply orb_false_iff in Hf as [Ha Hf].
      rewrite str_app_cons. cbn [split]. by rewrite Ha, IHf.
Qed.

Lemma split_spec c s :
  ∃ first rest, split c s = first :: rest ∧ s = joined c first rest ∧
    Forall (λ part, contains_char c part = false) (first :: rest).
Proof.
  induction s as [|a s (first & rest & Hs & -> & Hall)].
  { exists "", []. repeat constructor. }
  cbn [split]. destruct (Ascii.eqb_spec a c) as [->|Hac].
  - exists "", (first :: rest). rewrite Hs. repeat split; [by constructor].
  - rewrite Hs. exists (String a first), rest. split; [done|].
    split; [by destruct rest|].
    apply Forall_cons in Hall as [Hf Hr]. constructor; [|done]. cbn [contains_char].
    by rewrite (proj2 (Ascii.eqb_neq _ _) Hac).
Qed.

Lemma contains_char_app c s t :
  contains_char c (s +:+ t) = contains_char c s || contains_char c t.
Proof.
  induction s as [|a s IH]; [by rewrite str_app_nil|].
  rewrite str_app_cons. cbn [contains_char]. by rewrite IH, orb_assoc.
Qed.

Lemma contains_char_joined c sep first rest :
  Ascii.eqb sep c = false →
  contains_char c (joined sep first rest) = false ↔
  Forall (λ part, contains_char c part = false) (first :: rest).
Proof.
  intros Hc. revert first. induction rest as [|p rest IH]; intros first; cbn [joined].
  - rewrite Forall_singleton. done.
  - rewrite contains_char_app, orb_false_iff. cbn [contains_char].
    rewrite Hc, orb_false_l, IH, (Forall_cons _ first). done.
Qed.

Lemma app_string_length s t :
  String.length (s +:+ t) = (String.length s + String.length t)%nat.
Proof.
  induction s as [|a s IH]; [by rewrite str_app_nil|].
  rewrite str_app_cons. cbn [String.length]. by rewrite IH.
Qed.

Lemma substring_all s : String.substring 0 (String.length s) s = s.
Proof. induction s as [|a s IH]; [done|]. cbn. by rewrite IH. Qed.

Lemma substring_split n s :
  s = (String.substring 0 n s +:+ String.substring n (String.length s - n) s)%string.
Proof.
  revert s. induction n as [|n IH]; intros s.
  - rewrite Nat.sub_0_r, substring_all. by destruct s.
  - destruct s as [|a s]; [done|]. cbn [String.substring String.length].
    rewrite str_app_cons. f_equal. apply IH.
Qed.

Lemma lowercase_length s : String.length (to_ascii_lowercase s) = String.length s.
Proof. induction s as [|a s IH]; [done|]. cbn. by rewrite IH. Qed.

Lemma after_data_spec s r :
  after_data s = Some r ↔ ∃ d, s = (d +:+ r)%string ∧ to_ascii_lowercase d = "data:".
Proof.
  unfold after_data. split.
  - destruct (_ && _) eqn:Hc; [|done]. intros [= <-].
    apply andb_true_iff in Hc as [_ Hc].
    apply eq_ignore_ascii_case_lower in Hc; [|done].
    exists (String.substring 0 5 s). by split; [apply substring_split|].
  - intros (d & -> & Hd). pose proof (f_equal String.length Hd) as Hl.
    rewrite lowercase_length in Hl.
    do 5 (destruct d as [|? d]; [done|]). destruct d; [|done].
    rewrite !str_app_cons, str_app_nil. unfold slen. cbn [String.length].
    rewrite (proj2 (Z.leb_le _ _)) by lia. rewrite andb_true_l.
    change (String.substring 0 5 _) with (String a (String a0 (String a1 (String a2 (String a3 (String.substring 0 0 r)))))).
    replace (String.substring 0 0 r) with "" by (by destruct r).
    rewrite (proj2 (eq_ignore_ascii_case_lower _ _ eq_refl) Hd).
    cbn [Nat.sub String.substring]. by rewrite Nat.sub_0_r, substring_all.
Qed.

Lemma data_url_parts_spec s media_type payload :
  data_url_parts s = Some (media_type, payload) ↔ data_url s media_type payload.
Proof.
  unfold data_url_parts. split.
  - destruct (after_data s) as [r|] eqn:Hr; [|done]. cbn [mbind option_bind].
    destruct (split_once comma r) as [[metadata p]|] eqn:Hs; [|done]. cbn [mbind option_bind].
    destruct (existsb (λ part, eq_ignore_ascii_case part "base64") _) eqn:He; [|done]. intros [= <- <-].
    apply after_data_spec in Hr as (d & -> & Hd).
    apply split_once_spec in Hs as [-> Hm].
    destruct (split_spec semicolon metadata) as (first & rest & Hsp & -> & Hall).
    rewrite Hsp in He |- *. apply contains_char_joined in Hm; [|done].
    apply (data_url_intro _ _ _ d first rest); [done|done| | |].
    + apply Forall_and. split; [exact Hall|exact Hm].
    + apply existsb_exists in He as (part & Hin & Hp). exists part.
      split; [by apply list_elem_of_In|]. by apply eq_ignore_ascii_case_lower in Hp.
    + cbn [head]. unfold opt_filter. by destruct first.
  - intros [d first rest -> Hd Hall (part & Hin & Hp) ->].
    apply Forall_and in Hall as [Hsc Hco].
    rewrite (proj2 (after_data_spec _ (joined ";" first rest +:+ String "," payload)%string))
      by (by exists d).
    cbn [mbind option_bind].
    rewrite (proj2 (split_once_spec _ _ (joined ";" first rest) payload)).
    2: { split; [done|]. by apply contains_char_joined. }
    cbn [mbind option_bind]. unfold semicolon. rewrite split_joined by done.
    rewrite (proj2 (existsb_exists (λ part, eq_ignore_ascii_case part "base64") _)).
    2: { exists part. split; [by apply list_elem_of_In|]. by apply eq_ignore_ascii_case_lower. }
    cbn [head]. unfold opt_filter. by destruct first.
Qed.

(** * Facts: the code meets the description *)

Lemma base64_name_spec key :
  is_base64_field_name key = true ↔
  to_ascii_lowercase key ∈ ["base64"; "base64_data"; "b64_json"] ∨
  ∃ stem, to_ascii_lowercase key = (stem +:+ "_base64")%string.
Proof.
  unfold is_base64_field_name. rewrite !orb_true_iff, ends_with_spec.
  rewrite !eq_ignore_ascii_case_lower by done. set_solver.
Qed.

Lemma media_type_of_spec m media_type :
  media_type_of m = Some media_type ↔ names_media m media_type.
Proof.
  unfold media_type_of, or_else. split.
  - destruct (map_get m "media_type") as [x|] eqn:Hx.
    + destruct x; cbn; try done. intros [= ->]. by constructor 1.
    + destruct (map_get m "mime_type") as [x|] eqn:Hy; [|done].
      destruct x; cbn; try done. intros [= ->]. by constructor 2.
  - intros [Hm|Hn Hm]; [by rewrite Hm|by rewrite Hn, Hm].
Qed.

Lemma declares_base64_spec m :
  declares_base64 m = true ↔
  (∃ kind, map_get m "type" = Some (VString kind) ∧ to_ascii_lowercase kind = "base64") ∨
  ∃ media_type x, names_media m media_type ∧ map_get m "data" = Some x.
Proof.
  unfold declares_base64, contains_key. rewrite orb_true_iff, andb_true_iff, bool_decide_eq_true.
  assert (Hmt : is_Some (media_type_of m) ↔ ∃ mt, names_media m mt).
  { unfold is_Some. by setoid_rewrite media_type_of_spec. }
  rewrite Hmt. f_equiv.
  - destruct (map_get m "type") as [x|]; [|naive_solver].
    destruct x; cbn; try naive_solver.
    rewrite eq_ignore_ascii_case_lower by done. naive_solver.
  - destruct (map_get m "data"); naive_solver.
Qed.

Lemma forced_spec m key : forced m key = true ↔ base64_member m key.
Proof.
  unfold forced. rewrite orb_true_iff, andb_true_iff, base64_name_spec, declares_base64_spec.
  rewrite eq_ignore_ascii_case_lower by done. split.
  - intros [[Hn|[stem Hs]]|[[(kind & Ht & Hk)|(mt & x & Hm & Hd)] Hl]].
    + by apply member_named.
    + by eapply member_suffixed.
    + by eapply member_typed.
    + by eapply member_of_media.
  - intros [Hn|stem Hs|kind Hl Ht Hk|mt x Hl Hd Hm]; eauto 8.
Qed.

(** The flags the code passes down, and the place they stand for. *)
Definition flags (p : place) : bool * option string :=
  match p with Elsewhere => (false, None) | Declared mt => (true, mt) end.

Lemma place_of_member m key :
  ∃ p, place_in m key p ∧
    flags p = (forced m key, if forced m key then media_type_of m else None).
Proof.
  destruct (forced m key) eqn:Hf.
  - apply forced_spec in Hf. destruct (media_type_of m) as [mt|] eqn:Hm.
    + exists (Declared (Some mt)). split; [|done].
      apply place_named; [done|]. by apply media_type_of_spec.
    + exists (Declared None). split; [|done]. apply place_unnamed; [done|].
      intros mt Hmt. apply media_type_of_spec in Hmt. congruence.
  - exists Elsewhere. split; [|done]. constructor.
    intros Hb. apply forced_spec in Hb. congruence.
Qed.

Lemma count_base64_fold bs a b :
  0 ≤ b ≤ a → a + blen bs ≤ u64_max →
  foldl count_base64 (a, b) bs =
  (a + blen (List.filter (λ b, negb (is_ascii_whitespace b)) bs),
   b + blen (List.filter (Byte.eqb Byte.x3d)
               (List.filter (λ b, negb (is_ascii_whitespace b)) bs))).
Proof.
  revert a b. induction bs as [|c bs IH]; intros a b Hab Hl.
  - unfold blen. cbn. f_equal; lia.
  - unfold blen in Hl |- *. cbn [length] in Hl. cbn [foldl List.filter]. unfold count_base64 at 2.
    destruct (is_ascii_whitespace c); cbn [negb fst snd].
    { rewrite IH by (unfold blen; lia). done. }
    cbn [List.filter]. assert (Hc : (byte_val c =? 61) = Byte.eqb Byte.x3d c) by (by destruct c).
    rewrite Hc. unfold sat_add. rewrite !Z.min_r by lia.
    destruct (Byte.eqb Byte.x3d c); rewrite IH by (unfold blen; lia);
      unfold blen; cbn [length]; f_equal; lia.
Qed.

Lemma blen_str_bytes s : blen (str_bytes s) = slen s.
Proof.
  unfold blen, slen. f_equal. unfold str_bytes, String.list_byte_of_string.
  rewrite length_map. induction s as [|a s IH]; [done|]. cbn. by rewrite IH.
Qed.

Lemma blen_filter {A} (f : A → bool) l : blen (List.filter f l) ≤ blen l.
Proof. unfold blen. pose proof (filter_length_le f l). lia. Qed.

Lemma decoded_base64_len_spec payload :
  slen payload * 6 ≤ u64_max → decoded_base64_len payload = payload_size payload.
Proof.
  intros Hl. unfold decoded_base64_len. rewrite <- blen_str_bytes in Hl.
  assert (0 ≤ blen (str_bytes payload)) by (unfold blen; lia).
  rewrite count_base64_fold by lia. rewrite !Z.add_0_l. unfold payload_size, sat_sub, sat_mul.
  rewrite Z.min_r; [done|].
  pose proof (blen_filter (λ b, negb (is_ascii_whitespace b)) (str_bytes payload)). lia.
Qed.

Lemma data_url_payload s media_type payload :
  data_url s media_type payload → slen payload ≤ slen s.
Proof.
  intros [d first rest -> _ _ _ _]. unfold slen.
  rewrite !app_string_length. cbn [String.length]. lia.
Qed.

Lemma countable_string s : countable (VString s) ↔ slen s * 6 ≤ u64_max.
Proof. unfold countable. cbn [leaves]. by rewrite Forall_singleton. Qed.

Lemma countable_array l : countable (VArray l) ↔ Forall countable l.
Proof. unfold countable. cbn [leaves]. by rewrite Forall_concat, Forall_map. Qed.

Lemma countable_object m : countable (VObject m) ↔ Forall (λ kv, countable kv.2) m.
Proof. unfold countable. cbn [leaves]. by rewrite Forall_concat, Forall_map. Qed.

Lemma redact_logged_as v : ∀ p,
  countable v → logged_as p v (redact (flags p).1 (flags p).2 v).
Proof.
  induction v as [| | |s|l IH|m IH] using Value_ind'; intros p Hc;
    cbn [redact]; try (by constructor).
  - apply countable_string in Hc. unfold base64_summary. destruct p as [|mt]; cbn [flags fst snd].
    + destruct (data_url_parts s) as [[mt payload]|] eqn:Hd; cbn [mbind option_bind default].
      * apply data_url_parts_spec in Hd. rewrite decoded_base64_len_spec.
        { by apply logged_url. }
        pose proof (data_url_payload _ _ _ Hd). lia.
      * apply logged_text. intros mt payload Hu. apply data_url_parts_spec in Hu. congruence.
    + cbn [mbind option_bind default]. rewrite decoded_base64_len_spec by done.
      apply logged_payload.
  - apply logged_array. apply countable_array in Hc. apply Forall2_fmap_r, Forall_Forall2_diag.
    apply Forall_forall. rewrite Forall_forall in IH, Hc. intros x Hx.
    apply (IH x Hx Elsewhere). by apply Hc.
  - apply logged_object. apply countable_object in Hc. apply Forall2_fmap_r, Forall_Forall2_diag.
    apply Forall_forall. rewrite Forall_forall in IH, Hc. intros [k x] Hx. split; [done|].
    destruct (place_of_member m k) as (q & Hq & Hf). exists q. split; [done|].
    cbn [fst snd]. specialize (IH _ Hx q (Hc _ Hx)). by rewrite Hf in IH.
Qed.

(** A summary is not itself a data URL. *)
Lemma base64_summary_not_data s force mt s' :
  base64_summary s force mt = Some s' → data_url_parts s' = None.
Proof.
  unfold base64_summary.
  destruct (if force then _ else _) as [[m p]|]; [|done]. cbn [mbind option_bind].
  intros [= <-]. unfold data_url_parts, after_data.
  replace (_ && _) with false; [done|]. symmetry. apply andb_false_iff. right.
  cbn [String.append String.substring]. reflexivity.
Qed.

Lemma redact_leaves v : ∀ force mt,
  Forall (λ s, data_url_parts s = None) (leaves (redact force mt v)).
Proof.
  induction v as [| | |s|l IH|m IH] using Value_ind'; intros force mt;
    cbn [leaves redact]; try (by constructor).
  - rewrite Forall_singleton. destruct (base64_summary s force mt) as [s'|] eqn:Hs; simpl.
    + by eapply base64_summary_not_data.
    + unfold base64_summary in Hs. destruct force; simpl in Hs; [done|].
      by destruct (data_url_parts s) as [[]|].
  - rewrite Forall_concat, !Forall_map. eapply Forall_impl; [exact IH|]. intros x Hx. apply Hx.
  - rewrite Forall_concat, !Forall_map. eapply Forall_impl; [exact IH|]. intros x Hx. apply Hx.
Qed.

(** * Properties *)


(** The audio of an OpenAI [input_audio] part is logged as it is. *)
Lemma input_audio_kept audio format :
  data_url_parts audio = None → data_url_parts format = None →
  let v := VObject [("type", VString "input_audio");
                    ("input_audio", VObject [("data", VString audio); ("format", VString format)])] in
  plain v = v.
Proof.
  intros Ha Hf v. unfold v, plain. cbn -[data_url_parts decoded_base64_len base64_summary].
  unfold base64_summary. by rewrite Ha, Hf.
Qed.

(** An image, in a member declared base64 and as a data URL. *)
Definition images : Value :=
  VObject [("image", VString "data:image/png;base64,AAAA");
           ("source", VObject [("data", VString "AAAAAA=="); ("media_type", VString "image/gif")]);
           ("model", VString "m")].

Definition shown (v : Value) : list bytes := map str_bytes (leaves v).

Definition images_line : string :=
  "[base64 image/png, 3 bytes][base64 image/gif, 4 bytes]image/gifm".

