(* ===== verification/RateLimit.v ===== *)
(** Rate and concurrency limits: gateway-api/src/ratelimit.rs, against the
    [CounterStore] interface. *)
From Stdlib Require Import ZArith Lia String.
From stdpp Require Import prelude gmap strings list relations.
From S2P Require Import Prelude Text Errors Models Config Stores MemoryCounter.
Open Scope Z_scope.

Definition WINDOW_MS : Z := 60000.
Definition DEFAULT_TOKEN_PREDEDUCT : Z := 1024.

(** Every reservation is made on the one counter store of the gateway, so the
    store handle of a reservation is left out. *)
Record RatePermit : Type := {
  concurrency_permits : list ConcurrencyPermit;
  tpm_reservations : list (string * Z)
}.

(** The scope a limit applies to, or [None]: the limit is skipped. *)
Definition scope_of (limit : LimitConfig) (key_id project_id : string) : option string :=
  let t := limit_target limit in
  let pattern := default "*" (limit_id t) in
  if String.eqb (limit_kind t) "key" then
    if negb (String.eqb pattern "*") && negb (String.eqb pattern key_id) then None
    else Some ("key:" +:+ key_id)%string
  else if String.eqb (limit_kind t) "project" then
    if negb (String.eqb pattern "*") && negb (String.eqb pattern project_id) then None
    else Some ("project:" +:+ project_id)%string
  else if String.eqb (limit_kind t) "global" then Some "global"
  else None.

Definition rpm_key (scope : string) : string := ("rpm:" +:+ scope)%string.
Definition tpm_key (scope : string) : string := ("tpm:" +:+ scope)%string.
Definition conc_key (scope : string) : string := ("conc:" +:+ scope)%string.

Section RateLimit.
Context `{CounterStore C}.

Definition rate_limited : ApiError := AGateway RateLimited.

Definition check_rpm (scope : string) (limit : option Z) (c : C) :
    result unit ApiError * C :=
  match limit with
  | None => (Ok (), c)
  | Some rpm =>
      match incr_window c (rpm_key scope) WINDOW_MS 1 with
      | (Err e, c) => (Err (AStorage e), c)
      | (Ok count, c) =>
          if rpm <? as_u64 count then (Err rate_limited, c) else (Ok (), c)
      end
  end.

(** The reservation made, if any. *)
Definition check_tpm (scope : string) (limit : option Z) (c : C) :
    result (list (string * Z)) ApiError * C :=
  match limit with
  | None => (Ok [], c)
  | Some tpm =>
      let key := tpm_key scope in
      match incr_window c key WINDOW_MS DEFAULT_TOKEN_PREDEDUCT with
      | (Err e, c) => (Err (AStorage e), c)
      | (Ok count, c) =>
          if tpm <? as_u64 count then
            let c := (incr_window c key WINDOW_MS (- DEFAULT_TOKEN_PREDEDUCT)).2 in
            (Err rate_limited, c)
          else (Ok [(key, DEFAULT_TOKEN_PREDEDUCT)], c)
      end
  end.

(** The slot taken, if any. *)
Definition check_concurrency (scope : string) (limit : option Z) (c : C) :
    result (list ConcurrencyPermit) ApiError * C :=
  match limit with
  | None => (Ok [], c)
  | Some conc =>
      match try_acquire_concurrency c (conc_key scope) conc with
      | (Err e, c) => (Err (AStorage e), c)
      | (Ok (Some p), c) => (Ok [p], c)
      | (Ok None, c) => (Err rate_limited, c)
      end
  end.

(** One turn of the loop: what the limit adds to the permit. *)
Definition check_limit (limit : LimitConfig) (scope : string) (c : C) :
    result RatePermit ApiError * C :=
  match check_rpm scope (rpm limit) c with
  | (Err e, c) => (Err e, c)
  | (Ok _, c) =>
      match check_tpm scope (tpm limit) c with
      | (Err e, c) => (Err e, c)
      | (Ok rs, c) =>
          match check_concurrency scope (conc limit) c with
          | (Err e, c) => (Err e, c)
          | (Ok ps, c) =>
              (Ok {| concurrency_permits := ps; tpm_reservations := rs |}, c)
          end
      end
  end.

(** Dropping the vector of permits releases them in order. *)
Definition release_all (ps : list ConcurrencyPermit) (c : C) : C := foldl release c ps.

(** The loop, with the permits taken so far; an early return drops them. *)
Fixpoint check_loop (limits : list LimitConfig) (key_id project_id : string)
    (acc : RatePermit) (c : C) : result RatePermit ApiError * C :=
  match limits with
  | [] => (Ok acc, c)
  | limit :: rest =>
      match scope_of limit key_id project_id with
      | None => check_loop rest key_id project_id acc c
      | Some scope =>
          match check_limit limit scope c with
          | (Err e, c) => (Err e, release_all (concurrency_permits acc) c)
          | (Ok p, c) =>
              check_loop rest key_id project_id
                {| concurrency_permits := concurrency_permits acc ++ concurrency_permits p;
                   tpm_reservations := tpm_reservations acc ++ tpm_reservations p |} c
          end
      end
  end.

Definition no_permit : RatePermit :=
  {| concurrency_permits := []; tpm_reservations := [] |}.

Definition check_limits (limits : list LimitConfig) (key_id project_id : string) (c : C) :
    result RatePermit ApiError * C :=
  check_loop limits key_id project_id no_permit c.

(** Dropping the permit. *)
Definition drop_permit (p : RatePermit) (c : C) : C :=
  release_all (concurrency_permits p) c.

(** [RatePermit::reconcile_tokens]: consumes the permit, so its slots are
    released at the end. *)
Definition reconcile_one (actual_tokens : Z) (c : C) (r : string * Z) : C :=
  let delta := as_i64 (actual_tokens - r.2) in
  if delta =? 0 then c else (incr_window c r.1 WINDOW_MS delta).2.

Definition reconcile_tokens (p : RatePermit) (actual_tokens : Z) (c : C) : C :=
  drop_permit p (foldl (reconcile_one actual_tokens) c (tpm_reservations p)).
End RateLimit.


(** * Concurrency

    Requests interleave between any two store operations, so the store is
    followed through single operations: a state is the store together with all
    the permits held by some request. *)

(** How many of the permits are for [k]. *)
Definition held (ps : list ConcurrencyPermit) (k : string) : Z :=
  Z.of_nat (length (filter (λ p, permit_key p = k) ps)).

Section Concurrency.
Context `{CounterStore C}.

Definition granted (r : store_result (option ConcurrencyPermit)) :
    list ConcurrencyPermit :=
  match r with Ok (Some p) => [p] | _ => [] end.

(** The costs that are recorded. *)
Context (costs : F64.f64 → Prop).

(** One store operation of some request, under the configured limits. *)
Inductive store_step (limits : list LimitConfig) :
    C * list ConcurrencyPermit → C * list ConcurrencyPermit → Prop :=
| step_window c ps k w b :
    store_step limits (c, ps) ((incr_window c k w b).2, ps)
| step_budget c ps b p d :
    costs d →
    store_step limits (c, ps) ((incr_budget c b p d).2, ps)
| step_read c ps b p :
    store_step limits (c, ps) ((read_budget c b p).2, ps)
| step_acquire c ps limit key_id project_id scope m r c' :
    limit ∈ limits → scope_of limit key_id project_id = Some scope →
    conc limit = Some m →
    try_acquire_concurrency c (conc_key scope) m = (r, c') →
    store_step limits (c, ps) (c', ps ++ granted r)
| step_release c ps p ps' :
    store_step limits (c, ps ++ p :: ps') (release c p, ps ++ ps').

Abbreviation store_steps limits := (rtc (store_step limits)).

(** Every operation of a request is such a step, whatever other permits [hs]
    are held meanwhile. *)

Lemma check_rpm_steps limits scope l c hs :
  store_steps limits (c, hs) ((check_rpm scope l c).2, hs).
Proof.
  unfold check_rpm. destruct l as [m|]; [|done].
  pose proof (step_window limits c hs (rpm_key scope) WINDOW_MS 1) as Hs.
  destruct (incr_window _ _ _ _) as [[n|e] c']; simpl in *; [|by apply rtc_once].
  case_match; by apply rtc_once.
Qed.

Lemma check_tpm_steps limits scope l c hs :
  store_steps limits (c, hs) ((check_tpm scope l c).2, hs).
Proof.
  unfold check_tpm. destruct l as [m|]; [|done].
  pose proof (step_window limits c hs (tpm_key scope) WINDOW_MS
    DEFAULT_TOKEN_PREDEDUCT) as Hs.
  destruct (incr_window _ _ _ _) as [[n|e] c']; simpl in *; [|by apply rtc_once].
  case_match; simpl; [|by apply rtc_once].
  eapply rtc_l; [exact Hs|]. apply rtc_once, step_window.
Qed.

(** The permits a result holds. *)
Definition taken (r : result (list ConcurrencyPermit) ApiError) :
    list ConcurrencyPermit :=
  match r with Ok ps => ps | Err _ => [] end.
Definition permits_of (r : result RatePermit ApiError) : list ConcurrencyPermit :=
  match r with Ok p => concurrency_permits p | Err _ => [] end.

Lemma check_concurrency_steps limits limit key_id project_id scope c hs :
  limit ∈ limits → scope_of limit key_id project_id = Some scope →
  let '(r, c') := check_concurrency scope (conc limit) c in
  store_steps limits (c, hs) (c', hs ++ taken r).
Proof.
  intros Hin Hsc. unfold check_concurrency.
  destruct (conc limit) as [m|] eqn:Hm; [|simpl; by rewrite app_nil_r].
  destruct (try_acquire_concurrency c (conc_key scope) m) as [r c'] eqn:Ha.
  pose proof (step_acquire limits c hs limit key_id project_id scope m r c'
    Hin Hsc Hm Ha) as Hs. apply rtc_once in Hs.
  destruct r as [[p|]|e]; exact Hs.
Qed.

Lemma check_limit_steps limits limit key_id project_id scope c hs :
  limit ∈ limits → scope_of limit key_id project_id = Some scope →
  let '(r, c') := check_limit limit scope c in
  store_steps limits (c, hs) (c', hs ++ permits_of r).
Proof.
  intros Hin Hsc. unfold check_limit.
  pose proof (check_rpm_steps limits scope (rpm limit) c hs) as H1.
  destruct (check_rpm _ _ _) as [[[]|e] c1]; simpl in *; [|by rewrite app_nil_r].
  pose proof (check_tpm_steps limits scope (tpm limit) c1 hs) as H2.
  destruct (check_tpm _ _ _) as [[rs|e] c2]; simpl in *;
    [|rewrite app_nil_r; by etransitivity].
  pose proof (check_concurrency_steps limits limit key_id project_id scope c2 hs
    Hin Hsc) as H3.
  destruct (check_concurrency _ _ _) as [[ps|e] c3]; simpl in *;
    (etransitivity; [exact H1|etransitivity; [exact H2|exact H3]]).
Qed.

Lemma release_all_steps limits ps c hs :
  store_steps limits (c, hs ++ ps) (release_all ps c, hs).
Proof.
  revert c. induction ps as [|p ps IH]; intros c; simpl; [by rewrite app_nil_r|].
  eapply rtc_l; [apply step_release|]. apply IH.
Qed.

Lemma check_loop_steps limits ls key_id project_id acc c hs :
  ls ⊆ limits →
  let '(r, c') := check_loop ls key_id project_id acc c in
  store_steps limits (c, hs ++ concurrency_permits acc) (c', hs ++ permits_of r).
Proof.
  revert acc c. induction ls as [|l ls IH]; intros acc c Hin; simpl; [done|].
  destruct (scope_of l key_id project_id) as [scope|] eqn:Hsc; [|apply IH; set_solver].
  pose proof (check_limit_steps limits l key_id project_id scope c
    (hs ++ concurrency_permits acc) ltac:(set_solver) Hsc) as Hl.
  destruct (check_limit l scope c) as [[p|e] c1]; simpl in Hl.
  - assert (Hls : ls ⊆ limits) by set_solver.
    specialize (IH {| concurrency_permits := concurrency_permits acc ++ concurrency_permits p;
                      tpm_reservations := tpm_reservations acc ++ tpm_reservations p |}
      c1 Hls).
    destruct (check_loop ls _ _ _ c1) as [r c2]. simpl in IH.
    rewrite app_assoc in IH. by etransitivity.
  - simpl. rewrite app_nil_r in Hl |- *. etransitivity; [exact Hl|].
    apply release_all_steps.
Qed.

Lemma reconcile_one_steps limits actual rs c hs :
  store_steps limits (c, hs) (foldl (reconcile_one actual) c rs, hs).
Proof.
  revert c. induction rs as [|r rs IH]; intros c; simpl; [done|].
  etransitivity; [|apply IH]. unfold reconcile_one.
  case_match; [done|]. apply rtc_once, step_window.
Qed.

(** ** The invariant *)

Context `{!CounterLaws C}.

Lemma held_app ps qs k : held (ps ++ qs) k = held ps k + held qs k.
Proof. unfold held. rewrite filter_app, length_app. lia. Qed.

Lemma held_one p k : held [p] k = if String.eqb k (permit_key p) then 1 else 0.
Proof.
  unfold held. destruct (String.eqb_spec k (permit_key p)) as [->|Hne].
  - by rewrite filter_cons_True.
  - by rewrite filter_cons_False by congruence.
Qed.

Lemma held_nonneg ps k : 0 ≤ held ps k.
Proof. unfold held. lia. Qed.

Lemma acquire_live c k m r c' k' :
  try_acquire_concurrency c k m = (r, c') →
  live c' k' = live c k' + held (granted r) k'.
Proof.
  intros Ha. destruct r as [[p|]|e]; simpl.
  - destruct (acquire_granted _ _ _ _ _ Ha) as (<- & _ & ->). by rewrite held_one.
  - destruct (acquire_denied _ _ _ _ _ Ha) as [_ ->]; [done|]. unfold held. simpl. lia.
  - destruct (acquire_denied _ _ _ _ _ Ha) as [_ ->]; [done|]. unfold held. simpl. lia.
Qed.

(** [live] counts the held permits beyond what was in use at the start. *)
Definition tracks (base : string → Z) (s : C * list ConcurrencyPermit) : Prop :=
  ∀ k, live s.1 k = base k + held s.2 k.

Lemma held_cons p ps k : held (p :: ps) k = held [p] k + held ps k.
Proof. apply (held_app [p]). Qed.

Lemma store_step_tracks limits base s s' :
  (∀ k, 0 ≤ base k) → store_step limits s s' → tracks base s → tracks base s'.
Proof.
  intros Hb Hs Ht k.
  destruct Hs as [c ps kw w b|c ps b p d Hd|c ps b p|c ps limit ki pi scope m r c' Hin Hsc Hm Ha
    |c ps p ps']; pose proof (Ht k) as Hk; simpl in *.
  - by rewrite incr_window_live.
  - by rewrite incr_budget_live.
  - by rewrite read_budget_live.
  - rewrite (acquire_live _ _ _ _ _ _ Ha), Hk, held_app. lia.
  - pose proof (Ht (permit_key p)) as Hp. simpl in Hp.
    rewrite held_app, held_cons in Hk, Hp. rewrite held_app.
    pose proof (held_nonneg ps (permit_key p)). pose proof (held_nonneg ps' (permit_key p)).
    pose proof (Hb (permit_key p)). rewrite held_one in Hp, Hk.
    rewrite String.eqb_refl in Hp. rewrite release_live by lia. lia.
Qed.

Lemma store_steps_tracks limits base s s' :
  (∀ k, 0 ≤ base k) → store_steps limits s s' → tracks base s → tracks base s'.
Proof. intros Hb Hs. induction Hs; eauto using store_step_tracks. Qed.

(** No configured limit on the slot [k] allows more than [max]. *)
Definition slot_max (limits : list LimitConfig) (k : string) (max : Z) : Prop :=
  ∀ limit key_id project_id scope m,
    limit ∈ limits → scope_of limit key_id project_id = Some scope →
    conc_key scope = k → conc limit = Some m → m ≤ max.

Lemma store_step_bounded limits base max k s s' :
  (∀ k, 0 ≤ base k) → slot_max limits k max →
  store_step limits s s' → tracks base s → live s.1 k ≤ max → live s'.1 k ≤ max.
Proof.
  intros Hb Hmax Hs Ht Hk.
  destruct Hs as [c ps kw w b|c ps b p d Hd|c ps b p|c ps limit ki pi scope m r c' Hin Hsc Hm Ha
    |c ps p ps'] eqn:He; simpl in *.
  - by rewrite incr_window_live.
  - by rewrite incr_budget_live.
  - by rewrite read_budget_live.
  - rewrite (acquire_live _ _ _ _ _ _ Ha). destruct r as [[p|]|e]; simpl.
    + rewrite held_one. destruct (acquire_granted _ _ _ _ _ Ha) as (Hp & Hlt & _).
      destruct (String.eqb_spec k (permit_key p)) as [->|]; [|lia].
      rewrite Hp in *.
      pose proof (Hmax limit ki pi scope m Hin Hsc eq_refl Hm). lia.
    + unfold held. simpl. lia.
    + unfold held. simpl. lia.
  - pose proof (Ht (permit_key p)) as Hp. simpl in Hp.
    rewrite held_app, held_cons, held_one, String.eqb_refl in Hp.
    pose proof (held_nonneg ps (permit_key p)). pose proof (held_nonneg ps' (permit_key p)).
    pose proof (Hb (permit_key p)). rewrite release_live by lia. case_match; lia.
Qed.

Lemma store_steps_bounded limits base max k s s' :
  (∀ k, 0 ≤ base k) → slot_max limits k max →
  store_steps limits s s' → tracks base s → live s.1 k ≤ max → live s'.1 k ≤ max.
Proof.
  intros Hb Hmax Hs. induction Hs as [s|s s1 s' H1 Hs IH]; intros Ht Hk; [done|].
  apply IH; [by eapply store_step_tracks|by eapply store_step_bounded].
Qed.

Lemma tracks_here c ps : tracks (λ k, live c k - held ps k) (c, ps).
Proof. intros k. simpl. lia. Qed.
End Concurrency.

(** * Token accounting *)

Section Tokens.
Context `{CounterLaws C}.

(** A store whose window operation does not fail. *)
Definition infallible : Prop := ∀ c k w b, ∃ n, (incr_window c k w b).1 = Ok n.

Lemma incr_charged c k w b k' :
  infallible →
  eq64 (charged (incr_window c k w b).2 k' w)
       (charged c k' w + (if String.eqb k' k then b else 0)).
Proof.
  intros Hi. destruct (Hi c k w b) as [n Hn].
  destruct (incr_window c k w b) as [r c'] eqn:Hc. simpl in *. subst r.
  rewrite (incr_window_charged _ _ _ _ _ _ _ _ Hc), Z.eqb_refl, andb_true_r.
  apply eq64_as_i64.
Qed.

(** How many reservations are on the key. *)
Definition reserved (rs : list (string * Z)) (k : string) : Z :=
  Z.of_nat (length (filter (λ r, r.1 = k) rs)).

Lemma reserved_app rs rs' k : reserved (rs ++ rs') k = reserved rs k + reserved rs' k.
Proof. unfold reserved. rewrite filter_app, length_app. lia. Qed.

Lemma reserved_one r k : reserved [r] k = if String.eqb k r.1 then 1 else 0.
Proof.
  unfold reserved. destruct (String.eqb_spec k r.1) as [->|Hne].
  - by rewrite filter_cons_True.
  - by rewrite filter_cons_False by congruence.
Qed.

(** Whether a limit reserves tokens on [k], and how many of them do. *)
Definition uses_tpm (key_id project_id k : string) (l : LimitConfig) : bool :=
  match scope_of l key_id project_id, tpm l with
  | Some scope, Some _ => String.eqb k (tpm_key scope)
  | _, _ => false
  end.
Definition tpm_uses (limits : list LimitConfig) (key_id project_id k : string) : Z :=
  Z.of_nat (length (List.filter (uses_tpm key_id project_id k) limits)).

Definition prededucted (rs : list (string * Z)) : Prop :=
  Forall (λ r, r.2 = DEFAULT_TOKEN_PREDEDUCT) rs.

Lemma rpm_tpm_key s s' : String.eqb (tpm_key s) (rpm_key s') = false.
Proof. reflexivity. Qed.

Lemma check_rpm_charged scope l c s :
  infallible →
  eq64 (charged (check_rpm scope l c).2 (tpm_key s) WINDOW_MS)
       (charged c (tpm_key s) WINDOW_MS).
Proof.
  intros Hi. unfold check_rpm. destruct l as [m|]; [|done].
  pose proof (incr_charged c (rpm_key scope) WINDOW_MS 1 (tpm_key s) Hi) as Hc.
  rewrite rpm_tpm_key, Z.add_0_r in Hc.
  destruct (incr_window _ _ _ _) as [[n|e] c']; simpl in *; [by case_match|done].
Qed.

Lemma check_tpm_charged scope l c rs c' k :
  infallible → check_tpm scope l c = (Ok rs, c') →
  prededucted rs ∧
  reserved rs k = (if l is Some _ then if String.eqb k (tpm_key scope) then 1 else 0 else 0) ∧
  eq64 (charged c' k WINDOW_MS)
       (charged c k WINDOW_MS + DEFAULT_TOKEN_PREDEDUCT * reserved rs k).
Proof.
  intros Hi. unfold check_tpm. destruct l as [m|].
  2: { intros [= <- <-]. split; [constructor|]. split; [done|].
       unfold reserved. simpl. by rewrite Z.mul_0_r, Z.add_0_r. }
  pose proof (incr_charged c (tpm_key scope) WINDOW_MS DEFAULT_TOKEN_PREDEDUCT k Hi) as Hc.
  destruct (incr_window _ _ _ _) as [[n|e] c1]; simpl in *; [|done].
  destruct (m <? as_u64 n); [done|]. intros [= <- <-].
  split; [by repeat constructor|]. rewrite reserved_one. simpl.
  split; [done|]. rewrite Hc. by destruct (String.eqb k _).
Qed.

Lemma check_concurrency_charged scope l c k :
  charged (check_concurrency scope l c).2 k WINDOW_MS = charged c k WINDOW_MS.
Proof.
  unfold check_concurrency. destruct l as [m|]; [|done].
  pose proof (acquire_charged c (conc_key scope) m k WINDOW_MS) as Hc.
  by destruct (try_acquire_concurrency _ _ _) as [[[p|]|e] c'].
Qed.

Lemma check_limit_charged limit scope c p c' s :
  infallible → check_limit limit scope c = (Ok p, c') →
  prededucted (tpm_reservations p) ∧
  reserved (tpm_reservations p) (tpm_key s) =
    (if tpm limit is Some _
     then if String.eqb (tpm_key s) (tpm_key scope) then 1 else 0 else 0) ∧
  eq64 (charged c' (tpm_key s) WINDOW_MS)
       (charged c (tpm_key s) WINDOW_MS +
        DEFAULT_TOKEN_PREDEDUCT * reserved (tpm_reservations p) (tpm_key s)).
Proof.
  intros Hi. unfold check_limit.
  pose proof (check_rpm_charged scope (rpm limit) c s Hi) as H1.
  destruct (check_rpm _ _ _) as [[[]|e] c1]; simpl in *; [|done].
  destruct (check_tpm scope (tpm limit) c1) as [[rs|e] c2] eqn:H2; [|done].
  pose proof (check_concurrency_charged scope (conc limit) c2 (tpm_key s)) as H3.
  destruct (check_concurrency _ _ _) as [[ps|e] c3]; simpl in *; [|done].
  intros [= <- <-]. simpl.
  destruct (check_tpm_charged _ _ _ _ _ (tpm_key s) Hi H2) as (? & ? & Hc).
  split; [done|]. split; [done|]. by rewrite H3, Hc, H1.
Qed.

Lemma tpm_uses_cons l limits key_id project_id k :
  tpm_uses (l :: limits) key_id project_id k =
  (if uses_tpm key_id project_id k l then 1 else 0) + tpm_uses limits key_id project_id k.
Proof. unfold tpm_uses. cbn [List.filter]. case_match; cbn [length]; lia. Qed.

Lemma check_loop_charged limits key_id project_id acc c p c' s :
  infallible → prededucted (tpm_reservations acc) →
  check_loop limits key_id project_id acc c = (Ok p, c') →
  let n := tpm_uses limits key_id project_id (tpm_key s) in
  prededucted (tpm_reservations p) ∧
  reserved (tpm_reservations p) (tpm_key s) =
    reserved (tpm_reservations acc) (tpm_key s) + n ∧
  eq64 (charged c' (tpm_key s) WINDOW_MS)
       (charged c (tpm_key s) WINDOW_MS + DEFAULT_TOKEN_PREDEDUCT * n).
Proof.
  intros Hi. revert acc c.
  induction limits as [|l limits IH]; intros acc c Hacc; cbn [check_loop]; cbv zeta.
  { intros [= <- <-]. split; [done|]. unfold tpm_uses. cbn [List.filter length].
    split; [lia|]. by rewrite Z.mul_0_r, Z.add_0_r. }
  rewrite tpm_uses_cons. unfold uses_tpm.
  destruct (scope_of l key_id project_id) as [scope|] eqn:Hsc.
  2: { rewrite Z.add_0_l. by apply IH. }
  destruct (check_limit l scope c) as [[q|e] c1] eqn:Hl; [|done].
  destruct (check_limit_charged _ _ _ _ _ s Hi Hl) as (Hq & Hr & Hc).
  intros Hloop. apply IH in Hloop as (Hp & Hrp & Hcp); [|by apply Forall_app].
  cbn [tpm_reservations] in Hrp. rewrite reserved_app, Hr in Hrp. rewrite Hr in Hc.
  split; [done|]. rewrite Hcp, Hc, <- Z.add_assoc, <- Z.mul_add_distr_l.
  destruct (tpm l); [|by split; [lia|]].
  split; [lia|done].
Qed.

Lemma release_all_charged ps c k w : charged (release_all ps c) k w = charged c k w.
Proof.
  revert c. induction ps as [|p ps IH]; intros c; simpl; [done|].
  by rewrite IH, release_charged.
Qed.

Lemma reconcile_charged actual rs c k :
  infallible → prededucted rs →
  eq64 (charged (foldl (reconcile_one actual) c rs) k WINDOW_MS)
       (charged c k WINDOW_MS + (actual - DEFAULT_TOKEN_PREDEDUCT) * reserved rs k).
Proof.
  intros Hi. revert c. induction rs as [|r rs IH]; intros c Hrs; simpl.
  { unfold reserved. simpl. by rewrite Z.mul_0_r, Z.add_0_r. }
  apply Forall_cons in Hrs as [Hr Hrs]. rewrite IH by done.
  change (r :: rs) with ([r] ++ rs). rewrite reserved_app, reserved_one.
  rewrite Z.mul_add_distr_l, Z.add_assoc. f_equiv.
  unfold reconcile_one. rewrite Hr.
  assert (Hd : eq64 (as_i64 (actual - DEFAULT_TOKEN_PREDEDUCT))
    (actual - DEFAULT_TOKEN_PREDEDUCT)) by apply eq64_as_i64.
  destruct (Z.eqb_spec (as_i64 (actual - DEFAULT_TOKEN_PREDEDUCT)) 0) as [H0'|_].
  - rewrite H0' in Hd. case_match; [|by rewrite Z.mul_0_r, Z.add_0_r].
    by rewrite Z.mul_1_r, <- Hd, Z.add_0_r.
  - rewrite incr_charged by done. f_equiv.
    case_match; [by rewrite Z.mul_1_r|by rewrite Z.mul_0_r].
Qed.
End Tokens.

Lemma slots_tracked `{CounterLaws C} costs limits (c0 c : C) ps k max :
  (∀ k, live c0 k = 0) → slot_max limits k max → 0 ≤ max →
  rtc (store_step costs limits) (c0, []) (c, ps) →
  live c k = held ps k ∧ held ps k ≤ max.
Proof.
  intros Hz Hmax Hm Hs.
  assert (Ht : tracks (λ _, 0) (c0, [])) by (intros k'; simpl; by rewrite Hz).
  pose proof (store_steps_tracks costs limits (λ _, 0) _ _ ltac:(done) Hs Ht k) as Hk.
  pose proof (store_steps_bounded costs limits (λ _, 0) max k _ _ ltac:(done) Hmax Hs Ht) as Hb.
  simpl in *. rewrite Hz in Hb. lia.
Qed.

(** [check_limits] and the end of a request are sequences of such steps,
    with other requests' permits [hs] held throughout: a request that is let in
    holds exactly the permits it returns, one that is refused holds none (the
    slots it had already taken are given back), and finishing a request, with
    or without reconciliation, gives back all of its slots. *)
Lemma request_slots_balanced `{CounterStore C} costs limits key_id project_id (c : C) hs :
  let '(r, c') := check_limits limits key_id project_id c in
  rtc (store_step costs limits) (c, hs)
    (c', hs ++ match r with Ok p => concurrency_permits p | Err _ => [] end) ∧
  ∀ p actual c2, r = Ok p →
    rtc (store_step costs limits) (c2, hs ++ concurrency_permits p) (drop_permit p c2, hs) ∧
    rtc (store_step costs limits) (c2, hs ++ concurrency_permits p)
      (reconcile_tokens p actual c2, hs).
Proof.
  pose proof (check_loop_steps costs limits limits key_id project_id no_permit c hs
    (reflexivity _)) as Hc.
  unfold check_limits. destruct (check_loop _ _ _ _ _) as [r c']. simpl in Hc.
  rewrite app_nil_r in Hc. split; [exact Hc|]. intros p actual c2 _. split.
  - apply release_all_steps.
  - etransitivity; [apply reconcile_one_steps|]. apply release_all_steps.
Qed.

(** C5: The concurrency limit is never exceeded: along any interleaving of the
    store operations of any number of requests, starting with nothing held, the
    slots in use are exactly those of the permits still held, and never more than
    the largest limit configured for the slot.  Admitting one more request from
    there keeps it so: a request that is let in adds exactly the permits it
    returns, a refused one adds none, and ending a request at any later state,
    with or without reconciliation, leaves exactly the slots of the others. *)
Theorem concurrency_invariant `{CounterLaws C} costs limits (c0 c : C) ps k max key_id project_id :
  (∀ k, live c0 k = 0) → slot_max limits k max → 0 ≤ max →
  rtc (store_step costs limits) (c0, []) (c, ps) →
  (live c k = held ps k ∧ held ps k ≤ max) ∧
  let '(r, c') := check_limits limits key_id project_id c in
  let ps' := ps ++ match r with Ok p => concurrency_permits p | Err _ => [] end in
  (live c' k = held ps' k ∧ held ps' k ≤ max) ∧
  ∀ p hs c2 actual, r = Ok p →
    rtc (store_step costs limits) (c0, []) (c2, hs ++ concurrency_permits p) →
    live (drop_permit p c2) k = held hs k ∧
    live (reconcile_tokens p actual c2) k = held hs k.
Proof.
  intros Hz Hmax Hm Hs. split; [by eapply slots_tracked|].
  pose proof (request_slots_balanced costs limits key_id project_id c) as Hr.
  destruct (check_limits _ _ _ _) as [r c']. cbv zeta. split.
  - eapply slots_tracked; [done..|]. etransitivity; [exact Hs|]. apply (Hr ps).
  - intros p hs c2 actual -> Hs2.
    destruct (proj2 (Hr hs) p actual c2 eq_refl) as [Hdrop Hrec].
    split; (eapply slots_tracked; [done..|etransitivity; [exact Hs2|eassumption]]).
Qed.

(** Tokens per minute are billed at their actual number: on a store whose
    windows do not fail, a request that is let in reserves 1024 tokens for each
    applicable [tpm] limit of the scope, and its reconciliation, at whatever
    later state of the store, replaces each reservation by the actual count
    (up to wrap-around at 64 bits); dropping the permit without reconciling
    leaves the reservation charged. *)
Theorem tpm_accounting `{CounterLaws C} limits key_id project_id (c : C) p c1 scope :
  infallible (C:=C) →
  check_limits limits key_id project_id c = (Ok p, c1) →
  let k := tpm_key scope in
  let n := tpm_uses limits key_id project_id k in
  eq64 (charged c1 k WINDOW_MS) (charged c k WINDOW_MS + 1024 * n) ∧
  ∀ c2 actual,
    eq64 (charged (reconcile_tokens p actual c2) k WINDOW_MS)
         (charged c2 k WINDOW_MS + (actual - 1024) * n) ∧
    charged (drop_permit p c2) k WINDOW_MS = charged c2 k WINDOW_MS.
Proof.
  intros Hi Hc k n. unfold check_limits in Hc.
  apply (check_loop_charged _ _ _ _ _ _ _ scope) in Hc as (Hp & Hr & Hch);
    [|done|by constructor].
  split; [exact Hch|]. intros c2 actual. split; [|apply release_all_charged].
  unfold reconcile_tokens, drop_permit. rewrite release_all_charged.
  rewrite reconcile_charged by done. simpl in Hr. fold k n in Hr. by rewrite Hr.
Qed.

(** A request refused for one reason stays charged for another: with a free
    token budget but no free slot, the refusal leaves the 1024 pre-deducted
    tokens in the window of the limit (only a refusal by that very token check
    rolls them back). *)
Theorem refused_request_keeps_tokens `{CounterLaws C} limit key_id project_id scope t m
    (c : C) n c1 :
  infallible (C:=C) →
  scope_of limit key_id project_id = Some scope →
  rpm limit = None → tpm limit = Some t → conc limit = Some m →
  incr_window c (tpm_key scope) WINDOW_MS DEFAULT_TOKEN_PREDEDUCT = (Ok n, c1) →
  as_u64 n ≤ t →
  (∃ c2, try_acquire_concurrency c1 (conc_key scope) m = (Ok None, c2)) →
  ∃ c', check_limits [limit] key_id project_id c = (Err (AGateway RateLimited), c') ∧
    eq64 (charged c' (tpm_key scope) WINDOW_MS)
         (charged c (tpm_key scope) WINDOW_MS + 1024).
Proof.
  intros Hi Hsc Hr Ht Hm Hn Hle [c2 Ha]. exists c2.
  unfold check_limits, check_limit, check_rpm, check_tpm, check_concurrency.
  cbn [check_loop]. unfold check_limit, check_rpm, check_tpm, check_concurrency.
  rewrite Hsc, Hr, Ht, Hn, Hm. rewrite (proj2 (Z.ltb_ge _ _)) by done. rewrite Ha.
  split; [done|].
  pose proof (acquire_charged c1 (conc_key scope) m (tpm_key scope) WINDOW_MS) as Hch.
  rewrite Ha in Hch. simpl in Hch. rewrite Hch.
  pose proof (incr_charged c (tpm_key scope) WINDOW_MS DEFAULT_TOKEN_PREDEDUCT
    (tpm_key scope) Hi) as Hinc.
  rewrite Hn, String.eqb_refl in Hinc. exact Hinc.
Qed.

(** Reconciling can lock a window: the count is compared after a cast to
    [u64], so a window driven below zero (requests charged in one minute and
    reconciled in the next) refuses every request, whatever the limit. *)
Theorem negative_window_refuses `{CounterStore C} scope t (c : C) n c1 :
  incr_window c (tpm_key scope) WINDOW_MS DEFAULT_TOKEN_PREDEDUCT = (Ok n, c1) →
  i64_min ≤ n < 0 → t ≤ i64_max →
  (check_tpm scope (Some t) c).1 = Err (AGateway RateLimited).
Proof.
  intros Hn Hneg Ht. unfold check_tpm. rewrite Hn, as_u64_neg by done.
  rewrite (proj2 (Z.ltb_lt _ _)); [done|]. unfold i64_max, i64_min in *. lia.
Qed.

(** * Concrete runs on the in-memory store *)

Definition at_minute (m : Z) : Clock := λ _, m * 60000.

Definition slot_limit (max : Z) : LimitConfig :=
  {| limit_target := {| limit_kind := "global"; limit_id := None; limit_key := None |};
     rpm := None; tpm := Some 100000; conc := Some max |}.

Lemma memory_infallible : infallible (C:=MemoryCounterStore).
Proof. intros c k w b. simpl. unfold mem_incr_window. by eexists. Qed.

Lemma concurrency_invariant_witness :
  let c := (mem_try_acquire (counter_new (at_minute 0)) "conc:global" 1).2 in
  live c "conc:global" = 1 ∧ 1 ≤ 1.
Proof.
  refine (proj1 (concurrency_invariant (λ _, True) [slot_limit 1] (counter_new (at_minute 0)) _
    [{| permit_key := "conc:global" |}] "conc:global" 1 "k" "p" _ _ _ _)).
  - reflexivity.
  - intros l ki pi scope m Hin Hsc Hk Hm. apply list_elem_of_singleton in Hin as ->.
    injection Hm as <-. lia.
  - lia.
  - apply rtc_once.
    apply (step_acquire (λ _, True) [slot_limit 1] (counter_new (at_minute 0)) [] (slot_limit 1)
      "k" "p" "global" 1 (Ok (Some {| permit_key := "conc:global" |}))).
    + apply list_elem_of_singleton. reflexivity.
    + reflexivity.
    + reflexivity.
    + reflexivity.
Defined.

Lemma tpm_accounting_witness :
  ∃ p c1, check_limits [slot_limit 1] "k" "p" (counter_new (at_minute 0)) = (Ok p, c1) ∧
    eq64 (charged c1 "tpm:global" WINDOW_MS)
         (charged (counter_new (at_minute 0)) "tpm:global" WINDOW_MS + 1024 * 1).
Proof.
  destruct (check_limits [slot_limit 1] "k" "p" (counter_new (at_minute 0)))
    as [[p|e] c1] eqn:Hc.
  - exists p, c1. split; [reflexivity|].
    exact (proj1 (tpm_accounting [slot_limit 1] "k" "p" (counter_new (at_minute 0)) p c1
      "global" memory_infallible Hc)).
  - vm_compute in Hc. discriminate Hc.
Defined.

Lemma refused_request_keeps_tokens_witness :
  ∃ c', check_limits [slot_limit 0] "k" "p" (counter_new (at_minute 0)) =
          (Err (AGateway RateLimited), c') ∧
    eq64 (charged c' "tpm:global" WINDOW_MS)
         (charged (counter_new (at_minute 0)) "tpm:global" WINDOW_MS + 1024).
Proof.
  apply (refused_request_keeps_tokens (slot_limit 0) "k" "p" "global" 100000 0
    (counter_new (at_minute 0)) 1024
    (incr_window (counter_new (at_minute 0)) "tpm:global" WINDOW_MS 1024).2
    memory_infallible); try reflexivity.
  - vm_compute. congruence.
  - eexists. reflexivity.
Defined.

(** Two requests let in during minute 0, each using 10 tokens, reconciled in
    minute 1; the next request is refused although nothing was used. *)
Definition late_clock : Clock := λ n, if (n <? 2)%nat then 0 else 60000.

Definition late_store : MemoryCounterStore :=
  let limits := [slot_limit 10] in
  match check_limits limits "k" "p" (counter_new late_clock) with
  | (Ok p1, c) =>
      match check_limits limits "k" "p" c with
      | (Ok p2, c) => reconcile_tokens p2 10 (reconcile_tokens p1 10 c)
      | (Err _, c) => c
      end
  | (Err _, c) => c
  end.

Lemma negative_window_refuses_witness :
  (check_tpm "global" (Some 100000) late_store).1 = Err (AGateway RateLimited).
Proof.
  apply (negative_window_refuses "global" 100000 late_store (-1004)
    (incr_window late_store "tpm:global" WINDOW_MS DEFAULT_TOKEN_PREDEDUCT).2).
  - rewrite (surjective_pairing (incr_window _ _ _ _)) at 1.
    apply (f_equal2 pair); vm_compute; reflexivity.
  - unfold i64_min. lia.
  - unfold i64_max. lia.
Defined.
