(* ===== verification/RateWindows.v ===== *)
(** Requests per minute: the rpm limits of gateway-api/src/ratelimit.rs count what they let
    through, whatever the store operations of other requests in between. *)
From Stdlib Require Import ZArith Lia Bool String.
From stdpp Require Import prelude gmap strings list relations.
From S2P Require Import Prelude Text Errors Models Config Stores MemoryCounter RateLimit.
Open Scope Z_scope.

(** * Minute windows, one by one *)

(** [counted c k t] is the count of [k] in the [t]-th minute since the epoch, [minute c] the
    minute the next operation falls in.  A failed increment may have been applied. *)
Class WindowLaws (C : Type) `{CounterStore C} : Type := {
  counted : C → string → Z → Z;
  minute : C → Z;
  incr_counted c k b n c' :
    incr_window c k WINDOW_MS b = (Ok n, c') →
    n = as_i64 (counted c k (minute c) + b) ∧
    ∀ k' t, counted c' k' t =
      if String.eqb k' k && (t =? minute c) then n else counted c k' t;
  incr_failed c k b e c' :
    incr_window c k WINDOW_MS b = (Err e, c') →
    ∀ k' t, counted c' k' t = counted c k' t ∨
      k' = k ∧ t = minute c ∧ counted c' k' t = as_i64 (counted c k t + b);
  acquire_counted c k m k' t : counted (try_acquire_concurrency c k m).2 k' t = counted c k' t;
  release_counted c p k' t : counted (release c p) k' t = counted c k' t;
  incr_budget_counted c b p d k' t : counted (incr_budget c b p d).2 k' t = counted c k' t;
  read_budget_counted c b p k' t : counted (read_budget c b p).2 k' t = counted c k' t
}.

#[export] Instance memory_window_laws : WindowLaws MemoryCounterStore.
Proof.
  refine {| counted c k t := default 0 (windows c !! (k, WINDOW_MS, t));
            minute c := bucket_of (now (utc c)) WINDOW_MS |}; simpl; try done.
  - unfold mem_incr_window. intros c k b n c' [= <- <-]. split; [done|]. intros k' t. simpl.
    destruct (String.eqb_spec k' k) as [->|Hk]; simpl.
    2: { by rewrite lookup_insert_ne by congruence. }
    destruct (Z.eqb_spec t (bucket_of (now (utc c)) WINDOW_MS)) as [->|Ht].
    + by rewrite lookup_insert_eq.
    + by rewrite lookup_insert_ne by congruence.
  - intros c k m k' t. unfold mem_try_acquire. by case_match.
  - intros c p k' t. unfold mem_release. by case_match.
Defined.

(** * The operations of requests, and what gets through *)

Section Windows.
Context `{WindowLaws C}.

(** The pass a check gives: its scope, in the minute it was made. *)
Definition pass (c : C) (scope : string) (r : result unit ApiError) : list (string * Z) :=
  if is_ok r then [(scope, minute c)] else [].

(** One operation of some request under the configured limits, with the passes so far. *)
Inductive window_step (limits : list LimitConfig) : relation (C * list (string * Z)) :=
| ws_requests c ps limit key_id project_id scope m r c' :
    limit ∈ limits → scope_of limit key_id project_id = Some scope → rpm limit = Some m →
    check_rpm scope (Some m) c = (r, c') →
    window_step limits (c, ps) (c', ps ++ pass c scope r)
| ws_tokens c ps scope b :
    window_step limits (c, ps) ((incr_window c (tpm_key scope) WINDOW_MS b).2, ps)
| ws_acquire c ps k m :
    window_step limits (c, ps) ((try_acquire_concurrency c k m).2, ps)
| ws_release c ps p : window_step limits (c, ps) (release c p, ps)
| ws_budget c ps b p d : window_step limits (c, ps) ((incr_budget c b p d).2, ps)
| ws_read c ps b p : window_step limits (c, ps) ((read_budget c b p).2, ps).

Definition passes (scope : string) (t : Z) (ps : list (string * Z)) : Z :=
  Z.of_nat (length (filter (λ p, p = (scope, t)) ps)).

Lemma passes_app scope t ps qs : passes scope t (ps ++ qs) = passes scope t ps + passes scope t qs.
Proof. unfold passes. rewrite filter_app, length_app. lia. Qed.

Lemma passes_one scope t s u :
  passes scope t [(s, u)] = if String.eqb scope s && (t =? u) then 1 else 0.
Proof.
  unfold passes. destruct (String.eqb_spec scope s) as [->|Hs]; cbn [andb].
  - destruct (Z.eqb_spec t u) as [->|Ht].
    + by rewrite filter_cons_True.
    + by rewrite filter_cons_False by congruence.
  - by rewrite filter_cons_False by congruence.
Qed.

(** No configured limit on [scope] lets more than [max] requests through. *)
Definition rpm_max (limits : list LimitConfig) (scope : string) (max : Z) : Prop :=
  ∀ limit key_id project_id m, limit ∈ limits →
    scope_of limit key_id project_id = Some scope → rpm limit = Some m → m ≤ max.

Lemma passes_nonneg scope t ps : 0 ≤ passes scope t ps.
Proof. unfold passes. lia. Qed.

Context (limits : list LimitConfig) (scope : string) (max : Z).

(** After [n] operations. *)
Definition windows_ok (n : Z) (s : C * list (string * Z)) : Prop :=
  ∀ t, passes scope t s.2 ≤ max ∧
       passes scope t s.2 ≤ counted s.1 (rpm_key scope) t ≤ n.

Lemma rpm_key_eqb s s' : String.eqb (rpm_key s) (rpm_key s') = String.eqb s s'.
Proof.
  destruct (String.eqb_spec s s') as [->|Hne]; [apply String.eqb_refl|].
  apply String.eqb_neq. intros Hk. apply Hne. cbn in Hk. by injection Hk.
Qed.

Lemma windows_ok_same n c c' ps :
  (∀ t, counted c' (rpm_key scope) t = counted c (rpm_key scope) t) →
  windows_ok n (c, ps) → windows_ok (n + 1) (c', ps).
Proof. intros Hc Hw t. specialize (Hw t). cbn in *. rewrite Hc. lia. Qed.

Lemma tokens_counted c s b t :
  counted (incr_window c (tpm_key s) WINDOW_MS b).2 (rpm_key scope) t =
  counted c (rpm_key scope) t.
Proof.
  destruct (incr_window _ _ _ _) as [[k|e] c'] eqn:Hi; cbn.
  - apply incr_counted in Hi as [_ ->]. by rewrite String.eqb_sym, rpm_tpm_key.
  - destruct (incr_failed _ _ _ _ _ Hi (rpm_key scope) t) as [Hsame|(Hk & _)]; [done|].
    pose proof (rpm_tpm_key s scope) as Hne. by rewrite <- Hk, String.eqb_refl in Hne.
Qed.

Lemma small_i64 z : 0 ≤ z < 2 ^ 63 → as_i64 z = z.
Proof. intros. apply as_i64_id. unfold in_i64, i64_min, i64_max. lia. Qed.

(** A check counts one request, and gives a pass only within the limit. *)
Lemma check_rpm_ok n c ps s m r c' :
  (s = scope → m ≤ max) → n < 2 ^ 63 - 1 →
  check_rpm s (Some m) c = (r, c') →
  windows_ok n (c, ps) → windows_ok (n + 1) (c', ps ++ pass c s r).
Proof.
  intros Hm Hn. unfold check_rpm.
  destruct (incr_window c (rpm_key s) WINDOW_MS 1) as [[k|e] c1] eqn:Hi.
  - apply incr_counted in Hi as [-> Hc]. intros Hr Hw.
    assert (Hc' : ∀ t, counted c' (rpm_key scope) t =
      if String.eqb scope s && (t =? minute c) then counted c (rpm_key scope) t + 1
      else counted c (rpm_key scope) t).
    { intros t. assert (c1 = c') as <- by (by destruct (m <? _); injection Hr).
      rewrite Hc, rpm_key_eqb. destruct (String.eqb_spec scope s) as [<-|]; [|done]. cbn [andb].
      destruct (Z.eqb_spec t (minute c)) as [->|]; [|done].
      destruct (Hw (minute c)) as [_ Hb]. cbn [fst snd] in Hb.
      pose proof (passes_nonneg scope (minute c) ps). apply small_i64. lia. }
    intros t. cbn [fst snd]. rewrite passes_app, Hc'. destruct (Hw t) as [Hmax Hb].
    cbn [fst snd] in Hmax, Hb. pose proof (passes_nonneg scope t ps). unfold pass.
    destruct (m <? _) eqn:Hlt; injection Hr as <- <-; cbn [is_ok].
    + change (passes scope t []) with 0. destruct (_ && _); lia.
    + rewrite passes_one. apply Z.ltb_ge in Hlt.
      destruct (String.eqb_spec scope s) as [<-|]; cbn [andb]; [|lia].
      destruct (Z.eqb_spec t (minute c)) as [->|]; [|lia].
      specialize (Hm eq_refl).
      rewrite small_i64, as_u64_id in Hlt by (unfold in_u64, u64_max; lia). lia.
  - intros [= <- <-] Hw t. unfold pass. cbn [is_ok fst snd]. rewrite app_nil_r.
    destruct (Hw t) as [Hmax Hb]. cbn [fst snd] in Hmax, Hb.
    pose proof (passes_nonneg scope t ps).
    destruct (incr_failed _ _ _ _ _ Hi (rpm_key scope) t) as [->|(Hk & _ & ->)]; [lia|].
    rewrite <- Hk, small_i64 by lia. lia.
Qed.

Lemma window_step_ok n s s' :
  rpm_max limits scope max → n < 2 ^ 63 - 1 → window_step limits s s' →
  windows_ok n s → windows_ok (n + 1) s'.
Proof.
  intros Hmax Hn Hs. destruct Hs as [c ps limit ki pi s m r c' Hin Hsc Hm Hr|c ps s b|c ps k m
    |c ps p|c ps b p d|c ps b p].
  - eapply check_rpm_ok; [|done|exact Hr]. intros ->. by eapply Hmax.
  - apply windows_ok_same, tokens_counted.
  - apply windows_ok_same. intros t. apply acquire_counted.
  - apply windows_ok_same. intros t. apply release_counted.
  - apply windows_ok_same. intros t. apply incr_budget_counted.
  - apply windows_ok_same. intros t. apply read_budget_counted.
Qed.
End Windows.

(** * Requests *)

Section Requests.
Context `{WindowLaws C}.

Abbreviation steps limits := (rtc (window_step limits)).

(** What a run of operations adds to the passes. *)
Lemma check_tpm_windows limits scope l c ps :
  steps limits (c, ps) ((check_tpm scope l c).2, ps) ∧
  ∀ rs, (check_tpm scope l c).1 = Ok rs → Forall (λ r, ∃ s, r.1 = tpm_key s) rs.
Proof.
  unfold check_tpm. destruct l as [tpm|]; [|split; [done|intros rs [= <-]; constructor]].
  pose proof (ws_tokens limits c ps scope DEFAULT_TOKEN_PREDEDUCT) as Hs.
  destruct (incr_window _ _ _ _) as [[n|e] c1]; cbn [fst snd] in *.
  2: { split; [by apply rtc_once|done]. }
  case_match; cbn [fst snd].
  - split; [|done]. eapply rtc_l; [exact Hs|]. apply rtc_once, ws_tokens.
  - split; [by apply rtc_once|]. intros rs [= <-]. apply Forall_singleton. by exists scope.
Qed.

Lemma check_concurrency_windows limits scope l c ps :
  steps limits (c, ps) ((check_concurrency scope l c).2, ps).
Proof.
  unfold check_concurrency. destruct l as [m|]; [|done].
  pose proof (ws_acquire limits c ps (conc_key scope) m) as Hs.
  destruct (try_acquire_concurrency _ _ _) as [[[p|]|e] c1]; by apply rtc_once.
Qed.

Lemma check_rpm_windows limits limit key_id project_id scope c ps :
  limit ∈ limits → scope_of limit key_id project_id = Some scope →
  let '(r, c1) := check_rpm scope (rpm limit) c in
  ∃ qs, steps limits (c, ps) (c1, ps ++ qs) ∧
    (is_ok r = true → is_Some (rpm limit) → scope ∈ qs.*1).
Proof.
  intros Hin Hsc. destruct (rpm limit) as [m|] eqn:Hm.
  - destruct (check_rpm scope (Some m) c) as [r c1] eqn:Hr. exists (pass c scope r).
    split; [by apply rtc_once; eapply ws_requests|]. intros Hok _. unfold pass. rewrite Hok. by left.
  - exists []. rewrite app_nil_r. split; [done|]. by intros _ [].
Qed.

Lemma check_limit_windows limits limit key_id project_id scope c ps :
  limit ∈ limits → scope_of limit key_id project_id = Some scope →
  let '(r, c1) := check_limit limit scope c in
  ∃ qs, steps limits (c, ps) (c1, ps ++ qs) ∧
    ∀ p, r = Ok p → (is_Some (rpm limit) → scope ∈ qs.*1) ∧
      Forall (λ r, ∃ s, r.1 = tpm_key s) (tpm_reservations p).
Proof.
  intros Hin Hsc. pose proof (check_rpm_windows limits limit key_id project_id scope c ps Hin Hsc) as H1.
  unfold check_limit. destruct (check_rpm _ _ _) as [[[]|e] c1]; destruct H1 as (qs & H1 & Hq).
  2: { by exists qs. }
  destruct (check_tpm_windows limits scope (tpm limit) c1 (ps ++ qs)) as [H2 Hrs].
  destruct (check_tpm _ _ _) as [[rs|e] c2]; cbn [fst snd] in *.
  2: { exists qs. split; [by etransitivity|done]. }
  pose proof (check_concurrency_windows limits scope (conc limit) c2 (ps ++ qs)) as H3.
  destruct (check_concurrency _ _ _) as [[cs|e] c3]; cbn [fst snd] in *; exists qs;
    (split; [etransitivity; [exact H1|by etransitivity]|]); [|done].
  intros p [= <-]. split; [intros Hm; by apply Hq|]. by apply Hrs.
Qed.

Lemma release_all_windows limits rs c ps : steps limits (c, ps) (release_all rs c, ps).
Proof.
  revert c. induction rs as [|r rs IH]; intros c; [done|]. eapply rtc_l; [apply ws_release|apply IH].
Qed.

Lemma check_loop_windows limits ls key_id project_id acc c ps :
  ls ⊆ limits → Forall (λ r, ∃ s, r.1 = tpm_key s) (tpm_reservations acc) →
  let '(r, c1) := check_loop ls key_id project_id acc c in
  ∃ qs, steps limits (c, ps) (c1, ps ++ qs) ∧
    ∀ p, r = Ok p →
      (∀ limit scope, limit ∈ ls → scope_of limit key_id project_id = Some scope →
         is_Some (rpm limit) → scope ∈ qs.*1) ∧
      Forall (λ r, ∃ s, r.1 = tpm_key s) (tpm_reservations p).
Proof.
  revert acc c ps. induction ls as [|l ls IH]; intros acc c ps Hin Hacc; cbn [check_loop].
  { exists []. rewrite app_nil_r. split; [done|]. intros p [= <-]. split; [|done].
    intros limit scope Hl. by apply not_elem_of_nil in Hl. }
  assert (Hls : ls ⊆ limits) by set_solver.
  destruct (scope_of l key_id project_id) as [scope|] eqn:Hsc.
  2: { specialize (IH acc c ps Hls Hacc). destruct (check_loop ls _ _ acc c) as [r c1].
       destruct IH as (qs & Hs & Hp). exists qs. split; [done|]. intros p Hr.
       destruct (Hp p Hr) as [Hl Hf]. split; [|done]. intros limit s [->|Hlim]%elem_of_cons;
         [by rewrite Hsc|by apply Hl]. }
  pose proof (check_limit_windows limits l key_id project_id scope c ps ltac:(set_solver) Hsc) as Hl.
  destruct (check_limit l scope c) as [[p|e] c1]; destruct Hl as (qs & H1 & Hp).
  2: { exists qs. split; [|done]. etransitivity; [exact H1|]. apply release_all_windows. }
  destruct (Hp p eq_refl) as [Hq Hr]. set (acc' := {| concurrency_permits := _ |}).
  specialize (IH acc' c1 (ps ++ qs) Hls ltac:(by apply Forall_app)).
  destruct (check_loop ls _ _ acc' c1) as [r c2]. destruct IH as (qs' & H2 & Hp').
  exists (qs ++ qs'). rewrite app_assoc. split; [by etransitivity|]. intros p' Hok.
  destruct (Hp' p' Hok) as [Hl Hf]. split; [|done].
  intros limit s [->|Hlim]%elem_of_cons Hs Hm; rewrite fmap_app, elem_of_app.
  - left. rewrite Hsc in Hs. injection Hs as <-. by apply Hq.
  - right. by eapply Hl.
Qed.

Lemma reconcile_windows limits p actual c ps :
  Forall (λ r, ∃ s, r.1 = tpm_key s) (tpm_reservations p) →
  steps limits (c, ps) (reconcile_tokens p actual c, ps).
Proof.
  unfold reconcile_tokens. intros Hf. etransitivity; [|apply release_all_windows].
  revert c. induction Hf as [|[k n] rs [s Hk] _ IH]; intros c; [done|]. cbn [foldl].
  etransitivity; [|apply IH]. unfold reconcile_one. cbn [fst snd] in *. subst k.
  case_match; [done|]. apply rtc_once, ws_tokens.
Qed.

Lemma passes_bounded limits scope max n c0 c ps t :
  (∀ t, counted c0 (rpm_key scope) t = 0) → rpm_max limits scope max → 0 ≤ max →
  nsteps (window_step limits) n (c0, []) (c, ps) → Z.of_nat n < 2 ^ 63 →
  passes scope t ps ≤ max.
Proof.
  intros Hz Hm Hmax Hs Hn. cut (windows_ok scope max (Z.of_nat n) (c, ps)).
  { intros Hw. by destruct (Hw t). }
  revert c ps Hs Hn. induction n as [|n IH]; intros c ps Hs Hn.
  - inversion Hs; subst. intros u. cbn. rewrite Hz. unfold passes. cbn. lia.
  - apply nsteps_inv_r in Hs as ([c1 ps1] & Hs & Hstep).
    replace (Z.of_nat (S n)) with (Z.of_nat n + 1) by lia.
    eapply window_step_ok; [exact Hm|lia|exact Hstep|]. apply IH; [exact Hs|lia].
Qed.
End Requests.

(** C16: No more requests a minute than the limit.  Along any interleaving of fewer than 2^63
    operations of any number of requests on the counter store, in every minute at most as
    many rpm checks of a scope succeed as its largest configured limit allows.  Checking the
    limits of a request, and dropping or reconciling its permit, are such operations; and a
    request is let in only by a successful check of every rpm limit that applies to it. *)
Theorem rpm_bounds_requests `{WindowLaws C} limits scope max n (c0 c : C) ps t key_id project_id :
  (∀ t, counted c0 (rpm_key scope) t = 0) → rpm_max limits scope max → 0 ≤ max →
  nsteps (window_step limits) n (c0, []) (c, ps) → Z.of_nat n < 2 ^ 63 →
  passes scope t ps ≤ max ∧
  let '(r, c') := check_limits limits key_id project_id c in
  ∃ qs, rtc (window_step limits) (c, ps) (c', ps ++ qs) ∧
    ∀ p, r = Ok p →
      (∀ limit s, limit ∈ limits → scope_of limit key_id project_id = Some s →
         is_Some (rpm limit) → s ∈ qs.*1) ∧
      ∀ c2 ps2 actual,
        rtc (window_step limits) (c2, ps2) (drop_permit p c2, ps2) ∧
        rtc (window_step limits) (c2, ps2) (reconcile_tokens p actual c2, ps2).
Proof.
  intros Hz Hm Hmax Hs Hn. split; [by eapply passes_bounded|].
  pose proof (check_loop_windows limits limits key_id project_id no_permit c ps (reflexivity _)
    ltac:(by constructor)) as Hl.
  unfold check_limits. destruct (check_loop _ _ _ _ _) as [r c']. destruct Hl as (qs & Hq & Hp).
  exists qs. split; [done|]. intros p Hr. destruct (Hp p Hr) as [Hl Hf]. split; [done|].
  intros c2 ps2 actual. split; [apply release_all_windows|by apply reconcile_windows].
Qed.

(** * Two requests a minute in memory *)

Section Example.
Definition two_a_minute : LimitConfig :=
  {| limit_target := {| limit_kind := "key"; limit_id := None; limit_key := None |};
     rpm := Some 2; tpm := None; conc := None |}.

Definition one_more (c : MemoryCounterStore) : MemoryCounterStore :=
  (check_rpm "key:k" (Some 2) c).2.

Lemma one_more_step c ps :
  window_step [two_a_minute] (c, ps)
    (one_more c, ps ++ pass c "key:k" (check_rpm "key:k" (Some 2) c).1).
Proof.
  apply (ws_requests _ c ps two_a_minute "k" "p" "key:k" 2); [by left|done|done|].
  unfold one_more. by destruct (check_rpm _ _ c).
Qed.

Lemma rpm_bounds_requests_witness :
  ∃ c, nsteps (window_step [two_a_minute]) 3 (counter_new (at_minute 5), [])
         (c, [("key:k", 5); ("key:k", 5)]%string) ∧
    passes "key:k" 5 [("key:k", 5); ("key:k", 5)]%string ≤ 2.
Proof.
  assert (Hs : nsteps (window_step [two_a_minute]) 3 (counter_new (at_minute 5), [])
    (one_more (one_more (one_more (counter_new (at_minute 5)))), [("key:k", 5); ("key:k", 5)]%string)).
  { eapply nsteps_l; [apply one_more_step|]. eapply nsteps_l; [apply one_more_step|].
    eapply nsteps_l; [apply one_more_step|]. apply nsteps_O. }
  eexists. split; [exact Hs|].
  refine (proj1 (rpm_bounds_requests [two_a_minute] "key:k" 2 3 (counter_new (at_minute 5)) _ _ 5
    "k" "p" _ _ _ Hs _)).
  - intros t. reflexivity.
  - intros limit ki pi m Hin Hsc Hm. apply list_elem_of_singleton in Hin as ->.
    injection Hm as <-. lia.
  - lia.
  - vm_compute. reflexivity.
Defined.
End Example.
