(* ===== verification/Budget.v ===== *)
(** Spending budgets: gateway-api/src/budget.rs, against the [CounterStore]
    interface.  The calendar (chrono) is a parameter. *)
From Stdlib Require Import ZArith Lia Bool String SpecFloat.
From stdpp Require Import prelude gmap strings list.
From S2P Require Import Prelude Text F64 Json Serde Models Config Stores MemoryCounter.
Open Scope Z_scope.

(** * The calendar *)

Definition day_ms : Z := 86400000.

(** Dates are day numbers counted from 1970-01-01: [civil] is [year()],
    [month()], [day()], [from_monday] is [weekday().num_days_from_monday()], and
    [with_ymd] the millisecond timestamp of midnight UTC of a date. *)
Class Chrono : Type := {
  civil : Z → Z * Z * Z;
  from_monday : Z → Z;
  with_ymd : Z → Z → Z → option Z
}.

Class ChronoLaws `{Chrono} : Prop := {
  civil_day n : 1 ≤ (civil n).2 ≤ 31;
  civil_midnight n :
    with_ymd (civil n).1.1 (civil n).1.2 (civil n).2 = Some (n * day_ms);
  month_midnight n :
    with_ymd (civil n).1.1 (civil n).1.2 1 = Some ((n - ((civil n).2 - 1)) * day_ms);
  from_monday_spec n : from_monday n = (n + 3) mod 7
}.

(** Midnight of a date; [.unwrap()] panics when there is none. *)
Definition midnight `{Chrono} (y m d : Z) : outcome Z :=
  match with_ymd y m d with Some t => Ret t | None => Panic end.

(** [period_start_for] at the time [now]. *)
Definition period_start_for `{Chrono} (period : string) (now : Z) : outcome Z :=
  let today := now / day_ms in
  if String.eqb period "daily" then
    let '(y, m, d) := civil today in midnight y m d
  else if String.eqb period "weekly" then
    let '(y, m, d) := civil (today - from_monday today) in midnight y m d
  else
    let '(y, m, _) := civil today in midnight y m 1.

(** * The manager *)

Record BudgetUsage : Type := {
  bu_budget_id : string;
  bu_name : string;
  bu_period : string;
  bu_period_start : Z;
  bu_amount_usd : f64;
  bu_used_usd : f64;
  bu_pct : f64;
  bu_blocked : bool
}.

(** A call of [fire_threshold]; [tc_key] is the key it was deduplicated by. *)
Record ThresholdCrossed : Type := {
  tc_key : string * Z * Z;
  tc_budget : BudgetConfig;
  tc_threshold : BudgetThreshold;
  tc_used : f64;
  tc_pct : f64
}.

Record WebhookPost : Type := { url : string; payload : Value }.

(** The state of the manager: the counter store it shares, the wall clock, the
    set of thresholds already notified, and what it did about them: the calls of
    [fire_threshold] and the webhook requests, in order. *)
Record BudgetManager (C : Type) : Type := {
  counter : C;
  wall : Clock;
  notified : gset (string * Z * Z);
  crossed : list ThresholdCrossed;
  posts : list WebhookPost
}.
Arguments counter {C} _.
Arguments wall {C} _.
Arguments notified {C} _.
Arguments crossed {C} _.
Arguments posts {C} _.

(** The targets a budget applies to. *)
Definition opt_matches (o : option string) (s : string) : bool :=
  match o with Some t => String.eqb t s | None => true end.

Definition budget_matches (project_id key_id : string) (b : BudgetConfig) : bool :=
  opt_matches (target_project_id (budget_target b)) project_id &&
  opt_matches (target_gateway_key_id (budget_target b)) key_id.

Definition matching_budgets (cfg : AppConfig) (project_id key_id : string) :
    list BudgetConfig :=
  List.filter (budget_matches project_id key_id) (budget_configs cfg).

(** [if amount > 0.0 { used / amount } else { 0.0 }] *)
Definition usage_pct (b : BudgetConfig) (used : f64) : f64 :=
  if f64_ltb f64_zero (amount_usd b) then f64_div used (amount_usd b) else f64_zero.

(** [pct >= t.at && t.action == "block"] *)
Definition blocks (pct : f64) (t : BudgetThreshold) : bool :=
  f64_leb (at_ t) pct && String.eqb (action t) "block".

(** [(t.at * 100.0) as u32] *)
Definition threshold_bucket (t : BudgetThreshold) : Z :=
  f64_as_u32 (f64_mul (at_ t) (f64_of_Z 100)).

Definition webhook_payload (b : BudgetConfig) (t : BudgetThreshold) (used pct : f64) :
    Value :=
  VObject (object_of
    [("budget", VString (budget_name b)); ("action", VString (action t));
     ("threshold", json_f64 (at_ t)); ("amount_usd", json_f64 (amount_usd b));
     ("used_usd", json_f64 used); ("pct", json_f64 pct)]).

Section Manager.
Context `{CounterStore C} `{Chrono}.

Abbreviation M := (prog (BudgetManager C)).

Definition set_counter (m : BudgetManager C) (c : C) : BudgetManager C :=
  {| counter := c; wall := wall m; notified := notified m; crossed := crossed m;
     posts := posts m |}.

Definition utc_now : M Z :=
  returning (λ m, (now (wall m),
    {| counter := counter m; wall := tick (wall m); notified := notified m;
       crossed := crossed m; posts := posts m |})).

(** [period_start_for(&b.period)]. *)
Definition current_period (b : BudgetConfig) : M Z :=
  let! t := utc_now in lifted (period_start_for (period b) t).

Definition read_used (b : BudgetConfig) (period_start : Z) : M f64 :=
  returning (λ m,
    let '(r, c) := read_budget (counter m) (budget_name b) period_start in
    (unwrap_or r f64_zero, set_counter m c)).

Definition incr_used (b : BudgetConfig) (period_start : Z) (cost : f64) : M f64 :=
  returning (λ m,
    let '(r, c) := incr_budget (counter m) (budget_name b) period_start cost in
    (unwrap_or r f64_zero, set_counter m c)).

(** The loop of [check_block], with its early return. *)
Fixpoint check_budgets (bs : list BudgetConfig) : M bool :=
  match bs with
  | [] => prog_ret false
  | b :: rest =>
      let! period_start := current_period b in
      let! used := read_used b period_start in
      if existsb (blocks (usage_pct b used)) (thresholds b) then prog_ret true
      else check_budgets rest
  end.

Definition check_block (cfg : AppConfig) (project_id key_id : string) : M bool :=
  check_budgets (matching_budgets cfg project_id key_id).

(** [DashSet::insert]: whether the key is new. *)
Definition notify (key : string * Z * Z) : M bool :=
  returning (λ m,
    (bool_decide (key ∉ notified m),
     {| counter := counter m; wall := wall m; notified := {[key]} ∪ notified m;
        crossed := crossed m; posts := posts m |})).

(** [fire_threshold]: the outcome of the request is only logged. *)
Definition fire_threshold (key : string * Z * Z) (b : BudgetConfig)
    (t : BudgetThreshold) (used pct : f64) : M unit :=
  returning (λ m, ((),
    {| counter := counter m; wall := wall m; notified := notified m;
       crossed := crossed m ++
         [{| tc_key := key; tc_budget := b; tc_threshold := t; tc_used := used;
             tc_pct := pct |}];
       posts := posts m ++
         match webhook t with
         | Some u => [{| url := u; payload := webhook_payload b t used pct |}]
         | None => []
         end |})).

Definition cross_threshold (b : BudgetConfig) (period_start : Z) (used pct : f64)
    (t : BudgetThreshold) : M unit :=
  if f64_leb (at_ t) pct then
    let key := (budget_name b, period_start, threshold_bucket t) in
    let! fresh := notify key in
    if (fresh : bool) then fire_threshold key b t used pct else prog_ret ()
  else prog_ret ().

Definition record_on (cost_usd : f64) (b : BudgetConfig) : M unit :=
  let! period_start := current_period b in
  let! used := incr_used b period_start cost_usd in
  prog_for (cross_threshold b period_start used (usage_pct b used)) (thresholds b).

Definition record_cost (cfg : AppConfig) (project_id key_id : string) (cost_usd : f64) :
    M unit :=
  if f64_leb cost_usd f64_zero then prog_ret ()
  else prog_for (record_on cost_usd) (matching_budgets cfg project_id key_id).

(** Whether [current_usage] skips a budget. *)
Definition skipped (project_id : option string) (b : BudgetConfig) : bool :=
  match project_id, target_project_id (budget_target b) with
  | Some p, Some tp => negb (String.eqb tp p)
  | _, _ => false
  end.

Definition usage_item (b : BudgetConfig) (period_start : Z) (used : f64) : BudgetUsage :=
  let pct := usage_pct b used in
  {| bu_budget_id := budget_name b; bu_name := budget_name b; bu_period := period b;
     bu_period_start := period_start; bu_amount_usd := amount_usd b;
     bu_used_usd := used; bu_pct := pct;
     bu_blocked := existsb (blocks pct) (thresholds b) |}.

(** The loop of [current_usage]. *)
Fixpoint usage_of (project_id : option string) (bs : list BudgetConfig) :
    M (list BudgetUsage) :=
  match bs with
  | [] => prog_ret []
  | b :: rest =>
      if skipped project_id b then usage_of project_id rest
      else
        let! period_start := current_period b in
        let! used := read_used b period_start in
        let! items := usage_of project_id rest in
        prog_ret (usage_item b period_start used :: items)
  end.

Definition current_usage (cfg : AppConfig) (project_id : option string) :
    M (list BudgetUsage) :=
  usage_of project_id (budget_configs cfg).
End Manager.

(** * The calendar: facts *)

(** The first day of the period that contains the day [n]. *)
Definition first_day `{Chrono} (period : string) (n : Z) : Z :=
  if String.eqb period "daily" then n
  else if String.eqb period "weekly" then n - (n + 3) mod 7
  else n - ((civil n).2 - 1).

Lemma period_start_for_day `{ChronoLaws} period t :
  period_start_for period t = Ret (first_day period (t / day_ms) * day_ms).
Proof.
  unfold period_start_for, first_day, midnight. set (n := t / day_ms).
  destruct (String.eqb period "daily"); [|destruct (String.eqb period "weekly")].
  - pose proof (civil_midnight n) as Hm. destruct (civil n) as [[y m] d].
    simpl in Hm. by rewrite Hm.
  - rewrite from_monday_spec. set (k := n - _).
    pose proof (civil_midnight k) as Hm. destruct (civil k) as [[y m] d].
    simpl in Hm. by rewrite Hm.
  - pose proof (month_midnight n) as Hm. destruct (civil n) as [[y m] d].
    simpl in Hm. by rewrite Hm.
Qed.

(** * Facts about the manager *)

Section Once.
Context `{CounterStore C} `{Chrono}.

(** Whatever happens, a threshold is crossed once and remembered. *)
Definition crossed_once (m : BudgetManager C) : Prop :=
  NoDup (tc_key <$> crossed m) ∧ ∀ k, k ∈ tc_key <$> crossed m → k ∈ notified m.

Lemma current_period_keeps b m t m' :
  current_period b m = Ret (t, m') → crossed_once m → crossed_once m'.
Proof.
  unfold current_period, prog_bind, utc_now, returning, lifted.
  destruct (period_start_for _ _); [|done]. by intros [= _ <-].
Qed.

Lemma incr_used_keeps b p c m u m' :
  incr_used b p c m = Ret (u, m') → crossed_once m → crossed_once m'.
Proof.
  unfold incr_used, returning. destruct (incr_budget _ _ _ _). by intros [= _ <-].
Qed.

Lemma cross_threshold_keeps b p used pct t m u m' :
  cross_threshold b p used pct t m = Ret (u, m') → crossed_once m → crossed_once m'.
Proof.
  unfold cross_threshold. destruct (f64_leb (at_ t) pct); [|by intros [= _ <-]].
  unfold prog_bind, notify, returning.
  set (key := (budget_name b, p, threshold_bucket t)).
  case_bool_decide as Hk; simpl; intros [= _ <-] [Hnd Hin]; unfold crossed_once; simpl.
  - rewrite fmap_app. simpl. split.
    + apply NoDup_app. split; [done|]. split; [|by apply NoDup_singleton].
      intros k Hkin. rewrite list_elem_of_singleton. intros ->. by apply Hk, Hin.
    + intros k. rewrite elem_of_app, list_elem_of_singleton. set_solver.
  - split; [done|]. set_solver.
Qed.

Lemma record_on_keeps c b m u m' :
  record_on c b m = Ret (u, m') → crossed_once m → crossed_once m'.
Proof.
  unfold record_on, prog_bind. intros Hr Hm.
  destruct (current_period b m) as [[p m1]|] eqn:Hp; [|done].
  destruct (incr_used b p c m1) as [[used m2]|] eqn:Hu; [|done].
  assert (Hm2 : crossed_once m2) by eauto using current_period_keeps, incr_used_keeps.
  eapply prog_for_keeps; [|exact Hm2|exact Hr].
  intros. by eapply cross_threshold_keeps.
Qed.

Lemma record_cost_keeps cfg pi ki c m u m' :
  record_cost cfg pi ki c m = Ret (u, m') → crossed_once m → crossed_once m'.
Proof.
  unfold record_cost. destruct (f64_leb c f64_zero); [by intros [= _ <-]|].
  intros Hr Hm. eapply prog_for_keeps; [|exact Hm|exact Hr].
  intros. by eapply record_on_keeps.
Qed.

End Once.

Section ManagerFacts.
Context `{CounterStore C} `{ChronoLaws}.

(** All clock readings to come fall on the day [d]. *)
Definition same_day (d : Z) (m : BudgetManager C) : Prop :=
  ∀ n, wall m n / day_ms = d.

Definition period_on (d : Z) (b : BudgetConfig) : Z := first_day (period b) d * day_ms.

Lemma current_period_on d b m :
  same_day d m →
  ∃ m', current_period b m = Ret (period_on d b, m') ∧ counter m' = counter m ∧
        notified m' = notified m ∧ crossed m' = crossed m ∧ posts m' = posts m ∧ same_day d m'.
Proof.
  intros Hd. unfold current_period, prog_bind, utc_now, returning, lifted.
  rewrite period_start_for_day. eexists. split.
  - unfold period_on. by rewrite <- (Hd 0%nat).
  - split_and!; [done..|]. intros n. apply (Hd (S n)).
Qed.

(** ** On a store whose spending is read back *)

Context `{!BudgetLaws C}.

(** Whether the spending so far blocks the budget. *)
Definition blocked_by (d : Z) (c : C) (b : BudgetConfig) : bool :=
  existsb (blocks (usage_pct b (spent c (budget_name b) (period_on d b)))) (thresholds b).

(** Nothing but the clock and internals of the store differs. *)
Definition same_spending (c c' : C) : Prop := ∀ b p, spent c' b p = spent c b p.

Lemma existsb_ext_in {A} (f g : A → bool) l :
  (∀ x, f x = g x) → existsb f l = existsb g l.
Proof. intros Hfg. induction l; simpl; congruence. Qed.

Lemma blocked_by_same d c c' b :
  same_spending c c' → blocked_by d c' b = blocked_by d c b.
Proof. intros Hs. unfold blocked_by. by rewrite Hs. Qed.

Lemma check_budgets_spec d bs m :
  same_day d m →
  ∃ m', check_budgets bs m = Ret (existsb (blocked_by d (counter m)) bs, m') ∧
        same_spending (counter m) (counter m') ∧ same_day d m'.
Proof.
  revert m. induction bs as [|b bs IH]; intros m Hd; simpl.
  { eexists. split; [done|]. by split. }
  destruct (current_period_on d b m Hd) as (m1 & Hp & Hc & _ & _ & _ & Hd1).
  unfold prog_bind. rewrite Hp. unfold read_used, returning. rewrite Hc.
  destruct (read_budget_spec (counter m) (budget_name b) (period_on d b))
    as (c' & Hr & Hs). rewrite Hr. cbv beta iota. cbn [unwrap_or]. fold (blocked_by d (counter m) b).
  destruct (blocked_by d (counter m) b); simpl.
  - eexists. split; [done|]. by split.
  - destruct (IH (set_counter m1 c')) as (m' & Hm' & Hs' & Hd'); [done|].
    rewrite Hm'. eexists. split; [|split; [|done]].
    + simpl. f_equal. f_equal. apply existsb_ext_in. intros b'. by apply blocked_by_same.
    + intros b' p'. simpl in Hs'. by rewrite Hs', Hs.
Qed.

(** ** Announcements *)

(** The webhook request of a call of [fire_threshold]. *)
Definition hook_of (c : ThresholdCrossed) : option WebhookPost :=
  u ← webhook (tc_threshold c);
  Some {| url := u;
          payload := webhook_payload (tc_budget c) (tc_threshold c) (tc_used c) (tc_pct c) |}.

(** From [m] to [m'] exactly [calls] were announced, none that had been before, none twice. *)
Record announced (calls : list ThresholdCrossed) (m m' : BudgetManager C) : Prop := {
  an_crossed : crossed m' = crossed m ++ calls;
  an_posts : posts m' = posts m ++ omap hook_of calls;
  an_notified k : k ∈ notified m' ↔ k ∈ notified m ∨ k ∈ tc_key <$> calls;
  an_once : NoDup (tc_key <$> calls);
  an_new c : c ∈ calls → tc_key c ∉ notified m
}.

Lemma announced_nil m m' :
  crossed m' = crossed m → posts m' = posts m → notified m' = notified m → announced [] m m'.
Proof.
  intros Hc Hp Hn. constructor; cbn.
  - by rewrite Hc, app_nil_r.
  - by rewrite Hp, app_nil_r.
  - intros k. rewrite Hn. set_solver.
  - apply NoDup_nil_2.
  - by intros c ?%elem_of_nil.
Qed.

Lemma announced_app c1 c2 m m1 m2 :
  announced c1 m m1 → announced c2 m1 m2 → announced (c1 ++ c2) m m2.
Proof.
  intros [Hc1 Hp1 Hn1 Ho1 Hw1] [Hc2 Hp2 Hn2 Ho2 Hw2]. constructor.
  - by rewrite Hc2, Hc1, app_assoc.
  - by rewrite Hp2, Hp1, omap_app, app_assoc.
  - intros k. rewrite Hn2, Hn1, fmap_app, elem_of_app. tauto.
  - rewrite fmap_app. apply NoDup_app. split_and!; [done| |done].
    intros k Hk (c & -> & Hc)%list_elem_of_fmap. apply (Hw2 c Hc), Hn1. by right.
  - intros c [Hc|Hc]%elem_of_app; [by apply Hw1|].
    intros Hin. apply (Hw2 c Hc), Hn1. by left.
Qed.

(** The announcement of a threshold of [b], of which [used] has been spent since [p]. *)
Definition threshold_key (b : BudgetConfig) (p : Z) (t : BudgetThreshold) : string * Z * Z :=
  (budget_name b, p, threshold_bucket t).
Definition crossing (b : BudgetConfig) (p : Z) (used : f64) (t : BudgetThreshold) :
    ThresholdCrossed :=
  {| tc_key := threshold_key b p t; tc_budget := b; tc_threshold := t; tc_used := used;
     tc_pct := usage_pct b used |}.
Definition reached (b : BudgetConfig) (used : f64) (t : BudgetThreshold) : Prop :=
  f64_leb (at_ t) (usage_pct b used) = true.

(** What is announced are thresholds of [b] that were reached, and all of them, up to their
    percentage. *)
Record announces (b : BudgetConfig) (p : Z) (used : f64) (ts : list BudgetThreshold)
    (calls : list ThresholdCrossed) (m m' : BudgetManager C) : Prop := {
  as_announced : announced calls m m';
  as_reached c : c ∈ calls → ∃ t, t ∈ ts ∧ reached b used t ∧ c = crossing b p used t;
  as_all t : t ∈ ts → reached b used t → threshold_key b p t ∈ notified m'
}.

Lemma cross_threshold_spec b p used t (m : BudgetManager C) :
  ∃ m' calls, cross_threshold b p used (usage_pct b used) t m = Ret ((), m') ∧
    counter m' = counter m ∧ wall m' = wall m ∧ announces b p used [t] calls m m'.
Proof.
  unfold cross_threshold. destruct (f64_leb (at_ t) (usage_pct b used)) eqn:Hle.
  2: { exists m, []. do 3 (split; [done|]). constructor; [by apply announced_nil| |].
       - by intros c ?%elem_of_nil.
       - intros t' ->%list_elem_of_singleton. unfold reached. by rewrite Hle. }
  unfold prog_bind, notify, returning. change (budget_name b, p, _) with (threshold_key b p t).
  case_bool_decide as Hk; cbn.
  - exists {| counter := counter m; wall := wall m;
              notified := {[threshold_key b p t]} ∪ notified m;
              crossed := crossed m ++ [crossing b p used t];
              posts := posts m ++ omap hook_of [crossing b p used t] |}, [crossing b p used t].
    split; [|do 2 (split; [done|]); constructor].
    + unfold fire_threshold, returning. cbn. unfold hook_of. cbn. by destruct (webhook t).
    + constructor; cbn; [done|done| |by apply NoDup_singleton|].
      * intros k. set_solver.
      * by intros c ->%list_elem_of_singleton.
    + intros c ->%list_elem_of_singleton. exists t. split_and!; [by left|done|done].
    + intros t' ->%list_elem_of_singleton _. cbn. set_solver.
  - eexists _, []. do 3 (split; [done|]). constructor.
    + apply announced_nil; cbn; [done..|]. set_solver.
    + by intros c ?%elem_of_nil.
    + intros t' ->%list_elem_of_singleton _. cbn. set_solver.
Qed.

Lemma cross_thresholds_spec b p used ts (m : BudgetManager C) :
  ∃ m' calls, prog_for (cross_threshold b p used (usage_pct b used)) ts m = Ret ((), m') ∧
    counter m' = counter m ∧ wall m' = wall m ∧ announces b p used ts calls m m'.
Proof.
  revert m. induction ts as [|t ts IH]; intros m; simpl.
  { exists m, []. do 3 (split; [done|]). constructor; [by apply announced_nil|..].
    - by intros c ?%elem_of_nil.
    - by intros t ?%elem_of_nil. }
  destruct (cross_threshold_spec b p used t m) as (m1 & c1 & Hm1 & Hc1 & Hw1 & [Ha1 Hr1 Hk1]).
  destruct (IH m1) as (m' & c2 & Hm' & Hc' & Hw' & [Ha2 Hr2 Hk2]).
  unfold prog_bind. rewrite Hm1, Hm'. exists m', (c1 ++ c2). split; [done|].
  split_and!; [congruence..|]. constructor; [by eapply announced_app|..].
  - intros c [(x & Hx & Hrest)%Hr1|(x & Hx & Hrest)%Hr2]%elem_of_app; exists x;
      (split; [set_solver|done]).
  - intros x [->|Hx]%elem_of_cons Hle; [|by apply Hk2].
    apply (an_notified _ _ _ Ha2). left. apply Hk1; [by left|done].
Qed.

(** The spending after recording [cost] on [b]. *)
Definition spent_after (cost : f64) (d : Z) (c : C) (b : BudgetConfig) : f64 :=
  f64_add (spent c (budget_name b) (period_on d b)) cost.

Lemma record_on_spec cost d b m :
  same_day d m →
  ∃ m' calls, record_on cost b m = Ret ((), m') ∧ same_day d m' ∧
    (∀ n p, spent (counter m') n p =
       if String.eqb n (budget_name b) && (p =? period_on d b)
       then spent_after cost d (counter m) b else spent (counter m) n p) ∧
    announces b (period_on d b) (spent_after cost d (counter m) b) (thresholds b) calls m m'.
Proof.
  intros Hd. destruct (current_period_on d b m Hd) as (m1 & Hp & Hc & Hn & Hcr & Hpo & Hd1).
  unfold record_on, prog_bind. rewrite Hp. unfold incr_used, returning. rewrite Hc.
  destruct (incr_budget_spec (counter m) (budget_name b) (period_on d b) cost)
    as (c' & Hr & Hs). rewrite Hr. cbv beta iota. cbn [unwrap_or]. fold (spent_after cost d (counter m) b).
  destruct (cross_thresholds_spec b (period_on d b) (spent_after cost d (counter m) b)
    (thresholds b) (set_counter m1 c')) as (m' & calls & Hm' & Hc' & Hw' & [Ha Hre Hk]).
  exists m', calls. split; [exact Hm'|]. split; [|split].
  - intros n. rewrite Hw'. apply Hd1.
  - intros n p. rewrite Hc'. simpl. apply Hs.
  - constructor; [|done|done].
    apply (announced_app [] calls m (set_counter m1 c')); [by apply announced_nil|done].
Qed.

Lemma record_budgets_spec cost d bs m :
  same_day d m → NoDup (budget_name <$> bs) →
  ∃ m' calls, prog_for (record_on cost) bs m = Ret ((), m') ∧ same_day d m' ∧
    announced calls m m' ∧
    (∀ c, c ∈ calls → ∃ b t, b ∈ bs ∧ t ∈ thresholds b ∧
       reached b (spent_after cost d (counter m) b) t ∧
       c = crossing b (period_on d b) (spent_after cost d (counter m) b) t) ∧
    (∀ n p, n ∉ budget_name <$> bs → spent (counter m') n p = spent (counter m) n p) ∧
    ∀ b, b ∈ bs →
      spent (counter m') (budget_name b) (period_on d b) =
        spent_after cost d (counter m) b ∧
      ∀ t, t ∈ thresholds b → reached b (spent_after cost d (counter m) b) t →
        threshold_key b (period_on d b) t ∈ notified m'.
Proof.
  revert m. induction bs as [|b bs IH]; intros m Hd Hnd; simpl.
  { exists m, []. split_and!; [done|done|by apply announced_nil|by intros c ?%elem_of_nil|done|].
    by intros b ?%elem_of_nil. }
  apply NoDup_cons in Hnd as [Hb Hnd].
  destruct (record_on_spec cost d b m Hd) as (m1 & c1 & Hm1 & Hd1 & Hs1 & [Ha1 Hr1 Hk1]).
  destruct (IH m1 Hd1 Hnd) as (m' & c2 & Hm' & Hd' & Ha2 & Hr2 & Hs' & Hk').
  assert (Hsa : ∀ b', b' ∈ bs → spent_after cost d (counter m1) b' = spent_after cost d (counter m) b').
  { intros b' Hin. assert (Hne : String.eqb (budget_name b') (budget_name b) = false).
    { apply String.eqb_neq. intros Heq. apply Hb. rewrite <- Heq. by apply list_elem_of_fmap_2. }
    unfold spent_after. by rewrite Hs1, Hne. }
  unfold prog_bind. rewrite Hm1, Hm'. exists m', (c1 ++ c2). split; [done|]. split; [done|].
  split; [by eapply announced_app|]. split_and!.
  - intros c [(t & Ht & Hrest)%Hr1|(b' & t & Hb' & Ht & Hre & Hc)%Hr2]%elem_of_app.
    + exists b, t. split; [by left|by split].
    + exists b', t. rewrite Hsa in Hre, Hc by done. split; [by right|by split].
  - intros n p Hin. apply not_elem_of_cons in Hin as [Hne Hin].
    rewrite Hs', Hs1 by done. by rewrite (proj2 (String.eqb_neq _ _) Hne).
  - intros b' [->|Hin]%elem_of_cons.
    + split; [|intros; apply (an_notified _ _ _ Ha2); left; by apply Hk1].
      rewrite Hs', Hs1 by done. by rewrite String.eqb_refl, Z.eqb_refl.
    + rewrite <- (Hsa b' Hin). by apply Hk'.
Qed.
End ManagerFacts.

(** * Properties *)

(** A request is blocked exactly when some budget that matches its project
    and key has a [block] threshold at or below the fraction of its amount spent
    in the current period; the check changes no spending and cannot panic. *)
Theorem check_block_spec `{BudgetLaws C} `{ChronoLaws} cfg pi ki d (m : BudgetManager C) :
  same_day d m →
  ∃ r m', check_block cfg pi ki m = Ret (r, m') ∧
    same_spending (counter m) (counter m') ∧
    (r = true ↔
     ∃ b t, b ∈ budget_configs cfg ∧ budget_matches pi ki b = true ∧
       t ∈ thresholds b ∧ action t = "block" ∧
       f64_leb (at_ t)
         (usage_pct b (spent (counter m) (budget_name b) (period_on d b))) = true).
Proof.
  intros Hd. unfold check_block.
  destruct (check_budgets_spec d (matching_budgets cfg pi ki) m Hd) as (m' & Hm & Hs & _).
  eexists _, m'. split; [exact Hm|]. split; [exact Hs|].
  unfold blocked_by, blocks. rewrite existsb_exists.
  setoid_rewrite existsb_exists. setoid_rewrite andb_true_iff.
  setoid_rewrite String.eqb_eq. unfold matching_budgets.
  setoid_rewrite filter_In. setoid_rewrite <- list_elem_of_In. split.
  - intros (b & [Hb Hmb] & t & Ht & Hle & Ha).
    apply andb_true_iff in Hmb as [? ?]. exists b, t. by split_and!.
  - intros (b & t & Hb & Hmb & Ht & Ha & Hle). exists b.
    split; [split; [done|by apply andb_true_iff]|]. by exists t.
Qed.

(** C36: Spending is recorded on every matching budget, announced, and crossing a threshold
    blocks.  On a counter store that does not fail, recording a positive cost adds it to the
    period's spending of each matching budget (their names being distinct; a budget without a
    target matches every request) and to no other.  It announces (a call of [fire_threshold],
    with a POST to its webhook if it has one) only thresholds that are then reached, and for
    every one of them the budget, period and whole percentage are announced now unless they
    were before, and never twice.  From then on that day any request matching a budget whose
    [block] threshold is reached is refused. *)
Theorem record_cost_blocks `{BudgetLaws C} `{ChronoLaws} cfg pi ki d cost
    (m : BudgetManager C) :
  same_day d m → f64_leb cost f64_zero = false →
  NoDup (budget_name <$> matching_budgets cfg pi ki) →
  ∃ m' calls, record_cost cfg pi ki cost m = Ret ((), m') ∧ announced calls m m' ∧
    (∀ c, c ∈ calls → ∃ b t, b ∈ matching_budgets cfg pi ki ∧ t ∈ thresholds b ∧
       let used := spent (counter m') (budget_name b) (period_on d b) in
       reached b used t ∧ c = crossing b (period_on d b) used t) ∧
    (∀ n p, n ∉ budget_name <$> matching_budgets cfg pi ki →
       spent (counter m') n p = spent (counter m) n p) ∧
    ∀ b, b ∈ matching_budgets cfg pi ki →
      let used := spent (counter m') (budget_name b) (period_on d b) in
      used = f64_add (spent (counter m) (budget_name b) (period_on d b)) cost ∧
      ∀ t, t ∈ thresholds b → reached b used t →
        (threshold_key b (period_on d b) t ∉ notified m →
         threshold_key b (period_on d b) t ∈ tc_key <$> calls) ∧
        (action t = "block" → ∀ pi' ki', budget_matches pi' ki' b = true →
           ∃ m'', check_block cfg pi' ki' m' = Ret (true, m'')).
Proof.
  intros Hd Hpos Hnd. unfold record_cost. rewrite Hpos.
  destruct (record_budgets_spec cost d _ m Hd Hnd) as (m' & calls & Hm & Hd' & Ha & Hr & Ho & Hb).
  exists m', calls. split; [exact Hm|]. split; [exact Ha|]. split; [|split; [exact Ho|]].
  { intros c (b & t & Hin & Ht & Hre & ->)%Hr. exists b, t. destruct (Hb b Hin) as [-> _].
    by split_and!. }
  intros b Hin. destruct (Hb b Hin) as [Hs Hk]. cbv zeta. rewrite Hs. split; [done|].
  intros t Ht Hle. split.
  { intros Hnew. by destruct (proj1 (an_notified _ _ _ Ha _) (Hk t Ht Hle)). }
  intros Hact pi' ki' Hmatch.
  destruct (check_budgets_spec d (matching_budgets cfg pi' ki') m' Hd')
    as (m'' & Hc & _ & _). exists m''. unfold check_block. rewrite Hc.
  f_equal. f_equal. apply existsb_exists. exists b.
  unfold matching_budgets in Hin |- *. rewrite list_elem_of_In, filter_In in Hin.
  rewrite filter_In. split; [tauto|]. apply existsb_exists. exists t.
  rewrite <- list_elem_of_In. unfold blocks. rewrite Hact, andb_true_r, Hs. by split.
Qed.

(** A notification is sent at most once: over any sequence of recorded
    costs, with any store, clock and configurations, no threshold of a budget is
    fired twice in the same period. *)
Theorem thresholds_fire_once `{CounterStore C} `{Chrono}
    (calls : list (AppConfig * string * string * f64)) (m m' : BudgetManager C) u :
  crossed m = [] →
  prog_for (λ call, let '(cfg, pi, ki, cost) := call in record_cost cfg pi ki cost)
    calls m = Ret (u, m') →
  NoDup (tc_key <$> crossed m').
Proof.
  intros Hm Hr. enough (crossed_once m') as [? _]; [done|].
  eapply prog_for_keeps; [|split; rewrite Hm; [constructor|by intros ? ?%elem_of_nil]
                          |exact Hr].
  intros [[[cfg pi] ki] cost] s s' u' _ Hs Hcall. by eapply record_cost_keeps.
Qed.

(** The period of a budget starts at a midnight not after the current time:
    today's for a daily one, the last Monday's, less than seven days ago, for a
    weekly one, the first of the month's for any other; it depends only on the
    day, so it stands still within a day, and computing it never panics. *)
Theorem period_start_spec `{ChronoLaws} period t :
  ∃ s, period_start_for period t = Ret s ∧ s ≤ t ∧ s mod day_ms = 0 ∧
    (period = "daily" → t < s + day_ms) ∧
    (period = "weekly" → from_monday (s / day_ms) = 0 ∧ t < s + 7 * day_ms) ∧
    t < s + 31 * day_ms ∧
    ∀ t', t' / day_ms = t / day_ms → period_start_for period t' = Ret s.
Proof.
  exists (first_day period (t / day_ms) * day_ms). rewrite period_start_for_day.
  split; [done|].
  assert (Ht : day_ms * (t / day_ms) ≤ t < day_ms * (t / day_ms) + day_ms).
  { unfold day_ms. pose proof (Z.mod_pos_bound t 86400000).
    pose proof (Z.div_mod t 86400000). lia. }
  assert (Hdiv : ∀ n, n * day_ms / day_ms = n) by (intros; by apply Z.div_mul).
  assert (Hfirst : t / day_ms - 30 ≤ first_day period (t / day_ms) ≤ t / day_ms ∧
    (period = "weekly" → t / day_ms - 6 ≤ first_day period (t / day_ms) ∧
                         from_monday (first_day period (t / day_ms)) = 0) ∧
    (period = "daily" → first_day period (t / day_ms) = t / day_ms)).
  { unfold first_day. pose proof (civil_day (t / day_ms)).
    pose proof (Z.mod_pos_bound (t / day_ms + 3) 7).
    destruct (String.eqb_spec period "daily") as [->|];
      [|destruct (String.eqb_spec period "weekly") as [->|]].
    - split; [lia|done].
    - split; [lia|]. split; [|done]. intros _. split; [lia|].
      rewrite from_monday_spec.
      replace (t / day_ms - (t / day_ms + 3) mod 7 + 3)
        with (t / day_ms + 3 - (t / day_ms + 3) mod 7) by lia.
      rewrite Zminus_mod_idemp_r, Z.sub_diag. done.
    - split; [lia|]. by split. }
  destruct Hfirst as (Hf & Hw & Hdaily).
  split; [unfold day_ms in *; nia|]. split; [by apply Z.mod_mul|].
  split; [intros Hp; rewrite Hdaily by done; unfold day_ms in *; lia|].
  split; [intros Hp; destruct (Hw Hp) as [? ?]; rewrite Hdiv; unfold day_ms in *; nia|].
  split; [unfold day_ms in *; nia|].
  intros t' Ht'. by rewrite period_start_for_day, Ht'.
Qed.

(** * Concrete runs *)

(** A calendar of thirty-day months, enough to evaluate the definitions. *)
Definition plain_calendar : Chrono :=
  {| civil n := (0, n / 30, n mod 30 + 1);
     from_monday n := (n + 3) mod 7;
     with_ymd y m d := Some ((m * 30 + d - 1) * day_ms) |}.

Definition plain_calendar_laws : @ChronoLaws plain_calendar.
Proof.
  constructor; simpl.
  - intros n. pose proof (Z.mod_pos_bound n 30). lia.
  - intros n. do 2 f_equal. pose proof (Z.div_mod n 30). lia.
  - intros n. do 2 f_equal. pose proof (Z.div_mod n 30). lia.
  - done.
Defined.

Definition sample_threshold (at_pct : Z) (act : string) (hook : string) : BudgetThreshold :=
  {| at_ := f64_of_dec false at_pct (-2); action := act; webhook := Some hook |}.

Definition sample_budget : BudgetConfig :=
  {| budget_name := "b";
     budget_target := {| target_project_id := Some "default"; target_gateway_key_id := None |};
     period := "daily"; amount_usd := f64_of_Z 10;
     thresholds := [sample_threshold 80 "notify" "http://notify";
                    sample_threshold 80 "block" "http://block"] |}.

Definition sample_budget_config : AppConfig :=
  {| server := default_server; storage := Memory default_cache_config;
     admin := {| root_token := ""; password_login := false |};
     providers := ∅; routes := []; limits := []; budget_configs := [sample_budget];
     observability := default_observability; gateway_keys := [] |}.

Definition fresh_manager : BudgetManager MemoryCounterStore :=
  {| counter := counter_new (λ _, 0); wall := λ _, 5000; notified := ∅; crossed := [];
     posts := [] |}.

Definition spend (usd : Z) (m : BudgetManager MemoryCounterStore) :
    outcome (unit * BudgetManager MemoryCounterStore) :=
  @record_cost _ _ plain_calendar sample_budget_config "default" "k" (f64_of_Z usd) m.

Lemma fresh_same_day : same_day 0 fresh_manager.
Proof. intros n. reflexivity. Qed.

Lemma check_block_spec_witness :
  ∃ r m', @check_block _ _ plain_calendar sample_budget_config "default" "k" fresh_manager
            = Ret (r, m').
Proof.
  destruct (@check_block_spec _ _ memory_budget_laws plain_calendar plain_calendar_laws
    sample_budget_config "default" "k" 0 fresh_manager fresh_same_day) as (r & m' & H & _).
  exists r, m'. exact H.
Defined.

Lemma record_cost_blocks_witness :
  ∃ m' m'' calls, spend 9 fresh_manager = Ret ((), m') ∧ crossed m' = calls ∧
    (("b", 0, 80) : string * Z * Z) ∈ tc_key <$> calls ∧
    @check_block _ _ plain_calendar sample_budget_config "default" "j" m' = Ret (true, m'').
Proof.
  destruct (@record_cost_blocks _ _ memory_budget_laws plain_calendar plain_calendar_laws
    sample_budget_config "default" "k" 0 (f64_of_Z 9) fresh_manager fresh_same_day)
    as (m' & calls & Hm & Ha & _ & _ & Hb).
  - reflexivity.
  - apply NoDup_singleton.
  - destruct (Hb sample_budget ltac:(left)) as [Hs Ht].
    destruct (Ht (sample_threshold 80 "block" "http://block") ltac:(right; left))
      as [Hann Hblock].
    + unfold reached. rewrite Hs. vm_compute. reflexivity.
    + destruct (Hblock eq_refl "default" "j" eq_refl) as [m'' Hc].
      exists m', m'', calls. split; [exact Hm|]. split; [exact (an_crossed _ _ _ Ha)|].
      split; [|exact Hc].
      apply (Hann (not_elem_of_empty (C := gset (string * Z * Z)) _)).
Defined.

Lemma thresholds_fire_once_witness :
  ∃ m', spend 9 fresh_manager = Ret ((), m') ∧ NoDup (tc_key <$> crossed m').
Proof.
  destruct (spend 9 fresh_manager) as [[[] m']|] eqn:Hs.
  - exists m'. split; [reflexivity|].
    apply (@thresholds_fire_once _ _ plain_calendar
      [(sample_budget_config, "default", "k", f64_of_Z 9)] fresh_manager m' ()).
    + reflexivity.
    + unfold spend in Hs. cbn [prog_for]. unfold prog_bind. rewrite Hs. reflexivity.
  - exfalso. vm_compute in Hs. discriminate Hs.
Defined.

Lemma period_start_spec_witness :
  ∃ s, @period_start_for plain_calendar "weekly" 950400000 = Ret s ∧
       950400000 < s + 7 * day_ms.
Proof.
  destruct (@period_start_spec plain_calendar plain_calendar_laws "weekly" 950400000)
    as (s & Hs & _ & _ & _ & Hw & _).
  exists s. split; [exact Hs|]. exact (proj2 (Hw eq_refl)).
Defined.

(** Thresholds of one budget at the same percentage share one deduplication
    key, so only the first of them is ever acted on: here the [block] webhook is
    never called, however much is spent. *)
Theorem same_percent_second_webhook_silent :
  match spend 9 fresh_manager with
  | Ret (_, m) =>
      match spend 9 m with
      | Ret (_, m) => url <$> posts m = ["http://notify"]
      | Panic => False
      end
  | Panic => False
  end.
Proof. vm_compute. reflexivity. Qed.
