(* ===== verification/BudgetBlocks.v ===== *)
(** A budget that blocks stays blocked for the rest of its period.

    The spending of a period is a sum of costs: it only grows, and so, rounding being
    monotone (F64Order), does the fraction of the budget it is.  The store is followed
    through single operations of any number of requests ([store_step] of RateLimit). *)
From Stdlib Require Import ZArith Lia Bool String SpecFloat.
From stdpp Require Import prelude gmap strings list relations.
From S2P Require Import Prelude Text F64 F64Order Models Config Stores MemoryCounter RateLimit Budget.
Open Scope Z_scope.

(** The operations on windows and slots leave the spending alone. *)
Class SpendingFrame (C : Type) `{BudgetLaws C} : Prop := {
  incr_window_spent c k w d b p : spent (incr_window c k w d).2 b p = spent c b p;
  acquire_spent c k m b p : spent (try_acquire_concurrency c k m).2 b p = spent c b p;
  release_spent c pm b p : spent (release c pm) b p = spent c b p
}.

#[export] Instance memory_spending_frame : SpendingFrame MemoryCounterStore.
Proof.
  split; intros; simpl; [done| |].
  - unfold mem_try_acquire. by case_match.
  - unfold mem_release. by case_match.
Qed.

Section Spending.
Context `{SpendingFrame C}.

(** Every sum of the store is an amount. *)
Definition spent_ok (c : C) : Prop := ∀ b p, amount_ok (spent c b p).
Definition grown (c c' : C) : Prop :=
  spent_ok c' ∧ ∀ b p, f64_leb (spent c b p) (spent c' b p) = true.

Lemma grown_same c c' : spent_ok c → (∀ b p, spent c' b p = spent c b p) → grown c c'.
Proof.
  intros Hc Hs. split; [intros b p; rewrite Hs; apply Hc|].
  intros b p. rewrite Hs. by apply f64_leb_refl.
Qed.

Lemma grown_trans c1 c2 c3 : spent_ok c1 → grown c1 c2 → grown c2 c3 → grown c1 c3.
Proof.
  intros Hc1 [Hc2 H12] [Hc3 H23]. split; [done|]. intros b p.
  apply (f64_leb_trans _ (spent c2 b p)); [apply Hc1|done..].
Qed.

Lemma store_step_grown limits s s' :
  store_step amount_ok limits s s' → spent_ok s.1 → grown s.1 s'.1.
Proof.
  intros Hs Hc. destruct Hs as [c ps k w b|c ps b p d Hd|c ps b p
    |c ps limit ki pi scope m r c' _ _ _ Ha|c ps p ps']; cbn [fst] in *.
  - apply grown_same; [done|]. intros. apply incr_window_spent.
  - destruct (incr_budget_spec c b p d) as (c' & -> & Hs). cbn [snd]. split.
    + intros b' p'. rewrite Hs. case_match; [|done]. by apply f64_add_ok.
    + intros b' p'. rewrite Hs. destruct (_ && _) eqn:Hk; [|by apply f64_leb_refl].
      apply andb_true_iff in Hk as [->%String.eqb_eq ->%Z.eqb_eq].
      destruct (Hc b p), Hd. by apply f64_add_ge.
  - destruct (read_budget_spec c b p) as (c' & -> & Hs). by apply grown_same.
  - apply grown_same; [done|]. intros b p.
    pose proof (acquire_spent c (conc_key scope) m b p) as Hs. by rewrite Ha in Hs.
  - apply grown_same; [done|]. intros. apply release_spent.
Qed.

Lemma store_steps_grown limits s s' :
  rtc (store_step amount_ok limits) s s' → spent_ok s.1 → grown s.1 s'.1.
Proof.
  induction 1 as [s|s s1 s' Hstep _ IH]; intros Hc; [by apply grown_same|].
  pose proof (store_step_grown _ _ _ Hstep Hc) as Hg. eapply grown_trans; [done..|].
  apply IH, Hg.
Qed.

(** * Blocking *)

(** A budget of an amount, with thresholds that are numbers. *)
Definition budget_ok (b : BudgetConfig) : Prop :=
  valid (amount_usd b) = true ∧ is_finite (amount_usd b) = true ∧
  Forall (λ t, valid (at_ t) = true) (thresholds b).

(** Whether what is spent in the period that starts at [p] blocks the budget. *)
Definition blocked_at (p : Z) (c : C) (b : BudgetConfig) : bool :=
  existsb (blocks (usage_pct b (spent c (budget_name b) p))) (thresholds b).

Lemma usage_pct_ok b used : budget_ok b → amount_ok used → amount_ok (usage_pct b used).
Proof.
  intros (Hv & Hf & _) Hu. unfold usage_pct. destruct (f64_ltb _ _) eqn:Hlt; [|done].
  apply f64_div_ok; [done..|]. by destruct (amount_usd b) as [[]|[]| |[] ? ?].
Qed.

Lemma usage_pct_mono b x y :
  budget_ok b → amount_ok x → amount_ok y → f64_leb x y = true →
  f64_leb (usage_pct b x) (usage_pct b y) = true.
Proof.
  intros (Hv & Hf & _) [Hx Hgx] [Hy Hgy] Hle. unfold usage_pct.
  destruct (f64_ltb _ _) eqn:Hlt; [|done].
  apply f64_div_mono; [done..| |done]. by destruct (amount_usd b) as [[]|[]| |[] ? ?].
Qed.

Lemma blocked_grown p c c' b :
  budget_ok b → spent_ok c → grown c c' → blocked_at p c b = true → blocked_at p c' b = true.
Proof.
  intros Hb Hc [Hc' Hg]. unfold blocked_at. rewrite !existsb_exists.
  intros (t & Ht & Hle). exists t. split; [done|]. unfold blocks in *.
  apply andb_true_iff in Hle as [Hle ->]. rewrite andb_true_r.
  apply (f64_leb_trans _ (usage_pct b (spent c (budget_name b) p))); [|by apply usage_pct_ok..|done|].
  - destruct Hb as (_ & _ & Hts). rewrite Forall_forall in Hts.
    apply Hts. by apply list_elem_of_In.
  - by apply usage_pct_mono.
Qed.
End Spending.

(** * The check *)

Section Check.
Context `{BudgetLaws C} `{ChronoLaws}.

(** At every reading of the clock to come, the period of [b] is the one that starts at [p]. *)
Definition in_period (p : Z) (b : BudgetConfig) (m : BudgetManager C) : Prop :=
  ∀ n, period_start_for (period b) (wall m n) = Ret p.

Lemma current_period_answers b (m : BudgetManager C) :
  ∃ p m', current_period b m = Ret (p, m') ∧ counter m' = counter m ∧
    (∀ n, wall m' n = wall m (S n)) ∧ period_start_for (period b) (wall m 0%nat) = Ret p.
Proof.
  unfold current_period, prog_bind, utc_now, returning, lifted, now.
  rewrite period_start_for_day. by do 2 eexists.
Qed.

(** A request of a blocked budget is refused, whatever the other budgets. *)
Lemma check_budgets_blocked p b bs (m : BudgetManager C) :
  b ∈ bs → in_period p b m → blocked_at p (counter m) b = true →
  ∃ m', check_budgets bs m = Ret (true, m').
Proof.
  revert m. induction bs as [|b0 bs IH]; intros m Hin Hp Hb; [by apply elem_of_nil in Hin|].
  cbn [check_budgets]. destruct (current_period_answers b0 m) as (p0 & m1 & Hc & Hcm & Hw & Hp0).
  unfold prog_bind. rewrite Hc. unfold read_used, returning. rewrite Hcm.
  destruct (read_budget_spec (counter m) (budget_name b0) p0) as (c' & Hr & Hs). rewrite Hr.
  cbv beta iota. cbn [unwrap_or].
  destruct (existsb _ (thresholds b0)) eqn:He; [by eexists|].
  apply elem_of_cons in Hin as [->|Hin].
  - rewrite (Hp 0%nat) in Hp0. injection Hp0 as <-. unfold blocked_at in Hb. congruence.
  - apply IH; [done| |].
    + intros n. cbn [set_counter wall]. rewrite Hw. apply Hp.
    + revert Hb. unfold blocked_at. cbn [set_counter counter]. by rewrite Hs.
Qed.

Lemma check_block_blocked p b cfg project key (m : BudgetManager C) :
  b ∈ budget_configs cfg → budget_matches project key b = true →
  in_period p b m → blocked_at p (counter m) b = true →
  ∃ m', check_block cfg project key m = Ret (true, m').
Proof.
  intros Hin Hmatch. apply check_budgets_blocked. unfold matching_budgets.
  rewrite list_elem_of_In in *. by apply filter_In.
Qed.
End Check.
