(* ===== verification/MemoryMeta.v ===== *)
(** The in-memory metadata store: gateway-storage/src/memory/mod.rs
    ([MemoryMetadataStore]). *)
From Stdlib Require Import ZArith Lia String.
From stdpp Require Import prelude gmap strings list.
From S2P Require Import Prelude Text Json Errors Models Stores.
Open Scope Z_scope.

(** The state behind the lock, and the clock [now_ms] reads. *)
Record MemMeta : Type := {
  projects : gmap string Project;
  keys : gmap string GatewayKeyRow;
  routes : gmap string (RoutesConfig * Z);
  budgets : gmap string Budget;
  admins : gmap string AdminUser;
  pricing : gmap (string * string) PricingRow;
  meta_utc : Clock
}.

Definition meta_new (clk : Clock) : MemMeta :=
  {| projects := ∅; keys := ∅; routes := ∅; budgets := ∅; admins := ∅; pricing := ∅;
     meta_utc := clk |}.

Definition set_projects (m : MemMeta) x : MemMeta :=
  {| projects := x; keys := keys m; routes := routes m; budgets := budgets m;
     admins := admins m; pricing := pricing m; meta_utc := meta_utc m |}.
Definition set_keys (m : MemMeta) x : MemMeta :=
  {| projects := projects m; keys := x; routes := routes m; budgets := budgets m;
     admins := admins m; pricing := pricing m; meta_utc := meta_utc m |}.
Definition set_routes (m : MemMeta) x : MemMeta :=
  {| projects := projects m; keys := keys m; routes := x; budgets := budgets m;
     admins := admins m; pricing := pricing m; meta_utc := meta_utc m |}.
Definition set_budgets (m : MemMeta) x : MemMeta :=
  {| projects := projects m; keys := keys m; routes := routes m; budgets := x;
     admins := admins m; pricing := pricing m; meta_utc := meta_utc m |}.
Definition set_admins (m : MemMeta) x : MemMeta :=
  {| projects := projects m; keys := keys m; routes := routes m; budgets := budgets m;
     admins := x; pricing := pricing m; meta_utc := meta_utc m |}.
Definition set_pricing (m : MemMeta) x : MemMeta :=
  {| projects := projects m; keys := keys m; routes := routes m; budgets := budgets m;
     admins := admins m; pricing := x; meta_utc := meta_utc m |}.

(** [now_ms()]. *)
Definition now_ms (m : MemMeta) : Z * MemMeta :=
  (now (meta_utc m),
   {| projects := projects m; keys := keys m; routes := routes m; budgets := budgets m;
      admins := admins m; pricing := pricing m; meta_utc := tick (meta_utc m) |}).

Section MemoryMeta.
Context `{HashOrder}.

(** ** Projects *)

Definition mem_create_project (m : MemMeta) (p : NewProject) :
    store_result Project * MemMeta :=
  let '(t, m) := now_ms m in
  let project := {| project_row_id := np_id p; project_name := np_name p;
                    project_created_at := t |} in
  (Ok project, set_projects m (<[np_id p := project]> (projects m))).

Definition mem_get_project (m : MemMeta) (id : string) : store_result (option Project) :=
  Ok (projects m !! id).

Definition mem_list_projects (m : MemMeta) : store_result (list Project) :=
  Ok (hash_values (projects m)).

(** ** Gateway keys *)

Definition mem_create_key (m : MemMeta) (k : NewGatewayKey) :
    store_result GatewayKeyRow * MemMeta :=
  let '(t, m) := now_ms m in
  let row :=
    {| key_id := nk_id k; key_project_id := nk_project_id k; key_name := nk_name k;
       key_prefix := nk_prefix k; key_hash := nk_hash k; key_last4 := nk_last4 k;
       key_scopes := nk_scopes k; key_status := "active";
       key_expires_at := nk_expires_at k; key_last_used_at := None;
       key_created_at := t; key_revoked_at := None; key_origin := nk_origin k |} in
  (Ok row, set_keys m (<[nk_id k := row]> (keys m))).

Definition mem_list_keys (m : MemMeta) (project_id : string) :
    store_result (list GatewayKeyRow) :=
  Ok (List.filter (λ k, String.eqb (key_project_id k) project_id) (hash_values (keys m))).

Definition mem_get_key (m : MemMeta) (id : string) : store_result (option GatewayKeyRow) :=
  Ok (keys m !! id).

Definition mem_find_key_by_hash (m : MemMeta) (hash : bytes) :
    store_result (option GatewayKeyRow) :=
  Ok (List.find (λ k, bool_decide (key_hash k = hash)) (hash_values (keys m))).

Definition mem_revoke_key (m : MemMeta) (id : string) : store_result unit * MemMeta :=
  match keys m !! id with
  | Some k =>
      let '(t, m) := now_ms m in
      (Ok (), set_keys m (<[id := revoked_row k t]> (keys m)))
  | None => (Err SNotFound, m)
  end.

Definition mem_touch_key_last_used (m : MemMeta) (id : string) (ts : Z) :
    store_result unit * MemMeta :=
  match keys m !! id with
  | Some k => (Ok (), set_keys m (<[id := touched_row k ts]> (keys m)))
  | None => (Ok (), m)
  end.

(** The creation time kept, or the current one. *)
Definition created_at_or_now (m : MemMeta) (id : string) : Z * MemMeta :=
  match keys m !! id with
  | Some r => (key_created_at r, m)
  | None => now_ms m
  end.

Definition admin_managed (m : MemMeta) (id : string) : bool :=
  match keys m !! id with
  | Some r => negb (String.eqb (key_origin r) KEY_ORIGIN_CONFIG)
  | None => false
  end.

Definition mem_upsert_seeded_key (m : MemMeta) (k : NewGatewayKey) :
    store_result GatewayKeyRow * MemMeta :=
  if admin_managed m (nk_id k) then
    (Err (SConflict ("gateway key '" +:+ nk_id k +:+
       "' is admin-managed; rename the config-seeded key")%string), m)
  else
    let last_used_at := keys m !! nk_id k ≫= key_last_used_at in
    let '(created_at, m) := created_at_or_now m (nk_id k) in
    let row :=
      {| key_id := nk_id k; key_project_id := nk_project_id k; key_name := nk_name k;
         key_prefix := nk_prefix k; key_hash := nk_hash k; key_last4 := nk_last4 k;
         key_scopes := nk_scopes k; key_status := "active";
         key_expires_at := nk_expires_at k; key_last_used_at := last_used_at;
         key_created_at := created_at; key_revoked_at := None;
         key_origin := KEY_ORIGIN_CONFIG |} in
    (Ok row, set_keys m (<[nk_id k := row]> (keys m))).

(** A config-seeded key of the project that is no longer declared. *)
Definition stale (project_id : string) (keep_ids : list string) (k : GatewayKeyRow) :
    bool :=
  String.eqb (key_project_id k) project_id &&
  String.eqb (key_origin k) KEY_ORIGIN_CONFIG &&
  negb (existsb (λ id, String.eqb id (key_id k)) keep_ids).

Definition mem_prune_seeded_keys_not_in (m : MemMeta) (project_id : string)
    (keep_ids : list string) : store_result Z * MemMeta :=
  let to_remove :=
    key_id <$> List.filter (stale project_id keep_ids) (hash_values (keys m)) in
  (Ok (blen to_remove),
   set_keys m (foldl (λ ks id, delete id ks) (keys m) to_remove)).

(** ** Routes, budgets, pricing *)

Definition mem_upsert_routes (m : MemMeta) (project_id : string) (cfg : RoutesConfig)
    (version : Z) : store_result unit * MemMeta :=
  (Ok (), set_routes m (<[project_id := (cfg, version)]> (routes m))).

Definition mem_load_routes (m : MemMeta) (project_id : string) :
    store_result (option (RoutesConfig * Z)) := Ok (routes m !! project_id).

Definition mem_upsert_budget (m : MemMeta) (b : Budget) : store_result unit * MemMeta :=
  (Ok (), set_budgets m (<[b_id b := b]> (budgets m))).

Definition mem_upsert_pricing (m : MemMeta) (p : PricingRow) :
    store_result unit * MemMeta :=
  (Ok (), set_pricing m (<[(pr_provider p, pr_model p) := p]> (pricing m))).

Definition mem_list_pricing (m : MemMeta) : store_result (list PricingRow) :=
  Ok (hash_values (pricing m)).

Definition mem_delete_pricing (m : MemMeta) (provider model : string) :
    store_result unit * MemMeta :=
  (Ok (), set_pricing m (delete (provider, model) (pricing m))).

Definition mem_list_budgets (m : MemMeta) : store_result (list Budget) :=
  Ok (hash_values (budgets m)).

Definition mem_get_budget (m : MemMeta) (id : string) : store_result (option Budget) :=
  Ok (budgets m !! id).

(** ** Admin users *)

Definition mem_create_admin_user (m : MemMeta) (u : NewAdminUser) :
    store_result AdminUser * MemMeta :=
  let '(t, m) := now_ms m in
  let admin :=
    {| admin_id := na_id u; admin_username := na_username u;
       admin_password_hash := na_password_hash u; admin_created_at := t;
       admin_last_login_at := None |} in
  if existsb (λ a, String.eqb (admin_username a) (na_username u)) (hash_values (admins m))
  then (Err (SConflict ("admin '" +:+ na_username u +:+ "' exists")%string), m)
  else (Ok admin, set_admins m (<[na_id u := admin]> (admins m))).

Definition mem_find_admin_user (m : MemMeta) (username : string) :
    store_result (option AdminUser) :=
  Ok (List.find (λ a, String.eqb (admin_username a) username) (hash_values (admins m))).

Definition mem_list_admin_users (m : MemMeta) : store_result (list AdminUser) :=
  Ok (hash_values (admins m)).

Definition mem_touch_admin_last_login (m : MemMeta) (id : string) (ts : Z) :
    store_result unit * MemMeta :=
  match admins m !! id with
  | Some a =>
      (Ok (), set_admins m (<[id :=
         {| admin_id := admin_id a; admin_username := admin_username a;
            admin_password_hash := admin_password_hash a;
            admin_created_at := admin_created_at a;
            admin_last_login_at := Some ts |}]> (admins m)))
  | None => (Ok (), m)
  end.
End MemoryMeta.

#[export] Instance memory_metadata `{HashOrder} : MetadataStore MemMeta := {
  create_project := mem_create_project;
  get_project := mem_get_project;
  list_projects := mem_list_projects;
  create_key := mem_create_key;
  list_keys := mem_list_keys;
  get_key := mem_get_key;
  find_key_by_hash := mem_find_key_by_hash;
  revoke_key := mem_revoke_key;
  touch_key_last_used := mem_touch_key_last_used;
  upsert_seeded_key := mem_upsert_seeded_key;
  prune_seeded_keys_not_in := mem_prune_seeded_keys_not_in;
  upsert_routes := mem_upsert_routes;
  load_routes := mem_load_routes;
  upsert_budget := mem_upsert_budget;
  list_budgets := mem_list_budgets;
  get_budget := mem_get_budget;
  upsert_pricing := mem_upsert_pricing;
  list_pricing := mem_list_pricing;
  delete_pricing := mem_delete_pricing;
  create_admin_user := mem_create_admin_user;
  find_admin_user := mem_find_admin_user;
  list_admin_users := mem_list_admin_users;
  touch_admin_last_login := mem_touch_admin_last_login
}.

(** * The key laws *)

(** A row is stored under its own id. *)
Definition rows_under_id (ks : gmap string GatewayKeyRow) : Prop :=
  ∀ i row, ks !! i = Some row → key_id row = i.

Lemma rows_under_id_insert ks i row :
  key_id row = i → rows_under_id ks → rows_under_id (<[i := row]> ks).
Proof.
  intros Hi Hm j r. rewrite lookup_insert_Some. intros [[<- <-]|[_ Hr]]; auto.
Qed.

Section Laws.
Context `{HashOrder}.

Lemma find_hash_values_Some {V} (f : V → bool) (m : gmap string V) v :
  List.find f (hash_values m) = Some v → f v = true ∧ ∃ i, m !! i = Some v.
Proof.
  intros [Hin Hf]%List.find_some. split; [done|].
  by apply elem_of_hash_values, list_elem_of_In.
Qed.

Lemma find_hash_values_None {V} (f : V → bool) (m : gmap string V) :
  List.find f (hash_values m) = None → ∀ i v, m !! i = Some v → f v = false.
Proof.
  intros Hn i v Hv. apply (List.find_none _ _ Hn), list_elem_of_In, elem_of_hash_values.
  by exists i.
Qed.

Lemma lookup_foldl_delete (ids : list string) (m : gmap string GatewayKeyRow) i :
  foldl (λ ks id, delete id ks) m ids !! i =
  if bool_decide (i ∈ ids) then None else m !! i.
Proof.
  revert m. induction ids as [|id ids IH]; intros m; cbn [foldl].
  { rewrite bool_decide_false by apply not_elem_of_nil. done. }
  rewrite IH. destruct (decide (i ∈ ids)) as [Hin|Hin].
  - rewrite !bool_decide_true; [done|by right|done].
  - rewrite (bool_decide_false (i ∈ ids)) by done.
    destruct (decide (i = id)) as [->|Hne].
    + rewrite lookup_delete_eq, bool_decide_true; [done|by left].
    + rewrite lookup_delete_ne by done.
      by rewrite bool_decide_false by (rewrite elem_of_cons; tauto).
Qed.

Lemma stale_true p keep k :
  stale p keep k = true ↔
  key_project_id k = p ∧ key_origin k = KEY_ORIGIN_CONFIG ∧ key_id k ∉ keep.
Proof.
  unfold stale. rewrite !andb_true_iff, !String.eqb_eq, negb_true_iff.
  rewrite <- not_true_iff_false, existsb_exists.
  setoid_rewrite String.eqb_eq. setoid_rewrite <- list_elem_of_In. naive_solver.
Qed.

Lemma prune_keys m p keep :
  rows_under_id (keys m) →
  keys (mem_prune_seeded_keys_not_in m p keep).2 =
  filter (λ kv, ¬ (key_project_id kv.2 = p ∧ key_origin kv.2 = KEY_ORIGIN_CONFIG ∧
                   key_id kv.2 ∉ keep)) (keys m).
Proof.
  intros Hwf. simpl. apply map_eq. intros i. rewrite lookup_foldl_delete.
  assert (Hin : i ∈ key_id <$> List.filter (stale p keep) (hash_values (keys m)) ↔
    ∃ row, keys m !! i = Some row ∧ stale p keep row = true).
  { rewrite list_elem_of_fmap. setoid_rewrite list_elem_of_In at 1.
    setoid_rewrite filter_In. setoid_rewrite <- list_elem_of_In.
    setoid_rewrite elem_of_hash_values. split.
    - intros (row & -> & [j Hj] & Hs). exists row. by rewrite (Hwf j row Hj).
    - intros (row & Hrow & Hs). exists row. split; [symmetry; by apply Hwf|].
      split; [by exists i|done]. }
  destruct (keys m !! i) as [row|] eqn:Hrow.
  - destruct (stale p keep row) eqn:Hs.
    + rewrite bool_decide_true by (apply Hin; by exists row). symmetry.
      apply map_lookup_filter_None_2. right. intros r Hr Hn. apply Hn.
      apply stale_true in Hs. by simplify_eq.
    + rewrite bool_decide_false by (rewrite Hin; intros (? & ? & ?); congruence).
      symmetry.
      apply map_lookup_filter_Some_2; [done|]. intros Hn. apply stale_true in Hn.
      simpl in Hn. congruence.
  - rewrite bool_decide_false by (rewrite Hin; intros (? & ? & ?); congruence).
    symmetry. apply map_lookup_filter_None_2. by left.
Qed.
End Laws.

#[export] Instance memory_key_laws `{HashOrder} : KeyLaws MemMeta.
Proof.
  refine {| keys_of := keys; keys_wf m := rows_under_id (keys m) |}; simpl.
  - done.
  - intros m h row [= Hf]. apply find_hash_values_Some in Hf as [Hh Hi].
    apply bool_decide_eq_true in Hh. by split.
  - intros m h [= Hf] i row Hrow.
    by apply (find_hash_values_None _ _ Hf), bool_decide_eq_false in Hrow.
  - by intros m i r [= ->].
  - intros m k row m' [= <- <-]. split_and!; try done.
    intros Hwf. by apply rows_under_id_insert.
  - intros m i m'. unfold mem_revoke_key. destruct (keys m !! i) as [row|] eqn:Hrow; [|done].
    intros [= <-]. split; [by exists row, (now (meta_utc m))|].
    intros Hwf. apply rows_under_id_insert; [exact (Hwf i row Hrow)|done].
  - intros m i ts m'. unfold mem_touch_key_last_used.
    destruct (keys m !! i) as [row|] eqn:Hrow; intros [= <-]; simpl.
    + split; [done|].
      intros Hwf. apply rows_under_id_insert; [exact (Hwf i row Hrow)|done].
    + done.
  - intros m k row m'. unfold mem_upsert_seeded_key, admin_managed, created_at_or_now.
    destruct (keys m !! nk_id k) as [old|] eqn:Hold.
    + destruct (String.eqb_spec (key_origin old) KEY_ORIGIN_CONFIG) as [Ho|Ho]; simpl; [|done].
      intros [= <- <-]. split_and!; try done; [by intros ? [= <-]|].
      intros Hwf. by apply rows_under_id_insert.
    + simpl. intros [= <- <-]. split_and!; try done.
      intros Hwf. by apply rows_under_id_insert.
  - intros m k e m'. unfold mem_upsert_seeded_key.
    case_match; [by intros [= _ <-]|].
    by destruct (created_at_or_now _ _).
  - intros m p keep n m' [= _ <-]. split.
    + intros Hwf. by apply (prune_keys m p keep).
    + intros Hwf i row. simpl. rewrite lookup_foldl_delete. case_bool_decide; [done|].
      apply Hwf.
  - done.
Defined.
