(* ===== verification/SqliteMeta.v ===== *)
(** The SQLite metadata store: gateway-storage/src/sqlite/metadata.rs.

    Writers take the shared write lock; here they run one after the other.  The
    connection enforces the references of the schema (pool.rs:
    [foreign_keys(true)]). *)
From Stdlib Require Import ZArith Lia Bool String SpecFloat.
From stdpp Require Import prelude gmap strings list sorting.
From S2P Require Import Prelude Text F64 Json Errors Models Stores Sql.
Open Scope Z_scope.

Section Sqlite.
Context `{HashOrder} `{SerdeJson} `{SqlEngine}.

(** [serde_json::from_str(..)?] *)
Definition parsed {A} (o : option A) : store_result A := ok_or o serde_error.

(** A [NOT NULL] column of type [REAL]: SQLite stores a NaN as NULL. *)
Definition real_not_null (x : f64) : result unit DbError :=
  guard_err (is_nan x) NotNullViolation.

(** * Projects *)

Definition insert_project (p : Project) (d : SqlDb) : result (unit * SqlDb) DbError :=
  let? t := insert_new (project_row_id p) p (t_projects d) in Ok ((), set_t_projects d t).

Definition sqlite_create_project (p : NewProject) : db Project :=
  let* created_at := db_clock in
  let project := {| project_row_id := np_id p; project_name := np_name p;
                    project_created_at := created_at |} in
  let* _ := statement (insert_project project) in
  db_ret project.

Definition sqlite_get_project (d : SqlDb) (id : string) : store_result (option Project) :=
  reading (λ d, t_projects d !! id) d.

Definition sqlite_list_projects (d : SqlDb) : store_result (list Project) :=
  reading (λ d, order_by (ascending project_created_at) (scan (t_projects d))) d.

(** * Gateway keys *)

(** The row a new key is inserted as. *)
Definition new_key_record (k : NewGatewayKey) (scopes_json origin : string)
    (created_at : Z) : KeyRecord :=
  {| kc_id := nk_id k; kc_project_id := nk_project_id k; kc_name := nk_name k;
     kc_prefix := nk_prefix k; kc_hash := nk_hash k; kc_last4 := nk_last4 k;
     kc_scopes := scopes_json; kc_status := "active"; kc_expires_at := nk_expires_at k;
     kc_last_used_at := None; kc_created_at := created_at; kc_revoked_at := None;
     kc_origin := origin |}.

(** The [REFERENCES projects(id)] of a written row. *)
Definition references_project (d : SqlDb) (project_id : string) : result unit DbError :=
  match t_projects d !! project_id with
  | Some _ => Ok ()
  | None => Err ForeignKeyViolation
  end.

Definition insert_key (r : KeyRecord) (d : SqlDb) : result (unit * SqlDb) DbError :=
  let? t := insert_new (kc_id r) r (t_keys d) in
  let? _ := references_project d (kc_project_id r) in
  Ok ((), set_t_keys d t).

(** The row returned by [create_key], built from its argument. *)
Definition created_key (k : NewGatewayKey) (created_at : Z) : GatewayKeyRow :=
  {| key_id := nk_id k; key_project_id := nk_project_id k; key_name := nk_name k;
     key_prefix := nk_prefix k; key_hash := nk_hash k; key_last4 := nk_last4 k;
     key_scopes := nk_scopes k; key_status := "active";
     key_expires_at := nk_expires_at k; key_last_used_at := None;
     key_created_at := created_at; key_revoked_at := None; key_origin := nk_origin k |}.

Definition sqlite_create_key (k : NewGatewayKey) : db GatewayKeyRow :=
  let* created_at := db_clock in
  let scopes_json := strings_text (nk_scopes k) in
  let* _ := statement (insert_key (new_key_record k scopes_json (nk_origin k) created_at)) in
  db_ret (created_key k created_at).

Definition row_to_gateway_key (r : KeyRecord) : store_result GatewayKeyRow :=
  let? scopes := parsed (text_strings (kc_scopes r)) in
  Ok {| key_id := kc_id r; key_project_id := kc_project_id r; key_name := kc_name r;
        key_prefix := kc_prefix r; key_hash := kc_hash r; key_last4 := kc_last4 r;
        key_scopes := scopes; key_status := kc_status r;
        key_expires_at := kc_expires_at r; key_last_used_at := kc_last_used_at r;
        key_created_at := kc_created_at r; key_revoked_at := kc_revoked_at r;
        key_origin := kc_origin r |}.

(** [row.map(f).transpose()] and [rows.into_iter().map(f).collect()]. *)
Definition transposed {A B} (f : A → store_result B) (o : option A) :
    store_result (option B) :=
  match o with Some a => result_map Some (f a) | None => Ok None end.
Fixpoint collected {A B} (f : A → store_result B) (l : list A) : store_result (list B) :=
  match l with
  | [] => Ok []
  | a :: r => let? b := f a in let? bs := collected f r in Ok (b :: bs)
  end.

Definition sqlite_list_keys (d : SqlDb) (project_id : string) :
    store_result (list GatewayKeyRow) :=
  let? rows := reading (λ d,
    order_by (descending kc_created_at)
      (select_where (λ r, String.eqb (kc_project_id r) project_id) (scan (t_keys d)))) d in
  collected row_to_gateway_key rows.

Definition sqlite_get_key (d : SqlDb) (id : string) : store_result (option GatewayKeyRow) :=
  let? row := reading (λ d, t_keys d !! id) d in
  transposed row_to_gateway_key row.

(** [fetch_optional] takes the first row. *)
Definition sqlite_find_key_by_hash (d : SqlDb) (hash : bytes) :
    store_result (option GatewayKeyRow) :=
  let? row := reading (λ d,
    head (select_where (λ r, bool_decide (kc_hash r = hash)) (scan (t_keys d)))) d in
  transposed row_to_gateway_key row.

Definition revoke_record (ts : Z) (r : KeyRecord) : KeyRecord :=
  {| kc_id := kc_id r; kc_project_id := kc_project_id r; kc_name := kc_name r;
     kc_prefix := kc_prefix r; kc_hash := kc_hash r; kc_last4 := kc_last4 r;
     kc_scopes := kc_scopes r; kc_status := "revoked"; kc_expires_at := kc_expires_at r;
     kc_last_used_at := kc_last_used_at r; kc_created_at := kc_created_at r;
     kc_revoked_at := Some ts; kc_origin := kc_origin r |}.

Definition touch_record (ts : Z) (r : KeyRecord) : KeyRecord :=
  {| kc_id := kc_id r; kc_project_id := kc_project_id r; kc_name := kc_name r;
     kc_prefix := kc_prefix r; kc_hash := kc_hash r; kc_last4 := kc_last4 r;
     kc_scopes := kc_scopes r; kc_status := kc_status r; kc_expires_at := kc_expires_at r;
     kc_last_used_at := Some ts; kc_created_at := kc_created_at r;
     kc_revoked_at := kc_revoked_at r; kc_origin := kc_origin r |}.

(** [UPDATE gateway_keys SET .. WHERE id = ?] *)
Definition update_key (id : string) (f : KeyRecord → KeyRecord) (d : SqlDb) :
    result (Z * SqlDb) DbError :=
  let '(n, t) := update_at id f (t_keys d) in Ok (n, set_t_keys d t).

Definition sqlite_revoke_key (id : string) : db unit :=
  let* ts := db_clock in
  let* affected := statement (update_key id (revoke_record ts)) in
  if affected =? 0 then db_fail SNotFound else db_ret ().

Definition sqlite_touch_key_last_used (id : string) (ts : Timestamp) : db unit :=
  let* _ := statement (update_key id (touch_record ts)) in db_ret ().

(** [DO UPDATE SET ..]: the creation time, the last use and the origin stay; the id
    is the one in conflict. *)
Definition reseed_record (old new : KeyRecord) : KeyRecord :=
  {| kc_id := kc_id new; kc_project_id := kc_project_id new; kc_name := kc_name new;
     kc_prefix := kc_prefix new; kc_hash := kc_hash new; kc_last4 := kc_last4 new;
     kc_scopes := kc_scopes new; kc_status := "active"; kc_expires_at := kc_expires_at new;
     kc_last_used_at := kc_last_used_at old; kc_created_at := kc_created_at old;
     kc_revoked_at := None; kc_origin := kc_origin old |}.

Definition upsert_key (r : KeyRecord) (d : SqlDb) : result (unit * SqlDb) DbError :=
  let? _ := references_project d (kc_project_id r) in
  Ok ((), set_t_keys d (insert_or (kc_id r) r reseed_record (t_keys d))).

(** [fetch_one] *)
Definition fetch_one {A} (f : SqlDb → option A) (d : SqlDb) : result (A * SqlDb) DbError :=
  match f d with Some a => Ok (a, d) | None => Err RowNotFound end.

Definition admin_managed_error (id : string) : StorageError :=
  SConflict ("gateway key '" +:+ id +:+
             "' is admin-managed; rename the config-seeded key")%string.

Definition sqlite_upsert_seeded_key (k : NewGatewayKey) : db GatewayKeyRow :=
  let scopes_json := strings_text (nk_scopes k) in
  let* existing := query_with (λ d, kc_origin <$> t_keys d !! nk_id k) in
  if match existing with
     | Some origin => negb (String.eqb origin KEY_ORIGIN_CONFIG)
     | None => false
     end
  then db_fail (admin_managed_error (nk_id k))
  else
    let* created_at := db_clock in
    let* _ := statement (upsert_key (new_key_record k scopes_json KEY_ORIGIN_CONFIG created_at)) in
    let* row := statement (fetch_one (λ d, t_keys d !! nk_id k)) in
    λ d, (row_to_gateway_key row, d).

(** [project_id = ? AND origin = 'config' AND id NOT IN (..)], the last part
    only when some ids are kept. *)
Definition prunable (project_id : string) (keep_ids : list string) (id : string)
    (r : KeyRecord) : bool :=
  String.eqb (kc_project_id r) project_id && String.eqb (kc_origin r) KEY_ORIGIN_CONFIG &&
  (match keep_ids with [] => true | _ => false end || negb (existsb (String.eqb id) keep_ids)).

Definition sqlite_prune_seeded_keys_not_in (project_id : string) (keep_ids : list string) :
    db Z :=
  statement (λ d,
    let '(n, t) := delete_where (prunable project_id keep_ids) (t_keys d) in
    Ok (n, set_t_keys d t)).

(** * Routes *)

Definition replace_route (old new : RouteRecord) : RouteRecord := new.

Definition upsert_route (project_id : string) (r : RouteRecord) (d : SqlDb) :
    result (unit * SqlDb) DbError :=
  let? _ := references_project d project_id in
  Ok ((), set_t_routes d (insert_or project_id r replace_route (t_routes d))).

Definition sqlite_upsert_routes (project_id : string) (cfg : RoutesConfig) (version : Z) :
    db unit :=
  let json := to_text (raw cfg) in
  let* updated_at := db_clock in
  statement (upsert_route project_id
    {| rc_config := json; rc_version := version; rc_updated_at := updated_at |}).

Definition sqlite_load_routes (d : SqlDb) (project_id : string) :
    store_result (option (RoutesConfig * Z)) :=
  let? row := reading (λ d, t_routes d !! project_id) d in
  transposed (λ r,
    let? v := parsed (from_text (rc_config r)) in Ok ({| raw := v |}, rc_version r)) row.

(** * Budgets *)

Definition budget_record (b : Budget) : BudgetRecord :=
  {| bc_id := b_id b; bc_name := b_name b; bc_target_type := b_target_type b;
     bc_target_id := b_target_id b; bc_period := b_period b;
     bc_amount_usd := b_amount_usd b; bc_thresholds := to_text (b_thresholds b);
     bc_status := b_status b |}.

Definition row_to_budget (r : BudgetRecord) : store_result Budget :=
  let? thresholds := parsed (from_text (bc_thresholds r)) in
  Ok {| b_id := bc_id r; b_name := bc_name r; b_target_type := bc_target_type r;
        b_target_id := bc_target_id r; b_period := bc_period r;
        b_amount_usd := bc_amount_usd r; b_thresholds := thresholds;
        b_status := bc_status r |}.

Definition upsert_budget_row (r : BudgetRecord) (d : SqlDb) :
    result (unit * SqlDb) DbError :=
  let? _ := real_not_null (bc_amount_usd r) in
  Ok ((), set_t_budgets d (insert_or (bc_id r) r (λ _ new, new) (t_budgets d))).

Definition sqlite_upsert_budget (b : Budget) : db unit :=
  statement (upsert_budget_row (budget_record b)).

Definition sqlite_list_budgets (d : SqlDb) : store_result (list Budget) :=
  let? rows := reading (λ d, scan (t_budgets d)) d in collected row_to_budget rows.

Definition sqlite_get_budget (d : SqlDb) (id : string) : store_result (option Budget) :=
  let? row := reading (λ d, t_budgets d !! id) d in transposed row_to_budget row.

(** * Pricing overrides *)

(** A nullable [REAL] column. *)
Definition real_or_null (x : option f64) : option f64 :=
  opt_filter (λ x, negb (is_nan x)) x.

Definition priced_row (p : PricingRow) : PricingRow :=
  {| pr_provider := pr_provider p; pr_model := pr_model p;
     pr_input_per_1k := pr_input_per_1k p; pr_output_per_1k := pr_output_per_1k p;
     pr_cached_input_per_1k := real_or_null (pr_cached_input_per_1k p) |}.

Definition upsert_price (p : PricingRow) (d : SqlDb) : result (unit * SqlDb) DbError :=
  let? _ := real_not_null (pr_input_per_1k p) in
  let? _ := real_not_null (pr_output_per_1k p) in
  Ok ((), set_t_pricing d
    (insert_or (pr_provider p, pr_model p, 0) (priced_row p) (λ _ new, new) (t_pricing d))).

Definition sqlite_upsert_pricing (p : PricingRow) : db unit := statement (upsert_price p).

Definition sqlite_list_pricing (d : SqlDb) : store_result (list PricingRow) :=
  reading (λ d, scan (t_pricing d)) d.

Definition delete_price (provider model : string) (d : SqlDb) :
    result (unit * SqlDb) DbError :=
  let '(_, t) := delete_where
    (λ _ p, String.eqb (pr_provider p) provider && String.eqb (pr_model p) model)
    (t_pricing d) in
  Ok ((), set_t_pricing d t).

Definition sqlite_delete_pricing (provider model : string) : db unit :=
  statement (delete_price provider model).

(** * Admin users *)

(** [id] is the primary key and [username] is [UNIQUE]. *)
Definition insert_admin (a : AdminUser) (d : SqlDb) : result (unit * SqlDb) DbError :=
  let? _ := guard_err
    (existsb (λ b, String.eqb (admin_username b) (admin_username a)) (scan (t_admins d)))
    UniqueViolation in
  let? t := insert_new (admin_id a) a (t_admins d) in
  Ok ((), set_t_admins d t).

Definition new_admin (u : NewAdminUser) (created_at : Z) : AdminUser :=
  {| admin_id := na_id u; admin_username := na_username u;
     admin_password_hash := na_password_hash u; admin_created_at := created_at;
     admin_last_login_at := None |}.

(** A unique violation, and only that, is a conflict. *)
Definition admin_insert_error (username : string) (e : DbError) : StorageError :=
  match e with
  | UniqueViolation => SConflict ("admin user '" +:+ username +:+ "' already exists")%string
  | _ => database_error e
  end.

Definition sqlite_create_admin_user (u : NewAdminUser) : db AdminUser :=
  let* created_at := db_clock in
  let* r := execute (insert_admin (new_admin u created_at)) in
  match r with
  | Ok _ => db_ret (new_admin u created_at)
  | Err e => db_fail (admin_insert_error (na_username u) e)
  end.

Definition sqlite_find_admin_user (d : SqlDb) (username : string) :
    store_result (option AdminUser) :=
  reading (λ d,
    head (select_where (λ a, String.eqb (admin_username a) username) (scan (t_admins d)))) d.

Definition sqlite_list_admin_users (d : SqlDb) : store_result (list AdminUser) :=
  reading (λ d, order_by (ascending admin_created_at) (scan (t_admins d))) d.

Definition touch_admin (ts : Z) (a : AdminUser) : AdminUser :=
  {| admin_id := admin_id a; admin_username := admin_username a;
     admin_password_hash := admin_password_hash a; admin_created_at := admin_created_at a;
     admin_last_login_at := Some ts |}.

Definition sqlite_touch_admin_last_login (id : string) (ts : Timestamp) : db unit :=
  let* _ := statement (λ d,
    let '(n, t) := update_at id (touch_admin ts) (t_admins d) in
    Ok (n, set_t_admins d t)) in
  db_ret ().
End Sqlite.

#[export] Instance sqlite_metadata `{HashOrder} `{SerdeJson} `{SqlEngine} :
    MetadataStore SqlDb := {
  create_project d p := sqlite_create_project p d;
  get_project := sqlite_get_project;
  list_projects := sqlite_list_projects;
  create_key d k := sqlite_create_key k d;
  list_keys := sqlite_list_keys;
  get_key := sqlite_get_key;
  find_key_by_hash := sqlite_find_key_by_hash;
  revoke_key d i := sqlite_revoke_key i d;
  touch_key_last_used d i ts := sqlite_touch_key_last_used i ts d;
  upsert_seeded_key d k := sqlite_upsert_seeded_key k d;
  prune_seeded_keys_not_in d p ids := sqlite_prune_seeded_keys_not_in p ids d;
  upsert_routes d p cfg v := sqlite_upsert_routes p cfg v d;
  load_routes := sqlite_load_routes;
  upsert_budget d b := sqlite_upsert_budget b d;
  list_budgets := sqlite_list_budgets;
  get_budget := sqlite_get_budget;
  upsert_pricing d p := sqlite_upsert_pricing p d;
  list_pricing := sqlite_list_pricing;
  delete_pricing d p m := sqlite_delete_pricing p m d;
  create_admin_user d u := sqlite_create_admin_user u d;
  find_admin_user := sqlite_find_admin_user;
  list_admin_users := sqlite_list_admin_users;
  touch_admin_last_login d i ts := sqlite_touch_admin_last_login i ts d
}.

(** * The key laws *)

Lemma update_at_lookup {K V} `{Countable K} (k : K) (f : V → V) t n t' :
  update_at k f t = (n, t') →
  (n = 0 ∧ t !! k = None ∧ t' = t) ∨ (∃ v, n = 1 ∧ t !! k = Some v ∧ t' = <[k := f v]> t).
Proof.
  unfold update_at. destruct (t !! k) as [v|]; intros [= <- <-]; [right|left]; eauto.
Qed.

Section Laws.
Context `{HashOrder} `{SerdeLaws} `{SqlEngine}.

(** What a row of the table reads as, when its scopes parse. *)
Definition key_of (r : KeyRecord) : GatewayKeyRow :=
  {| key_id := kc_id r; key_project_id := kc_project_id r; key_name := kc_name r;
     key_prefix := kc_prefix r; key_hash := kc_hash r; key_last4 := kc_last4 r;
     key_scopes := default [] (text_strings (kc_scopes r)); key_status := kc_status r;
     key_expires_at := kc_expires_at r; key_last_used_at := kc_last_used_at r;
     key_created_at := kc_created_at r; key_revoked_at := kc_revoked_at r;
     key_origin := kc_origin r |}.

Definition under_id (t : gmap string KeyRecord) : Prop := ∀ i r, t !! i = Some r → kc_id r = i.

Lemma row_to_key_Ok r row : row_to_gateway_key r = Ok row → row = key_of r.
Proof.
  unfold row_to_gateway_key, key_of, parsed.
  destruct (text_strings (kc_scopes r)); simpl; [|done]. by intros [= <-].
Qed.

Lemma transposed_key_Ok o r : transposed row_to_gateway_key o = Ok r → r = key_of <$> o.
Proof.
  destruct o as [k|]; simpl; [|by intros [= <-]].
  destruct (row_to_gateway_key k) as [row|e] eqn:Hr; simpl; [|done].
  intros [= <-]. by rewrite (row_to_key_Ok _ _ Hr).
Qed.

Lemma key_of_new k origin t :
  key_of (new_key_record k (strings_text (nk_scopes k)) origin t) =
  {| key_id := nk_id k; key_project_id := nk_project_id k; key_name := nk_name k;
     key_prefix := nk_prefix k; key_hash := nk_hash k; key_last4 := nk_last4 k;
     key_scopes := nk_scopes k; key_status := "active";
     key_expires_at := nk_expires_at k; key_last_used_at := None;
     key_created_at := t; key_revoked_at := None; key_origin := origin |}.
Proof. unfold key_of. simpl. by rewrite strings_roundtrip. Qed.

Lemma reading_Ok {A} (f : SqlDb → A) d a : reading f d = Ok a → a = f d.
Proof. unfold reading, fetch. destruct (db_faults d 0%nat); [done|]. by intros [= <-]. Qed.

(** A statement that succeeds applied its function; one that fails left every
    table as it was. *)
Lemma statement_inv {A} (f : SqlDb → result (A * SqlDb) DbError) d r d' :
  statement f d = (r, d') →
  (∃ a, r = Ok a ∧ f (next_faults d) = Ok (a, d')) ∨
  (∃ e, r = Err (database_error e) ∧ d' = next_faults d).
Proof.
  unfold statement, db_bind, execute. destruct (db_faults d 0%nat).
  { intros [= <- <-]. right. eauto. }
  destruct (f _) as [[a d1]|e] eqn:Hf; intros [= <- <-]; eauto.
Qed.

Lemma db_bind_inv {A B} (m : db A) (k : A → db B) d r d' :
  db_bind m k d = (r, d') →
  (∃ e, m d = (Err e, d') ∧ r = Err e) ∨ (∃ a d1, m d = (Ok a, d1) ∧ k a d1 = (r, d')).
Proof.
  unfold db_bind. destruct (m d) as [[a|e] d1]; [|intros [= <- <-]; eauto].
  intros Hk. right. eauto.
Qed.

(** A bind that succeeds. *)
Lemma db_bind_Ok {A B} (m : db A) (k : A → db B) d b d' :
  db_bind m k d = (Ok b, d') → ∃ a d1, m d = (Ok a, d1) ∧ k a d1 = (Ok b, d').
Proof. intros [(e & _ & [=])|Hk]%db_bind_inv. done. Qed.

Lemma statement_Ok {A} (f : SqlDb → result (A * SqlDb) DbError) d a d' :
  statement f d = (Ok a, d') → f (next_faults d) = Ok (a, d').
Proof. by intros [(b & [= <-] & Hf)|(e & [=] & _)]%statement_inv. Qed.
Lemma statement_Err {A} (f : SqlDb → result (A * SqlDb) DbError) d e d' :
  statement f d = (Err e, d') → d' = next_faults d.
Proof. by intros [(b & [=] & Hf)|(e' & _ & ->)]%statement_inv. Qed.

Lemma under_id_insert t i r : kc_id r = i → under_id t → under_id (<[i := r]> t).
Proof. intros Hi Ht j s. rewrite lookup_insert_Some. intros [[<- <-]|[_ Hr]]; auto. Qed.

(** One that succeeded, taken apart. *)
Lemma insert_key_Ok r d d' :
  insert_key r d = Ok ((), d') →
  t_keys d !! kc_id r = None ∧ is_Some (t_projects d !! kc_project_id r) ∧
  d' = set_t_keys d (<[kc_id r := r]> (t_keys d)).
Proof.
  unfold insert_key, insert_new, references_project.
  destruct (t_keys d !! kc_id r); [done|].
  destruct (t_projects d !! kc_project_id r); [|done]. intros [= <-]. by split_and!.
Qed.

Lemma upsert_key_Ok r d d' :
  upsert_key r d = Ok ((), d') →
  d' = set_t_keys d (insert_or (kc_id r) r reseed_record (t_keys d)).
Proof.
  unfold upsert_key, references_project.
  destruct (t_projects d !! kc_project_id r); [|done]. by intros [= <-].
Qed.

(** [UPDATE] of a key: the statement counts the row it found. *)
Lemma update_key_Ok i f d n d' :
  update_key i f d = Ok (n, d') →
  (n = 0 ∧ t_keys d !! i = None ∧ d' = set_t_keys d (t_keys d)) ∨
  (∃ r, n = 1 ∧ t_keys d !! i = Some r ∧ d' = set_t_keys d (<[i := f r]> (t_keys d))).
Proof.
  unfold update_key. destruct (update_at _ _ _) as [n' t'] eqn:Hu. intros [= <- <-].
  apply update_at_lookup in Hu as [(-> & Hn & ->)|(r & -> & Hr & ->)]; [by left|].
  right. by exists r.
Qed.

Lemma create_key_inv k d row d' :
  sqlite_create_key k d = (Ok row, d') →
  ∃ t, row = created_key k t ∧
    t_keys d !! nk_id k = None ∧
    t_keys d' = <[nk_id k :=
      new_key_record k (strings_text (nk_scopes k)) (nk_origin k) t]> (t_keys d).
Proof.
  intros (t & d1 & [= <- <-] & Hk)%db_bind_Ok.
  apply db_bind_Ok in Hk as ([] & d2 & Hs & [= <- <-]).
  apply statement_Ok, insert_key_Ok in Hs as (Hnew & _ & ->).
  exists (now (db_utc d)). by split_and!.
Qed.

(** What a run of [upsert_seeded_key] does to the keys. *)
Lemma upsert_seeded_inv k d r d' :
  sqlite_upsert_seeded_key k d = (r, d') →
  (t_keys d' = t_keys d ∨
   ∃ t, t_keys d' = insert_or (nk_id k)
     (new_key_record k (strings_text (nk_scopes k)) KEY_ORIGIN_CONFIG t) reseed_record
     (t_keys d)) ∧
  ∀ row, r = Ok row →
    (∀ old, t_keys d !! nk_id k = Some old → kc_origin old = KEY_ORIGIN_CONFIG) ∧
    (∃ t, t_keys d' = insert_or (nk_id k)
      (new_key_record k (strings_text (nk_scopes k)) KEY_ORIGIN_CONFIG t) reseed_record
      (t_keys d)) ∧
    ∃ rec, t_keys d' !! nk_id k = Some rec ∧ row_to_gateway_key rec = Ok row.
Proof.
  unfold sqlite_upsert_seeded_key, query_with.
  intros [(e & Hs & ->)|(ex & d1 & Hs & Hk)]%db_bind_inv.
  { apply statement_Err in Hs as ->. split; [by left|done]. }
  apply statement_Ok in Hs as [= <- <-]. simpl in Hk.
  destruct (match kc_origin <$> t_keys d !! nk_id k with Some _ => _ | None => _ end) eqn:Hadm.
  { injection Hk as <- <-. split; [by left|done]. }
  assert (Horig : ∀ old, t_keys d !! nk_id k = Some old → kc_origin old = KEY_ORIGIN_CONFIG).
  { intros old Hold. rewrite Hold in Hadm. simpl in Hadm.
    by apply negb_false_iff, String.eqb_eq in Hadm. }
  apply db_bind_inv in Hk as [(e & [=] & _)|(t & d2 & [= <- <-] & Hk)].
  apply db_bind_inv in Hk as [(e & Hs & ->)|([] & d2 & Hs & Hk)].
  { apply statement_Err in Hs as ->. split; [by left|done]. }
  apply statement_Ok, upsert_key_Ok in Hs as ->. set (t := now _) in *.
  apply db_bind_inv in Hk as [(e & Hs & ->)|(rec & d2 & Hs & Hk)].
  { apply statement_Err in Hs as ->. split; [right; by exists t|done]. }
  apply statement_Ok in Hs. unfold fetch_one in Hs. simpl in Hs.
  destruct (insert_or _ _ _ _ !! _) as [rec'|] eqn:Hrec; [|done]. injection Hs as -> <-.
  injection Hk as <- <-. split; [right; by exists t|]. intros row Hrow.
  split; [done|]. split; [by exists t|]. by exists rec.
Qed.

Lemma insert_or_other {K V} `{Countable K} (k i : K) (v : V) g t :
  i ≠ k → insert_or k v g t !! i = t !! i.
Proof. intros Hi. unfold insert_or. destruct (t !! k); by rewrite lookup_insert_ne. Qed.

Lemma insert_or_same {K V} `{Countable K} (k : K) (v : V) g t :
  insert_or k v g t !! k = Some (match t !! k with Some old => g old v | None => v end).
Proof. unfold insert_or. destruct (t !! k); by rewrite lookup_insert_eq. Qed.

Lemma insert_or_insert {K V} `{Countable K} (k : K) (v : V) g t :
  insert_or k v g t = <[k := match t !! k with Some old => g old v | None => v end]> t.
Proof. unfold insert_or. by destruct (t !! k). Qed.

(** ** Each law, of the records under their ids *)

Lemma find_key_row d h o :
  sqlite_find_key_by_hash d h = Ok o →
  match o with
  | Some row => key_hash row = h ∧ ∃ i, (key_of <$> t_keys d) !! i = Some row
  | None => ∀ i row, (key_of <$> t_keys d) !! i = Some row → key_hash row ≠ h
  end.
Proof.
  unfold sqlite_find_key_by_hash.
  destruct (reading _ d) as [found|e] eqn:Hr; [|done]. apply reading_Ok in Hr as ->.
  intros ->%transposed_key_Ok.
  assert (Hin : ∀ r, r ∈ select_where (λ r, bool_decide (kc_hash r = h)) (scan (t_keys d)) ↔
    (∃ i, t_keys d !! i = Some r) ∧ kc_hash r = h).
  { intros r. unfold select_where.
    by rewrite list_elem_of_In, filter_In, <- list_elem_of_In, bool_decide_eq_true,
      elem_of_hash_values. }
  destruct (select_where _ _) as [|r rs]; simpl.
  - intros i row. rewrite lookup_fmap_Some. intros (r & <- & Hi) Heq.
    apply (not_elem_of_nil r), Hin. split; [by exists i|done].
  - destruct (proj1 (Hin r)) as [[i Hi] Hh]; [by left|]. split; [done|].
    exists i. by rewrite lookup_fmap, Hi.
Qed.

Lemma get_key_row d i o :
  sqlite_get_key d i = Ok o → (key_of <$> t_keys d) !! i = o.
Proof.
  unfold sqlite_get_key.
  destruct (reading _ d) as [found|e] eqn:Hr; [|done]. apply reading_Ok in Hr as ->.
  intros ->%transposed_key_Ok. apply lookup_fmap.
Qed.

Lemma revoke_key_row d i d' :
  sqlite_revoke_key i d = (Ok (), d') →
  (∃ row ts, (key_of <$> t_keys d) !! i = Some row ∧
     key_of <$> t_keys d' = <[i := revoked_row row ts]> (key_of <$> t_keys d)) ∧
  (under_id (t_keys d) → under_id (t_keys d')).
Proof.
  intros (t & d1 & [= <- <-] & Hk)%db_bind_Ok.
  apply db_bind_Ok in Hk as (n & d2 & Hs & Hk).
  apply statement_Ok, update_key_Ok in Hs as [(-> & _ & _)|(r & -> & Hr & ->)]; [done|].
  injection Hk as <-. simpl in *. split.
  - exists (key_of r), (now (db_utc d)). split; [by rewrite lookup_fmap, Hr|].
    by rewrite fmap_insert.
  - intros Hwf. apply under_id_insert; [exact (Hwf i r Hr)|done].
Qed.

Lemma touch_key_row d i ts d' :
  sqlite_touch_key_last_used i ts d = (Ok (), d') →
  match (key_of <$> t_keys d) !! i with
  | Some row => key_of <$> t_keys d' = <[i := touched_row row ts]> (key_of <$> t_keys d)
  | None => key_of <$> t_keys d' = key_of <$> t_keys d
  end ∧ (under_id (t_keys d) → under_id (t_keys d')).
Proof.
  intros (n & d1 & Hs & [= <-])%db_bind_Ok. rewrite lookup_fmap.
  apply statement_Ok, update_key_Ok in Hs as [(-> & Hn & ->)|(r & -> & Hr & ->)]; simpl in *.
  - by rewrite Hn.
  - rewrite Hr. simpl. split; [by rewrite fmap_insert|].
    intros Hwf. apply under_id_insert; [exact (Hwf i r Hr)|done].
Qed.

Lemma under_id_upsert t k r :
  kc_id r = k → under_id t → under_id (insert_or k r reseed_record t).
Proof.
  intros Hk Ht. rewrite insert_or_insert. apply under_id_insert; [|done].
  by destruct (t !! k).
Qed.

Lemma upsert_seeded_row d k row d' :
  sqlite_upsert_seeded_key k d = (Ok row, d') →
  (∀ old, (key_of <$> t_keys d) !! nk_id k = Some old → key_origin old = KEY_ORIGIN_CONFIG) ∧
  key_id row = nk_id k ∧ key_project_id row = nk_project_id k ∧
  key_hash row = nk_hash k ∧ key_status row = "active" ∧
  key_origin row = KEY_ORIGIN_CONFIG ∧ key_expires_at row = nk_expires_at k ∧
  key_of <$> t_keys d' = <[nk_id k := row]> (key_of <$> t_keys d) ∧
  (under_id (t_keys d) → under_id (t_keys d')).
Proof.
  intros [_ Hu]%upsert_seeded_inv.
  destruct (Hu row eq_refl) as (Hold & [t Ht] & rec & Hrec & Hrow). rewrite Ht in *.
  apply row_to_key_Ok in Hrow as ->. rewrite insert_or_same in Hrec. injection Hrec as Hrec.
  split; [intros old; rewrite lookup_fmap_Some; intros (r & <- & Hr); by apply Hold|].
  destruct (t_keys d !! nk_id k) as [old|] eqn:Hr; subst rec; simpl;
    (split_and!; try done; [.. | |by apply under_id_upsert]);
    [by apply Hold|unfold insert_or; by rewrite Hr, fmap_insert..].
Qed.

Lemma prunable_false p keep i r :
  kc_id r = i →
  prunable p keep i r = false ↔
  ¬ (key_project_id (key_of r) = p ∧ key_origin (key_of r) = KEY_ORIGIN_CONFIG ∧
     key_id (key_of r) ∉ keep).
Proof.
  intros Hi. simpl. rewrite Hi, <- not_true_iff_false. apply not_iff_compat.
  unfold prunable. rewrite !andb_true_iff, !String.eqb_eq.
  assert (Hk : match keep with [] => true | _ :: _ => false end || negb (existsb (String.eqb i) keep) = true
    ↔ i ∉ keep).
  { destruct keep as [|a keep]; [set_solver|].
    rewrite orb_false_l, negb_true_iff, <- not_true_iff_false, existsb_exists.
    setoid_rewrite String.eqb_eq. setoid_rewrite <- list_elem_of_In. naive_solver. }
  rewrite Hk. tauto.
Qed.

Lemma prune_records p keep t :
  under_id t →
  key_of <$> filter (λ kv, prunable p keep kv.1 kv.2 = false) t =
  filter (λ kv, ¬ (key_project_id kv.2 = p ∧ key_origin kv.2 = KEY_ORIGIN_CONFIG ∧
                   key_id kv.2 ∉ keep)) (key_of <$> t).
Proof.
  intros Hwf. apply map_eq. intros i. rewrite lookup_fmap. apply option_eq. intros row.
  rewrite fmap_Some, map_lookup_filter_Some.
  setoid_rewrite map_lookup_filter_Some. rewrite lookup_fmap_Some. simpl. split.
  - intros (r & [Hr Hp] & ->). split; [by exists r|].
    by apply (prunable_false p keep i r (Hwf i r Hr)).
  - intros [(r & <- & Hr) Hp]. exists r. split; [|done]. split; [done|].
    by apply (prunable_false p keep i r (Hwf i r Hr)).
Qed.
End Laws.

#[export] Instance sqlite_key_laws `{HashOrder} `{SerdeLaws} `{SqlEngine} : KeyLaws SqlDb.
Proof.
  refine {| keys_of d := key_of <$> t_keys d; keys_wf d := under_id (t_keys d) |}; simpl.
  - intros d Hwf i row. rewrite lookup_fmap_Some. intros (r & <- & Hr). by apply Hwf.
  - by intros d h row ?%find_key_row.
  - by intros d h ?%find_key_row.
  - intros d i r. apply get_key_row.
  - intros d k row d' (t & -> & _ & Hks)%create_key_inv. rewrite Hks. split_and!; try done.
    + rewrite fmap_insert. f_equal. apply key_of_new.
    + intros Hwf. by apply under_id_insert.
  - intros d i d'. apply revoke_key_row.
  - intros d i ts d'. apply touch_key_row.
  - intros d k row d'. apply upsert_seeded_row.
  - intros d k e d' Hu. apply upsert_seeded_inv in Hu as [Hks _].
    destruct Hks as [Hks|[t Hks]]; rewrite Hks; split; auto.
    + intros i Hi. by rewrite !lookup_fmap, insert_or_other.
    + by apply under_id_upsert.
  - intros d p keep n d' Hs. apply statement_Ok in Hs. injection Hs as _ <-. simpl.
    split.
    + intros Hwf. by apply prune_records.
    + intros Hwf i r. rewrite map_lookup_filter_Some. intros [Hr _]. by apply Hwf.
  - intros d p keep e d' Hs. by apply statement_Err in Hs as ->.
Defined.
