(* ===== verification/PostgresMeta.v ===== *)
(** The PostgreSQL metadata store: gateway-storage/src/postgres/metadata.rs.

    The statements are those of the SQLite store with numbered placeholders; the two
    differ in the columns of floating point numbers, where PostgreSQL keeps a NaN. *)
From Stdlib Require Import ZArith Lia Bool String SpecFloat.
From stdpp Require Import prelude gmap strings list sorting.
From S2P Require Import Prelude Text F64 Json Errors Models Stores Sql SqliteMeta.
Open Scope Z_scope.

Record PgDb : Type := { pg_tables : SqlDb }.

(** An operation on the tables. *)
Definition on_tables {A} (w : db A) (d : PgDb) : store_result A * PgDb :=
  let '(r, t) := w (pg_tables d) in (r, {| pg_tables := t |}).

Section Postgres.
Context `{HashOrder} `{SerdeJson} `{SqlEngine}.

Definition pg_create_project (p : NewProject) : db Project := sqlite_create_project p.
Definition pg_get_project (d : PgDb) (id : string) : store_result (option Project) :=
  sqlite_get_project (pg_tables d) id.
Definition pg_list_projects (d : PgDb) : store_result (list Project) :=
  sqlite_list_projects (pg_tables d).

Definition pg_create_key (k : NewGatewayKey) : db GatewayKeyRow := sqlite_create_key k.
Definition pg_row_to_gateway_key (r : KeyRecord) : store_result GatewayKeyRow :=
  row_to_gateway_key r.
Definition pg_list_keys (d : PgDb) (project_id : string) : store_result (list GatewayKeyRow) :=
  sqlite_list_keys (pg_tables d) project_id.
Definition pg_get_key (d : PgDb) (id : string) : store_result (option GatewayKeyRow) :=
  sqlite_get_key (pg_tables d) id.
Definition pg_find_key_by_hash (d : PgDb) (hash : bytes) : store_result (option GatewayKeyRow) :=
  sqlite_find_key_by_hash (pg_tables d) hash.
Definition pg_revoke_key (id : string) : db unit := sqlite_revoke_key id.
Definition pg_touch_key_last_used (id : string) (ts : Timestamp) : db unit :=
  sqlite_touch_key_last_used id ts.
Definition pg_upsert_seeded_key (k : NewGatewayKey) : db GatewayKeyRow :=
  sqlite_upsert_seeded_key k.
Definition pg_prune_seeded_keys_not_in (project_id : string) (keep_ids : list string) : db Z :=
  sqlite_prune_seeded_keys_not_in project_id keep_ids.

Definition pg_upsert_routes (project_id : string) (cfg : RoutesConfig) (version : Z) : db unit :=
  sqlite_upsert_routes project_id cfg version.
Definition pg_load_routes (d : PgDb) (project_id : string) :
    store_result (option (RoutesConfig * Z)) := sqlite_load_routes (pg_tables d) project_id.

(** A [DOUBLE PRECISION NOT NULL] column takes any number, a NaN included. *)
Definition pg_upsert_budget (b : Budget) : db unit :=
  statement (λ d, Ok ((), set_t_budgets d
    (insert_or (b_id b) (budget_record b) (λ _ new, new) (t_budgets d)))).
Definition pg_row_to_budget (r : BudgetRecord) : store_result Budget := row_to_budget r.
Definition pg_list_budgets (d : PgDb) : store_result (list Budget) :=
  sqlite_list_budgets (pg_tables d).
Definition pg_get_budget (d : PgDb) (id : string) : store_result (option Budget) :=
  sqlite_get_budget (pg_tables d) id.

Definition pg_upsert_pricing (p : PricingRow) : db unit :=
  statement (λ d, Ok ((), set_t_pricing d
    (insert_or (pr_provider p, pr_model p, 0) p (λ _ new, new) (t_pricing d)))).
Definition pg_list_pricing (d : PgDb) : store_result (list PricingRow) :=
  sqlite_list_pricing (pg_tables d).
Definition pg_delete_pricing (provider model : string) : db unit :=
  sqlite_delete_pricing provider model.

Definition pg_create_admin_user (u : NewAdminUser) : db AdminUser := sqlite_create_admin_user u.
Definition pg_find_admin_user (d : PgDb) (username : string) : store_result (option AdminUser) :=
  sqlite_find_admin_user (pg_tables d) username.
Definition pg_list_admin_users (d : PgDb) : store_result (list AdminUser) :=
  sqlite_list_admin_users (pg_tables d).
Definition pg_touch_admin_last_login (id : string) (ts : Timestamp) : db unit :=
  sqlite_touch_admin_last_login id ts.
End Postgres.

#[export] Instance postgres_metadata `{HashOrder} `{SerdeJson} `{SqlEngine} :
    MetadataStore PgDb := {
  create_project d p := on_tables (pg_create_project p) d;
  get_project := pg_get_project;
  list_projects := pg_list_projects;
  create_key d k := on_tables (pg_create_key k) d;
  list_keys := pg_list_keys;
  get_key := pg_get_key;
  find_key_by_hash := pg_find_key_by_hash;
  revoke_key d i := on_tables (pg_revoke_key i) d;
  touch_key_last_used d i ts := on_tables (pg_touch_key_last_used i ts) d;
  upsert_seeded_key d k := on_tables (pg_upsert_seeded_key k) d;
  prune_seeded_keys_not_in d p ids := on_tables (pg_prune_seeded_keys_not_in p ids) d;
  upsert_routes d p cfg v := on_tables (pg_upsert_routes p cfg v) d;
  load_routes := pg_load_routes;
  upsert_budget d b := on_tables (pg_upsert_budget b) d;
  list_budgets := pg_list_budgets;
  get_budget := pg_get_budget;
  upsert_pricing d p := on_tables (pg_upsert_pricing p) d;
  list_pricing := pg_list_pricing;
  delete_pricing d p m := on_tables (pg_delete_pricing p m) d;
  create_admin_user d u := on_tables (pg_create_admin_user u) d;
  find_admin_user := pg_find_admin_user;
  list_admin_users := pg_list_admin_users;
  touch_admin_last_login d i ts := on_tables (pg_touch_admin_last_login i ts) d
}.

(** * The key laws, from those of the tables *)

Lemma on_tables_inv {A} (w : db A) d r d' :
  on_tables w d = (r, d') → w (pg_tables d) = (r, pg_tables d').
Proof. unfold on_tables. destruct (w (pg_tables d)) as [x t]. by intros [= <- <-]. Qed.

#[export] Instance postgres_key_laws `{HashOrder} `{SerdeLaws} `{SqlEngine} : KeyLaws PgDb.
Proof.
  refine {| keys_of d := keys_of (pg_tables d); keys_wf d := keys_wf (pg_tables d) |}.
  - intros d. apply (keys_wf_id (M:=SqlDb) (pg_tables d)).
  - intros d. exact (find_key_sound (M:=SqlDb) (pg_tables d)).
  - intros d. exact (find_key_complete (M:=SqlDb) (pg_tables d)).
  - intros d. exact (get_key_spec (M:=SqlDb) (pg_tables d)).
  - intros d k row d' Hr%on_tables_inv. exact (create_key_spec (M:=SqlDb) (pg_tables d) k row _ Hr).
  - intros d i d' Hr%on_tables_inv. exact (revoke_key_spec (M:=SqlDb) (pg_tables d) i _ Hr).
  - intros d i ts d' Hr%on_tables_inv. exact (touch_key_spec (M:=SqlDb) (pg_tables d) i ts _ Hr).
  - intros d k row d' Hr%on_tables_inv. exact (upsert_seeded_key_ok (M:=SqlDb) (pg_tables d) k row _ Hr).
  - intros d k e d' Hr%on_tables_inv. exact (upsert_seeded_key_err (M:=SqlDb) (pg_tables d) k e _ Hr).
  - intros d p keep n d' Hr%on_tables_inv. exact (prune_spec (M:=SqlDb) (pg_tables d) p keep n _ Hr).
  - intros d p keep e d' Hr%on_tables_inv. exact (prune_err (M:=SqlDb) (pg_tables d) p keep e _ Hr).
Defined.
