(* ===== verification/SqliteRefine.v ===== *)
(** The SQLite metadata store does what the in-memory one does: a simulation over
    every operation of the interface, up to the order of unordered lists. *)
From Stdlib Require Import ZArith Lia Bool String SpecFloat.
From stdpp Require Import prelude gmap strings list sorting.
From S2P Require Import Prelude Text F64 Json Errors Models Stores MemoryMeta Sql Codec SqliteMeta.
Open Scope Z_scope.

(** * Operations of the interface *)

Inductive Op : Type :=
| CreateProject (p : NewProject) | GetProject (i : string) | ListProjects
| CreateKey (k : NewGatewayKey) | ListKeys (p : string) | GetKey (i : string)
| FindKey (h : bytes) | RevokeKey (i : string) | TouchKey (i : string) (ts : Timestamp)
| UpsertKey (k : NewGatewayKey) | PruneKeys (p : string) (keep : list string)
| UpsertRoutes (p : string) (cfg : RoutesConfig) (v : Z) | LoadRoutes (p : string)
| UpsertBudget (b : Budget) | ListBudgets | GetBudget (i : string)
| UpsertPricing (p : PricingRow) | ListPricing | DeletePricing (p m : string)
| CreateAdmin (u : NewAdminUser) | FindAdmin (n : string) | ListAdmins
| TouchAdmin (i : string) (ts : Timestamp).

Inductive Answer : Type :=
| ADone | ACount (n : Z)
| AProject (o : option Project) | AProjects (l : list Project)
| AKey (o : option GatewayKeyRow) | AKeys (l : list GatewayKeyRow)
| ARoutes (o : option (RoutesConfig * Z))
| ABudget (o : option Budget) | ABudgets (l : list Budget)
| APrices (l : list PricingRow)
| AAdmin (o : option AdminUser) | AAdmins (l : list AdminUser).

(** The answers as the caller may tell them apart: lists up to their order. *)
Definition same_answer (a b : Answer) : Prop :=
  match a, b with
  | AProjects l, AProjects l' => l ≡ₚ l'
  | AKeys l, AKeys l' => l ≡ₚ l'
  | ABudgets l, ABudgets l' => l ≡ₚ l'
  | APrices l, APrices l' => l ≡ₚ l'
  | AAdmins l, AAdmins l' => l ≡ₚ l'
  | _, _ => a = b
  end.

(** The lists whose order the interface promises: projects and administrators as they were
    created, keys the newest first. *)
Definition ordered_answer (a : Answer) : Prop :=
  match a with
  | AProjects l => StronglySorted (λ x y, project_created_at x ≤ project_created_at y) l
  | AKeys l => StronglySorted (λ x y, key_created_at y ≤ key_created_at x) l
  | AAdmins l => StronglySorted (λ x y, admin_created_at x ≤ admin_created_at y) l
  | _ => True
  end.

Section Run.
Context `{MetadataStore M}.

Definition reads {A} (f : A → Answer) (r : store_result A) (m : M) :
    store_result Answer * M := (result_map f r, m).
Definition writes {A} (f : A → Answer) (r : store_result A * M) : store_result Answer * M :=
  (result_map f r.1, r.2).

Definition run (o : Op) (m : M) : store_result Answer * M :=
  let done (_ : unit) := ADone in
  match o with
  | CreateProject p => writes (AProject ∘ Some) (create_project m p)
  | GetProject i => reads AProject (get_project m i) m
  | ListProjects => reads AProjects (list_projects m) m
  | CreateKey k => writes (AKey ∘ Some) (create_key m k)
  | ListKeys p => reads AKeys (list_keys m p) m
  | GetKey i => reads AKey (get_key m i) m
  | FindKey h => reads AKey (find_key_by_hash m h) m
  | RevokeKey i => writes done (revoke_key m i)
  | TouchKey i ts => writes done (touch_key_last_used m i ts)
  | UpsertKey k => writes (AKey ∘ Some) (upsert_seeded_key m k)
  | PruneKeys p keep => writes ACount (prune_seeded_keys_not_in m p keep)
  | UpsertRoutes p cfg v => writes done (upsert_routes m p cfg v)
  | LoadRoutes p => reads ARoutes (load_routes m p) m
  | UpsertBudget b => writes done (upsert_budget m b)
  | ListBudgets => reads ABudgets (list_budgets m) m
  | GetBudget i => reads ABudget (get_budget m i) m
  | UpsertPricing p => writes done (upsert_pricing m p)
  | ListPricing => reads APrices (list_pricing m) m
  | DeletePricing p mo => writes done (delete_pricing m p mo)
  | CreateAdmin u => writes (AAdmin ∘ Some) (create_admin_user m u)
  | FindAdmin n => reads AAdmin (find_admin_user m n) m
  | ListAdmins => reads AAdmins (list_admin_users m) m
  | TouchAdmin i ts => writes done (touch_admin_last_login m i ts)
  end.
End Run.

(** * The relation *)

Section Relation.
Context `{HashOrder} `{SerdeLaws} `{SqlEngine}.

Definition route_text (r : RoutesConfig * Z) : string * Z := (to_text (raw r.1), r.2).
Definition route_columns (r : RouteRecord) : string * Z := (rc_config r, rc_version r).

Record related (d : SqlDb) (m : MemMeta) : Prop := {
  rel_projects : t_projects d = projects m;
  rel_keys : key_of <$> t_keys d = keys m;
  rel_ids : under_id (t_keys d);
  rel_routes : route_columns <$> t_routes d = route_text <$> routes m;
  rel_exact_routes : map_Forall (λ _ r, exact (raw r.1) = true) (routes m);
  rel_budgets : t_budgets d = budget_record <$> budgets m;
  rel_exact_budgets : map_Forall (λ _ b, exact (b_thresholds b) = true) (budgets m);
  rel_admins : t_admins d = admins m;
  rel_usernames i j a b : admins m !! i = Some a → admins m !! j = Some b →
    admin_username a = admin_username b → i = j;
  rel_pricing p mo e :
    t_pricing d !! (p, mo, e) = if e =? 0 then pricing m !! (p, mo) else None;
  rel_priced p mo row : pricing m !! (p, mo) = Some row → pr_provider row = p ∧ pr_model row = mo
}.

(** What an operation needs for its answer to be determined by the interface:
    one key per hash, JSON that prints exactly, rates that are numbers. *)
Definition comparable (o : Op) (m : MemMeta) : Prop :=
  match o with
  | FindKey h => ∀ i j a b, keys m !! i = Some a → keys m !! j = Some b →
      key_hash a = h → key_hash b = h → i = j
  | UpsertRoutes _ cfg _ => exact (raw cfg) = true
  | UpsertBudget b => exact (b_thresholds b) = true
  | UpsertPricing p => real_or_null (pr_cached_input_per_1k p) = pr_cached_input_per_1k p
  | _ => True
  end.

(** * Lists of rows *)

Lemma scan_perm {K V} `{Countable K} (t : gmap K V) : scan t ≡ₚ (map_to_list t).*2.
Proof. unfold scan, hash_values. by rewrite hash_iter_perm. Qed.

Lemma scan_fmap {K V W} `{Countable K} (f : V → W) (t : gmap K V) :
  f <$> scan t ≡ₚ scan (f <$> t).
Proof.
  by rewrite !scan_perm, map_to_list_fmap, <- !list_fmap_compose.

Qed.

Lemma order_by_perm {V} (R : relation V) `{!RelDecision R} rows : order_by R rows ≡ₚ rows.
Proof. apply merge_sort_Permutation. Qed.

Lemma collected_Ok {A B} (f : A → store_result B) (g : A → B) l bs :
  (∀ a b, f a = Ok b → b = g a) → collected f l = Ok bs → bs = g <$> l.
Proof.
  intros Hf. revert bs. induction l as [|a l IH]; intros bs; simpl; [by intros [= <-]|].
  destruct (f a) as [b|] eqn:Hb; [|done]. destruct (collected f l) as [bs'|]; [|done].
  intros [= <-]. by rewrite (Hf _ _ Hb), (IH _ eq_refl).
Qed.

Lemma fmap_select {V W} (f : V → W) (p : V → bool) (q : W → bool) l :
  (∀ v, p v = q (f v)) → f <$> select_where p l = List.filter q (f <$> l).
Proof.
  intros Hp. unfold select_where. induction l as [|v l IH]; [done|].
  cbn. rewrite Hp. case_match; cbn; by rewrite IH.
Qed.

Lemma Permutation_List_filter {V} (p : V → bool) l l' :
  l ≡ₚ l' → List.filter p l ≡ₚ List.filter p l'.
Proof.
  induction 1 as [|x l l' _ IH|x y l|]; simpl; [done| | |by etransitivity].
  - case_match; [by constructor|done].
  - do 2 case_match; try done. by constructor.
Qed.

(** * Operations that read *)

Abbreviation clocks_agree d m := (now (db_utc d) = now (meta_utc m)).

Definition simulated (o : Op) : Prop := ∀ d m a d',
  related d m → comparable o m → clocks_agree d m → run o d = (Ok a, d') →
  ∃ a' m', run o m = (Ok a', m') ∧ same_answer a a' ∧ related d' m'.

Lemma reads_Ok {M A} (f : A → Answer) (r : store_result A) (m m' : M) a :
  reads f r m = (Ok a, m') → ∃ x, r = Ok x ∧ a = f x ∧ m' = m.
Proof. unfold reads. destruct r as [x|e]; intros [=]; subst. by exists x. Qed.

Lemma writes_Ok {M A} (f : A → Answer) (r : store_result A * M) m' a :
  writes f r = (Ok a, m') → ∃ x, r = (Ok x, m') ∧ a = f x.
Proof. unfold writes. destruct r as [[x|e] m]; intros [=]; subst. by exists x. Qed.

Lemma sim_get_project i : simulated (GetProject i).
Proof.
  intros d m a d' HR _ _ (o & Ho & -> & ->)%reads_Ok. apply reading_Ok in Ho as ->.
  eexists _, m. split; [done|]. split; [|done]. simpl. by rewrite (rel_projects _ _ HR).
Qed.

Lemma sim_list_projects : simulated ListProjects.
Proof.
  intros d m a d' HR _ _ (l & Ho & -> & ->)%reads_Ok. apply reading_Ok in Ho as ->.
  eexists _, m. split; [done|]. split; [|done]. simpl.
  by rewrite order_by_perm, (rel_projects _ _ HR).
Qed.

Lemma sim_list_keys p : simulated (ListKeys p).
Proof.
  intros d m a d' HR _ _ (l & Ho & -> & ->)%reads_Ok.
  unfold list_keys in Ho. simpl in Ho. unfold sqlite_list_keys in Ho.
  destruct (reading _ d) as [rows|e] eqn:Hr; [|done]. apply reading_Ok in Hr as ->.
  apply (collected_Ok _ key_of) in Ho as ->; [|apply row_to_key_Ok].
  eexists _, m. split; [done|]. split; [|done]. simpl.
  rewrite order_by_perm.
  rewrite (fmap_select key_of _ (λ k, String.eqb (key_project_id k) p)) by done.
  apply Permutation_List_filter. rewrite scan_fmap. by rewrite (rel_keys _ _ HR).
Qed.

Lemma sim_get_key i : simulated (GetKey i).
Proof.
  intros d m a d' HR _ _ (o & Ho & -> & ->)%reads_Ok.
  change (sqlite_get_key d i = Ok o) in Ho. unfold sqlite_get_key in Ho.
  destruct (reading _ d) as [r|e] eqn:Hr; [|done]. apply reading_Ok in Hr as ->.
  apply transposed_key_Ok in Ho as ->. eexists _, m. split; [done|]. split; [|done].
  simpl. by rewrite <- (rel_keys _ _ HR), lookup_fmap.
Qed.

Lemma sim_find_key h : simulated (FindKey h).
Proof.
  intros d m a d' HR Hu _ (o & Ho & -> & ->)%reads_Ok.
  assert (Hmem : ∃ o', find_key_by_hash m h = Ok o') by by eexists.
  destruct Hmem as [o' Ho']. exists (AKey o'), m.
  split; [unfold run; by rewrite Ho'|]. split; [|done]. simpl. f_equal.
  pose proof (rel_keys _ _ HR) as Hk.
  destruct o as [row|].
  - destruct (find_key_sound (M:=SqlDb) d h row Ho) as [Hh [i Hi]]. simpl in Hi.
    rewrite Hk in Hi. destruct o' as [row'|].
    + destruct (find_key_sound (M:=MemMeta) m h row' Ho') as [Hh' [j Hj]]. simpl in Hj.
      assert (i = j) as -> by (by eapply Hu). congruence.
    + pose proof (find_key_complete (M:=MemMeta) m h Ho') as Hn. simpl in Hn.
      by destruct (Hn i row Hi).
  - destruct o' as [row'|]; [|done].
    destruct (find_key_sound (M:=MemMeta) m h row' Ho') as [Hh' [j Hj]]. simpl in Hj.
    pose proof (find_key_complete (M:=SqlDb) d h Ho) as Hn. simpl in Hn.
    rewrite Hk in Hn. by destruct (Hn j row' Hj).
Qed.

Lemma sim_load_routes p : simulated (LoadRoutes p).
Proof.
  intros d m a d' HR _ _ (o & Ho & -> & ->)%reads_Ok.
  change (sqlite_load_routes d p = Ok o) in Ho. unfold sqlite_load_routes in Ho.
  destruct (reading _ d) as [r|e] eqn:Hr; [|done]. apply reading_Ok in Hr as ->.
  eexists _, m. split; [done|]. split; [|done]. simpl. f_equal.
  pose proof (f_equal (lookup p) (rel_routes _ _ HR)) as Hp. rewrite !lookup_fmap in Hp.
  destruct (t_routes d !! p) as [r|]; simpl in Ho, Hp.
  - symmetry in Hp. apply fmap_Some in Hp as ([cfg v] & Hm & [= Hc Hv]).
    rewrite Hm. unfold parsed in Ho. rewrite Hc in Ho.
    rewrite text_roundtrip in Ho by apply (rel_exact_routes _ _ HR p _ Hm).
    simpl in Ho. injection Ho as <-. rewrite Hv. by destruct cfg.
  - injection Ho as <-. symmetry in Hp. by apply fmap_None in Hp as ->.
Qed.

(** What a row of the table reads as, when its thresholds parse. *)
Definition budget_of (r : BudgetRecord) : Budget :=
  {| b_id := bc_id r; b_name := bc_name r; b_target_type := bc_target_type r;
     b_target_id := bc_target_id r; b_period := bc_period r;
     b_amount_usd := bc_amount_usd r;
     b_thresholds := default VNull (from_text (bc_thresholds r)); b_status := bc_status r |}.

Lemma row_to_budget_Ok r b : row_to_budget r = Ok b → b = budget_of r.
Proof.
  unfold row_to_budget, budget_of, parsed.
  destruct (from_text (bc_thresholds r)); simpl; [|done]. by intros [= <-].
Qed.

Lemma budget_of_record b : exact (b_thresholds b) = true → budget_of (budget_record b) = b.
Proof. intros He. unfold budget_of. simpl. rewrite text_roundtrip by done. by destruct b. Qed.

Lemma sim_get_budget i : simulated (GetBudget i).
Proof.
  intros d m a d' HR _ _ (o & Ho & -> & ->)%reads_Ok.
  change (sqlite_get_budget d i = Ok o) in Ho. unfold sqlite_get_budget in Ho.
  destruct (reading _ d) as [r|e] eqn:Hr; [|done]. apply reading_Ok in Hr as ->.
  eexists _, m. split; [done|]. split; [|done]. simpl. f_equal.
  rewrite (rel_budgets _ _ HR), lookup_fmap in Ho.
  destruct (budgets m !! i) as [b|] eqn:Hb; simpl in Ho; [|by injection Ho as <-].
  destruct (row_to_budget _) as [b'|] eqn:Hb'; [|done]. injection Ho as <-.
  apply row_to_budget_Ok in Hb' as ->.
  by rewrite (budget_of_record b (rel_exact_budgets _ _ HR i b Hb)).
Qed.

Lemma sim_list_budgets : simulated ListBudgets.
Proof.
  intros d m a d' HR _ _ (l & Ho & -> & ->)%reads_Ok.
  change (sqlite_list_budgets d = Ok l) in Ho. unfold sqlite_list_budgets in Ho.
  destruct (reading _ d) as [rows|e] eqn:Hr; [|done]. apply reading_Ok in Hr as ->.
  apply (collected_Ok _ budget_of) in Ho as ->; [|apply row_to_budget_Ok].
  eexists _, m. split; [done|]. split; [|done]. simpl.
  rewrite (rel_budgets _ _ HR), <- scan_fmap, <- list_fmap_compose.
  assert (Hid : ∀ bs, Forall (λ b, exact (b_thresholds b) = true) bs →
    (budget_of ∘ budget_record) <$> bs = bs).
  { induction 1 as [|b bs Hb _ IH]; [done|]. cbn. f_equal; [by apply budget_of_record|done]. }
  rewrite Hid; [done|]. apply Forall_forall. intros b [i Hi]%elem_of_hash_values.
  exact (rel_exact_budgets _ _ HR i b Hi).
Qed.

(** The key of an override row: its validity starts at 0. *)
Definition override_key (k : string * string) : string * string * Z := (k.1, k.2, 0).
#[local] Instance override_key_inj : Inj (=) (=) override_key.
Proof. intros [p mo] [p' mo'] [=]. by subst. Qed.

Lemma pricing_kmap d m : related d m → t_pricing d = kmap override_key (pricing m).
Proof.
  intros HR. apply map_eq. intros [[p mo] e]. rewrite (rel_pricing _ _ HR).
  destruct (Z.eqb_spec e 0) as [->|Hne].
  - symmetry. apply (lookup_kmap override_key _ (p, mo)).
  - symmetry. apply (lookup_kmap_None override_key). intros [p' mo'] Hk.
    injection Hk. congruence.
Qed.

Lemma sim_list_pricing : simulated ListPricing.
Proof.
  intros d m a d' HR _ _ (l & Ho & -> & ->)%reads_Ok. apply reading_Ok in Ho as ->.
  eexists _, m. split; [done|]. split; [|done]. simpl.
  rewrite (pricing_kmap _ _ HR), !scan_perm, (map_to_list_kmap override_key), <- list_fmap_compose.
  done.
Qed.

Lemma username_find d m n :
  related d m →
  head (select_where (λ a, String.eqb (admin_username a) n) (scan (t_admins d))) =
  List.find (λ a, String.eqb (admin_username a) n) (hash_values (admins m)).
Proof.
  intros HR. rewrite (rel_admins _ _ HR). unfold scan.
  induction (hash_values (admins m)) as [|a l IH]; [done|]. cbn. by case_match.
Qed.

Lemma sim_find_admin n : simulated (FindAdmin n).
Proof.
  intros d m a d' HR _ _ (o & Ho & -> & ->)%reads_Ok. apply reading_Ok in Ho as ->.
  eexists _, m. split; [done|]. split; [|done]. simpl. f_equal. by apply username_find.
Qed.

Lemma sim_list_admins : simulated ListAdmins.
Proof.
  intros d m a d' HR _ _ (l & Ho & -> & ->)%reads_Ok. apply reading_Ok in Ho as ->.
  eexists _, m. split; [done|]. split; [|done]. simpl.
  by rewrite order_by_perm, (rel_admins _ _ HR).
Qed.

(** * Operations that write *)

(** The relation speaks of the tables, not of the clocks and the failures. *)
Ltac same_tables HR := destruct HR; constructor; simpl in *; try done.

Lemma related_keys d m d' m' t :
  related d m →
  t_projects d' = t_projects d → t_routes d' = t_routes d → t_pricing d' = t_pricing d →
  t_budgets d' = t_budgets d → t_admins d' = t_admins d →
  t_keys d' = t → m' = set_keys m (key_of <$> t) → under_id t → related d' m'.
Proof.
  intros HR Ep Er Eq Eb Ea Ek -> Ht. destruct HR.
  constructor; simpl; rewrite ?Ep, ?Er, ?Eb, ?Ea, ?Ek; try done. by rewrite Eq.
Qed.

Lemma related_now d m : related d m → related d (now_ms m).2.
Proof. intros HR. same_tables HR. Qed.

Lemma sim_create_project p : simulated (CreateProject p).
Proof.
  intros d m a d' HR _ Hc (x & Hs & ->)%writes_Ok.
  apply db_bind_Ok in Hs as (t & d1 & [= <- <-] & Hs).
  apply db_bind_Ok in Hs as ([] & d2 & Hs & [= <- <-]).
  apply statement_Ok in Hs. unfold insert_project, insert_new in Hs. simpl in Hs.
  destruct (t_projects d !! np_id p); [done|]. injection Hs as <-.
  eexists _, _. split; [done|]. simpl. rewrite Hc. split; [done|].
  same_tables HR. congruence.
Qed.

Lemma sim_create_key k : simulated (CreateKey k).
Proof.
  intros d m a d' HR _ Hc (x & Hs & ->)%writes_Ok.
  apply db_bind_Ok in Hs as (t & d1 & [= <- <-] & Hs).
  apply db_bind_Ok in Hs as ([] & d2 & Hs & [= <- <-]).
  apply statement_Ok, insert_key_Ok in Hs as (Hnew & _ & ->).
  eexists _, _. split; [done|]. simpl. rewrite Hc. split; [done|].
  eapply (related_keys d _); simpl;
    [exact (related_now _ _ HR)| | | | | | | |]; try done.
  - unfold set_keys. simpl. f_equal. rewrite fmap_insert, key_of_new.
    by rewrite (rel_keys _ _ HR).
  - apply under_id_insert; [done|]. apply (rel_ids _ _ HR).
Qed.

Lemma sim_revoke i : simulated (RevokeKey i).
Proof.
  intros d m a d' HR _ Hc (x & Hs & ->)%writes_Ok.
  apply db_bind_Ok in Hs as (t & d1 & [= <- <-] & Hs).
  apply db_bind_Ok in Hs as (n & d2 & Hs & Hk).
  apply statement_Ok, update_key_Ok in Hs as [(-> & _ & _)|(r & -> & Hr & ->)]; [done|].
  injection Hk as <- <-. simpl in *.
  assert (Hm : keys m !! i = Some (key_of r)) by by rewrite <- (rel_keys _ _ HR), lookup_fmap, Hr.
  unfold mem_revoke_key. rewrite Hm. eexists _, _. split; [done|]. split; [done|].
  eapply (related_keys d _); simpl;
    [exact (related_now _ _ HR)| | | | | | | |]; try done.
  - unfold set_keys. simpl. f_equal. rewrite fmap_insert, (rel_keys _ _ HR). f_equal.
    by rewrite Hc.
  - apply under_id_insert; [exact (rel_ids _ _ HR i r Hr)|]. apply (rel_ids _ _ HR).
Qed.

Lemma sim_touch i ts : simulated (TouchKey i ts).
Proof.
  intros d m a d' HR _ Hc (x & Hs & ->)%writes_Ok.
  apply db_bind_Ok in Hs as (n & d2 & Hs & [= <- <-]).
  apply statement_Ok, update_key_Ok in Hs as [(-> & Hn & ->)|(r & -> & Hr & ->)];
    simpl in *; unfold mem_touch_key_last_used.
  - assert (Hm : keys m !! i = None) by by rewrite <- (rel_keys _ _ HR), lookup_fmap, Hn.
    rewrite Hm. eexists _, _. split; [done|]. split; [done|]. same_tables HR.
  - assert (Hm : keys m !! i = Some (key_of r))
      by by rewrite <- (rel_keys _ _ HR), lookup_fmap, Hr.
    rewrite Hm. eexists _, _. split; [done|]. split; [done|].
    eapply (related_keys d m); simpl; try done.
    + by rewrite fmap_insert, (rel_keys _ _ HR).
    + apply under_id_insert; [exact (rel_ids _ _ HR i r Hr)|]. apply (rel_ids _ _ HR).
Qed.

(** The effect of [upsert_seeded_key] once it is allowed, as the memory store has it. *)
Lemma upsert_effect k d m d' :
  related d m → clocks_agree d m →
  match kc_origin <$> t_keys d !! nk_id k with
  | Some origin => negb (String.eqb origin KEY_ORIGIN_CONFIG)
  | None => false
  end = false →
  let new := new_key_record k (strings_text (nk_scopes k)) KEY_ORIGIN_CONFIG (now (db_utc d)) in
  let rec := match t_keys d !! nk_id k with Some old => reseed_record old new | None => new end in
  t_projects d' = t_projects d → t_routes d' = t_routes d → t_pricing d' = t_pricing d →
  t_budgets d' = t_budgets d → t_admins d' = t_admins d →
  t_keys d' = insert_or (nk_id k) new reseed_record (t_keys d) →
  ∃ m', mem_upsert_seeded_key m k = (Ok (key_of rec), m') ∧ related d' m'.
Proof.
  intros HR Hc Hadm new rec Ep Er Eq Eb Ea Ek.
  assert (Hm : keys m !! nk_id k = key_of <$> t_keys d !! nk_id k)
    by by rewrite <- (rel_keys _ _ HR), lookup_fmap.
  exists (set_keys (created_at_or_now m (nk_id k)).2 (<[nk_id k := key_of rec]> (keys m))).
  split.
  - unfold mem_upsert_seeded_key, admin_managed, created_at_or_now. rewrite Hm. subst rec.
    destruct (t_keys d !! nk_id k) as [old|]; simpl in Hadm |- *.
    + rewrite Hadm. unfold key_of. simpl. rewrite strings_roundtrip. simpl.
      by apply negb_false_iff, String.eqb_eq in Hadm as ->.
    + subst new. rewrite key_of_new. by rewrite Hc.
  - eapply (related_keys d (created_at_or_now m (nk_id k)).2); try done.
    + unfold created_at_or_now. destruct (keys m !! nk_id k); [done|]. by apply related_now.
    + by rewrite insert_or_insert, fmap_insert, (rel_keys _ _ HR).
    + by apply under_id_upsert, (rel_ids _ _ HR).
Qed.

Lemma sim_upsert_key k : simulated (UpsertKey k).
Proof.
  intros d m a d' HR _ Hc (x & Hs & ->)%writes_Ok.
  apply db_bind_Ok in Hs as (ex & d1 & Hs & Hk).
  apply statement_Ok in Hs as [= <- <-]. simpl in Hk.
  destruct (match kc_origin <$> t_keys d !! nk_id k with Some _ => _ | None => _ end)
    eqn:Hadm; [done|].
  apply db_bind_Ok in Hk as (t & d2 & [= <- <-] & Hk).
  apply db_bind_Ok in Hk as ([] & d2 & Hs & Hk). apply statement_Ok, upsert_key_Ok in Hs as ->.
  apply db_bind_Ok in Hk as (rec & d2 & Hs & Hk). apply statement_Ok in Hs.
  unfold fetch_one in Hs. simpl in Hs. rewrite insert_or_same in Hs.
  injection Hs as Hrec <-. injection Hk as Hrow <-. apply row_to_key_Ok in Hrow as ->.
  edestruct (upsert_effect k d m) as (m' & Hs & HR'); [done|done|done| | | | | | |].
  7: { eexists _, m'. split; [unfold run; simpl; by rewrite Hs|].
       split; [simpl; by rewrite <- Hrec|exact HR']. }
  all: done.
Qed.

(** The stale keys of the two stores are the same rows. *)
Lemma stale_prunable d m p keep :
  related d m →
  key_of <$> filter (λ kv, prunable p keep kv.1 kv.2 = true) (t_keys d) =
  filter (λ kv, stale p keep kv.2 = true) (keys m).
Proof.
  intros HR. rewrite <- (rel_keys _ _ HR). apply map_eq. intros i. apply option_eq. intros row.
  rewrite lookup_fmap, fmap_Some, map_lookup_filter_Some, lookup_fmap, fmap_Some.
  setoid_rewrite map_lookup_filter_Some. simpl.
  assert (Hst : ∀ r, t_keys d !! i = Some r →
    prunable p keep i r = true ↔ stale p keep (key_of r) = true).
  { intros r Hr. pose proof (prunable_false p keep i r (rel_ids _ _ HR i r Hr)) as Hf.
    pose proof (stale_true p keep (key_of r)) as Ht.
    destruct (prunable p keep i r), (stale p keep (key_of r)); intuition congruence. }
  split.
  - intros (r & [Hr Hp] & ->). split; [by exists r|]. by apply Hst.
  - intros [(r & Hr & ->) Hp]. exists r. split; [|done]. split; [done|]. by apply Hst.
Qed.

Lemma filter_count {V} (p : V → bool) (t : gmap string V) :
  length (List.filter p (hash_values t)) = size (filter (λ kv, p kv.2 = true) t).
Proof.
  unfold hash_values.
  assert (Hl : ∀ l : list (string * V), length (List.filter p l.*2) =
    length (filter (λ kv, p kv.2 = true) l)).
  { induction l as [|[i v] l IH]; [done|]. cbn [fmap list_fmap List.filter snd].
    rewrite filter_cons. cbn [snd]. destruct (p v); simpl; by rewrite IH. }
  rewrite Hl, map_filter_alt, map_size_list_to_map.
  - apply Permutation_length. by rewrite hash_iter_perm.
  - eapply sublist_NoDup; [apply (NoDup_fst_map_to_list t)|]. f_equiv. apply sublist_filter.
Qed.

Lemma sim_prune p keep : simulated (PruneKeys p keep).
Proof.
  intros d m a d' HR _ Hc (x & Hs & ->)%writes_Ok. apply statement_Ok in Hs.
  unfold delete_where in Hs. injection Hs as <- <-.
  eexists _, _. split; [done|]. split.
  - simpl. f_equal. unfold blen. rewrite length_fmap, filter_count. f_equal.
    rewrite <- (stale_prunable d m p keep HR). by rewrite map_size_fmap.
  - eapply (related_keys d m); simpl; try done.
    + unfold set_keys. f_equal. rewrite (prune_records p keep _ (rel_ids _ _ HR)).
      rewrite (rel_keys _ _ HR). apply (prune_keys m p keep).
      intros i row Hrow. rewrite <- (rel_keys _ _ HR), lookup_fmap in Hrow.
      apply fmap_Some in Hrow as (r & Hr & ->). exact (rel_ids _ _ HR i r Hr).
    + intros i r. rewrite map_lookup_filter_Some. intros [Hr _]. by apply (rel_ids _ _ HR).
Qed.

Lemma sim_upsert_routes p cfg v : simulated (UpsertRoutes p cfg v).
Proof.
  intros d m a d' HR Hex Hc ([] & Hs & ->)%writes_Ok.
  apply db_bind_Ok in Hs as (t & d1 & [= <- <-] & Hs). apply statement_Ok in Hs.
  unfold upsert_route, references_project in Hs. simpl in Hs.
  destruct (t_projects d !! p); [|done]. injection Hs as <-.
  eexists _, _. split; [done|]. split; [done|]. simpl.
  same_tables HR.
  - rewrite insert_or_insert, !fmap_insert. f_equal; [|done].
    by destruct (t_routes d !! p).
  - by apply map_Forall_insert_2.
Qed.

Lemma sim_upsert_budget b : simulated (UpsertBudget b).
Proof.
  intros d m a d' HR Hex Hc ([] & Hs & ->)%writes_Ok. apply statement_Ok in Hs.
  unfold upsert_budget_row in Hs. destruct (real_not_null _); [|done].
  injection Hs as <-. eexists _, _. split; [done|]. split; [done|]. simpl.
  same_tables HR.
  - rewrite insert_or_insert, fmap_insert, rel_budgets0. by destruct (_ !! b_id b).
  - by apply map_Forall_insert_2.
Qed.

Lemma sim_upsert_pricing p : simulated (UpsertPricing p).
Proof.
  intros d m a d' HR Hnn Hc ([] & Hs & ->)%writes_Ok. apply statement_Ok in Hs.
  unfold upsert_price in Hs. do 2 (destruct (real_not_null _); [|done]).
  injection Hs as <-. eexists _, _. split; [done|]. split; [done|]. simpl in *.
  assert (Hp : priced_row p = p) by (unfold priced_row; rewrite Hnn; by destruct p).
  same_tables HR.
  - intros pr mo e. rewrite insert_or_insert.
    replace (match t_pricing d !! _ with Some _ => _ | None => _ end) with p
      by (rewrite Hp; by case_match).
    destruct (decide ((pr, mo, e) = (pr_provider p, pr_model p, 0))) as [[= -> -> ->]|Hne].
    + by rewrite !lookup_insert_eq.
    + rewrite lookup_insert_ne by done. rewrite rel_pricing0.
      destruct (Z.eqb_spec e 0) as [->|]; [|done]. rewrite lookup_insert_ne; congruence.
  - intros pr mo row. rewrite lookup_insert_Some. intros [[[= <- <-] <-]|[_ Hr]]; [done|].
    by eapply rel_priced0.
Qed.

Lemma sim_delete_pricing p mo : simulated (DeletePricing p mo).
Proof.
  intros d m a d' HR _ Hc ([] & Hs & ->)%writes_Ok. apply statement_Ok in Hs.
  unfold delete_price, delete_where in Hs. injection Hs as <-.
  eexists _, _. split; [done|]. split; [done|]. simpl in *.
  same_tables HR.
  - intros pr mo' e. apply option_eq. intros row.
    rewrite map_lookup_filter_Some, rel_pricing0. simpl.
    destruct (Z.eqb_spec e 0) as [->|]; [|naive_solver].
    rewrite lookup_delete_Some, andb_false_iff, !String.eqb_neq. split.
    + intros [Hr Hne]. destruct (rel_priced0 _ _ _ Hr) as [<- <-].
      split; [|done]. intros [= -> ->]. tauto.
    + intros [Hne Hr]. destruct (rel_priced0 _ _ _ Hr) as [<- <-]. split; [done|].
      destruct (decide (pr_provider row = p)) as [Hp|]; [|by left].
      right. intros Hm. apply Hne. congruence.
  - intros pr mo' row [_ Hr]%lookup_delete_Some. by eapply rel_priced0.
Qed.

Lemma sim_create_admin u : simulated (CreateAdmin u).
Proof.
  intros d m a d' HR _ Hc (x & Hs & ->)%writes_Ok.
  apply db_bind_Ok in Hs as (t & d1 & [= <- <-] & Hs).
  apply db_bind_Ok in Hs as (r & d2 & Hs & Hk).
  destruct r as [[]|e]; [|done]. injection Hk as <- <-.
  unfold execute in Hs. simpl in Hs. destruct (db_faults d 0%nat); [done|].
  unfold insert_admin, insert_new, guard_err, scan in Hs. simpl in Hs.
  destruct (existsb _ _) eqn:Hnew; [done|].
  destruct (t_admins d !! na_id u) eqn:Hid; [done|]. injection Hs as <-. simpl in *.
  assert (Hex : mem_create_admin_user m u =
    (Ok (new_admin u (now (db_utc d))),
     set_admins (now_ms m).2 (<[na_id u := new_admin u (now (db_utc d))]> (admins m)))).
  { unfold mem_create_admin_user. simpl. rewrite <- (rel_admins _ _ HR), Hnew, Hc. done. }
  eexists _, _. split; [unfold run; simpl; by rewrite Hex|]. split; [done|]. simpl.
  assert (Hfree : ∀ i b, admins m !! i = Some b → admin_username b ≠ na_username u).
  { intros i b Hb Heq. apply not_true_iff_false in Hnew. apply Hnew, existsb_exists.
    exists b. split; [|by apply String.eqb_eq]. apply list_elem_of_In, elem_of_hash_values.
    exists i. by rewrite (rel_admins _ _ HR). }
  same_tables HR.
  - by rewrite rel_admins0.
  - intros i j b c. rewrite !lookup_insert_Some.
    intros [[<- <-]|[Hi Hb]] [[<- <-]|[Hj Hcc]] Heq; try done.
    + by destruct (Hfree j c Hcc).
    + by destruct (Hfree i b Hb).
    + by eapply rel_usernames0.
Qed.

Lemma sim_touch_admin i ts : simulated (TouchAdmin i ts).
Proof.
  intros d m a d' HR _ Hc ([] & Hs & ->)%writes_Ok.
  apply db_bind_Ok in Hs as (n & d2 & Hs & [= <-]). apply statement_Ok in Hs.
  destruct (update_at _ _ _) as [n' t'] eqn:Hu. injection Hs as <- <-. simpl in *.
  unfold mem_touch_admin_last_login. rewrite <- (rel_admins _ _ HR).
  apply update_at_lookup in Hu as [(-> & Hn & ->)|(b & -> & Hb & ->)].
  - rewrite Hn. eexists _, _. split; [done|]. split; [done|]. same_tables HR.
  - rewrite Hb. eexists _, _. split; [done|]. split; [done|].
    rewrite (rel_admins _ _ HR) in Hb |- *. same_tables HR.
    intros j k a c. rewrite !lookup_insert_Some.
    intros [[<- <-]|[Hi Ha]] [[<- <-]|[Hj Hcc]] Heq; try done; simpl in Heq.
    + by eapply rel_usernames0.
    + by eapply rel_usernames0.
    + by eapply rel_usernames0.
Qed.

Lemma simulation o : simulated o.
Proof.
  destruct o.
  - apply sim_create_project.
  - apply sim_get_project.
  - apply sim_list_projects.
  - apply sim_create_key.
  - apply sim_list_keys.
  - apply sim_get_key.
  - apply sim_find_key.
  - apply sim_revoke.
  - apply sim_touch.
  - apply sim_upsert_key.
  - apply sim_prune.
  - apply sim_upsert_routes.
  - apply sim_load_routes.
  - apply sim_upsert_budget.
  - apply sim_list_budgets.
  - apply sim_get_budget.
  - apply sim_upsert_pricing.
  - apply sim_list_pricing.
  - apply sim_delete_pricing.
  - apply sim_create_admin.
  - apply sim_find_admin.
  - apply sim_list_admins.
  - apply sim_touch_admin.
Qed.

(** * Operations that fail *)

(** The tables of [d'] are those of [d]. *)
Definition tables_kept (d d' : SqlDb) : Prop :=
  t_projects d' = t_projects d ∧ t_keys d' = t_keys d ∧ t_routes d' = t_routes d ∧
  t_pricing d' = t_pricing d ∧ t_budgets d' = t_budgets d ∧ t_admins d' = t_admins d.

Lemma related_kept d d' m : tables_kept d d' → related d m → related d' m.
Proof.
  intros (Ep & Ek & Er & Eq & Eb & Ea) HR. destruct HR.
  constructor; rewrite ?Ep, ?Ek, ?Er, ?Eb, ?Ea; try done. by rewrite Eq.
Qed.

(** A writer that changes nothing when it fails. *)
Definition atomic {A} (w : db A) : Prop := ∀ d e d', w d = (Err e, d') → tables_kept d d'.
Definition preparing {A} (w : db A) : Prop := ∀ d r d', w d = (r, d') → tables_kept d d'.

Lemma atomic_statement {A} (f : SqlDb → result (A * SqlDb) DbError) : atomic (statement f).
Proof. by intros d e d' ->%statement_Err. Qed.

Lemma preparing_clock : preparing db_clock.
Proof. by intros d r d' [= <- <-]. Qed.

Lemma atomic_after {A B} (w : db A) (k : A → db B) :
  preparing w → (∀ a, atomic (k a)) → atomic (db_bind w k).
Proof.
  intros Hw Hk d e d' [(e' & Hd & _)|(a & d1 & Hd & Hs)]%db_bind_inv; [by apply Hw in Hd|].
  apply Hw in Hd as (? & ? & ? & ? & ? & ?). apply Hk in Hs as (? & ? & ? & ? & ? & ?).
  unfold tables_kept. split_and!; congruence.
Qed.

Lemma atomic_before {A B} (w : db A) (k : A → db B) :
  atomic w → (∀ a d e d', k a d ≠ (Err e, d')) → atomic (db_bind w k).
Proof.
  intros Hw Hk d e d' [(e' & Hd & _)|(a & d1 & Hd & Hs)]%db_bind_inv; [by apply Hw in Hd|].
  by apply Hk in Hs.
Qed.
Create HintDb atomic.
#[local] Hint Resolve atomic_statement preparing_clock : atomic.

Lemma atomic_revoke i : atomic (sqlite_revoke_key i).
Proof.
  apply atomic_after; [auto with atomic|]. intros ts d e d'
    [(e' & Hs & _)|(n & d1 & Hs & Hk)]%db_bind_inv; [by apply statement_Err in Hs as ->|].
  apply statement_Ok, update_key_Ok in Hs as [(-> & _ & ->)|(r & -> & _ & ->)]; [|done].
  simpl in Hk. by injection Hk as <- <-.
Qed.

Lemma atomic_create_admin u : atomic (sqlite_create_admin_user u).
Proof.
  apply atomic_after; [auto with atomic|]. intros t d e d'
    [(e' & Hs & _)|(r & d1 & Hs & Hk)]%db_bind_inv.
  - unfold execute in Hs. destruct (db_faults d 0%nat); [done|].
    by destruct (insert_admin _ _) as [[? ?]|].
  - unfold execute in Hs. destruct (db_faults d 0%nat).
    { injection Hs as <- <-. by injection Hk as <- <-. }
    destruct (insert_admin _ _) as [[? ?]|]; injection Hs as <- <-; [done|].
    by injection Hk as <- <-.
Qed.

(** What a failed operation leaves: the tables as they were or, for the
    upsert of a seeded key whose row could not be read back, the row written. *)
Lemma failed_upsert_key k d m e d' :
  related d m → clocks_agree d m → sqlite_upsert_seeded_key k d = (Err e, d') →
  related d' m ∨ ∃ row m', mem_upsert_seeded_key m k = (Ok row, m') ∧ related d' m'.
Proof.
  intros HR Hc [(e' & Hs & _)|(ex & d1 & Hs & Hk)]%db_bind_inv.
  { apply statement_Err in Hs as ->. left. by apply (related_kept d). }
  apply statement_Ok in Hs as [= <- <-]. simpl in Hk.
  destruct (match kc_origin <$> t_keys d !! nk_id k with Some _ => _ | None => _ end) eqn:Hadm.
  { injection Hk as <- <-. left. by apply (related_kept d). }
  apply db_bind_inv in Hk as [(e' & [=] & _)|(t & d2 & [= <- <-] & Hk)].
  apply db_bind_inv in Hk as [(e' & Hs & _)|([] & d2 & Hs & Hk)].
  { apply statement_Err in Hs as ->. left. by apply (related_kept d). }
  apply statement_Ok, upsert_key_Ok in Hs as ->. right.
  apply db_bind_inv in Hk as [(e' & Hs & _)|(rec & d2 & Hs & Hk)].
  - apply statement_Err in Hs as ->.
    edestruct (upsert_effect k d m) as (m' & Hs & HR'); [done|done|done| | | | | | |].
    7: { eexists _, m'. split; [exact Hs|exact HR']. }
    all: done.
  - apply statement_Ok in Hs. unfold fetch_one in Hs. simpl in Hs. rewrite insert_or_same in Hs.
    injection Hs as _ <-. injection Hk as _ <-.
    edestruct (upsert_effect k d m) as (m' & Hs & HR'); [done|done|done| | | | | | |].
    7: { eexists _, m'. split; [exact Hs|exact HR']. }
    all: done.
Qed.

Lemma failure o d m e d' :
  related d m → clocks_agree d m → run o d = (Err e, d') →
  related d' m ∨ ∃ k a m', o = UpsertKey k ∧ run o m = (Ok a, m') ∧ related d' m'.
Proof.
  intros HR Hc Hr.
  assert (Hw : ∀ A (w : db A) (f : A → Answer),
    atomic w → writes f (w d) = (Err e, d') → related d' m).
  { intros A w f Ha Hf. unfold writes in Hf.
    destruct (w d) as [[x|e'] d1] eqn:Hd; [done|]. injection Hf as -> <-.
    apply (related_kept d); [by eapply Ha|done]. }
  assert (Hd : ∀ A (x : store_result A) (f : A → Answer),
    reads f x d = (Err e, d') → related d' m) by (intros A x f [= _ <-]; done).
  destruct o; try (left; by eapply Hd).
  all: lazymatch type of Hr with
    | run (UpsertKey ?k) _ = _ =>
        unfold run, writes in Hr; simpl in Hr;
        destruct (sqlite_upsert_seeded_key k d) as [[x|e'] d1] eqn:Hk; [done|];
        injection Hr as -> <-; apply failed_upsert_key with (m := m) in Hk
    | _ => left; eapply Hw; [|exact Hr]
    end.
  all: try solve [auto using atomic_revoke, atomic_create_admin with atomic].
  all: try by (apply atomic_after; [auto with atomic|intros t; auto with atomic]).
  all: try by (apply atomic_after; [auto with atomic|intros t; apply atomic_before;
                 [apply atomic_statement|done]]).
  all: try by (apply atomic_before; [apply atomic_statement|done]).
  all: try apply atomic_statement.
  destruct Hk as [Hk|(row & m' & Hk & HR')]; [by left|]. right.
  eexists _, _, m'. split; [done|]. split; [|exact HR']. unfold run. simpl. by rewrite Hk.
Qed.

(** * The order of lists *)

Lemma order_by_sorted {V} (f : V → Z) (R : relation V) `{!RelDecision R} rows :
  (R = ascending f ∨ R = descending f) → StronglySorted R (order_by R rows).
Proof.
  intros HR. apply StronglySorted_merge_sort.
  - destruct HR as [->| ->]; intros a b c; unfold ascending, descending; lia.
  - destruct HR as [->| ->]; intros a b; unfold ascending, descending; lia.
Qed.

Lemma StronglySorted_map {V W} (g : V → W) (R : relation V) (S : relation W) l :
  (∀ a b, R a b → S (g a) (g b)) → StronglySorted R l → StronglySorted S (g <$> l).
Proof.
  intros Hg. induction 1 as [|a l _ IH Ha]; cbn; constructor; [done|].
  apply Forall_fmap. eapply Forall_impl; [exact Ha|]. intros b. apply Hg.
Qed.

Lemma run_ordered o (d d' : SqlDb) a : run o d = (Ok a, d') → ordered_answer a.
Proof.
  destruct o; cbn [run]; intros Hr;
    first [apply reads_Ok in Hr as (x & Hx & -> & _)|apply writes_Ok in Hr as (x & _ & ->)];
    try done.
  - change (sqlite_list_projects d = Ok x) in Hx. apply reading_Ok in Hx as ->.
    apply (order_by_sorted project_created_at). by left.
  - cbn [list_keys sqlite_metadata] in Hx. unfold sqlite_list_keys in Hx.
    destruct (reading _ d) as [rows|e] eqn:Hd; [|done]. apply reading_Ok in Hd as ->.
    apply (collected_Ok _ key_of) in Hx as ->; [|apply row_to_key_Ok].
    eapply StronglySorted_map; [|apply (order_by_sorted kc_created_at); by right].
    unfold descending. intros r s. cbn. lia.
  - change (sqlite_list_admin_users d = Ok x) in Hx. apply reading_Ok in Hx as ->.
    apply (order_by_sorted admin_created_at). by left.
Qed.
End Relation.

(** An empty database and an empty store are related. *)
Lemma related_new `{HashOrder} `{SerdeLaws} `{SqlEngine} f c c' :
  related (db_new f c) (meta_new c').
Proof.
  constructor; simpl; try done; try (by rewrite ?fmap_empty).
  intros p mo e. by destruct (e =? 0).
Qed.

(** C6: The SQLite metadata store implements the in-memory one: in related states
    and at the same clock reading, an operation that succeeds on SQLite succeeds
    in memory with the same answer and leaves related states; lists have the same
    elements, projects and administrators listed by creation, keys the newest
    first; an operation that fails on SQLite has changed nothing, except that the
    upsert of a seeded key may have been applied when its row could not be read
    back. *)
Theorem sqlite_simulates_memory `{HashOrder} `{SerdeLaws} `{SqlEngine} o d m r d' :
  related d m → comparable o m → now (db_utc d) = now (meta_utc m) →
  run o d = (r, d') →
  match r with
  | Ok a => ordered_answer a ∧
      ∃ a' m', run o m = (Ok a', m') ∧ same_answer a a' ∧ related d' m'
  | Err _ => related d' m ∨
      ∃ k a' m', o = UpsertKey k ∧ run o m = (Ok a', m') ∧ related d' m'
  end.
Proof.
  intros HR Hcmp Hc Hr. destruct r as [a|e].
  - split; [by eapply run_ordered|]. by apply (simulation o d m a d').
  - by apply (failure o d m e d').
Qed.

(** * An example: a project, then a key seeded in it *)

Section Example.
#[local] Existing Instance tree_order.
#[local] Existing Instance codec.
#[local] Existing Instance codec_laws.
#[local] Instance plain_engine : SqlEngine := {| db_error_text _ := "error" |}.

Definition demo_project : NewProject := {| np_id := "p"; np_name := "Demo" |}.
Definition demo_key : NewGatewayKey :=
  {| nk_id := "k"; nk_project_id := "p"; nk_name := "key"; nk_prefix := "gw_";
     nk_hash := [Byte.x01]; nk_last4 := "abcd"; nk_scopes := ["chat"]%string;
     nk_expires_at := None; nk_origin := KEY_ORIGIN_CONFIG |}.

Definition demo_db : SqlDb := (run (CreateProject demo_project) (db_new reliable (λ _, 7))).2.
Definition demo_mem : MemMeta := (run (CreateProject demo_project) (meta_new (λ _, 7))).2.

Lemma demo_related : related demo_db demo_mem.
Proof.
  destruct (simulation (CreateProject demo_project) (db_new reliable (λ _, 7))
    (meta_new (λ _, 7)) (AProject (Some
      {| project_row_id := "p"; project_name := "Demo"; project_created_at := 7 |})) demo_db)
    as (a' & m' & Hr & _ & HR); [apply related_new|done..|].
  by injection Hr as _ <-.
Qed.

Lemma sqlite_simulates_memory_witness :
  ∃ row d', run (UpsertKey demo_key) demo_db = (Ok (AKey (Some row)), d') ∧
    ∃ a' m', run (UpsertKey demo_key) demo_mem = (Ok a', m') ∧
      same_answer (AKey (Some row)) a' ∧ related d' m'.
Proof.
  eexists _, _. split; [vm_compute; reflexivity|].
  refine (proj2 (sqlite_simulates_memory (UpsertKey demo_key) demo_db demo_mem (Ok _) _ _ _ _ _)).
  - exact demo_related.
  - exact I.
  - reflexivity.
  - vm_compute. reflexivity.
Defined.
End Example.
