(* ===== verification/PostgresRefine.v ===== *)
(** The two SQL metadata stores agree, but for numbers that are not numbers. *)
From Stdlib Require Import ZArith Lia Bool String SpecFloat.
From stdpp Require Import prelude gmap strings list sorting.
From S2P Require Import Prelude Text F64 Json Errors Models Stores MemoryMeta Sql Codec SqliteMeta SqliteRefine PostgresMeta.
Open Scope Z_scope.

(** No NaN among the numbers an operation stores. *)
Definition numeric (o : Op) : bool :=
  match o with
  | UpsertBudget b => negb (is_nan (b_amount_usd b))
  | UpsertPricing p =>
      negb (is_nan (pr_input_per_1k p)) && negb (is_nan (pr_output_per_1k p)) &&
      match pr_cached_input_per_1k p with Some x => negb (is_nan x) | None => true end
  | _ => true
  end.

Section Agree.
Context `{HashOrder} `{SerdeJson} `{SqlEngine}.

Lemma writes_tables {A} (f : A → Answer) (w : db A) d :
  writes f (on_tables w d) =
  ((writes f (w (pg_tables d))).1, {| pg_tables := (writes f (w (pg_tables d))).2 |}).
Proof. unfold writes, on_tables. by destruct (w (pg_tables d)) as [[a|e] t]. Qed.

Lemma upsert_budget_numeric b :
  is_nan (b_amount_usd b) = false → pg_upsert_budget b = sqlite_upsert_budget b.
Proof.
  intros Hn. unfold pg_upsert_budget, sqlite_upsert_budget, upsert_budget_row, real_not_null.
  cbn [bc_amount_usd budget_record bc_id]. by rewrite Hn.
Qed.

Lemma upsert_pricing_numeric p :
  numeric (UpsertPricing p) = true → pg_upsert_pricing p = sqlite_upsert_pricing p.
Proof.
  cbn [numeric]. rewrite !andb_true_iff, !negb_true_iff. intros [[Hi Ho] Hc].
  unfold pg_upsert_pricing, sqlite_upsert_pricing, upsert_price, real_not_null. rewrite Hi, Ho.
  assert (Hp : priced_row p = p); [|by cbn; rewrite Hp].
  unfold priced_row, real_or_null, opt_filter. destruct p; cbn in *.
  destruct pr_cached_input_per_1k; [by rewrite Hc|done].
Qed.
End Agree.

(** PostgreSQL and SQLite agree on every operation of the metadata store whose
    numbers are numbers: from the same tables, the same answer and the same tables,
    failures included. *)
Theorem postgres_matches_sqlite `{HashOrder} `{SerdeJson} `{SqlEngine} o d :
  numeric o = true →
  run o d = ((run o (pg_tables d)).1, {| pg_tables := (run o (pg_tables d)).2 |}).
Proof.
  intros Hn. destruct o; try by destruct d.
  all: try apply writes_tables.
  - cbn [run]. change (upsert_budget d b) with (on_tables (pg_upsert_budget b) d).
    rewrite upsert_budget_numeric by by apply negb_true_iff in Hn. apply writes_tables.
  - cbn [run]. change (upsert_pricing d p) with (on_tables (pg_upsert_pricing p) d).
    rewrite upsert_pricing_numeric by done. apply writes_tables.
Qed.

Section Example.
#[local] Existing Instance tree_order.
#[local] Existing Instance codec.
#[local] Instance pg_plain_engine : SqlEngine := {| db_error_text _ := "error" |}.

Definition pg_budget : Budget :=
  {| b_id := "b"; b_name := "n"; b_target_type := "project"; b_target_id := "p";
     b_period := "monthly"; b_amount_usd := f64_of_Z 5; b_thresholds := VArray [];
     b_status := "active" |}.

Lemma postgres_matches_sqlite_witness :
  (run (UpsertBudget pg_budget) {| pg_tables := db_new reliable (λ _, 7) |}).1 = Ok ADone.
Proof.
  rewrite (postgres_matches_sqlite (UpsertBudget pg_budget)); vm_compute; reflexivity.
Defined.
End Example.
