(* ===== verification/MemoryLog.v ===== *)
(** The in-memory log store, a ring buffer: gateway-storage/src/memory/mod.rs
    ([MemoryLogStore]). *)
From Stdlib Require Import ZArith Lia String SpecFloat.
From stdpp Require Import prelude gmap strings list sorting.
From S2P Require Import Prelude Text F64 Json Errors Models Stores Pricing.
Open Scope Z_scope.

Record MemoryLogStore : Type := { log_records : list RequestLogRecord; capacity : nat }.

Definition log_new (capacity : nat) : MemoryLogStore :=
  {| log_records := []; capacity := capacity |}.

Definition set_records (l : MemoryLogStore) (rs : list RequestLogRecord) : MemoryLogStore :=
  {| log_records := rs; capacity := capacity l |}.

(** The provider of the last attempt in the metadata trace. *)
Definition last_attempt_provider (r : RequestLogRecord) : option string :=
  m ← metadata r;
  a ← get m "attempts";
  a ← as_array a;
  x ← last a;
  p ← get x "provider";
  as_str p.

(** [resolve_provider]. *)
Definition log_provider (r : RequestLogRecord) : option string :=
  or_else (or_else (fallback_used r) (last_attempt_provider r)) (namespace r).

(** [Vec::remove(0)] panics on an empty vector. *)
Definition mem_append (rec : RequestLogRecord) : prog MemoryLogStore (store_result unit) :=
  λ l,
    if (capacity l <=? length (log_records l))%nat then
      match log_records l with
      | [] => Panic
      | _ :: rest => Ret (Ok (), set_records l (rest ++ [rec]))
      end
    else Ret (Ok (), set_records l (log_records l ++ [rec])).

(** [o.map_or(true, f)] *)
Definition holds_or_absent {A} (o : option A) (f : A → bool) : bool :=
  match o with Some a => f a | None => true end.
Definition opt_is (o : option string) (s : string) : bool :=
  match o with Some t => String.eqb t s | None => false end.

(** The filter of [query]; the key and the cursor of the query are not used. *)
Definition query_matches (q : LogQuery) (r : RequestLogRecord) : bool :=
  holds_or_absent (q_project_id q) (String.eqb (project_id r)) &&
  holds_or_absent (q_namespace q) (opt_is (namespace r)) &&
  holds_or_absent (q_model q) (opt_is (model r)) &&
  holds_or_absent (q_status q) (String.eqb (status r)) &&
  holds_or_absent (q_from_ts q) (λ f, f <=? request_ts r) &&
  holds_or_absent (q_to_ts q) (λ t, request_ts r <=? t).

Definition log_row (r : RequestLogRecord) : RequestLogRow :=
  {| row_id := id r; row_project_id := project_id r;
     row_gateway_key_id := gateway_key_id r; row_namespace := namespace r;
     row_model := model r; row_endpoint := endpoint r;
     row_request_ts := request_ts r; row_duration_ms := duration_ms r;
     row_status := status r; row_http_status := http_status r;
     row_cached := cached r; row_retry_count := retry_count r;
     row_prompt_tokens := prompt_tokens r;
     row_completion_tokens := completion_tokens r; row_cost_usd := cost_usd r;
     row_request_body := request_body r |}.

(** The stable sort by decreasing timestamp. *)
Fixpoint insert_newest (x : RequestLogRow) (l : list RequestLogRow) : list RequestLogRow :=
  match l with
  | [] => [x]
  | y :: r =>
      if row_request_ts y <=? row_request_ts x then x :: l
      else y :: insert_newest x r
  end.
Definition newest_first (l : list RequestLogRow) : list RequestLogRow :=
  foldr insert_newest [] l.

Definition query_limit (q : LogQuery) : Z :=
  if q_limit q =? 0 then 50 else Z.min (q_limit q) 500.

Definition mem_query (l : MemoryLogStore) (q : LogQuery) :
    store_result (Page RequestLogRow) :=
  let rows := log_row <$> List.filter (query_matches q) (log_records l) in
  Ok {| items := take (Z.to_nat (query_limit q)) (newest_first rows);
        next_cursor := None |}.

Definition mem_get_by_id (l : MemoryLogStore) (i : string) :
    store_result (option RequestLogRecord) :=
  Ok (List.find (λ r, String.eqb (id r) i) (log_records l)).

(** The three early [continue]s of [aggregate]. *)
Definition aggregated (q : AggregateQuery) (r : RequestLogRecord) : bool :=
  holds_or_absent (aq_project_id q) (String.eqb (project_id r)) &&
  holds_or_absent (aq_from_ts q) (λ f, f <=? request_ts r) &&
  holds_or_absent (aq_to_ts q) (λ t, request_ts r <=? t).

(** The accumulators: total, requests, prompt, completion. *)
Definition aggregate_step (acc : f64 * Z * Z * Z) (r : RequestLogRecord) :
    f64 * Z * Z * Z :=
  let '(total, requests, prompt, completion) := acc in
  (f64_add total (default f64_zero (cost_usd r)), as_i64 (requests + 1),
   as_i64 (prompt + default 0 (prompt_tokens r)),
   as_i64 (completion + default 0 (completion_tokens r))).

Definition mem_aggregate (l : MemoryLogStore) (q : AggregateQuery) :
    store_result AggregateResult :=
  let '(total, requests, prompt, completion) :=
    foldl aggregate_step (f64_zero, 0, 0, 0)
      (List.filter (aggregated q) (log_records l)) in
  Ok {| total_cost_usd := total;
        groups :=
          [{| ag_key := VNull; ag_requests := requests; ag_prompt_tokens := prompt;
              ag_completion_tokens := completion; ag_cost_usd := total;
              ag_cached_savings_usd := f64_zero |}] |}.

Definition mem_purge_older_than (l : MemoryLogStore) (ts : Z) :
    store_result Z * MemoryLogStore :=
  let kept := List.filter (λ r, ts <=? request_ts r) (log_records l) in
  (Ok (blen (log_records l) - blen kept), set_records l kept).

(** ** Costs *)

Definition has_tokens (r : RequestLogRecord) : bool :=
  match prompt_tokens r, completion_tokens r with None, None => false | _, _ => true end.

Definition in_window (from to : option Z) (r : RequestLogRecord) : bool :=
  holds_or_absent from (λ f, f <=? request_ts r) &&
  holds_or_absent to (λ t, request_ts r <=? t).

Definition cost_key (r : RequestLogRecord) : option (string * string) :=
  p ← log_provider r; m ← model r; Some (p, m).

(** The derived order on pairs of strings. *)
Definition pair_le (a b : string * string) : Prop :=
  str_le a.1 b.1 ∧ (a.1 = b.1 → str_le a.2 b.2).
#[export] Instance pair_le_dec : RelDecision pair_le.
Proof. intros a b. unfold pair_le. apply _. Defined.

(** [Vec::dedup]: drops an element equal to the one before it. *)
Fixpoint dedup {A} `{EqDecision A} (l : list A) : list A :=
  match l with
  | x :: ((y :: _) as r) => if decide (x = y) then dedup r else x :: dedup r
  | _ => l
  end.

Definition mem_distinct_cost_keys (l : MemoryLogStore) (from to : option Z) :
    store_result (list (string * string)) :=
  let keys :=
    omap cost_key
      (List.filter (λ r, has_tokens r && in_window from to r) (log_records l)) in
  Ok (dedup (merge_sort pair_le keys)).

(** Whether [recompute_costs] leaves a record alone. *)
Definition recompute_skips (provider model_ : string) (from to : option Z)
    (r : RequestLogRecord) : bool :=
  negb (opt_is (log_provider r) provider) || negb (opt_is (model r) model_) ||
  negb (has_tokens r) || negb (in_window from to r).

(** The cost of a record at the given rates. *)
Definition recomputed_cost (input_per_1k cached_input_per_1k output_per_1k : f64)
    (r : RequestLogRecord) : f64 :=
  let prompt := default 0 (prompt_tokens r) in
  let cached := default 0 (cached_tokens r) in
  let completion := default 0 (completion_tokens r) in
  round6 (f64_add (f64_add
    (charge (as_i64 (prompt - cached)) input_per_1k)
    (charge cached cached_input_per_1k))
    (charge completion output_per_1k)).

Definition set_costs (r : RequestLogRecord) (cost would_have : option f64) :
    RequestLogRecord :=
  {| id := id r; project_id := project_id r; gateway_key_id := gateway_key_id r;
     namespace := namespace r; model := model r; endpoint := endpoint r;
     request_ts := request_ts r; duration_ms := duration_ms r;
     upstream_ms := upstream_ms r; ttfb_ms := ttfb_ms r; status := status r;
     http_status := http_status r; cached := cached r; retry_count := retry_count r;
     fallback_used := fallback_used r; prompt_tokens := prompt_tokens r;
     completion_tokens := completion_tokens r; cached_tokens := cached_tokens r;
     total_tokens := total_tokens r; cost_usd := cost;
     would_have_cost_usd := would_have; metadata := metadata r;
     client_ip := client_ip r; user_agent := user_agent r;
     error_message := error_message r; request_body := request_body r;
     response_body := response_body r |}.

Definition recompute_record (provider model_ : string)
    (input_per_1k cached_input_per_1k output_per_1k : f64) (from to : option Z)
    (r : RequestLogRecord) : RequestLogRecord :=
  if recompute_skips provider model_ from to r then r
  else
    let cost := recomputed_cost input_per_1k cached_input_per_1k output_per_1k r in
    set_costs r (Some (if cached r then f64_zero else cost)) (Some cost).

Definition mem_recompute_costs (l : MemoryLogStore) (provider model_ : string)
    (input_per_1k cached_input_per_1k output_per_1k : f64) (from to : option Z) :
    store_result Z * MemoryLogStore :=
  (Ok (blen (List.filter (λ r, negb (recompute_skips provider model_ from to r))
               (log_records l))),
   set_records l
     (recompute_record provider model_ input_per_1k cached_input_per_1k output_per_1k
        from to <$> log_records l)).

#[export] Instance memory_log : LogStore MemoryLogStore := {
  append := mem_append;
  query := mem_query;
  get_by_id := mem_get_by_id;
  aggregate := mem_aggregate;
  purge_older_than := mem_purge_older_than;
  distinct_cost_keys := mem_distinct_cost_keys;
  recompute_costs := mem_recompute_costs;
  flush l := (Ok (), l)
}.

(** * Facts *)

(** The ring buffer holds the last [capacity] of the records appended so far. *)
Lemma mem_append_last rec recs l :
  (0 < capacity l)%nat →
  log_records l = drop (length recs - capacity l) recs →
  ∃ l', mem_append rec l = Ret (Ok (), l') ∧ capacity l' = capacity l ∧
        log_records l' = drop (length (recs ++ [rec]) - capacity l) (recs ++ [rec]).
Proof.
  intros Hc Hl. unfold mem_append. rewrite Hl, length_drop, length_app. simpl.
  destruct (Nat.leb_spec (capacity l) (length recs - (length recs - capacity l)))
    as [Hle|Hlt].
  - destruct (drop (length recs - capacity l) recs) as [|x rest] eqn:Hd.
    { apply (f_equal length) in Hd. rewrite length_drop in Hd. simpl in Hd. lia. }
    eexists. split; [done|]. split; [done|]. simpl.
    replace (length recs + 1 - capacity l)%nat with (S (length recs - capacity l)) by lia.
    rewrite drop_app_le by lia. f_equal.
    rewrite <- (Nat.add_1_r (_ - _)), <- drop_drop, Hd. done.
  - eexists. split; [done|]. split; [done|]. simpl.
    replace (length recs - capacity l)%nat with 0%nat by lia.
    replace (length recs + 1 - capacity l)%nat with 0%nat by lia. done.
Qed.

Definition newer (a b : RequestLogRow) : Prop := row_request_ts b ≤ row_request_ts a.

Lemma insert_newest_perm x l : insert_newest x l ≡ₚ x :: l.
Proof.
  induction l as [|y l IH]; simpl; [done|]. case_match; [done|].
  rewrite IH. apply perm_swap.
Qed.

Lemma insert_newest_sorted x l :
  StronglySorted newer l → StronglySorted newer (insert_newest x l).
Proof.
  intros Hs. induction Hs as [|y l Hs IH Hy]; simpl; [by repeat constructor|].
  destruct (Z.leb_spec (row_request_ts y) (row_request_ts x)) as [Hle|Hlt].
  - constructor; [by constructor|]. constructor; [done|].
    eapply Forall_impl; [exact Hy|]. unfold newer. intros; lia.
  - constructor; [done|]. rewrite insert_newest_perm. constructor; [|done].
    unfold newer. lia.
Qed.

Lemma newest_first_perm l : newest_first l ≡ₚ l.
Proof. induction l as [|x l IH]; simpl; [done|]. by rewrite insert_newest_perm, IH. Qed.

Lemma newest_first_sorted l : StronglySorted newer (newest_first l).
Proof. induction l; simpl; [constructor|by apply insert_newest_sorted]. Qed.

(** * Properties *)

(** The log store is a ring buffer: with a positive capacity appending never
    fails or panics, and after any sequence of appends the store holds exactly
    the last [capacity] records, oldest first. *)
Theorem append_keeps_last cap recs :
  (0 < cap)%nat →
  ∃ l, prog_for (λ r, let! _ := append r in prog_ret ()) recs (log_new cap) = Ret ((), l) ∧
       log_records l = drop (length recs - cap) recs.
Proof.
  intros Hc.
  assert (H : ∀ recs2 recs1 l, capacity l = cap →
    log_records l = drop (length recs1 - cap) recs1 →
    ∃ l', prog_for (λ r, let! _ := append r in prog_ret ()) recs2 l = Ret ((), l') ∧
      log_records l' = drop (length (recs1 ++ recs2) - cap) (recs1 ++ recs2)).
  2: { apply (H recs [] (log_new cap)); done. }
  induction recs2 as [|r recs2 IH]; intros recs1 l Hcap Hl; simpl.
  { exists l. by rewrite app_nil_r. }
  destruct (mem_append_last r recs1 l) as (l1 & H1 & Hc1 & Hl1); [lia|by rewrite Hcap|].
  unfold prog_bind at 1. unfold prog_bind. rewrite H1. simpl.
  destruct (IH (recs1 ++ [r]) l1) as (l' & Hl' & Hr').
  - congruence.
  - by rewrite Hl1, Hcap.
  - exists l'. split; [exact Hl'|]. by rewrite Hr', <- app_assoc.
Qed.

(** A log query returns the newest matching records: the page is a prefix, of
    at most 500 rows (50 when no limit is given), of the matching records sorted
    by decreasing timestamp, none of them lost or invented. *)
Theorem query_newest_matching l q :
  0 ≤ q_limit q →
  ∃ page sorted, query l q = Ok page ∧
    sorted ≡ₚ log_row <$> List.filter (query_matches q) (log_records l) ∧
    StronglySorted newer sorted ∧
    items page = take (Z.to_nat (query_limit q)) sorted ∧
    blen (items page) ≤ (if q_limit q =? 0 then 50 else Z.min (q_limit q) 500).
Proof.
  intros Hq. eexists _, (newest_first _). split; [done|].
  split; [apply newest_first_perm|]. split; [apply newest_first_sorted|].
  split; [done|]. simpl. unfold blen, query_limit. rewrite length_take.
  destruct (q_limit q =? 0); lia.
Qed.

(** Recomputing costs agrees with billing: run with the rates of a price
    entry, it gives every record of that provider and model in the window
    exactly the cost [compute_cost] gives its token counts (a cached record: no
    cost, but that saving), changes no other record or field, and reports how
    many it changed. *)
Theorem recompute_costs_is_billing catalog provider model_ e from to l :
  catalog_lookup catalog provider model_ = Some e →
  let '(r, l') :=
    recompute_costs l provider model_ (input_per_1k e)
      (default (input_per_1k e) (cached_input_per_1k e)) (output_per_1k e) from to in
  r = Ok (blen (List.filter (λ r, negb (recompute_skips provider model_ from to r))
                  (log_records l))) ∧
  length (log_records l') = length (log_records l) ∧
  ∀ i rec, log_records l !! i = Some rec →
    if recompute_skips provider model_ from to rec
    then log_records l' !! i = Some rec
    else ∃ cb,
      compute_cost catalog provider model_
        {| u_prompt := default 0 (prompt_tokens rec);
           u_completion := default 0 (completion_tokens rec);
           u_cached := default 0 (cached_tokens rec) |} = Some cb ∧
      log_records l' !! i =
        Some (set_costs rec (Some (if cached rec then f64_zero else bd_cost_usd cb))
                (Some (bd_cost_usd cb))).
Proof.
  intros He. cbn [recompute_costs memory_log mem_recompute_costs set_records log_records].
  split; [done|]. split; [apply length_fmap|]. intros i rec Hi.
  rewrite list_lookup_fmap, Hi. simpl. unfold recompute_record.
  destruct (recompute_skips _ _ _ _ _); [done|].
  unfold compute_cost. rewrite He. eexists. split; [reflexivity|]. done.
Qed.

(** * Concrete runs *)

Definition sample_record (i : string) (ts : Z) : RequestLogRecord :=
  {| id := i; project_id := "p"; gateway_key_id := None; namespace := Some "ns";
     model := Some "gpt-4o-mini"; endpoint := None; request_ts := ts;
     duration_ms := None; upstream_ms := None; ttfb_ms := None; status := "success";
     http_status := Some 200; cached := false; retry_count := 0;
     fallback_used := Some "openai"; prompt_tokens := Some 1000;
     completion_tokens := Some 500; cached_tokens := None; total_tokens := None;
     cost_usd := None; would_have_cost_usd := None; metadata := None; client_ip := None;
     user_agent := None; error_message := None; request_body := None;
     response_body := None |}.

Definition any_query : LogQuery :=
  {| q_project_id := None; q_gateway_key_id := None; q_namespace := None;
     q_model := None; q_status := None; q_from_ts := None; q_to_ts := None;
     q_limit := 0; q_cursor := None |}.

Lemma append_keeps_last_witness :
  ∃ l, prog_for (λ r, let! _ := append r in prog_ret ())
         [sample_record "a" 1; sample_record "b" 2; sample_record "c" 3] (log_new 2)
       = Ret ((), l) ∧
       log_records l = [sample_record "b" 2; sample_record "c" 3].
Proof.
  apply (append_keeps_last 2
    [sample_record "a" 1; sample_record "b" 2; sample_record "c" 3]). lia.
Defined.

Lemma query_newest_matching_witness :
  ∃ page, query {| log_records := [sample_record "a" 1; sample_record "b" 2];
                   capacity := 5 |} any_query = Ok page ∧
    blen (items page) ≤ 50.
Proof.
  destruct (query_newest_matching
    {| log_records := [sample_record "a" 1; sample_record "b" 2]; capacity := 5 |}
    any_query) as (page & sorted & Hp & _ & _ & _ & Hl).
  - simpl. lia.
  - exists page. split; [exact Hp|exact Hl].
Defined.

Lemma recompute_costs_is_billing_witness :
  ∃ cb, compute_cost sample_catalog "openai" "gpt-4o-mini"
          {| u_prompt := 1000; u_completion := 500; u_cached := 0 |} = Some cb.
Proof.
  destruct (catalog_lookup sample_catalog "openai" "gpt-4o-mini") as [e|] eqn:He;
    [|vm_compute in He; discriminate He].
  pose proof (recompute_costs_is_billing sample_catalog "openai" "gpt-4o-mini" e None None
    {| log_records := [sample_record "a" 1]; capacity := 5 |} He) as H.
  destruct (recompute_costs _ _ _ _ _ _ _ _) as [r l'].
  destruct H as (_ & _ & H). specialize (H 0%nat (sample_record "a" 1) eq_refl).
  cbn in H. destruct H as (cb & Hcb & _). exists cb. exact Hcb.
Defined.
