(* ===== verification/SqlLog.v ===== *)
(** The [request_logs] table and the statements the SQL log stores send:
    gateway-storage/src/sqlite/logs.rs and gateway-storage/src/postgres/logs.rs.

    The functions of the engine are parameters ([LogEngine]); the two stores
    differ in them, in the sums of integers and in the query, and share the rest. *)
From Stdlib Require Import ZArith Lia Bool Ascii String SpecFloat.
From stdpp Require Import prelude gmap strings list sorting.
From S2P Require Import Prelude Text Decimal F64 Json Errors Models Stores MemoryLog Sql.
Open Scope Z_scope.

(** * The table *)

Definition with_metadata (m : option Value) (r : RequestLogRecord) : RequestLogRecord :=
  {| id := id r; project_id := project_id r; gateway_key_id := gateway_key_id r;
     namespace := namespace r; model := model r; endpoint := endpoint r;
     request_ts := request_ts r; duration_ms := duration_ms r;
     upstream_ms := upstream_ms r; ttfb_ms := ttfb_ms r; status := status r;
     http_status := http_status r; cached := cached r; retry_count := retry_count r;
     fallback_used := fallback_used r; prompt_tokens := prompt_tokens r;
     completion_tokens := completion_tokens r; cached_tokens := cached_tokens r;
     total_tokens := total_tokens r; cost_usd := cost_usd r;
     would_have_cost_usd := would_have_cost_usd r; metadata := m;
     client_ip := client_ip r; user_agent := user_agent r;
     error_message := error_message r; request_body := request_body r;
     response_body := response_body r |}.

(** A row: the metadata is text, the other columns are those of a record (whose
    own metadata is [None]). *)
Record LogColumns : Type := {
  lc_record : RequestLogRecord;
  lc_metadata : option string
}.

(** * Functions of the engine *)

Class LogEngine : Type := {
  (** whether a [REAL] that is not a number is stored as NULL *)
  nan_is_null : bool;
  (** [strftime] and [to_char] of a number of seconds; NULL out of range *)
  day_text : Z → option string;
  hour_text : Z → option string;
  (** [SUM] of a [REAL] column; NULL without rows and when it is not a number *)
  sum_real : list f64 → option f64;
  (** [ROUND(x, 6)] *)
  round_6 : f64 → f64;
  (** the [provider] of the last of the [attempts] of a JSON text *)
  json_last_provider : string → option string
}.

(** A nullable [REAL] column. *)
Definition real_column `{LogEngine} (x : option f64) : option f64 :=
  opt_filter (λ x, negb (nan_is_null && is_nan x)) x.

(** The values bound by [flush_batch]. *)
Definition log_columns `{SerdeJson} `{LogEngine} (r : RequestLogRecord) : LogColumns :=
  {| lc_record := with_metadata None
       (set_costs r (real_column (cost_usd r)) (real_column (would_have_cost_usd r)));
     lc_metadata := to_text <$> metadata r |}.

Definition column_id (c : LogColumns) : string := id (lc_record c).
Definition column_ts (c : LogColumns) : Z := request_ts (lc_record c).

(** One [INSERT] of several rows. *)
Fixpoint insert_rows (cs : list LogColumns) (t : gmap string LogColumns) :
    result (gmap string LogColumns) DbError :=
  match cs with
  | [] => Ok t
  | c :: rest => let? t := insert_new (column_id c) c t in insert_rows rest t
  end.

(** * Reading rows *)

Definition log_detail `{SerdeJson} (c : LogColumns) : store_result RequestLogRecord :=
  let? m := match opt_filter (λ s, negb (str_is_empty s)) (lc_metadata c) with
            | Some s => result_map Some (ok_or (from_text s) serde_error)
            | None => Ok None
            end in
  Ok (with_metadata m (lc_record c)).

(** The [WHERE] of [query]. *)
Definition selected (q : LogQuery) (c : LogColumns) : bool :=
  let r := lc_record c in
  holds_or_absent (q_project_id q) (String.eqb (project_id r)) &&
  holds_or_absent (q_gateway_key_id q) (opt_is (gateway_key_id r)) &&
  holds_or_absent (q_namespace q) (opt_is (namespace r)) &&
  holds_or_absent (q_model q) (opt_is (model r)) &&
  holds_or_absent (q_status q) (String.eqb (status r)) &&
  holds_or_absent (q_from_ts q) (λ f, f <=? request_ts r) &&
  holds_or_absent (q_to_ts q) (λ t, request_ts r <=? t).

(** [ORDER BY request_ts DESC, id DESC] *)
Definition log_before (a b : LogColumns) : Prop :=
  column_ts b < column_ts a ∨ (column_ts a = column_ts b ∧ str_le (column_id b) (column_id a)).
#[export] Instance log_before_dec : RelDecision log_before.
Proof. intros a b. unfold log_before. apply _. Defined.

(** The page made of the rows of a query that asked for one more than [limit]. *)
Definition encode_cursor (ts : Timestamp) (i : string) : string :=
  (dec_of ts +:+ ":" +:+ i)%string.

Definition page_of (limit : Z) (rows : list LogColumns) : Page RequestLogRow :=
  let has_more := limit <? blen rows in
  let items := (λ c, log_row (lc_record c)) <$> take (Z.to_nat limit) rows in
  {| items := items;
     next_cursor :=
       if has_more then (λ r, encode_cursor (row_request_ts r) (row_id r)) <$> last items
       else None |}.

Section Statements.
Context `{HashOrder} `{LogEngine}.

(** ** aggregate *)

Definition seconds (c : LogColumns) : Z := Z.quot (column_ts c) 1000.

Definition dim_value (d : AggregateDimension) (c : LogColumns) : option string :=
  match d with
  | Namespace => namespace (lc_record c)
  | Model => model (lc_record c)
  | GatewayKey => gateway_key_id (lc_record c)
  | Day => day_text (seconds c)
  | Hour => hour_text (seconds c)
  end.

Definition dim_name (d : AggregateDimension) : string :=
  match d with
  | Namespace => "namespace"
  | Model => "model"
  | GatewayKey => "gateway_key_id"
  | Day => "day"
  | Hour => "hour"
  end.

(** The [WHERE] of [aggregate]. *)
Definition counted (q : AggregateQuery) (c : LogColumns) : bool :=
  aggregated q (lc_record c).

(** A row of the answer, with the values of its dimensions. *)
Record SqlGroup : Type := {
  sg_dims : list (option string);
  sg_requests : Z;
  sg_prompt : Z;
  sg_completion : Z;
  sg_cost : f64;
  sg_savings : f64
}.

(** What a row would have cost, less what it cost: NULL when either is. *)
Definition savings (c : LogColumns) : option f64 :=
  w ← would_have_cost_usd (lc_record c); x ← cost_usd (lc_record c);
  real_column (Some (f64_sub w x)).

(** [sum_int] is the engine's [SUM] of integers. *)
Definition group_of (sum_int : list Z → result Z DbError) (dims : list (option string))
    (rows : list LogColumns) : result SqlGroup DbError :=
  let? prompt := sum_int (omap (λ c, prompt_tokens (lc_record c)) rows) in
  let? completion := sum_int (omap (λ c, completion_tokens (lc_record c)) rows) in
  Ok {| sg_dims := dims; sg_requests := blen rows; sg_prompt := prompt;
        sg_completion := completion;
        sg_cost := default f64_zero (sum_real (omap (λ c, cost_usd (lc_record c)) rows));
        sg_savings := default f64_zero (sum_real (omap savings rows)) |}.

Definition dims_of (ds : list AggregateDimension) (c : LogColumns) : list (option string) :=
  (λ d, dim_value d c) <$> ds.

(** [GROUP BY]: one group per combination of values that occurs. *)
Definition partition_rows (ds : list AggregateDimension) (rows : list LogColumns) :
    list (list (option string) * list LogColumns) :=
  (λ k, (k, List.filter (λ c, bool_decide (dims_of ds c = k)) rows)) <$>
    remove_dups (dims_of ds <$> rows).

Fixpoint map_ok {A B} (f : A → result B DbError) (l : list A) : result (list B) DbError :=
  match l with
  | [] => Ok []
  | a :: r => let? b := f a in let? bs := map_ok f r in Ok (b :: bs)
  end.

(** [ORDER BY cost_usd DESC] *)
Definition costlier (a b : SqlGroup) : Prop := f64_leb (sg_cost b) (sg_cost a) = true.
#[export] Instance costlier_dec : RelDecision costlier.
Proof. intros a b. unfold costlier. apply _. Defined.

Definition GROUP_LIMIT : nat := 500.

Definition select_groups (sum_int : list Z → result Z DbError) (q : AggregateQuery)
    (t : gmap string LogColumns) : result (list SqlGroup) DbError :=
  let rows := select_where (counted q) (scan t) in
  match aq_group_by q with
  | [] => let? g := group_of sum_int [] rows in Ok [g]
  | ds =>
      let? gs := map_ok (λ kr, group_of sum_int kr.1 kr.2) (partition_rows ds rows) in
      Ok (take GROUP_LIMIT (order_by costlier gs))
  end.

(** The object that names a group. *)
Definition group_key (ds : list AggregateDimension) (values : list (option string)) :
    list (string * Value) :=
  foldl (λ m dv, map_insert m (dim_name dv.1)
      (match dv.2 with Some s => VString s | None => VNull end)) [] (zip ds values).

Definition aggregate_group (q : AggregateQuery) (g : SqlGroup) : AggregateGroup :=
  {| ag_key := VObject (group_key (aq_group_by q) (sg_dims g));
     ag_requests := sg_requests g; ag_prompt_tokens := sg_prompt g;
     ag_completion_tokens := sg_completion g; ag_cost_usd := sg_cost g;
     ag_cached_savings_usd := sg_savings g |}.

Definition aggregate_result (q : AggregateQuery) (gs : list SqlGroup) : AggregateResult :=
  {| groups := aggregate_group q <$> gs;
     total_cost_usd := foldl (λ x g, f64_add x (sg_cost g)) f64_zero gs |}.

(** ** purge, distinct_cost_keys, recompute_costs *)

Definition purge_rows (ts : Z) (t : gmap string LogColumns) : Z * gmap string LogColumns :=
  delete_where (λ _ c, column_ts c <? ts) t.

(** [COALESCE(fallback_used, .., namespace)] *)
Definition billed_provider (c : LogColumns) : option string :=
  or_else (or_else (fallback_used (lc_record c)) (lc_metadata c ≫= json_last_provider))
    (namespace (lc_record c)).

Definition billable (from to : option Z) (c : LogColumns) : bool :=
  has_tokens (lc_record c) && in_window from to (lc_record c).

Definition billed_under (c : LogColumns) : option (string * string) :=
  p ← billed_provider c; m ← model (lc_record c); Some (p, m).

Definition select_cost_keys (from to : option Z) (t : gmap string LogColumns) :
    list (string * string) :=
  remove_dups (omap billed_under (select_where (billable from to) (scan t))).

(** The rows [recompute_costs] updates. *)
Definition recomputed (provider model_ : string) (from to : option Z) (c : LogColumns) :
    bool :=
  opt_is (billed_provider c) provider && opt_is (model (lc_record c)) model_ &&
  billable from to c.

(** [uncached] is the prompt tokens that were not cached, as a [REAL]. *)
Definition rated (uncached : f64) (input cached_input output : f64) (c : LogColumns) : f64 :=
  round_6 (f64_div
    (f64_add (f64_add (f64_mul uncached input)
       (f64_mul (f64_of_Z (default 0 (cached_tokens (lc_record c)))) cached_input))
       (f64_mul (f64_of_Z (default 0 (completion_tokens (lc_record c)))) output))
    (f64_of_Z 1000)).

(** A rate bound as NULL makes the cost NULL. *)
Definition new_cost (uncached : f64) (input cached_input output : f64) (c : LogColumns) :
    option f64 :=
  if nan_is_null && (is_nan input || is_nan cached_input || is_nan output) then None
  else real_column (Some (rated uncached input cached_input output c)).

Definition set_column_costs (cost : option f64) (c : LogColumns) : LogColumns :=
  {| lc_record := set_costs (lc_record c)
       (if cached (lc_record c) then Some f64_zero else cost) cost;
     lc_metadata := lc_metadata c |}.
End Statements.
