(* ===== verification/SqliteLog.v ===== *)
(** The SQLite log store: gateway-storage/src/sqlite/logs.rs.

    Appended records go through a bounded channel to a worker, which writes them in
    batches of one statement each.  Reads see the table, not what waits in the
    channel or in the worker's buffer. *)
From Stdlib Require Import ZArith Lia Bool Ascii String SpecFloat.
From stdpp Require Import prelude gmap strings list sorting.
From S2P Require Import Prelude Text Decimal F64 Json Errors Models Stores MemoryLog Sql SqlLog.
Open Scope Z_scope.

(** * State *)

(** A command of the channel; the answer to a flush is its being handled. *)
Inductive Cmd : Type :=
| CmdRecord (r : RequestLogRecord)
| CmdFlush.

Record SqlLogStore : Type := {
  log_table : gmap string LogColumns;
  log_faults : Faults;
  channel : list Cmd;
  buf : list RequestLogRecord;
  worker_alive : bool
}.

Definition sql_log_new (f : Faults) : SqlLogStore :=
  {| log_table := ∅; log_faults := f; channel := []; buf := []; worker_alive := true |}.

Definition set_table (l : SqlLogStore) (t : gmap string LogColumns) : SqlLogStore :=
  {| log_table := t; log_faults := λ n, log_faults l (S n); channel := channel l;
     buf := buf l; worker_alive := worker_alive l |}.
Definition set_channel (l : SqlLogStore) (c : list Cmd) : SqlLogStore :=
  {| log_table := log_table l; log_faults := log_faults l; channel := c; buf := buf l;
     worker_alive := worker_alive l |}.
Definition set_buf (l : SqlLogStore) (b : list RequestLogRecord) : SqlLogStore :=
  {| log_table := log_table l; log_faults := log_faults l; channel := channel l; buf := b;
     worker_alive := worker_alive l |}.

Definition BATCH_MAX_ROWS : nat := 200.
Definition CHANNEL_CAPACITY : nat := 4096.

(** A statement on the table; the table is kept when it fails. *)
Definition log_execute {A} (f : gmap string LogColumns → result (A * gmap string LogColumns) DbError)
    (l : SqlLogStore) : result A DbError * SqlLogStore :=
  match log_faults l 0%nat with
  | Some e => (Err e, set_table l (log_table l))
  | None =>
      match f (log_table l) with
      | Ok (a, t) => (Ok a, set_table l t)
      | Err e => (Err e, set_table l (log_table l))
      end
  end.

Definition log_fetch `{SqlEngine} {A} (f : gmap string LogColumns → result A DbError)
    (l : SqlLogStore) : store_result A :=
  map_err database_error
    (match log_faults l 0%nat with Some e => Err e | None => f (log_table l) end).

Section Worker.
Context `{SerdeJson} `{LogEngine}.
(** The channel and batch sizes of the store. *)
Context (capacity_ batch : nat).

(** [append]: a full channel drops the record, and says nothing. *)
Definition log_append (r : RequestLogRecord) (l : SqlLogStore) :
    store_result unit * SqlLogStore :=
  if negb (worker_alive l) then (Err (SUnavailable "log worker stopped"), l)
  else if (capacity_ <=? length (channel l))%nat then (Ok (), l)
  else (Ok (), set_channel l (channel l ++ [CmdRecord r])).

(** [flush_batch]: the buffer is drained; an error is logged and counted. *)
Definition flush_batch (l : SqlLogStore) : SqlLogStore :=
  match buf l with
  | [] => l
  | rs =>
      let '(_, l) := log_execute
        (λ t, let? t := insert_rows (log_columns <$> rs) t in Ok ((), t)) (set_buf l []) in l
  end.

(** What the worker does with a command. *)
Definition worker_handle (c : Cmd) (l : SqlLogStore) : SqlLogStore :=
  match c with
  | CmdRecord r =>
      let l := set_buf l (buf l ++ [r]) in
      if (batch <=? length (buf l))%nat then flush_batch l else l
  | CmdFlush => flush_batch l
  end.

(** A turn of [batch_worker]: [recv] is polled before the ticker. *)
Definition worker_turn (l : SqlLogStore) : SqlLogStore :=
  match channel l with
  | c :: rest => worker_handle c (set_channel l rest)
  | [] => flush_batch l
  end.

(** The worker handles everything in the channel, in order. *)
Definition run_worker (l : SqlLogStore) : SqlLogStore :=
  foldl (λ l c, worker_handle c l) (set_channel l []) (channel l).

(** [flush]: sent behind what is in the channel, and waited for. *)
Definition log_flush (l : SqlLogStore) : store_result unit * SqlLogStore :=
  if negb (worker_alive l) then (Err (SUnavailable "log worker stopped"), l)
  else (Ok (), run_worker (set_channel l (channel l ++ [CmdFlush]))).

(** When the store is dropped the channel closes: the worker drains it, writes
    what is left and stops. *)
Definition worker_shutdown (l : SqlLogStore) : SqlLogStore := flush_batch (run_worker l).
End Worker.

(** * Queries *)

(** [parse_cursor] *)
Definition parse_cursor (c : string) : option (Timestamp * string) :=
  '(ts, i) ← split_once ":" c;
  ts ← parse_i64 ts;
  Some (ts, i).

(** [request_ts < ts OR (request_ts = ts AND id < id')] *)
Definition after_cursor (cursor : option (Timestamp * string)) (c : LogColumns) : bool :=
  match cursor with
  | None => true
  | Some (ts, i) =>
      (column_ts c <? ts) || ((column_ts c =? ts) && String.ltb (column_id c) i)
  end.

Section Sqlite.
Context `{HashOrder} `{SerdeJson} `{SqlEngine} `{LogEngine}.

(** A cursor that does not parse is left out of the query. *)
Definition sqlite_select (q : LogQuery) (t : gmap string LogColumns) : list LogColumns :=
  let cursor := q_cursor q ≫= parse_cursor in
  take (Z.to_nat (query_limit q + 1))
    (order_by log_before
       (select_where (λ c, selected q c && after_cursor cursor c) (scan t))).

Definition sqlite_query (l : SqlLogStore) (q : LogQuery) : store_result (Page RequestLogRow) :=
  result_map (page_of (query_limit q)) (log_fetch (λ t, Ok (sqlite_select q t)) l).

Definition sqlite_get_by_id (l : SqlLogStore) (i : string) :
    store_result (option RequestLogRecord) :=
  let? row := log_fetch (λ t, Ok (t !! i)) l in
  match row with
  | Some c => result_map Some (log_detail c)
  | None => Ok None
  end.

(** SQLite's [SUM] of integers: an overflow on the way is an error. *)
Definition sqlite_sum (xs : list Z) : result Z DbError :=
  foldl (λ acc x,
    let? s := acc in
    let s := s + x in
    if (i64_min <=? s) && (s <=? i64_max) then Ok s
    else Err (EngineFailure "integer overflow")) (Ok 0) xs.

Definition sqlite_aggregate (l : SqlLogStore) (q : AggregateQuery) :
    store_result AggregateResult :=
  result_map (aggregate_result q) (log_fetch (select_groups sqlite_sum q) l).

Definition sqlite_purge (l : SqlLogStore) (ts : Timestamp) : store_result Z * SqlLogStore :=
  let '(r, l) := log_execute (λ t, Ok (purge_rows ts t)) l in (map_err database_error r, l).

Definition sqlite_distinct_cost_keys (l : SqlLogStore) (from to : option Timestamp) :
    store_result (list (string * string)) :=
  log_fetch (λ t, Ok (select_cost_keys from to t)) l.

(** [MAX(prompt - cached, 0)]: an integer difference that overflows is taken in
    floating point. *)
Definition sqlite_uncached (c : LogColumns) : f64 :=
  let prompt := default 0 (prompt_tokens (lc_record c)) in
  let cached := default 0 (cached_tokens (lc_record c)) in
  let d := prompt - cached in
  if (i64_min <=? d) && (d <=? i64_max) then f64_of_Z (Z.max d 0)
  else
    let x := f64_sub (f64_of_Z prompt) (f64_of_Z cached) in
    if f64_ltb x f64_zero then f64_zero else x.

Definition sqlite_update_costs (provider model_ : string) (input cached_input output : f64)
    (from to : option Timestamp) (t : gmap string LogColumns) :
    Z * gmap string LogColumns :=
  let hit := recomputed provider model_ from to in
  (Z.of_nat (size (filter (λ kc, hit kc.2 = true) t)),
   (λ c, if hit c
         then set_column_costs (new_cost (sqlite_uncached c) input cached_input output c) c
         else c) <$> t).

Definition sqlite_recompute_costs (l : SqlLogStore) (provider model_ : string)
    (input cached_input output : f64) (from to : option Timestamp) :
    store_result Z * SqlLogStore :=
  let '(r, l) := log_execute
    (λ t, Ok (sqlite_update_costs provider model_ input cached_input output from to t)) l in
  (map_err database_error r, l).
End Sqlite.

#[export] Instance sqlite_log `{HashOrder} `{SerdeJson} `{SqlEngine} `{LogEngine} :
    LogStore SqlLogStore := {
  append r := λ l, Ret (log_append CHANNEL_CAPACITY r l);
  query := sqlite_query;
  get_by_id := sqlite_get_by_id;
  aggregate := sqlite_aggregate;
  purge_older_than := sqlite_purge;
  distinct_cost_keys := sqlite_distinct_cost_keys;
  recompute_costs := sqlite_recompute_costs;
  flush := log_flush BATCH_MAX_ROWS
}.
