(* ===== verification/SqliteLogCorrect.v ===== *)
(** What the SQLite log store does with what is appended: once flushed it is stored, and
    reads back as it was written, unless a batch fails. *)
From Stdlib Require Import ZArith Lia Bool Ascii String SpecFloat.
From stdpp Require Import prelude gmap strings list sorting.
From S2P Require Import Prelude Text Decimal F64 Json Errors Models Stores Pricing MemoryLog Sql SqlLog Codec SqliteLog.
Open Scope Z_scope.

(** * The worker *)

Section Worker.
Context `{SerdeJson} `{LogEngine}.

(** The rows of some records, written in order. *)
Definition stored (rs : list RequestLogRecord) (t : gmap string LogColumns) :
    gmap string LogColumns :=
  foldl (λ t r, <[id r := log_columns r]> t) t rs.

(** Records that a single statement can insert. *)
Definition fresh (rs : list RequestLogRecord) (t : gmap string LogColumns) : Prop :=
  NoDup (id <$> rs) ∧ Forall (λ r, t !! id r = None) rs.

Definition failing (l : SqlLogStore) : Prop := ∃ n, log_faults l n ≠ None.
Definition quiet (l : SqlLogStore) : Prop := ∀ n, log_faults l n = None.

Lemma stored_app rs rs' t : stored (rs ++ rs') t = stored rs' (stored rs t).
Proof. apply foldl_app. Qed.

Lemma stored_lookup_ne rs t i : i ∉ id <$> rs → stored rs t !! i = t !! i.
Proof.
  revert t. induction rs as [|r rs IH]; intros t; [done|]. cbn.
  intros [Hne Hi]%not_elem_of_cons. change (stored rs (<[id r := log_columns r]> t) !! i = t !! i).
  by rewrite IH, lookup_insert_ne.
Qed.

Lemma insert_rows_fresh rs t :
  fresh rs t → insert_rows (log_columns <$> rs) t = Ok (stored rs t).
Proof.
  revert t. induction rs as [|r rs IH]; intros t [Hnd Hnew]; [done|].
  apply Forall_cons in Hnew as [Hr Hnew]. apply NoDup_cons in Hnd as [Hnin Hnd].
  change (insert_rows (log_columns <$> r :: rs) t) with
    (let? t := insert_new (id r) (log_columns r) t in insert_rows (log_columns <$> rs) t).
  unfold insert_new. rewrite Hr. cbn. apply IH. split; [done|].
  rewrite Forall_forall in Hnew |- *. intros r' Hr'.
  rewrite lookup_insert_ne; [by apply Hnew|]. intros Heq. apply Hnin. rewrite Heq.
  by apply list_elem_of_fmap_2.
Qed.

Lemma insert_rows_stale rs t :
  ¬ fresh rs t → ∃ e, insert_rows (log_columns <$> rs) t = Err e.
Proof.
  revert t. induction rs as [|r rs IH]; intros t Hf.
  { destruct Hf. split; [apply NoDup_nil_2|apply Forall_nil_2]. }
  change (insert_rows (log_columns <$> r :: rs) t) with
    (let? t := insert_new (id r) (log_columns r) t in insert_rows (log_columns <$> rs) t).
  unfold insert_new. destruct (t !! id r) eqn:Hr; [by eexists|]. cbn. apply IH.
  intros [Hnd Hnew]. apply Hf. rewrite Forall_forall in Hnew.
  assert (Hnin : id r ∉ id <$> rs).
  { intros (r' & Heq & Hr')%list_elem_of_fmap. specialize (Hnew r' Hr'). cbn in Hnew.
    by rewrite <- Heq, lookup_insert_eq in Hnew. }
  split; [by apply NoDup_cons|]. apply Forall_cons. split; [done|].
  apply Forall_forall. intros r' Hr'. specialize (Hnew r' Hr'). cbn in Hnew.
  rewrite lookup_insert_ne in Hnew; [done|]. intros Heq. apply Hnin. rewrite Heq.
  by apply list_elem_of_fmap_2.
Qed.

Lemma flush_quiet l :
  quiet l → fresh (buf l) (log_table l) →
  log_table (flush_batch l) = stored (buf l) (log_table l) ∧
  buf (flush_batch l) = [] ∧ quiet (flush_batch l).
Proof.
  intros Hq Hf. unfold flush_batch. destruct (buf l) as [|r rs] eqn:Hb; [by rewrite Hb|].
  unfold log_execute. cbn [log_faults set_buf log_table]. rewrite (Hq 0%nat).
  rewrite (insert_rows_fresh _ _ Hf). cbn. split_and!; [done|done|]. intros n. apply Hq.
Qed.

Lemma flush_stale l :
  ¬ fresh (buf l) (log_table l) →
  log_table (flush_batch l) = log_table l ∧ buf (flush_batch l) = [].
Proof.
  intros Hf. unfold flush_batch. destruct (buf l) as [|r rs] eqn:Hb; [done|].
  unfold log_execute. cbn [log_faults set_buf log_table].
  destruct (log_faults l 0%nat); [done|].
  by destruct (insert_rows_stale _ _ Hf) as [e ->].
Qed.

(** The worker's writes leave the channel and its own life alone. *)
Lemma flush_channel l : channel (flush_batch l) = channel l ∧ worker_alive (flush_batch l) = worker_alive l.
Proof.
  unfold flush_batch. destruct (buf l); [done|]. unfold log_execute.
  destruct (log_faults _ _); [done|]. by destruct (insert_rows _ _).
Qed.

Lemma handle_channel batch cs l :
  channel (foldl (λ l c, worker_handle batch c l) l cs) = channel l ∧
  worker_alive (foldl (λ l c, worker_handle batch c l) l cs) = worker_alive l.
Proof.
  revert l. induction cs as [|c cs IH]; intros l; [done|]. cbn [foldl].
  destruct (IH (worker_handle batch c l)) as [-> ->].
  destruct c as [r|]; cbn [worker_handle]; [|apply flush_channel].
  case_match; [|done]. by destruct (flush_channel (set_buf l (buf l ++ [r]))) as [-> ->].
Qed.

(** A batch that is not full waits in the buffer. *)
Lemma handle_few batch rs l :
  (length (buf l) + length rs < batch)%nat →
  foldl (λ l c, worker_handle batch c l) l (CmdRecord <$> rs) = set_buf l (buf l ++ rs).
Proof.
  revert l. induction rs as [|r rs IH]; intros l Hn.
  { rewrite app_nil_r. by destruct l. }
  cbn [fmap list_fmap foldl worker_handle]. simpl in Hn.
  cbn [buf set_buf]. rewrite length_app. simpl.
  rewrite (proj2 (Nat.leb_gt _ _)) by lia. rewrite IH.
  - cbn. by rewrite <- app_assoc.
  - cbn. rewrite length_app. simpl. lia.
Qed.

(** Appending into a channel with room. *)
Definition log_appends (capacity_ : nat) (rs : list RequestLogRecord) (l : SqlLogStore) :
    SqlLogStore := foldl (λ l r, (log_append capacity_ r l).2) l rs.

Lemma appends_room capacity_ rs l :
  worker_alive l = true → (length (channel l) + length rs ≤ capacity_)%nat →
  log_appends capacity_ rs l = set_channel l (channel l ++ (CmdRecord <$> rs)).
Proof.
  revert l. induction rs as [|r rs IH]; intros l Ha Hn.
  { rewrite app_nil_r. by destruct l. }
  simpl in Hn. unfold log_appends. cbn [foldl]. unfold log_append at 2. rewrite Ha. cbn [negb].
  rewrite (proj2 (Nat.leb_gt _ _)) by lia. cbn [snd].
  change (log_appends capacity_ rs (set_channel l (channel l ++ [CmdRecord r])) =
    set_channel l (channel l ++ (CmdRecord <$> r :: rs))).
  rewrite IH.
  - cbn. by rewrite <- app_assoc.
  - done.
  - cbn. rewrite length_app. simpl. lia.
Qed.

(** Flushing an idle worker after [rs] were put into the empty channel. *)
Lemma flush_idle batch l rs :
  worker_alive l = true → channel l = CmdRecord <$> rs →
  log_flush batch l =
    (Ok (), flush_batch (foldl (λ l c, worker_handle batch c l) (set_channel l []) (CmdRecord <$> rs))).
Proof.
  intros Ha Hc. unfold log_flush. rewrite Ha. cbn [negb]. f_equal.
  unfold run_worker. cbn [channel set_channel]. rewrite Hc, foldl_app. cbn [foldl worker_handle].
  by destruct l.
Qed.

(** An idle worker, with nothing waiting. *)
Record idle (l : SqlLogStore) : Prop := {
  idle_alive : worker_alive l = true;
  idle_channel : channel l = [];
  idle_buf : buf l = []
}.

(** The records [rs] are appended in order, each into a channel with room, while the worker
    takes its turns and other clients flush, in any order. *)
Inductive serving : list RequestLogRecord → relation SqlLogStore :=
| serving_done l : serving [] l l
| serving_append r rs l l' :
    (length (channel l) < CHANNEL_CAPACITY)%nat →
    serving rs (log_append CHANNEL_CAPACITY r l).2 l' → serving (r :: rs) l l'
| serving_turn rs l l' : serving rs (worker_turn BATCH_MAX_ROWS l) l' → serving rs l l'
| serving_flush rs l l' : serving rs (log_flush BATCH_MAX_ROWS l).2 l' → serving rs l l'.

(** What is owed: with [rs] still to come, the buffer and the channel hold records that can
    all be inserted, and inserting them and [rs] gives [t]. *)
Definition owes (rs : list RequestLogRecord) (t : gmap string LogColumns) (l : SqlLogStore) :
    Prop :=
  worker_alive l = true ∧ quiet l ∧ ∃ ws, channel l = CmdRecord <$> ws ∧
    fresh (buf l ++ ws ++ rs) (log_table l) ∧ stored (buf l ++ ws ++ rs) (log_table l) = t.

Lemma fresh_take rs rs' t : fresh (rs ++ rs') t → fresh rs t.
Proof.
  intros [Hnd Hnew]. rewrite fmap_app in Hnd. apply NoDup_app in Hnd as (? & _ & _).
  apply Forall_app in Hnew as [? _]. by split.
Qed.

Lemma fresh_drop rs rs' t : fresh (rs ++ rs') t → fresh rs' (stored rs t).
Proof.
  intros [Hnd Hnew]. rewrite fmap_app in Hnd. apply NoDup_app in Hnd as (_ & Hdis & Hnd).
  apply Forall_app in Hnew as [_ Hnew]. split; [done|]. apply Forall_forall. intros x Hx.
  rewrite stored_lookup_ne; [by eapply Forall_forall in Hnew|].
  intros Hin. apply (Hdis _ Hin). by apply list_elem_of_fmap_2.
Qed.

(** Writing the buffer, and writing it after some of the channel was handled. *)
Lemma owes_batch rs t l : owes rs t l → owes rs t (flush_batch l) ∧ buf (flush_batch l) = [].
Proof.
  intros (Ha & Hq & ws & Hc & Hf & Hs).
  destruct (flush_quiet l Hq (fresh_take _ _ _ Hf)) as (Ht & Hb & Hq').
  destruct (flush_channel l) as [Hc' Ha']. split; [|done].
  split_and!; [by rewrite Ha'|done|]. exists ws. rewrite Hc', Hb, Ht. cbn [app].
  split_and!; [done|by apply fresh_drop|]. by rewrite <- stored_app.
Qed.

Lemma owes_handle r rs t l ws :
  worker_alive l = true → quiet l → channel l = CmdRecord <$> ws →
  fresh (buf l ++ r :: ws ++ rs) (log_table l) →
  stored (buf l ++ r :: ws ++ rs) (log_table l) = t →
  owes rs t (worker_handle BATCH_MAX_ROWS (CmdRecord r) l).
Proof.
  intros Ha Hq Hc Hf Hs. rewrite cons_middle, app_assoc in Hf, Hs.
  assert (Hl : owes rs t (set_buf l (buf l ++ [r]))) by (split_and!; [done..|by exists ws]).
  cbn [worker_handle]. case_match; [by apply owes_batch|done].
Qed.

Lemma owes_turn rs t l : owes rs t l → owes rs t (worker_turn BATCH_MAX_ROWS l).
Proof.
  intros Hl. pose proof Hl as (Ha & Hq & ws & Hc & Hf & Hs). unfold worker_turn.
  destruct ws as [|r ws]; rewrite Hc; cbn [fmap list_fmap]; [by apply owes_batch|].
  by apply (owes_handle r rs t _ ws).
Qed.

Lemma owes_append r rs t l :
  (length (channel l) < CHANNEL_CAPACITY)%nat →
  owes (r :: rs) t l → owes rs t (log_append CHANNEL_CAPACITY r l).2.
Proof.
  intros Hn (Ha & Hq & ws & Hc & Hf & Hs). unfold log_append. rewrite Ha. cbn [negb].
  rewrite (proj2 (Nat.leb_gt _ _)) by done. split_and!; [done..|].
  exists (ws ++ [r]). cbn. rewrite Hc, fmap_app, <- !app_assoc. by split.
Qed.

Lemma owes_all ws rs t l :
  channel l = [] → owes (ws ++ rs) t l →
  let l' := foldl (λ l c, worker_handle BATCH_MAX_ROWS c l) l (CmdRecord <$> ws) in
  owes rs t l' ∧ channel l' = [].
Proof.
  revert l. induction ws as [|r ws IH]; intros l Hc Hl; [done|]. cbn [fmap list_fmap foldl].
  destruct (handle_channel BATCH_MAX_ROWS [CmdRecord r] l) as [Hc1 _]. cbn [foldl] in Hc1.
  apply IH; [by rewrite Hc1|]. destruct Hl as (Ha & Hq & vs & Hc' & Hf & Hs).
  rewrite Hc in Hc'. destruct vs as [|v vs]; [|done]. by apply (owes_handle r _ t _ []).
Qed.

Lemma owes_flush rs t l :
  owes rs t l →
  ∃ l', log_flush BATCH_MAX_ROWS l = (Ok (), l') ∧ owes rs t l' ∧ buf l' = [] ∧ channel l' = [].
Proof.
  intros (Ha & Hq & ws & Hc & Hf & Hs). eexists. split; [by apply flush_idle|].
  assert (Hl : owes (ws ++ rs) t (set_channel l [])) by (split_and!; [done..|by exists []]).
  apply owes_all in Hl as [Hl Hcl]; [|done].
  destruct (owes_batch _ _ _ Hl) as [Hl' Hb]. split_and!; [done|done|].
  by rewrite (proj1 (flush_channel _)).
Qed.

Lemma owes_serving rs l l' t : serving rs l l' → owes rs t l → owes [] t l'.
Proof.
  induction 1 as [l|r rs l l' Hn _ IH|rs l l' _ IH|rs l l' _ IH]; intros Hl; [done|..]; apply IH.
  - by apply owes_append.
  - by apply owes_turn.
  - by destruct (owes_flush _ _ _ Hl) as (l1 & -> & Hl1 & _).
Qed.

(** Once flushed, what was served is stored. *)
Lemma serving_stores rs l l1 :
  idle l → quiet l → fresh rs (log_table l) → serving rs l l1 →
  ∃ l', log_flush BATCH_MAX_ROWS l1 = (Ok (), l') ∧
    log_table l' = stored rs (log_table l) ∧ idle l' ∧ quiet l'.
Proof.
  intros [Ha Hc Hb] Hq Hf Hs.
  assert (Hl : owes rs (stored rs (log_table l)) l).
  { split_and!; [done..|]. exists []. by rewrite Hb. }
  apply (owes_serving _ _ _ _ Hs) in Hl.
  destruct (owes_flush _ _ _ Hl) as (l' & Hr & (Ha' & Hq' & ws & Hc' & _ & Ht) & Hb' & Hch).
  exists l'. split; [done|]. rewrite Hch in Hc'. destruct ws; [|done].
  rewrite Hb' in Ht. by split_and!.
Qed.

Lemma stored_lookup rs t r : r ∈ rs → NoDup (id <$> rs) → stored rs t !! id r = Some (log_columns r).
Proof.
  revert t. induction rs as [|x rs IH]; intros t Hr Hnd; [by inversion Hr|].
  cbn in Hnd. apply NoDup_cons in Hnd as [Hnin Hnd].
  change (stored (x :: rs) t) with (stored rs (<[id x := log_columns x]> t)).
  apply elem_of_cons in Hr as [->|Hr]; [|by apply IH].
  by rewrite stored_lookup_ne, lookup_insert_eq.
Qed.
End Worker.

(** C23: What was appended is stored, once: on a database that does not fail, records with
    new and distinct ids, each appended while the channel has room, in any interleaving with
    the worker's turns and with flushes, are after a final flush all in the table, each with
    the columns it was appended with, and nothing else has changed, however the worker cut
    them into batches. *)
Theorem flush_stores_appended `{SerdeJson} `{LogEngine} rs l l1 :
  idle l → quiet l → fresh rs (log_table l) → serving rs l l1 →
  ∃ l', log_flush BATCH_MAX_ROWS l1 = (Ok (), l') ∧ idle l' ∧
    (∀ r, r ∈ rs → log_table l' !! id r = Some (log_columns r)) ∧
    (∀ i, i ∉ id <$> rs → log_table l' !! i = log_table l !! i).
Proof.
  intros Hi Hq Hf Hs. destruct (serving_stores rs l l1 Hi Hq Hf Hs) as (l' & Hl & Ht & Hi' & _).
  exists l'. split; [done|]. split; [done|]. split.
  - intros r Hr. rewrite Ht. apply stored_lookup; [done|]. by destruct Hf.
  - intros i Hin. rewrite Ht. by apply stored_lookup_ne.
Qed.

(** One id that is already stored, or that comes twice, loses a whole batch: every
    [append] and the [flush] succeed and not one of the records is stored. *)
Theorem duplicate_loses_batch `{SerdeJson} `{LogEngine} rs l :
  idle l → (length rs < BATCH_MAX_ROWS)%nat → ¬ fresh rs (log_table l) →
  (∀ rs1 r rs2, rs = rs1 ++ r :: rs2 →
     (log_append CHANNEL_CAPACITY r (log_appends CHANNEL_CAPACITY rs1 l)).1 = Ok ()) ∧
  ∃ l', log_flush BATCH_MAX_ROWS (log_appends CHANNEL_CAPACITY rs l) = (Ok (), l') ∧
    idle l' ∧ log_table l' = log_table l.
Proof.
  intros [Ha Hc Hb] Hn Hf.
  assert (Hcap : (length rs ≤ CHANNEL_CAPACITY)%nat)
    by (unfold BATCH_MAX_ROWS, CHANNEL_CAPACITY in *; lia).
  split.
  - intros rs1 r rs2 ->. rewrite length_app in Hcap.
    rewrite appends_room; [|done|rewrite Hc; cbn [length]; lia].
    unfold log_append. cbn [worker_alive set_channel]. rewrite Ha. cbn [negb].
    by destruct (_ <=? _)%nat.
  - rewrite appends_room; [|done|by rewrite Hc].
    rewrite (flush_idle _ _ rs); [|done|by rewrite Hc].
    rewrite handle_few by (cbn [buf set_channel]; rewrite Hb; done).
    cbn [buf set_channel]. rewrite Hb. cbn [app]. eexists. split; [done|].
    set (l1 := set_buf _ rs).
    destruct (flush_stale l1) as [Ht Hb1]; [done|]. destruct (flush_channel l1) as [Hc1 Ha1].
    split; [|by rewrite Ht]. constructor; [by rewrite Ha1|by rewrite Hc1|done].
Qed.

(** A record whose every column can hold what it has. *)
Definition readable `{LogEngine} (r : RequestLogRecord) : Prop :=
  (∀ m, metadata r = Some m → exact m = true) ∧
  real_column (cost_usd r) = cost_usd r ∧
  real_column (would_have_cost_usd r) = would_have_cost_usd r.

Lemma log_detail_columns `{SerdeLaws} `{LogEngine} r : readable r → log_detail (log_columns r) = Ok r.
Proof.
  intros (Hm & Hc & Hw). unfold log_detail, log_columns. cbn [lc_record lc_metadata].
  rewrite Hc, Hw. destruct r; cbn in *. destruct metadata as [m|]; cbn; [|done].
  unfold opt_filter. destruct (str_is_empty (to_text m)) eqn:He.
  { destruct (to_text m) eqn:Ht; [|done]. by destruct (text_nonempty m). }
  cbn. by rewrite (text_roundtrip m (Hm m eq_refl)).
Qed.

(** C34: A record reads back as it was written: one of a number of records with new and
    distinct ids, each appended while the channel has room, in any interleaving with the
    worker's turns and with flushes, on a database that does not fail, is after a flush read
    back equal, the JSON of its metadata included, provided that JSON has no floating-point
    numbers and its costs are numbers. *)
Theorem appended_reads_back `{SerdeLaws} `{SqlEngine} `{LogEngine} rs r l l1 :
  idle l → quiet l → fresh rs (log_table l) → serving rs l l1 → r ∈ rs → readable r →
  ∃ l', log_flush BATCH_MAX_ROWS l1 = (Ok (), l') ∧
    sqlite_get_by_id l' (id r) = Ok (Some r).
Proof.
  intros Hi Hq Hf Hs Hr Hread.
  destruct (serving_stores rs l l1 Hi Hq Hf Hs) as (l' & Hl & Ht & _ & Hq').
  exists l'. split; [done|]. unfold sqlite_get_by_id, log_fetch. rewrite (Hq' 0%nat), Ht.
  rewrite (stored_lookup rs _ r Hr) by by destruct Hf. cbn. by rewrite log_detail_columns.
Qed.

(** * Concrete runs *)

Section Example.
#[local] Existing Instance codec.
#[local] Existing Instance codec_laws.
#[local] Instance log_sql_engine : SqlEngine := {| db_error_text _ := "error" |}.
#[local] Instance plain_functions : LogEngine :=
  {| nan_is_null := true; day_text _ := None; hour_text _ := None; sum_real _ := None;
     round_6 := round6; json_last_provider _ := None |}.

Definition traced_record : RequestLogRecord :=
  with_metadata (Some (VObject [("attempts", VArray [])]%string)) (sample_record "b" 2).

Definition three_records : list RequestLogRecord :=
  [sample_record "a" 1; traced_record; sample_record "c" 3].

Lemma idle_new f : idle (sql_log_new f).
Proof. by constructor. Qed.

Lemma three_fresh : fresh three_records ∅.
Proof. split; [by apply (bool_decide_unpack _); vm_compute|by repeat constructor]. Qed.

(** Three appends, the worker's turns between them. *)
Definition busy_store (f : Faults) : SqlLogStore :=
  let offer r l := (log_append CHANNEL_CAPACITY r l).2 in
  offer (sample_record "c" 3) (worker_turn BATCH_MAX_ROWS (worker_turn BATCH_MAX_ROWS
    (offer traced_record (offer (sample_record "a" 1) (sql_log_new f))))).

Lemma busy_serving f : serving three_records (sql_log_new f) (busy_store f).
Proof.
  assert (Hroom : ∀ n, (n < 10)%nat → (n < CHANNEL_CAPACITY)%nat)
    by (unfold CHANNEL_CAPACITY; lia).
  do 2 (apply serving_append; [apply Hroom; simpl; lia|]).
  do 2 apply serving_turn. apply serving_append; [apply Hroom; simpl; lia|]. apply serving_done.
Qed.

Lemma flush_stores_appended_witness :
  ∃ l', log_flush BATCH_MAX_ROWS (busy_store reliable) = (Ok (), l') ∧
    log_table l' !! "c"%string = Some (log_columns (sample_record "c" 3)).
Proof.
  destruct (flush_stores_appended three_records (sql_log_new reliable) (busy_store reliable)
    (idle_new _) (λ _, eq_refl) three_fresh (busy_serving _)) as (l' & Hl & _ & Hin & _).
  exists l'. split; [exact Hl|]. apply (Hin (sample_record "c" 3)). by do 2 right; left.
Defined.

(** Two answers of the upstream with the same id. *)
Lemma duplicate_loses_batch_witness :
  ∃ l', log_flush BATCH_MAX_ROWS (log_appends CHANNEL_CAPACITY
          [sample_record "a" 1; sample_record "gpt-4o" 2; sample_record "gpt-4o" 3]
          (sql_log_new reliable)) = (Ok (), l') ∧ log_table l' = ∅.
Proof.
  destruct (duplicate_loses_batch
    [sample_record "a" 1; sample_record "gpt-4o" 2; sample_record "gpt-4o" 3]
    (sql_log_new reliable) (idle_new _)) as (_ & l' & Hl & _ & Ht).
  - unfold BATCH_MAX_ROWS. simpl. lia.
  - intros [Hnd _]. cbn in Hnd. apply NoDup_cons in Hnd as [_ Hnd].
    apply NoDup_cons in Hnd as [Hnd _]. apply Hnd. by left.
  - exists l'. by split.
Defined.

Lemma appended_reads_back_witness :
  ∃ l', log_flush BATCH_MAX_ROWS (busy_store reliable) = (Ok (), l') ∧
    sqlite_get_by_id l' "b" = Ok (Some traced_record).
Proof.
  apply (appended_reads_back three_records traced_record (sql_log_new reliable)
    (busy_store reliable)).
  - apply idle_new.
  - done.
  - apply three_fresh.
  - apply busy_serving.
  - by right; left.
  - split; [by intros m [= <-]|by split].
Defined.
End Example.
