(* ===== verification/LogPages.v ===== *)
(** Following the cursor of the SQLite log query: the pages, put together, are the
    matching rows, newest first, each one once. *)
From Stdlib Require Import ZArith Lia Bool Ascii String SpecFloat.
From stdpp Require Import prelude gmap strings list sorting.
From S2P Require Import Prelude Text Decimal F64 Json Errors Models Stores MemoryLog Sql SqlLog Codec SqliteLog.
Open Scope Z_scope.

(** * Cursors *)

Lemma cursor_roundtrip ts i : in_i64 ts → parse_cursor (encode_cursor ts i) = Some (ts, i).
Proof.
  intros Hts. unfold parse_cursor, encode_cursor.
  change (":" +:+ i)%string with (String ":" i).
  rewrite split_once_app by by apply dec_of_chars. cbn. by rewrite parse_dec_of.
Qed.

(** * The order of the rows *)

#[export] Instance log_before_total : Total log_before.
Proof.
  intros a b. unfold log_before.
  destruct (Z.lt_trichotomy (column_ts a) (column_ts b)) as [|[->|]]; [by right; left| |by left; left].
  destruct (stdpp.base.total str_le (column_id a) (column_id b)); [right|left]; by right.
Qed.

#[export] Instance log_before_trans : Transitive log_before.
Proof.
  intros a b c. unfold log_before. intros [Ha|[Ha Hi]] [Hb|[Hb Hj]]; [left; lia..|].
  right. split; [lia|]. by etransitivity.
Qed.

Lemma log_before_refl c : log_before c c.
Proof. by destruct (stdpp.base.total log_before c c). Qed.

(** The rows of a table have their own ids and 64-bit times. *)
Definition keyed (t : gmap string LogColumns) : Prop :=
  ∀ i c, t !! i = Some c → column_id c = i ∧ in_i64 (column_ts c).

Lemma scan_ids `{HashOrder} t : keyed t → NoDup (column_id <$> scan t).
Proof.
  intros Hk. unfold scan, hash_values. rewrite <- list_fmap_compose.
  rewrite (list_fmap_ext _ fst (hash_iter t)); [apply NoDup_hash_iter|].
  intros j [i c] Hj. simpl. apply list_elem_of_lookup_2, elem_of_hash_iter in Hj.
  by destruct (Hk i c Hj).
Qed.

(** Strictly later in the order. *)
Definition log_after (x c : LogColumns) : Prop := log_before x c ∧ column_id c ≠ column_id x.

Lemma str_ltb_le a b : String.ltb a b = true ↔ str_le a b ∧ a ≠ b.
Proof.
  unfold str_le, String.leb, String.ltb. pose proof (string_compare_Eq a b) as He.
  destruct (String.compare a b).
  - split; [done|]. intros [_ Hne]. destruct Hne. by apply He.
  - split; [|done]. intros _. split; [done|]. intros Hab. discriminate (proj2 He Hab).
  - split; [done|]. by intros [? _].
Qed.

Lemma after_cursor_spec x c :
  after_cursor (Some (column_ts x, column_id x)) c = true ↔
  column_ts c < column_ts x ∨
    (column_ts c = column_ts x ∧ str_le (column_id c) (column_id x) ∧ column_id c ≠ column_id x).
Proof.
  unfold after_cursor.
  by rewrite orb_true_iff, andb_true_iff, Z.ltb_lt, Z.eqb_eq, str_ltb_le.
Qed.

(** In a sorted list without repeated ids, the rows after the cursor of a row are
    those behind it. *)
Lemma after_in_sorted pre x post :
  StronglySorted log_before (pre ++ x :: post) → NoDup (column_id <$> pre ++ x :: post) →
  List.filter (after_cursor (Some (column_ts x, column_id x))) (pre ++ x :: post) = post.
Proof.
  intros Hs Hnd. rewrite fmap_app in Hnd. apply NoDup_app in Hnd as (_ & Hdis & Hnd).
  cbn in Hnd. apply NoDup_cons in Hnd as [Hx Hnd].
  apply StronglySorted_app in Hs as (Hpp & _ & Hs).
  apply StronglySorted_inv in Hs as [_ Hpost].
  rewrite List.filter_app.
  assert (Hnone : ∀ l, (∀ c, c ∈ l → log_before c x) →
    List.filter (after_cursor (Some (column_ts x, column_id x))) l = []).
  { induction l as [|c l IH]; intros Hl; [done|]. cbn [List.filter].
    destruct (after_cursor _ c) eqn:Hc; [|apply IH; intros; apply Hl; by right].
    exfalso. apply after_cursor_spec in Hc. pose proof (Hl c ltac:(by left)) as Hcx.
    destruct Hcx as [|[? ?]], Hc as [|(? & ? & Hne)]; try lia. by apply Hne, (anti_symm str_le). }
  rewrite (Hnone pre); [|intros c Hc; apply Hpp; [done|by left]].
  change (x :: post) with ([x] ++ post). rewrite List.filter_app.
  rewrite (Hnone [x]) by (intros c ->%list_elem_of_singleton; apply log_before_refl).
  cbn [app]. clear Hnone Hdis Hpp Hnd. induction post as [|c post IH]; [done|].
  apply Forall_cons in Hpost as [Hc Hpost]. cbn in Hx. apply not_elem_of_cons in Hx as [Hne Hx].
  cbn [List.filter]. rewrite (proj2 (after_cursor_spec x c)).
  - f_equal. by apply IH.
  - destruct Hc as [|[? ?]]; [by left|right]. by split_and!.
Qed.

Lemma sorted_unique l1 l2 :
  StronglySorted log_before l1 → StronglySorted log_before l2 →
  NoDup (column_id <$> l1) → l1 ≡ₚ l2 → l1 = l2.
Proof.
  intros H1 H2 Hnd Hp. apply (StronglySorted_unique_strong log_before); [|done..].
  intros a b Ha Hb Hab Hba. rewrite <- Hp in Hb.
  assert (Hid : column_id a = column_id b).
  { destruct Hab as [|[? ?]], Hba as [|[? ?]]; try lia. by apply (anti_symm str_le). }
  apply list_elem_of_lookup in Ha as [i Hi]. apply list_elem_of_lookup in Hb as [j Hj].
  assert (i = j) as ->; [|by simplify_eq].
  eapply (NoDup_lookup (column_id <$> l1)); [done|by rewrite list_lookup_fmap, Hi|].
  by rewrite list_lookup_fmap, Hj, Hid.
Qed.

(** * Pages *)

Definition with_cursor (c : string) (q : LogQuery) : LogQuery :=
  {| q_project_id := q_project_id q; q_gateway_key_id := q_gateway_key_id q;
     q_namespace := q_namespace q; q_model := q_model q; q_status := q_status q;
     q_from_ts := q_from_ts q; q_to_ts := q_to_ts q; q_limit := q_limit q;
     q_cursor := Some c |}.

Section Pages.
Context `{HashOrder} `{SqlEngine}.

(** A client that asks for the next page until there is none. *)
Fixpoint follow (fuel : nat) (l : SqlLogStore) (q : LogQuery) : option (list RequestLogRow) :=
  match fuel with
  | O => None
  | S f =>
      match sqlite_query l q with
      | Err _ => None
      | Ok p =>
          match next_cursor p with
          | None => Some (items p)
          | Some c => rest ← follow f l (with_cursor c q); Some (items p ++ rest)
          end
      end
  end.

(** All the matching rows, in order. *)
Definition matching (q : LogQuery) (t : gmap string LogColumns) : list LogColumns :=
  order_by log_before (select_where (selected q) (scan t)).

Lemma matching_sorted q t : StronglySorted log_before (matching q t).
Proof. apply StronglySorted_merge_sort; apply _. Qed.

Lemma matching_perm q t : matching q t ≡ₚ select_where (selected q) (scan t).
Proof. apply merge_sort_Permutation. Qed.

Lemma NoDup_filter_ids p (l : list LogColumns) :
  NoDup (column_id <$> l) → NoDup (column_id <$> List.filter p l).
Proof.
  induction l as [|c l IH]; [done|]. cbn. intros [Hc Hnd]%NoDup_cons.
  destruct (p c); [|by apply IH]. cbn. apply NoDup_cons. split; [|by apply IH].
  intros (c' & Heq & Hin%list_elem_of_In%filter_In)%list_elem_of_fmap. apply Hc. rewrite Heq.
  apply list_elem_of_fmap_2, list_elem_of_In, Hin.
Qed.

Lemma matching_ids q t : keyed t → NoDup (column_id <$> matching q t).
Proof. intros Hk. rewrite matching_perm. apply NoDup_filter_ids. by apply scan_ids. Qed.

Lemma elem_of_matching q t c : c ∈ matching q t ↔ selected q c = true ∧ ∃ i, t !! i = Some c.
Proof.
  rewrite matching_perm. unfold select_where.
  rewrite list_elem_of_In, filter_In, <- list_elem_of_In. unfold scan.
  rewrite elem_of_hash_values. tauto.
Qed.

Lemma filter_filter (p q : LogColumns → bool) l :
  List.filter (λ c, p c && q c) l = List.filter q (List.filter p l).
Proof. induction l as [|c l IH]; [done|]. cbn. destruct (p c); cbn; by rewrite IH. Qed.

Lemma filter_perm (p : LogColumns → bool) l l' :
  l ≡ₚ l' → List.filter p l ≡ₚ List.filter p l'.
Proof.
  induction 1 as [|x l l' _ IH|x y l|]; cbn; [done| | |by etransitivity].
  - case_match; [by constructor|done].
  - do 2 case_match; try done. by constructor.
Qed.

(** The query behind a row selects what is left of the list. *)
Lemma select_after q t pre x post :
  keyed t → matching q t = pre ++ x :: post →
  order_by log_before
    (select_where (λ c, selected q c && after_cursor (Some (column_ts x, column_id x)) c) (scan t))
  = post.
Proof.
  intros Hk Hm. pose proof (matching_sorted q t) as Hs. pose proof (matching_ids q t Hk) as Hnd.
  rewrite Hm in Hs, Hnd. symmetry. apply sorted_unique.
  - apply StronglySorted_app in Hs as (_ & _ & Hs). by apply StronglySorted_inv in Hs as [Hs _].
  - apply StronglySorted_merge_sort; apply _.
  - rewrite fmap_app in Hnd. apply NoDup_app in Hnd as (_ & _ & Hnd).
    cbn in Hnd. by apply NoDup_cons in Hnd as [_ Hnd].
  - unfold order_by. rewrite merge_sort_Permutation. unfold select_where.
    rewrite filter_filter. fold (select_where (selected q) (scan t)).
    rewrite <- (filter_perm _ _ _ (matching_perm q t)), Hm.
    by rewrite (after_in_sorted pre x post Hs Hnd).
Qed.

(** What one page of a longer list says. *)
Lemma page_of_take limit rows :
  0 < limit →
  let p := page_of limit (take (Z.to_nat (limit + 1)) rows) in
  items p = (λ c, log_row (lc_record c)) <$> take (Z.to_nat limit) rows ∧
  next_cursor p =
    (if limit <? blen rows
     then (λ c, encode_cursor (column_ts c) (column_id c)) <$> last (take (Z.to_nat limit) rows)
     else None).
Proof.
  intros Hl. unfold page_of. cbn [items next_cursor]. rewrite take_take.
  replace (Z.to_nat limit `min` Z.to_nat (limit + 1))%nat with (Z.to_nat limit) by lia.
  split; [done|].
  assert (Hb : (limit <? blen (take (Z.to_nat (limit + 1)) rows)) = (limit <? blen rows)).
  { unfold blen. rewrite length_take.
    destruct (Z.ltb_spec limit (Z.of_nat (length rows))); [apply Z.ltb_lt|apply Z.ltb_ge]; lia. }
  rewrite Hb. case_match; [|done]. rewrite fmap_last.
  by destruct (last (take (Z.to_nat limit) rows)).
Qed.

(** Splitting at the last row of a page. *)
Lemma take_last {A} n (l : list A) :
  (0 < n)%nat → (n < length l)%nat →
  ∃ pre x, take n l = pre ++ [x] ∧ l = pre ++ x :: drop n l ∧ last (take n l) = Some x.
Proof.
  intros Hn Hl. destruct (take n l) as [|y l1 _] eqn:Ht using rev_ind.
  { apply (f_equal length) in Ht. rewrite length_take in Ht. simpl in Ht. lia. }
  exists l1, y. split; [done|]. split; [|by rewrite last_snoc].
  rewrite <- (take_drop n l) at 1. rewrite Ht. by rewrite <- app_assoc.
Qed.

Definition same_selection (q q' : LogQuery) : Prop :=
  selected q = selected q' ∧ q_limit q = q_limit q'.

Lemma follow_spec fuel l q q' rows :
  keyed (log_table l) → (∀ n, log_faults l n = None) → 0 < query_limit q →
  same_selection q' q →
  (∃ pre, matching q (log_table l) = pre ++ rows ∧
     order_by log_before
       (select_where (λ c, selected q' c && after_cursor (q_cursor q' ≫= parse_cursor) c)
          (scan (log_table l))) = rows) →
  (length rows < fuel)%nat →
  follow fuel l q' = Some ((λ c, log_row (lc_record c)) <$> rows).
Proof.
  intros Hk Hq Hlim. revert q' rows.
  induction fuel as [|fuel IH]; intros q' rows [Hsel Hql] (pre & Hm & Hrows) Hf; [lia|].
  assert (Hlim' : query_limit q' = query_limit q) by (unfold query_limit; by rewrite Hql).
  cbn [follow]. unfold sqlite_query, log_fetch, sqlite_select. rewrite (Hq 0%nat), Hrows, Hlim'.
  cbn [map_err result_map].
  destruct (page_of_take (query_limit q) rows Hlim) as [Hi Hn]. rewrite Hi, Hn.
  destruct (Z.ltb_spec (query_limit q) (blen rows)) as [Hlt|Hge].
  - unfold blen in Hlt.
    destruct (take_last (Z.to_nat (query_limit q)) rows) as (pre' & x & Ht & Hr & Hla); [lia..|].
    rewrite Hla. cbn [fmap option_fmap option_map].
    rewrite (IH (with_cursor _ q') (drop (Z.to_nat (query_limit q)) rows)).
    + cbn. rewrite <- fmap_app. by rewrite take_drop.
    + split; [exact Hsel|exact Hql].
    + exists (pre ++ pre' ++ [x]). split.
      * rewrite Hm. rewrite Hr at 1. by rewrite <- !app_assoc.
      * cbn [q_cursor with_cursor]. cbn [mbind option_bind].
        rewrite cursor_roundtrip.
        -- change (selected (with_cursor _ q')) with (selected q'). rewrite Hsel.
           apply (select_after q _ (pre ++ pre')); [done|]. rewrite Hm. rewrite Hr at 1.
           by rewrite <- app_assoc.
        -- assert (Hx : x ∈ matching q (log_table l)).
           { rewrite Hm, Hr. apply elem_of_app. right. apply elem_of_app. right. by left. }
           apply elem_of_matching in Hx as [_ [i Hx]]. by destruct (Hk i x Hx).
    + rewrite length_drop. lia.
  - cbn. do 2 f_equal. apply take_ge. unfold blen in Hge. lia.
Qed.
End Pages.

(** C20: Following the cursor terminates and enumerates the matching rows: from a query
    without a cursor, the pages put together are every matching row exactly once, by
    decreasing time and id, and no more pages are asked for than there are rows, plus
    one. *)
Theorem pages_enumerate `{HashOrder} `{SqlEngine} l q :
  keyed (log_table l) → (∀ n, log_faults l n = None) → 0 ≤ q_limit q → q_cursor q = None →
  ∃ rows : list LogColumns,
    follow (S (length rows)) l q = Some ((λ c, log_row (lc_record c)) <$> rows) ∧
    StronglySorted log_before rows ∧ NoDup (column_id <$> rows) ∧
    ∀ c, c ∈ rows ↔ selected q c = true ∧ log_table l !! column_id c = Some c.
Proof.
  intros Hk Hq Hl Hc. exists (matching q (log_table l)). split; [|split; [|split]].
  - apply (follow_spec _ l q q); [done|done| | |exists []|lia].
    + unfold query_limit. destruct (Z.eqb_spec (q_limit q) 0); lia.
    + by split.
    + split; [done|]. rewrite Hc. unfold matching, select_where. cbn [mbind option_bind after_cursor].
      f_equal. apply List.filter_ext. intros c. apply andb_true_r.
  - apply matching_sorted.
  - by apply matching_ids.
  - intros c. rewrite elem_of_matching. split; intros [Hs Hi]; (split; [done|]); [|by eexists].
    destruct Hi as [i Hi]. by destruct (Hk i c Hi) as [-> _].
Qed.

(** * Invariants *)

Section Reachable.
Context `{HashOrder} `{SerdeJson} `{SqlEngine} `{LogEngine}.

(** The stores that come out of the operations and of the worker's turns, with the
    records offered to [append] so far.  Their times are 64-bit. *)
Inductive reachable : list RequestLogRecord → SqlLogStore → Prop :=
| reach_new f : reachable [] (sql_log_new f)
| reach_append rs l r :
    reachable rs l → in_i64 (request_ts r) →
    reachable (r :: rs) (log_append CHANNEL_CAPACITY r l).2
| reach_turn rs l : reachable rs l → reachable rs (worker_turn BATCH_MAX_ROWS l)
| reach_flush rs l : reachable rs l → reachable rs (log_flush BATCH_MAX_ROWS l).2
| reach_purge rs l ts : reachable rs l → reachable rs (sqlite_purge l ts).2
| reach_recompute rs l p m i c o from to :
    reachable rs l → reachable rs (sqlite_recompute_costs l p m i c o from to).2
| reach_shutdown rs l : reachable rs l → reachable rs (worker_shutdown BATCH_MAX_ROWS l).

(** A row as it comes from a record: every column is the record's, its metadata as text; the
    costs are the record's too, or those of a recomputation, which charges nothing for a
    cached answer. *)
Definition came_from (r : RequestLogRecord) (c : LogColumns) : Prop :=
  lc_metadata c = to_text <$> metadata r ∧
  ∃ cost would_have, lc_record c = with_metadata None (set_costs r cost would_have) ∧
    ((cost = real_column (cost_usd r) ∧ would_have = real_column (would_have_cost_usd r)) ∨
     cost = if cached r then Some f64_zero else would_have).

Lemma came_from_columns r : came_from r (log_columns r).
Proof. split; [done|]. do 2 eexists. split; [done|]. by left. Qed.

Lemma came_from_recomputed r c cost : came_from r c → came_from r (set_column_costs cost c).
Proof.
  intros [Hm (x & y & Hc & _)]. split; [done|]. unfold set_column_costs. cbn [lc_record].
  rewrite Hc. do 2 eexists. split; [reflexivity|]. by right.
Qed.

Lemma came_from_key r c : came_from r c → column_id c = id r ∧ column_ts c = request_ts r.
Proof. intros [_ (x & y & Hc & _)]. unfold column_id, column_ts. by rewrite Hc. Qed.

(** Records offered, and rows that come from one, under its id. *)
Definition known (rs : list RequestLogRecord) (r : RequestLogRecord) : Prop :=
  r ∈ rs ∧ in_i64 (request_ts r).
Definition row_ok (rs : list RequestLogRecord) (i : string) (c : LogColumns) : Prop :=
  ∃ r, known rs r ∧ id r = i ∧ came_from r c.
Abbreviation rows_ok rs t := (∀ i c, t !! i = Some c → row_ok rs i c).

(** What holds of a store: rows under their id, everything in it was offered, the
    buffer is less than a batch and the channel within its capacity. *)
Record log_ok (rs : list RequestLogRecord) (l : SqlLogStore) : Prop := {
  ok_rows : rows_ok rs (log_table l);
  ok_buf r : r ∈ buf l → known rs r;
  ok_channel r : CmdRecord r ∈ channel l → known rs r;
  ok_batch : (length (buf l) < BATCH_MAX_ROWS)%nat;
  ok_capacity : (length (channel l) ≤ CHANNEL_CAPACITY)%nat
}.

Lemma known_more rs r x : known rs x → known (r :: rs) x.
Proof. intros [Hx Ht]. split; [by right|done]. Qed.

Lemma insert_rows_inv rs cs t t' :
  Forall (known rs) cs →
  rows_ok rs t → insert_rows (log_columns <$> cs) t = Ok t' → rows_ok rs t'.
Proof.
  intros Hcs. revert t. induction Hcs as [|r cs Hr _ IH]; intros t Ht; [by intros [= <-]|].
  cbn. unfold insert_new. destruct (t !! _); [done|]. cbn.
  apply IH. intros i c. rewrite lookup_insert_Some. intros [[<- <-]|[_ Hc]]; [|by apply Ht].
  exists r. split_and!; [exact Hr|done|apply came_from_columns].
Qed.

(** A statement that keeps the rows of the table well-formed keeps the store so. *)
Lemma log_ok_execute {A} rs l
    (f : gmap string LogColumns → result (A * gmap string LogColumns) DbError) :
  log_ok rs l →
  (∀ a t', f (log_table l) = Ok (a, t') → rows_ok rs t') →
  log_ok rs (log_execute f l).2.
Proof.
  intros [Hr Hb Hc Hn Hk] Hf. unfold log_execute.
  destruct (log_faults l 0%nat); [by constructor|].
  destruct (f (log_table l)) as [[a t']|e] eqn:Hft; constructor; try done. by eapply Hf.
Qed.

(** Draining a full buffer. *)
Lemma log_ok_flush rs l :
  rows_ok rs (log_table l) →
  (∀ r, r ∈ buf l → known rs r) → (∀ r, CmdRecord r ∈ channel l → known rs r) →
  (length (channel l) ≤ CHANNEL_CAPACITY)%nat → log_ok rs (flush_batch l).
Proof.
  intros Hr Hb Hc Hk. unfold flush_batch. destruct (buf l) as [|x xs] eqn:Hbuf.
  { constructor; rewrite ?Hbuf; try done. unfold BATCH_MAX_ROWS. simpl. lia. }
  assert (Hl0 : log_ok rs (set_buf l [])).
  { constructor; cbn; try done; [by intros r Hin; inversion Hin|]. unfold BATCH_MAX_ROWS. lia. }
  rewrite <- Hbuf. rewrite <- Hbuf in Hb. clear x xs Hbuf.
  set (f := λ t, let? t := insert_rows (log_columns <$> buf l) t in Ok ((), t)).
  change (log_ok rs (let '(_, l0) := log_execute f (set_buf l []) in l0)).
  rewrite (surjective_pairing (log_execute f (set_buf l []))).
  apply log_ok_execute; [exact Hl0|]. intros a t' Hf. unfold f in Hf.
  destruct (insert_rows _ _) as [t1|e] eqn:Hi; [|done]. injection Hf as _ <-.
  eapply insert_rows_inv; [|exact Hr|exact Hi]. by apply Forall_forall.
Qed.

Lemma log_ok_handle rs l c :
  log_ok rs l → (∀ r, c = CmdRecord r → known rs r) →
  log_ok rs (worker_handle BATCH_MAX_ROWS c l).
Proof.
  intros [Hr Hb Hc Hn Hk] Hcmd. destruct c as [r|]; cbn [worker_handle].
  - assert (Hb' : ∀ x, x ∈ buf l ++ [r] → known rs x).
    { intros x [Hx| ->%list_elem_of_singleton]%elem_of_app; auto. }
    case_match eqn:Hle; [by apply log_ok_flush|]. apply Nat.leb_gt in Hle. by constructor.
  - by apply log_ok_flush.
Qed.

Lemma log_ok_run rs cs l :
  log_ok rs l → (∀ r, CmdRecord r ∈ cs → known rs r) →
  log_ok rs (foldl (λ l c, worker_handle BATCH_MAX_ROWS c l) l cs).
Proof.
  revert l. induction cs as [|c cs IH]; intros l Hl Hcs; [done|]. cbn [foldl]. apply IH.
  - apply log_ok_handle; [done|]. intros r ->. apply Hcs. by left.
  - intros r Hr. apply Hcs. by right.
Qed.

Lemma log_ok_drained rs l c : log_ok rs l → (∀ r, CmdRecord r ∈ c → known rs r) →
  (length c ≤ CHANNEL_CAPACITY)%nat → log_ok rs (set_channel l c).
Proof. intros [Hr Hb Hc Hn Hk] Hcs Hlen. by constructor. Qed.

Lemma reachable_ok rs l : reachable rs l → log_ok rs l.
Proof.
  induction 1 as [f|rs l r _ Hl Hts|rs l _ Hl|rs l _ Hl|rs l ts _ Hl|rs l p m i c o from to _ Hl
    |rs l _ Hl].
  - constructor; cbn; try done; try (by intros r Hr; inversion Hr); unfold BATCH_MAX_ROWS, CHANNEL_CAPACITY; lia.
  - assert (Hl' : log_ok (r :: rs) l).
    { destruct Hl as [Hr Hb Hc Hn Hk]. constructor; try done.
      - intros i c Hi. destruct (Hr i c Hi) as (x & Hx & Hid & Hf). exists x.
        split_and!; [by apply known_more|done..].
      - intros x Hx. by apply known_more, Hb.
      - intros x Hx. by apply known_more, Hc. }
    unfold log_append. destruct (negb _); [done|].
    destruct (CHANNEL_CAPACITY <=? length (channel l))%nat eqn:Hle; [done|].
    apply Nat.leb_gt in Hle. apply log_ok_drained; [done| |].
    + intros x [Hx|Hx%list_elem_of_singleton]%elem_of_app; [by apply (ok_channel _ _ Hl')|].
      injection Hx as ->. split; [by left|done].
    + rewrite length_app. cbn [length]. lia.
  - unfold worker_turn. destruct (channel l) as [|c rest] eqn:Hch.
    + destruct Hl. by apply log_ok_flush.
    + pose proof (ok_channel _ _ Hl) as Hc. pose proof (ok_capacity _ _ Hl) as Hk.
      rewrite Hch in Hc, Hk. cbn [length] in Hk. apply log_ok_handle.
      * apply log_ok_drained; [done| |lia]. intros x Hx. apply Hc. by right.
      * intros r ->. apply Hc. by left.
  - unfold log_flush. destruct (negb _); [done|]. unfold run_worker. cbn [snd channel set_channel].
    apply log_ok_run.
    + apply (log_ok_drained rs l []); [done|by intros r Hr; inversion Hr|cbn [length]; lia].
    + intros r [Hr|Hr%list_elem_of_singleton]%elem_of_app; [by apply (ok_channel _ _ Hl)|done].
  - unfold sqlite_purge. rewrite (surjective_pairing (log_execute _ _)).
    apply log_ok_execute; [done|]. intros a t' Hf. injection Hf as _ <-. intros i c'.
    rewrite map_lookup_filter_Some. intros [Hi _]. by apply (ok_rows _ _ Hl).
  - unfold sqlite_recompute_costs. rewrite (surjective_pairing (log_execute _ _)).
    apply log_ok_execute; [done|]. intros a t' Hf. injection Hf as _ <-. intros j c'.
    rewrite lookup_fmap, fmap_Some. intros (c0 & Hc0 & ->).
    destruct (ok_rows _ _ Hl j c0 Hc0) as (r & Hk & Hid & Hf). exists r.
    split_and!; [done..|]. case_match; [by apply came_from_recomputed|done].
  - unfold worker_shutdown, run_worker.
    assert (Hl' : log_ok rs (foldl (λ l c, worker_handle BATCH_MAX_ROWS c l) (set_channel l [])
      (channel l))).
    { apply log_ok_run; [|apply (ok_channel _ _ Hl)].
      apply (log_ok_drained rs l []); [done|by intros r Hr; inversion Hr|cbn [length]; lia]. }
    destruct Hl'. by apply log_ok_flush.
Qed.
End Reachable.

(** C24: Whatever the operations and the worker's turns, in whatever order, with whatever
    failures and through a shutdown: every row of the table comes from a record that was
    offered, stands under its id, and has its columns, only the costs possibly recomputed;
    what waits was offered too; the worker never holds a full batch and the channel never
    exceeds its capacity. *)
Theorem log_invariant `{HashOrder} `{SerdeJson} `{SqlEngine} `{LogEngine} rs l :
  reachable rs l →
  (∀ i c, log_table l !! i = Some c → ∃ r, r ∈ rs ∧ id r = i ∧ came_from r c) ∧
  (∀ r, r ∈ buf l ∨ CmdRecord r ∈ channel l → r ∈ rs) ∧
  (length (buf l) < BATCH_MAX_ROWS)%nat ∧ (length (channel l) ≤ CHANNEL_CAPACITY)%nat.
Proof.
  intros Hl%reachable_ok. destruct Hl as [Hr Hb Hc Hn Hk]. split_and!; [| |done|done].
  - intros i c Hi. destruct (Hr i c Hi) as (r & [Hin _] & Hid & Hf). by exists r.
  - intros r [Hx|Hx]; [by destruct (Hb r Hx)|by destruct (Hc r Hx)].
Qed.

(** * A concrete run *)

Section Example.
#[local] Existing Instance tree_order.
#[local] Existing Instance codec.
#[local] Instance page_engine : SqlEngine := {| db_error_text _ := "error" |}.
#[local] Instance page_functions : LogEngine :=
  {| nan_is_null := true; day_text _ := None; hour_text _ := None; sum_real _ := None; round_6 x := x;
     json_last_provider _ := None |}.

(** Three records, two of them at the same time. *)
Definition paged_store : SqlLogStore :=
  (log_flush BATCH_MAX_ROWS
     (log_append CHANNEL_CAPACITY (sample_record "c" 1)
        (log_append CHANNEL_CAPACITY (sample_record "b" 2)
           (log_append CHANNEL_CAPACITY (sample_record "a" 2) (sql_log_new reliable)).2).2).2).2.

Lemma paged_reachable :
  reachable [sample_record "c" 1; sample_record "b" 2; sample_record "a" 2] paged_store.
Proof.
  apply reach_flush, reach_append; [apply reach_append; [apply reach_append; [apply reach_new|]|]|];
    unfold in_i64, i64_min, i64_max; simpl; lia.
Qed.

Lemma log_invariant_witness :
  ∃ c, log_table paged_store !! "b"%string = Some c ∧
    ∃ r, r ∈ [sample_record "c" 1; sample_record "b" 2; sample_record "a" 2] ∧
      id r = "b"%string ∧ came_from r c.
Proof.
  destruct (log_table paged_store !! "b"%string) as [c|] eqn:Hc;
    [|vm_compute in Hc; discriminate Hc].
  exists c. split; [reflexivity|].
  exact (proj1 (log_invariant _ _ paged_reachable) _ _ Hc).
Defined.

Definition one_at_a_time : LogQuery :=
  {| q_project_id := Some "p"%string; q_gateway_key_id := None; q_namespace := None;
     q_model := None; q_status := None; q_from_ts := None; q_to_ts := None;
     q_limit := 1; q_cursor := None |}.

Lemma pages_enumerate_witness :
  (∃ rows : list LogColumns,
     follow (S (length rows)) paged_store one_at_a_time =
       Some ((λ c, log_row (lc_record c)) <$> rows) ∧
     ∀ c, c ∈ rows ↔ selected one_at_a_time c = true ∧
                      log_table paged_store !! column_id c = Some c) ∧
  follow 4 paged_store one_at_a_time =
    Some [log_row (sample_record "b" 2); log_row (sample_record "a" 2);
          log_row (sample_record "c" 1)].
Proof.
  split; [|vm_compute; reflexivity].
  destruct (pages_enumerate paged_store one_at_a_time) as (rows & Hf & _ & _ & Hr).
  - destruct (reachable_ok _ _ paged_reachable) as [Hrows _ _ _ _]. intros i c Hi.
    destruct (Hrows i c Hi) as (r & [_ Hts] & <- & [-> Ht]%came_from_key). by rewrite Ht.
  - intros n. vm_compute. reflexivity.
  - simpl. lia.
  - reflexivity.
  - by exists rows.
Defined.
End Example.
