(* ===== verification/LogAggregate.v ===== *)
(** Aggregation over the request logs: the groups are a partition of the rows, so the
    counts add up. *)
From Stdlib Require Import ZArith Lia Bool Ascii String SpecFloat.
From stdpp Require Import prelude gmap strings list sorting.
From S2P Require Import Prelude Text Decimal F64 Json Errors Models Stores MemoryLog Sql SqlLog Codec SqliteLog.
Open Scope Z_scope.

(** * Sums *)

Definition total_of (xs : list Z) : Z := foldr Z.add 0 xs.

Lemma total_of_cons x xs : total_of (x :: xs) = x + total_of xs.
Proof. done. Qed.
Lemma total_of_nil : total_of [] = 0.
Proof. done. Qed.
Arguments total_of : simpl never.

Lemma total_of_app xs ys : total_of (xs ++ ys) = total_of xs + total_of ys.
Proof. unfold total_of. induction xs as [|x xs IH]; [done|]. cbn. rewrite IH. lia. Qed.

#[export] Instance total_of_perm : Proper ((≡ₚ) ==> (=)) total_of.
Proof. intros l l' Hp. unfold total_of. induction Hp; cbn; lia. Qed.

Lemma total_of_concat {A} (f : A → Z) (ls : list (list A)) :
  total_of (f <$> concat ls) = total_of ((λ l, total_of (f <$> l)) <$> ls).
Proof.
  induction ls as [|l ls IH]; [done|]. cbn [concat fmap list_fmap].
  by rewrite fmap_app, total_of_app, IH.
Qed.

Lemma sqlite_sum_Err e xs :
  foldl (λ acc x,
    let? s := acc in
    let s := s + x in
    if (i64_min <=? s) && (s <=? i64_max) then Ok s
    else Err (EngineFailure "integer overflow")) (Err e : result Z DbError) xs = Err e.
Proof. induction xs; [done|]. by cbn. Qed.

(** A sum that is answered is the sum. *)
Lemma sqlite_sum_Ok xs s : sqlite_sum xs = Ok s → s = total_of xs.
Proof.
  assert (Hg : ∀ a, foldl (λ acc x,
    let? s := acc in
    let s := s + x in
    if (i64_min <=? s) && (s <=? i64_max) then Ok s
    else Err (EngineFailure "integer overflow")) (Ok a : result Z DbError) xs = Ok s →
    s = a + total_of xs).
  { induction xs as [|x xs IH]; intros a; cbn; [intros [= <-]; rewrite total_of_nil; lia|].
    rewrite total_of_cons. case_match; [intros Hs%IH; lia|]. by rewrite sqlite_sum_Err. }
  intros Hs. by apply Hg in Hs.
Qed.

(** * Partitions *)

Section Partition.
Context {A K : Type} `{EqDecision K} (f : A → K).

Definition class (k : K) (l : list A) : list A := List.filter (λ a, bool_decide (f a = k)) l.

Lemma class_cons_other a l (ks : list K) :
  f a ∉ ks → (λ k, class k (a :: l)) <$> ks = (λ k, class k l) <$> ks.
Proof.
  intros Ha. apply list_fmap_ext. intros i k Hk. unfold class. cbn.
  rewrite bool_decide_false; [done|]. intros <-. by apply Ha, (list_elem_of_lookup_2 _ i).
Qed.

(** The classes of a list of keys without repetition that has them all. *)
Lemma classes_perm (ks : list K) l :
  NoDup ks → (∀ a, a ∈ l → f a ∈ ks) → concat ((λ k, class k l) <$> ks) ≡ₚ l.
Proof.
  intros Hnd. induction l as [|a l IH]; intros Hin.
  { clear. induction ks; by cbn. }
  assert (Ha : f a ∈ ks) by (apply Hin; by left).
  transitivity (a :: concat ((λ k, class k l) <$> ks));
    [|constructor; apply IH; intros; apply Hin; by right].
  clear IH Hin.
  apply list_elem_of_split in Ha as (k1 & k2 & ->).
  apply NoDup_app in Hnd as (_ & Hdis & Hnd). apply NoDup_cons in Hnd as [Hk2 _].
  assert (Hk1 : f a ∉ k1) by (intros Hk; apply (Hdis _ Hk); by left).
  rewrite !fmap_app, !concat_app. rewrite (class_cons_other a l k1 Hk1).
  cbn [fmap list_fmap concat]. rewrite (class_cons_other a l k2 Hk2).
  unfold class at 2. cbn [List.filter]. rewrite bool_decide_true by done.
  fold (class (f a) l). cbn [app]. symmetry. apply Permutation_middle.
Qed.

Lemma remove_dups_classes l :
  concat ((λ k, class k l) <$> remove_dups (f <$> l)) ≡ₚ l.
Proof.
  apply classes_perm; [apply NoDup_remove_dups|]. intros a Ha.
  apply elem_of_remove_dups, list_elem_of_fmap_2, Ha.
Qed.
End Partition.

(** * The groups *)

Section Groups.
Context `{HashOrder} `{LogEngine}.

Lemma map_ok_Forall2 {A B} (f : A → result B DbError) l bs :
  map_ok f l = Ok bs → Forall2 (λ a b, f a = Ok b) l bs.
Proof.
  revert bs. induction l as [|a l IH]; intros bs; cbn; [intros [= <-]; constructor|].
  destruct (f a) as [b|] eqn:Hb; [|done]. cbn. destruct (map_ok f l) as [bs'|]; [|done].
  intros [= <-]. constructor; [done|]. by apply IH.
Qed.

(** Whatever a group sums over its rows, the groups together sum over all rows. *)
Lemma groups_total sum_int ds rows gs (measure : LogColumns → list Z) (field : SqlGroup → Z) :
  map_ok (λ kr, group_of sum_int kr.1 kr.2) (partition_rows ds rows) = Ok gs →
  (∀ dims rs g, group_of sum_int dims rs = Ok g →
     field g = total_of ((λ c, total_of (measure c)) <$> rs)) →
  total_of (field <$> gs) = total_of ((λ c, total_of (measure c)) <$> rows).
Proof.
  intros Hgs%map_ok_Forall2 Hf.
  transitivity (total_of ((λ c, total_of (measure c)) <$>
    concat ((λ k, class (dims_of ds) k rows) <$> remove_dups (dims_of ds <$> rows))));
    [|by rewrite remove_dups_classes].
  rewrite total_of_concat.
  unfold partition_rows in Hgs. rewrite Forall2_fmap_l in Hgs. f_equal.
  rewrite <- list_fmap_compose.
  induction Hgs as [|k g ks gs Hg _ IH]; [done|]. cbn. f_equal; [|exact IH].
  by apply Hf in Hg.
Qed.

Lemma option_total {A} (f : A → option Z) l :
  total_of (omap f l) = total_of ((λ a, total_of (option_list (f a))) <$> l).
Proof.
  induction l as [|a l IH]; [done|]. cbn. rewrite !total_of_cons.
  destruct (f a); cbn; rewrite ?total_of_cons, ?total_of_nil, IH; lia.
Qed.

Lemma group_of_sums dims rs g :
  group_of sqlite_sum dims rs = Ok g →
  sg_requests g = blen rs ∧
  sg_prompt g = total_of (omap (λ c, prompt_tokens (lc_record c)) rs) ∧
  sg_completion g = total_of (omap (λ c, completion_tokens (lc_record c)) rs).
Proof.
  unfold group_of. destruct (sqlite_sum (omap (λ c, prompt_tokens _) rs)) as [p|] eqn:Hp; [|done].
  cbn. destruct (sqlite_sum (omap (λ c, completion_tokens _) rs)) as [c|] eqn:Hc; [|done].
  intros [= <-]. cbn. apply sqlite_sum_Ok in Hp, Hc. by subst.
Qed.

Lemma blen_total {A} (l : list A) : blen l = total_of ((λ _, total_of [1]) <$> l).
Proof. unfold blen. induction l as [|a l IH]; [done|]. cbn. rewrite total_of_cons, <- IH.
  change (total_of [1]) with 1. cbn. lia. Qed.

(** The rows [aggregate] looks at. *)
Definition aggregated_rows (q : AggregateQuery) (t : gmap string LogColumns) : list LogColumns :=
  select_where (counted q) (scan t).

Lemma select_groups_totals q t gs :
  select_groups sqlite_sum q t = Ok gs →
  (length (remove_dups (dims_of (aq_group_by q) <$> aggregated_rows q t)) ≤ GROUP_LIMIT)%nat →
  total_of (sg_requests <$> gs) = blen (aggregated_rows q t) ∧
  total_of (sg_prompt <$> gs) =
    total_of (omap (λ c, prompt_tokens (lc_record c)) (aggregated_rows q t)) ∧
  total_of (sg_completion <$> gs) =
    total_of (omap (λ c, completion_tokens (lc_record c)) (aggregated_rows q t)).
Proof.
  intros Hsel Hlim. unfold select_groups in Hsel. fold (aggregated_rows q t) in Hsel.
  destruct (aq_group_by q) as [|d ds] eqn:Hds.
  - destruct (group_of sqlite_sum [] _) as [g|] eqn:Hg; [|done]. injection Hsel as <-.
    apply group_of_sums in Hg as (Hr & Hp & Hc). cbn. rewrite !total_of_cons, !total_of_nil, Hr, Hp, Hc. lia.
  - destruct (map_ok _ _) as [gs0|] eqn:Hgs; [|done]. cbn in Hsel. injection Hsel as <-.
    assert (Hlen : length gs0 = length (remove_dups (dims_of (d :: ds) <$> aggregated_rows q t))).
    { pose proof (map_ok_Forall2 _ _ _ Hgs) as Hl%Forall2_length. rewrite <- Hl.
      unfold partition_rows. by rewrite length_fmap. }
    assert (Hperm : take GROUP_LIMIT (order_by costlier gs0) ≡ₚ gs0).
    { rewrite take_ge; [apply merge_sort_Permutation|].
      unfold order_by. rewrite merge_sort_Permutation. lia. }
    rewrite !Hperm. split_and!.
    + rewrite blen_total. apply (groups_total _ _ _ _ (λ _, [1]) _ Hgs).
      intros dims rs g (-> & _)%group_of_sums. apply blen_total.
    + rewrite option_total.
      apply (groups_total _ _ _ _ (λ c, option_list (prompt_tokens (lc_record c))) _ Hgs).
      intros dims rs g (_ & -> & _)%group_of_sums. apply option_total.
    + rewrite option_total.
      apply (groups_total _ _ _ _ (λ c, option_list (completion_tokens (lc_record c))) _ Hgs).
      intros dims rs g (_ & _ & ->)%group_of_sums. apply option_total.
Qed.
End Groups.

(** Aggregation by any dimensions accounts for each matching record in exactly one
    group: as long as the groups fit in an answer, their requests and their prompt and
    completion tokens add up to those of the matching records. *)
Theorem aggregate_adds_up `{HashOrder} `{SqlEngine} `{LogEngine} l q res :
  sqlite_aggregate l q = Ok res →
  (length (remove_dups (dims_of (aq_group_by q) <$> aggregated_rows q (log_table l)))
     ≤ GROUP_LIMIT)%nat →
  total_of (ag_requests <$> groups res) = blen (aggregated_rows q (log_table l)) ∧
  total_of (ag_prompt_tokens <$> groups res) =
    total_of (omap (λ c, prompt_tokens (lc_record c)) (aggregated_rows q (log_table l))) ∧
  total_of (ag_completion_tokens <$> groups res) =
    total_of (omap (λ c, completion_tokens (lc_record c)) (aggregated_rows q (log_table l))).
Proof.
  unfold sqlite_aggregate, log_fetch. destruct (log_faults l 0%nat); [done|].
  destruct (select_groups _ _ _) as [gs|e] eqn:Hs; [|done]. intros [= <-] Hlim.
  destruct (select_groups_totals _ _ _ Hs Hlim) as (<- & <- & <-).
  cbn [aggregate_result groups]. by rewrite <- !list_fmap_compose.
Qed.

(** * A concrete run: two models, three records *)

Section Example.
#[local] Existing Instance tree_order.
#[local] Existing Instance codec.
#[local] Instance sum_sql_engine : SqlEngine := {| db_error_text _ := "error" |}.
#[local] Instance sum_functions : LogEngine :=
  {| nan_is_null := true; day_text _ := Some "1970-01-01"%string; hour_text _ := None;
     sum_real xs := match xs with [] => None | _ => Some (foldl f64_add f64_zero xs) end;
     round_6 x := x; json_last_provider _ := None |}.

Definition summed_store : SqlLogStore :=
  let put r l := (log_append CHANNEL_CAPACITY r l).2 in
  (log_flush BATCH_MAX_ROWS (put (sample_record "c" 1)
     (put (sample_record "b" 2) (put (sample_record "a" 2) (sql_log_new reliable))))).2.

Definition by_model : AggregateQuery :=
  {| aq_project_id := None; aq_from_ts := None; aq_to_ts := None;
     aq_group_by := [Model; Day] |}.

Lemma aggregate_adds_up_witness :
  ∃ res, sqlite_aggregate summed_store by_model = Ok res ∧
    total_of (ag_requests <$> groups res) = 3 ∧
    total_of (ag_prompt_tokens <$> groups res) = 3000.
Proof.
  eexists. split; [vm_compute; reflexivity|].
  edestruct (aggregate_adds_up summed_store by_model) as (Hr & Hp & _).
  - vm_compute. reflexivity.
  - vm_compute. lia.
  - split; [exact Hr|exact Hp].
Defined.
End Example.
