(* ===== verification/PostgresLog.v ===== *)
(** The PostgreSQL log store: gateway-storage/src/postgres/logs.rs.  Table, channel and
    worker are those of the SQLite store, with other sizes; the query has no cursor. *)
From Stdlib Require Import ZArith Lia Bool Ascii String SpecFloat.
From stdpp Require Import prelude gmap strings list sorting.
From S2P Require Import Prelude Text Decimal F64 Json Errors Models Stores MemoryLog Sql SqlLog Codec SqliteLog.
Open Scope Z_scope.

Record PgLogStore : Type := { pg_log : SqlLogStore }.

Definition PG_BATCH_MAX_ROWS : nat := 500.
Definition PG_CHANNEL_CAPACITY : nat := 8 * 1024.

(** The order of texts: the collation of the database. *)
Class Collation : Type := {
  collated : string → string → Prop;
  #[global] collated_dec :: RelDecision collated
}.

(** [ORDER BY request_ts DESC, id DESC] *)
Definition pg_before `{Collation} (a b : LogColumns) : Prop :=
  column_ts b < column_ts a ∨ (column_ts a = column_ts b ∧ collated (column_id b) (column_id a)).
#[export] Instance pg_before_dec `{Collation} : RelDecision pg_before.
Proof. intros a b. unfold pg_before. apply _. Defined.

Section Postgres.
Context `{HashOrder} `{SerdeJson} `{SqlEngine} `{LogEngine} `{Collation}.

Definition on_log {A} (r : A * SqlLogStore) : A * PgLogStore := (r.1, {| pg_log := r.2 |}).

Definition pg_append (r : RequestLogRecord) : prog PgLogStore (store_result unit) :=
  λ l, Ret (on_log (log_append PG_CHANNEL_CAPACITY r (pg_log l))).

(** The cursor of the query is not looked at. *)
Definition pg_select (q : LogQuery) (t : gmap string LogColumns) : list LogColumns :=
  take (Z.to_nat (query_limit q + 1))
    (order_by pg_before (select_where (selected q) (scan t))).

Definition pg_query (l : PgLogStore) (q : LogQuery) : store_result (Page RequestLogRow) :=
  result_map (page_of (query_limit q)) (log_fetch (λ t, Ok (pg_select q t)) (pg_log l)).

Definition pg_get_by_id (l : PgLogStore) (i : string) : store_result (option RequestLogRecord) :=
  let? row := log_fetch (λ t, Ok (t !! i)) (pg_log l) in
  match row with
  | Some c => result_map Some (log_detail c)
  | None => Ok None
  end.

(** [SUM(..)::BIGINT]: the sum is exact, the cast may fail. *)
Definition pg_sum (xs : list Z) : result Z DbError :=
  let s := foldr Z.add 0 xs in
  if (i64_min <=? s) && (s <=? i64_max) then Ok s
  else Err (EngineFailure "bigint out of range").

Definition pg_aggregate (l : PgLogStore) (q : AggregateQuery) : store_result AggregateResult :=
  result_map (aggregate_result q) (log_fetch (select_groups pg_sum q) (pg_log l)).

Definition pg_purge (l : PgLogStore) (ts : Timestamp) : store_result Z * PgLogStore :=
  let '(r, s) := log_execute (λ t, Ok (purge_rows ts t)) (pg_log l) in
  (map_err database_error r, {| pg_log := s |}).

Definition pg_distinct_cost_keys (l : PgLogStore) (from to : option Timestamp) :
    store_result (list (string * string)) :=
  log_fetch (λ t, Ok (select_cost_keys from to t)) (pg_log l).

(** [GREATEST(prompt - cached, 0)]: a difference that overflows is an error. *)
Definition pg_uncached (c : LogColumns) : result f64 DbError :=
  let d := default 0 (prompt_tokens (lc_record c)) - default 0 (cached_tokens (lc_record c)) in
  if (i64_min <=? d) && (d <=? i64_max) then Ok (f64_of_Z (Z.max d 0))
  else Err (EngineFailure "bigint out of range").

(** The statement updates every row that matches, or none. *)
Definition pg_update_costs (provider model_ : string) (input cached_input output : f64)
    (from to : option Timestamp) (t : gmap string LogColumns) :
    result (Z * gmap string LogColumns) DbError :=
  let hit := recomputed provider model_ from to in
  let rows := filter (λ kc, hit kc.2 = true) t in
  let? _ := map_ok pg_uncached (scan rows) in
  Ok (Z.of_nat (size rows),
      (λ c, if hit c
            then match pg_uncached c with
                 | Ok u => set_column_costs (new_cost u input cached_input output c) c
                 | Err _ => c
                 end
            else c) <$> t).

Definition pg_recompute_costs (l : PgLogStore) (provider model_ : string)
    (input cached_input output : f64) (from to : option Timestamp) :
    store_result Z * PgLogStore :=
  let '(r, s) := log_execute
    (pg_update_costs provider model_ input cached_input output from to) (pg_log l) in
  (map_err database_error r, {| pg_log := s |}).

Definition pg_flush (l : PgLogStore) : store_result unit * PgLogStore :=
  on_log (log_flush PG_BATCH_MAX_ROWS (pg_log l)).

(** The worker: what it writes, a turn of it, and its end. *)
Definition pg_flush_batch (l : PgLogStore) : PgLogStore := {| pg_log := flush_batch (pg_log l) |}.
Definition pg_worker_turn (l : PgLogStore) : PgLogStore :=
  {| pg_log := worker_turn PG_BATCH_MAX_ROWS (pg_log l) |}.
Definition pg_worker_shutdown (l : PgLogStore) : PgLogStore :=
  {| pg_log := worker_shutdown PG_BATCH_MAX_ROWS (pg_log l) |}.
End Postgres.

#[export] Instance postgres_log `{HashOrder} `{SerdeJson} `{SqlEngine} `{LogEngine} `{Collation} :
    LogStore PgLogStore := {
  append := pg_append;
  query := pg_query;
  get_by_id := pg_get_by_id;
  aggregate := pg_aggregate;
  purge_older_than := pg_purge;
  distinct_cost_keys := pg_distinct_cost_keys;
  recompute_costs := pg_recompute_costs;
  flush := pg_flush
}.

(** * The cursor that leads nowhere *)

Definition pg_with_cursor (c : string) (q : LogQuery) : LogQuery :=
  {| q_project_id := q_project_id q; q_gateway_key_id := q_gateway_key_id q;
     q_namespace := q_namespace q; q_model := q_model q; q_status := q_status q;
     q_from_ts := q_from_ts q; q_to_ts := q_to_ts q; q_limit := q_limit q;
     q_cursor := Some c |}.

Section Follow.
Context `{HashOrder} `{SerdeJson} `{SqlEngine} `{LogEngine} `{Collation}.

(** A client that asks for the next page until there is none. *)
Fixpoint pg_follow (fuel : nat) (l : PgLogStore) (q : LogQuery) : option (list RequestLogRow) :=
  match fuel with
  | O => None
  | S f =>
      match pg_query l q with
      | Err _ => None
      | Ok p =>
          match next_cursor p with
          | None => Some (items p)
          | Some c => rest ← pg_follow f l (pg_with_cursor c q); Some (items p ++ rest)
          end
      end
  end.

Lemma pg_query_cursor l q c : pg_query l (pg_with_cursor c q) = pg_query l q.
Proof. done. Qed.
End Follow.

(** On PostgreSQL the cursor is answered but not followed: the page after a page is
    that page again, with the same cursor, and a client that follows cursors never
    comes to an end. *)
Theorem pg_pages_repeat `{HashOrder} `{SerdeJson} `{SqlEngine} `{LogEngine} `{Collation}
    l q p c :
  pg_query l q = Ok p → next_cursor p = Some c →
  pg_query l (pg_with_cursor c q) = Ok p ∧ ∀ fuel, pg_follow fuel l q = None.
Proof.
  intros Hp Hc. split; [by rewrite pg_query_cursor|]. intros fuel.
  assert (Hq : ∀ q', pg_query l q' = Ok p → pg_follow fuel l q' = None); [|by apply Hq].
  induction fuel as [|fuel IH]; intros q' Hq'; [done|]. cbn [pg_follow]. rewrite Hq', Hc.
  rewrite IH; [done|]. by rewrite pg_query_cursor.
Qed.

Section Example.
#[local] Existing Instance tree_order.
#[local] Existing Instance codec.
#[local] Instance pg_sql_engine : SqlEngine := {| db_error_text _ := "error" |}.
#[local] Instance pg_functions : LogEngine :=
  {| nan_is_null := false; day_text _ := None; hour_text _ := None; sum_real _ := None;
     round_6 x := x; json_last_provider _ := None |}.
#[local] Instance bytewise : Collation := {| collated := str_le |}.

(** Two records, one per page. *)
Definition two_logged : PgLogStore :=
  let put r l := {| pg_log := (log_append PG_CHANNEL_CAPACITY r (pg_log l)).2 |} in
  (pg_flush (put (sample_record "b" 2)
     (put (sample_record "a" 1) {| pg_log := sql_log_new reliable |}))).2.

Definition single : LogQuery :=
  {| q_project_id := None; q_gateway_key_id := None; q_namespace := None;
     q_model := None; q_status := None; q_from_ts := None; q_to_ts := None;
     q_limit := 1; q_cursor := None |}.

Lemma pg_pages_repeat_witness :
  pg_query two_logged (pg_with_cursor "2:b" single) =
    Ok {| items := [log_row (sample_record "b" 2)]; next_cursor := Some "2:b"%string |} ∧
  pg_follow 100 two_logged single = None.
Proof.
  destruct (pg_pages_repeat two_logged single
    {| items := [log_row (sample_record "b" 2)]; next_cursor := Some "2:b"%string |} "2:b")
    as [Hp Hf].
  - vm_compute. reflexivity.
  - reflexivity.
  - split; [exact Hp|apply Hf].
Defined.
End Example.
