(* ===== verification/SqliteKv.v ===== *)
(** The cache of the Lite profile: gateway-storage/src/sqlite/kv.rs, a table of
    SQLite behind an in-process cache (the crate moka, a parameter). *)
From Stdlib Require Import ZArith Lia Bool String.
From stdpp Require Import prelude gmap strings list.
From S2P Require Import Prelude Text Errors Models Stores Sql.
Open Scope Z_scope.

(** The operations of [moka::future::Cache] that are used. *)
Class Moka (C : Type) : Type := {
  moka_get : C → string → option bytes * C;
  moka_insert : C → string → bytes → C;
  moka_invalidate : C → string → C
}.

(** What moka promises: an entry is what was last inserted under its key and not
    invalidated since; it may be evicted at any time. *)
Class MokaLaws (C : Type) `{Moka C} : Type := {
  moka_last : C → string → option bytes;
  moka_get_last c k v c' : moka_get c k = (Some v, c') → moka_last c k = Some v;
  moka_get_keeps c k k' : moka_last (moka_get c k).2 k' = moka_last c k';
  moka_insert_last c k v k' :
    moka_last (moka_insert c k v) k' = if String.eqb k' k then Some v else moka_last c k';
  moka_invalidate_last c k k' :
    moka_last (moka_invalidate c k) k' = if String.eqb k' k then None else moka_last c k'
}.

(** A row of [kv_cache]. *)
Record KvRow : Type := {
  kv_value : bytes;
  kv_expires_at : Z;
  kv_size_bytes : Z;
  kv_hit_count : Z;
  kv_last_accessed_at : Z;
  kv_created_at : Z
}.

Record SqliteKvStore (C : Type) : Type := {
  l1 : C;
  kv_rows : gmap string KvRow;
  kv_faults : Faults;
  kv_utc : Clock
}.
Arguments l1 {C} _.
Arguments kv_rows {C} _.
Arguments kv_faults {C} _.
Arguments kv_utc {C} _.

Section SqliteKv.
Context `{HashOrder} `{SqlEngine} `{Moka C}.

Definition set_l1 (k : SqliteKvStore C) (c : C) : SqliteKvStore C :=
  {| l1 := c; kv_rows := kv_rows k; kv_faults := kv_faults k; kv_utc := kv_utc k |}.
Definition kv_now_ms (k : SqliteKvStore C) : Z * SqliteKvStore C :=
  (now (kv_utc k),
   {| l1 := l1 k; kv_rows := kv_rows k; kv_faults := kv_faults k; kv_utc := tick (kv_utc k) |}).

(** A statement on the table. *)
Definition kv_execute (f : gmap string KvRow → gmap string KvRow) (k : SqliteKvStore C) :
    result unit DbError * SqliteKvStore C :=
  let set rows := {| l1 := l1 k; kv_rows := rows; kv_faults := λ n, kv_faults k (S n);
                     kv_utc := kv_utc k |} in
  match kv_faults k 0%nat with
  | Some e => (Err e, set (kv_rows k))
  | None => (Ok (), set (f (kv_rows k)))
  end.

(** An entry of the first level is returned as it is; the expiry is in the table. *)
Definition sqlite_kv_get (k : SqliteKvStore C) (key : string) :
    store_result (option bytes) * SqliteKvStore C :=
  let '(hit, c) := moka_get (l1 k) key in
  let k := set_l1 k c in
  match hit with
  | Some v => (Ok (Some v), k)
  | None =>
      match kv_faults k 0%nat with
      | Some e => (Err (database_error e), k)
      | None =>
          match kv_rows k !! key with
          | Some r =>
              let '(t, k) := kv_now_ms k in
              if kv_expires_at r <? t then
                let '(_, k) := kv_execute (delete key) k in (Ok None, k)
              else
                (Ok (Some (kv_value r)), set_l1 k (moka_insert (l1 k) key (kv_value r)))
          | None => (Ok None, k)
          end
      end
  end.

(** [ON CONFLICT(key) DO UPDATE SET ..] *)
Definition replace_kv (old new : KvRow) : KvRow :=
  {| kv_value := kv_value new; kv_expires_at := kv_expires_at new;
     kv_size_bytes := kv_size_bytes new; kv_hit_count := kv_hit_count old;
     kv_last_accessed_at := kv_last_accessed_at new; kv_created_at := kv_created_at old |}.

(** [now + ttl.as_millis().min(i64::MAX as u128) as i64] *)
Definition kv_expiry (t ttl : Z) : Z := as_i64 (t + Z.min (ttl * 1000) i64_max).

Definition sqlite_kv_put (k : SqliteKvStore C) (key : string) (value : bytes) (ttl : Z) :
    store_result unit * SqliteKvStore C :=
  let '(t, k) := kv_now_ms k in
  let row := {| kv_value := value; kv_expires_at := kv_expiry t ttl;
                kv_size_bytes := blen value; kv_hit_count := 0;
                kv_last_accessed_at := t; kv_created_at := t |} in
  let k := set_l1 k (moka_insert (l1 k) key value) in
  let '(r, k) := kv_execute (insert_or key row replace_kv) k in
  (map_err database_error r, k).

Definition sqlite_kv_delete (k : SqliteKvStore C) (key : string) :
    store_result unit * SqliteKvStore C :=
  let k := set_l1 k (moka_invalidate (l1 k) key) in
  let '(r, k) := kv_execute (delete key) k in
  (map_err database_error r, k).

Definition EVICT_LIMIT : nat := 5000.

(** A turn of the evictor: at most [EVICT_LIMIT] expired rows go. *)
Definition kv_evict (k : SqliteKvStore C) : SqliteKvStore C :=
  let '(t, k) := kv_now_ms k in
  let '(_, k) := kv_execute (λ rows,
    foldr (λ kr rows, delete kr.1 rows) rows
      (take EVICT_LIMIT (List.filter (λ kr, kv_expires_at kr.2 <? t) (hash_iter rows)))) k in k.
End SqliteKv.

#[export] Instance sqlite_kv `{SqlEngine} `{Moka C} : KvStore (SqliteKvStore C) := {
  kv_get := sqlite_kv_get;
  kv_put key value ttl := λ k, Ret (sqlite_kv_put k key value ttl);
  kv_delete := sqlite_kv_delete
}.

(** * What a read returns *)

Section Coherence.
Context `{HashOrder} `{SqlEngine} `{MokaLaws C}.

Inductive KvOp : Type :=
| KvGet (key : string)
| KvPut (key : string) (value : bytes) (ttl : Z)
| KvDelete (key : string)
| KvEvict.

Definition kv_run (o : KvOp) (k : SqliteKvStore C) : SqliteKvStore C :=
  match o with
  | KvGet key => (sqlite_kv_get k key).2
  | KvPut key value ttl => (sqlite_kv_put k key value ttl).2
  | KvDelete key => (sqlite_kv_delete k key).2
  | KvEvict => kv_evict k
  end.

(** What was last put under each key and not deleted since. *)
Definition written_step (o : KvOp) (w : gmap string bytes) : gmap string bytes :=
  match o with
  | KvPut key value _ => <[key := value]> w
  | KvDelete key => delete key w
  | _ => w
  end.

Definition kv_runs (os : list KvOp) (k : SqliteKvStore C) : SqliteKvStore C :=
  foldl (λ k o, kv_run o k) k os.
Definition written (os : list KvOp) : gmap string bytes :=
  foldl (λ w o, written_step o w) ∅ os.

Definition kv_reliable (k : SqliteKvStore C) : Prop := ∀ n, kv_faults k n = None.

(** Both levels hold only what was written. *)
Record coherent (w : gmap string bytes) (k : SqliteKvStore C) : Prop := {
  coherent_reliable : kv_reliable k;
  coherent_l1 key v : moka_last (l1 k) key = Some v → w !! key = Some v;
  coherent_rows key r : kv_rows k !! key = Some r → w !! key = Some (kv_value r)
}.

(** Losing rows is harmless. *)
Lemma coherent_execute w k f :
  coherent w k → (∀ key r, f (kv_rows k) !! key = Some r → w !! key = Some (kv_value r)) →
  coherent w (kv_execute f k).2.
Proof.
  intros [Hq Hl Hr] Hf. unfold kv_execute. rewrite (Hq 0%nat). constructor; cbn; try done.
  intros n. apply Hq.
Qed.

Lemma coherent_l1_set w k c :
  coherent w k → (∀ key v, moka_last c key = Some v → w !! key = Some v) →
  coherent w (set_l1 k c).
Proof. intros [Hq Hl Hr] Hc. by constructor. Qed.

Lemma coherent_now w k : coherent w k → coherent w (kv_now_ms k).2.
Proof. intros [Hq Hl Hr]. by constructor. Qed.

Lemma coherent_get w k key :
  coherent w k →
  coherent w (sqlite_kv_get k key).2 ∧
  ∀ v, (sqlite_kv_get k key).1 = Ok (Some v) → w !! key = Some v.
Proof.
  intros Hk. unfold sqlite_kv_get. destruct (moka_get (l1 k) key) as [hit c] eqn:Hg.
  assert (Hc : coherent w (set_l1 k c)).
  { apply coherent_l1_set; [done|]. intros k' v Hv. apply (coherent_l1 _ _ Hk).
    rewrite <- (moka_get_keeps (l1 k) key). by rewrite Hg. }
  destruct hit as [v|].
  { split; [done|]. intros v' [= <-]. apply (coherent_l1 _ _ Hk). by eapply moka_get_last. }
  rewrite (coherent_reliable _ _ Hc 0%nat).
  destruct (kv_rows (set_l1 k c) !! key) as [r|] eqn:Hr; [|by split].
  pose proof (coherent_rows _ _ Hc _ _ Hr) as Hw. cbn [kv_now_ms].
  case_match.
  - rewrite (surjective_pairing (kv_execute _ _)). split; [|done].
    apply coherent_execute; [exact (coherent_now _ _ Hc)|].
    intros k2 r2 [_ Hr2]%lookup_delete_Some. by apply (coherent_rows _ _ Hk).
  - split; [|by intros v [= <-]].
    apply coherent_l1_set; [exact (coherent_now _ _ Hc)|].
    intros k' v. rewrite moka_insert_last. destruct (String.eqb_spec k' key) as [->|_].
    + by intros [= <-].
    + apply (coherent_l1 _ _ Hc).
Qed.

Lemma coherent_run w k o : coherent w k → coherent (written_step o w) (kv_run o k).
Proof.
  intros Hk. destruct o as [key|key value ttl|key|]; cbn [kv_run written_step].
  - by apply coherent_get.
  - unfold sqlite_kv_put. cbn [kv_now_ms]. rewrite (surjective_pairing (kv_execute _ _)). cbn [snd].
    destruct Hk as [Hq Hl Hr]. unfold kv_execute. cbn [kv_faults set_l1]. rewrite (Hq 0%nat).
    constructor; cbn; [intros n; apply Hq| |].
    + intros k' v. rewrite moka_insert_last. destruct (String.eqb_spec k' key) as [->|Hne].
      * intros [= ->]. apply lookup_insert_eq.
      * rewrite lookup_insert_ne by done. apply Hl.
    + intros k' r. unfold insert_or. destruct (kv_rows k !! key);
        rewrite !lookup_insert_Some; (intros [[<- <-]|[Hne Hk']]; [by left|right; auto]).
  - unfold sqlite_kv_delete. rewrite (surjective_pairing (kv_execute _ _)). cbn [snd].
    destruct Hk as [Hq Hl Hr]. unfold kv_execute. cbn [kv_faults set_l1]. rewrite (Hq 0%nat).
    constructor; cbn; [intros n; apply Hq| |].
    + intros k' v. rewrite moka_invalidate_last.
      destruct (String.eqb_spec k' key) as [->|Hne]; [done|].
      rewrite lookup_delete_ne by done. apply Hl.
    + intros k' r. rewrite !lookup_delete_Some. intros [Hne Hk']. auto.
  - unfold kv_evict. cbn [kv_now_ms].
    rewrite (surjective_pairing (kv_execute _ _)).
    apply coherent_execute; [exact (coherent_now _ _ Hk)|]. cbn beta.
    match goal with |- context [take EVICT_LIMIT ?x] => generalize (take EVICT_LIMIT x) end.
    intros l key r. pose proof (coherent_rows _ _ Hk) as Hr. clear -Hr. revert key r.
    induction l as [|kr l IH]; [exact Hr|]. cbn. intros key r [_ Hl]%lookup_delete_Some.
    by apply IH.
Qed.

Lemma coherent_runs os k : coherent ∅ k → coherent (written os) (kv_runs os k).
Proof.
  intros Hk. unfold written, kv_runs. revert Hk. generalize (∅ : gmap string bytes) as w.
  revert k. induction os as [|o os IH]; intros k w Hk; [done|]. cbn. by apply IH, coherent_run.
Qed.
End Coherence.

(** C35: Whatever the in-process cache evicts, and whenever: after any sequence of reads,
    writes, deletions and evictions on a database that does not fail, a read returns the
    value last written under its key and not deleted since, or nothing. *)
Theorem kv_reads_last_written `{HashOrder} `{SqlEngine} `{MokaLaws C} os (c : C) clk key v :
  (∀ k, moka_last c k = None) →
  (sqlite_kv_get (kv_runs os
     {| l1 := c; kv_rows := ∅; kv_faults := reliable; kv_utc := clk |}) key).1 = Ok (Some v) →
  written os !! key = Some v.
Proof.
  intros Hc. apply coherent_get, coherent_runs.
  constructor; cbn; [done| |by intros k r].
  intros k v'. by rewrite Hc.
Qed.

(** The first level knows no expiry: an entry it still holds is returned however
    late it is, whatever the time to live it was stored with. *)
Theorem l1_outlives_ttl `{SqlEngine} `{Moka C} (k : SqliteKvStore C) key value ttl late :
  let put := sqlite_kv_put k key value ttl in
  put.1 = Ok () →
  (moka_get (l1 put.2) key).1 = Some value →
  let k' := {| l1 := l1 put.2; kv_rows := kv_rows put.2; kv_faults := kv_faults put.2;
               kv_utc := λ _, late |} in
  (sqlite_kv_get k' key).1 = Ok (Some value).
Proof.
  intros put Hput Hhit. unfold sqlite_kv_get. cbn [l1].
  destruct (moka_get (l1 put.2) key) as [hit c]. cbn in Hhit. by subst hit.
Qed.

Section Example.
#[local] Existing Instance tree_order.
#[local] Instance kv_sql_engine : SqlEngine := {| db_error_text _ := "error" |}.

(** A cache that evicts nothing. *)
#[local] Instance map_moka : Moka (gmap string bytes) := {
  moka_get c k := (c !! k, c);
  moka_insert c k v := <[k := v]> c;
  moka_invalidate c k := delete k c
}.
#[local] Instance map_moka_laws : MokaLaws (gmap string bytes).
Proof.
  refine {| moka_last c k := c !! k |}; cbn; try done.
  - by intros c k v c' [= -> _].
  - intros c k v k'. destruct (String.eqb_spec k' k) as [->|]; [by rewrite lookup_insert_eq|].
    by rewrite lookup_insert_ne.
  - intros c k k'. destruct (String.eqb_spec k' k) as [->|]; [by rewrite lookup_delete_eq|].
    by rewrite lookup_delete_ne.
Defined.

Definition kv_empty : SqliteKvStore (gmap string bytes) :=
  {| l1 := ∅; kv_rows := ∅; kv_faults := reliable; kv_utc := λ _, 1000 |}.

Lemma kv_reads_last_written_witness :
  written [KvPut "a" [Byte.x01] 60; KvPut "a" [Byte.x02] 60; KvDelete "b"; KvEvict]
    !! "a"%string = Some [Byte.x02].
Proof.
  apply (kv_reads_last_written _ (∅ : gmap string bytes) (λ _, 1000) "a").
  - done.
  - vm_compute. reflexivity.
Defined.

(** Stored for one second, read an hour later. *)
Lemma l1_outlives_ttl_witness :
  let put := sqlite_kv_put kv_empty "a" [Byte.x01] 1 in
  (sqlite_kv_get {| l1 := l1 put.2; kv_rows := kv_rows put.2; kv_faults := kv_faults put.2;
                    kv_utc := λ _, 3601000 |} "a").1 = Ok (Some [Byte.x01]) ∧
  (sqlite_kv_get {| l1 := (∅ : gmap string bytes); kv_rows := kv_rows put.2;
                    kv_faults := kv_faults put.2; kv_utc := λ _, 3601000 |} "a").1 = Ok None.
Proof.
  split; [|vm_compute; reflexivity].
  apply (l1_outlives_ttl kv_empty "a" [Byte.x01] 1 3601000); vm_compute; reflexivity.
Defined.
End Example.
