(* ===== verification/MemoryKv.v ===== *)
(** The in-memory cache store: gateway-storage/src/memory/mod.rs
    ([MemoryKvStore]). *)
From Stdlib Require Import ZArith Lia String.
From stdpp Require Import prelude gmap strings list.
From S2P Require Import Prelude Text Models Stores.
Open Scope Z_scope.

(** A monotonic instant, in nanoseconds since an arbitrary origin; it is kept in
    64-bit seconds, so adding a duration overflows (and panics) beyond
    [instant_max]. *)
Definition second_ns : Z := 1000000000.
Definition instant_max : Z := i64_max * second_ns + (second_ns - 1).

(** The entries with their expiry, and the readings of the monotonic clock. *)
Record MemoryKvStore : Type := {
  entries : gmap string (bytes * Z);
  kv_instant : Clock
}.

Definition kv_new (clk : Clock) : MemoryKvStore := {| entries := ∅; kv_instant := clk |}.

Definition mem_kv_get (k : MemoryKvStore) (key : string) :
    store_result (option bytes) * MemoryKvStore :=
  match entries k !! key with
  | Some (v, exp) =>
      let t := now (kv_instant k) in
      let k := {| entries := entries k; kv_instant := tick (kv_instant k) |} in
      if t <? exp then (Ok (Some v), k)
      else (Ok None, {| entries := delete key (entries k); kv_instant := kv_instant k |})
  | None => (Ok None, k)
  end.

(** [Instant::now() + ttl] *)
Definition expiry (t ttl : Z) : outcome Z :=
  let exp := t + ttl * second_ns in
  if exp <=? instant_max then Ret exp else Panic.

Definition mem_kv_put (key : string) (value : bytes) (ttl : Z) :
    prog MemoryKvStore (store_result unit) :=
  λ k,
    match expiry (now (kv_instant k)) ttl with
    | Ret exp =>
        Ret (Ok (), {| entries := <[key := (value, exp)]> (entries k);
                       kv_instant := tick (kv_instant k) |})
    | Panic => Panic
    end.

Definition mem_kv_delete (k : MemoryKvStore) (key : string) :
    store_result unit * MemoryKvStore :=
  (Ok (), {| entries := delete key (entries k); kv_instant := kv_instant k |}).

#[export] Instance memory_kv : KvStore MemoryKvStore := {
  kv_get := mem_kv_get;
  kv_put := mem_kv_put;
  kv_delete := mem_kv_delete
}.

(** * Properties *)

(** The cache returns what was stored until it expires: after a [put] with a
    time to live that fits the clock, a [get] of the key returns the value when
    the clock has not reached the expiry and nothing (the entry being dropped)
    from then on, and other keys are unaffected. *)
Theorem put_get_until_expiry key value ttl (k : MemoryKvStore) :
  now (kv_instant k) + ttl * second_ns ≤ instant_max →
  ∃ k1, kv_put key value ttl k = Ret (Ok (), k1) ∧
    (kv_get k1 key).1 =
      Ok (if kv_instant k 1%nat <? now (kv_instant k) + ttl * second_ns
          then Some value else None) ∧
    entries (kv_get k1 key).2 !! key =
      (if kv_instant k 1%nat <? now (kv_instant k) + ttl * second_ns
       then Some (value, now (kv_instant k) + ttl * second_ns) else None) ∧
    ∀ key', key' ≠ key → entries (kv_get k1 key).2 !! key' = entries k !! key'.
Proof.
  intros Hfit. simpl. unfold mem_kv_put, expiry. rewrite (proj2 (Z.leb_le _ _)) by done.
  eexists. split; [done|]. unfold mem_kv_get. simpl. rewrite lookup_insert_eq.
  change (now (tick (kv_instant k))) with (kv_instant k 1%nat).
  destruct (_ <? _); simpl.
  - split; [done|]. split; [by rewrite lookup_insert_eq|].
    intros key' Hne. by rewrite lookup_insert_ne.
  - split; [done|]. split; [by rewrite lookup_delete_eq|].
    intros key' Hne. by rewrite lookup_delete_ne, lookup_insert_ne.
Qed.

(** A client-chosen time to live can crash the write: any duration that takes
    the expiry past the range of the clock panics. *)
Theorem put_huge_ttl_panics key value ttl (k : MemoryKvStore) :
  instant_max < now (kv_instant k) + ttl * second_ns →
  kv_put key value ttl k = Panic.
Proof.
  intros Hbig. simpl. unfold mem_kv_put, expiry. by rewrite (proj2 (Z.leb_gt _ _)).
Qed.

Lemma put_get_until_expiry_witness :
  ∃ k1, kv_put "a" [Byte.x61] 60 (kv_new (λ _, 0)) = Ret (Ok (), k1) ∧
    (kv_get k1 "a").1 = Ok (Some [Byte.x61]).
Proof.
  destruct (put_get_until_expiry "a" [Byte.x61] 60 (kv_new (λ _, 0)))
    as (k1 & Hp & Hg & _).
  - vm_compute. congruence.
  - exists k1. split; [exact Hp|exact Hg].
Defined.

(** The largest value of the [x-gateway-cache-ttl] header. *)
Lemma put_huge_ttl_panics_witness :
  kv_put "a" [Byte.x61] u64_max (kv_new (λ _, 0)) = Panic.
Proof.
  apply (put_huge_ttl_panics "a" [Byte.x61] u64_max (kv_new (λ _, 0))).
  vm_compute. reflexivity.
Defined.
