(* ===== verification/Redis.v ===== *)
(** The stores of the Standard profile that live in Redis:
    gateway-storage/src/redis/counter.rs and gateway-storage/src/redis/kv.rs.  The
    server and its client library are a parameter ([Redis]). *)
From Stdlib Require Import ZArith Lia Bool String SpecFloat.
From stdpp Require Import prelude gmap strings list relations.
From S2P Require Import Prelude Text Decimal F64 Errors Models Stores MemoryCounter.
Open Scope Z_scope.

(** * The server *)

(** The commands used, with the client's conversion of the reply. *)
Class Redis (R : Type) : Type := {
  redis_incr : R → string → Z → result Z string * R;
  redis_decr : R → string → Z → result Z string * R;
  redis_expire : R → string → Z → result bool string * R;
  redis_get : R → string → result (option bytes) string * R;
  redis_incrbyfloat : R → string → f64 → result f64 string * R;
  redis_set_ex : R → string → bytes → Z → result unit string * R;
  redis_del : R → string → result unit string * R;
  (** [Option<i64>] and [Option<String>] from a reply *)
  redis_int : bytes → result Z string;
  redis_text : bytes → result string string
}.

(** What the server promises of integers, while no key expires: a missing key counts
    as 0, a command that answered was applied, one that did not may have been. *)
Class RedisLaws (R : Type) `{Redis R} : Type := {
  redis_num : R → string → Z;
  redis_incr_Ok r k by_ v r' :
    redis_incr r k by_ = (Ok v, r') →
    v = redis_num r k + by_ ∧
    ∀ k', redis_num r' k' = if String.eqb k' k then v else redis_num r k';
  redis_incr_Err r k by_ e r' :
    redis_incr r k by_ = (Err e, r') →
    (redis_num r' k = redis_num r k ∨ redis_num r' k = redis_num r k + by_) ∧
    ∀ k', k' ≠ k → redis_num r' k' = redis_num r k';
  redis_decr_Ok r k by_ v r' :
    redis_decr r k by_ = (Ok v, r') →
    v = redis_num r k - by_ ∧
    ∀ k', redis_num r' k' = if String.eqb k' k then v else redis_num r k';
  redis_decr_Err r k by_ e r' :
    redis_decr r k by_ = (Err e, r') →
    (redis_num r' k = redis_num r k ∨ redis_num r' k = redis_num r k - by_) ∧
    ∀ k', k' ≠ k → redis_num r' k' = redis_num r k';
  redis_expire_num r k ttl k' : redis_num (redis_expire r k ttl).2 k' = redis_num r k'
}.

(** * counter.rs *)

Record RedisCounterStore (R : Type) : Type := { redis_conn : R; redis_utc : Clock }.
Arguments redis_conn {R} _.
Arguments redis_utc {R} _.

Section Counter.
Context `{Redis R}.

Definition set_conn (s : RedisCounterStore R) (r : R) : RedisCounterStore R :=
  {| redis_conn := r; redis_utc := redis_utc s |}.

Definition unavailable (what e : string) : StorageError :=
  SUnavailable ("redis " +:+ what +:+ ": " +:+ e)%string.

Definition bucket_key (now_ms : Z) (key : string) (window_ms : Z) : string :=
  ("ctr:" +:+ key +:+ ":" +:+ dec_of window_ms +:+ ":" +:+
   dec_of (bucket_of now_ms window_ms))%string.

(** [((window_ms / 1000).max(1) * 2) as i64] *)
Definition window_ttl (window_ms : Z) : Z :=
  as_i64 (as_u64 (Z.max (window_ms / 1000) 1 * 2)).

(** [?] after a command: the connection is kept either way. *)
Definition redis_incr_window (s : RedisCounterStore R) (key : string) (window_ms by_ : Z) :
    store_result Z * RedisCounterStore R :=
  let k := bucket_key (now (redis_utc s)) key window_ms in
  let at_ r := {| redis_conn := r; redis_utc := tick (redis_utc s) |} in
  match redis_incr (redis_conn s) k by_ with
  | (Err e, r) => (Err (unavailable "incr" e), at_ r)
  | (Ok v, r) =>
      match redis_expire r k (window_ttl window_ms) with
      | (Err e, r) => (Err (unavailable "expire" e), at_ r)
      | (Ok _, r) => (Ok v, at_ r)
      end
  end.

Definition redis_current (s : RedisCounterStore R) (key : string) (window_ms : Z) :
    store_result Z * RedisCounterStore R :=
  let k := bucket_key (now (redis_utc s)) key window_ms in
  let '(r, c) := redis_get (redis_conn s) k in
  (let? v := map_err (unavailable "get") r in
   match v with
   | Some b => map_err (unavailable "get") (redis_int b)
   | None => Ok 0
   end,
   {| redis_conn := c; redis_utc := tick (redis_utc s) |}).

Definition conc_key (key : string) : string := ("conc:" +:+ key)%string.
Definition CONC_TTL : Z := 60.

(** The slot is refused when the new count, as a [u32], exceeds the maximum. *)
Definition conc_refused (max v : Z) : bool := max <? as_u32 v.

Definition redis_try_acquire (s : RedisCounterStore R) (key : string) (max : Z) :
    store_result (option ConcurrencyPermit) * RedisCounterStore R :=
  let k := conc_key key in
  match redis_incr (redis_conn s) k 1 with
  | (Err e, r) => (Err (unavailable "incr conc" e), set_conn s r)
  | (Ok v, r) =>
      match redis_expire r k CONC_TTL with
      | (Err e, r) => (Err (unavailable "expire" e), set_conn s r)
      | (Ok _, r) =>
          if conc_refused max v then
            match redis_decr r k 1 with
            | (Err e, r) => (Err (unavailable "decr" e), set_conn s r)
            | (Ok _, r) => (Ok None, set_conn s r)
            end
          else (Ok (Some {| permit_key := k |}), set_conn s r)
      end
  end.

(** The closure of a permit: its answer is ignored. *)
Definition redis_release (s : RedisCounterStore R) (p : ConcurrencyPermit) :
    RedisCounterStore R :=
  set_conn s (redis_decr (redis_conn s) (permit_key p) 1).2.

Definition budget_key (budget_id : string) (period_start : Timestamp) : string :=
  ("budget:" +:+ budget_id +:+ ":" +:+ dec_of period_start)%string.
Definition BUDGET_TTL : Z := 60 * 60 * 24 * 35.

Definition redis_incr_budget (s : RedisCounterStore R) (budget_id : string)
    (period_start : Timestamp) (delta : f64) : store_result f64 * RedisCounterStore R :=
  let k := budget_key budget_id period_start in
  match redis_incrbyfloat (redis_conn s) k delta with
  | (Err e, r) => (Err (unavailable "incrbyfloat" e), set_conn s r)
  | (Ok v, r) =>
      match redis_expire r k BUDGET_TTL with
      | (Err e, r) => (Err (unavailable "expire" e), set_conn s r)
      | (Ok _, r) => (Ok v, set_conn s r)
      end
  end.

Definition redis_read_budget (s : RedisCounterStore R) (budget_id : string)
    (period_start : Timestamp) : store_result f64 * RedisCounterStore R :=
  let '(r, c) := redis_get (redis_conn s) (budget_key budget_id period_start) in
  (let? v := map_err (unavailable "get") r in
   match v with
   | Some b =>
       let? s := map_err (unavailable "get") (redis_text b) in
       Ok (default f64_zero (parse_f64 s))
   | None => Ok f64_zero
   end,
   set_conn s c).
End Counter.

#[export] Instance redis_counter `{Redis R} : CounterStore (RedisCounterStore R) := {
  incr_window := redis_incr_window;
  current := redis_current;
  try_acquire_concurrency := redis_try_acquire;
  release := redis_release;
  incr_budget := redis_incr_budget;
  read_budget := redis_read_budget
}.

(** * kv.rs *)

Section Kv.
Context `{Redis R}.

Definition redis_kv_get (r : R) (key : string) : store_result (option bytes) * R :=
  let '(v, r) := redis_get r key in (map_err (unavailable "get") v, r).

(** Redis takes whole seconds, and at least one. *)
Definition redis_kv_put (key : string) (value : bytes) (ttl : Z) (r : R) :
    store_result unit * R :=
  let '(v, r) := redis_set_ex r key value (Z.max ttl 1) in (map_err (unavailable "set") v, r).

Definition redis_kv_delete (r : R) (key : string) : store_result unit * R :=
  let '(v, r) := redis_del r key in (map_err (unavailable "del") v, r).
End Kv.

#[export] Instance redis_kv `{Redis R} : KvStore R := {
  kv_get := redis_kv_get;
  kv_put key value ttl := λ r, Ret (redis_kv_put key value ttl r);
  kv_delete := redis_kv_delete
}.
