(* ===== verification/RedisCorrect.v ===== *)
(** Concurrency slots in Redis: the three commands of an acquisition interleave with
    those of others; without expiry no more than the maximum are ever held, and a
    counter that expiry made negative refuses everything. *)
From Stdlib Require Import ZArith Lia Bool String SpecFloat.
From stdpp Require Import prelude gmap strings list relations.
From S2P Require Import Prelude Text Decimal F64 Errors Models Stores MemoryCounter Redis.
Open Scope Z_scope.

(** * One attempt, command by command *)

Section Attempts.
Context `{RedisLaws R} (key : string) (max : Z).

Abbreviation k := (conc_key key).

Inductive Attempt : Type :=
| AStart
(** [INCR] answered; [EXPIRE] is next *)
| ACounted (v : Z)
(** over the maximum; [DECR] is next *)
| ARollback
| AHeld
(** the closure of the permit ran *)
| AReleased
| ARefused
(** a command failed *)
| AFailed (e : StorageError).

(** The next command of an attempt; the one of a held slot is its release. *)
Definition attempt_next (a : Attempt) (r : R) : Attempt * R :=
  match a with
  | AStart =>
      match redis_incr r k 1 with
      | (Err e, r) => (AFailed (unavailable "incr conc" e), r)
      | (Ok v, r) => (ACounted v, r)
      end
  | ACounted v =>
      match redis_expire r k CONC_TTL with
      | (Err e, r) => (AFailed (unavailable "expire" e), r)
      | (Ok _, r) => (if conc_refused max v then ARollback else AHeld, r)
      end
  | ARollback =>
      match redis_decr r k 1 with
      | (Err e, r) => (AFailed (unavailable "decr" e), r)
      | (Ok _, r) => (ARefused, r)
      end
  | AHeld => (AReleased, (redis_decr r k 1).2)
  | _ => (a, r)
  end.

(** An attempt run on its own until it is decided is [try_acquire_concurrency]. *)
Definition attempt_outcome (a : Attempt) : store_result (option ConcurrencyPermit) :=
  match a with
  | AHeld => Ok (Some {| permit_key := k |})
  | AFailed e => Err e
  | _ => Ok None
  end.

Definition undecided (a : Attempt) : bool :=
  match a with AStart | ACounted _ | ARollback => true | _ => false end.

Fixpoint attempt_run (fuel : nat) (a : Attempt) (r : R) : Attempt * R :=
  match fuel with
  | O => (a, r)
  | S f => if undecided a then let '(a, r) := attempt_next a r in attempt_run f a r else (a, r)
  end.

Lemma attempt_is_acquire (s : RedisCounterStore R) :
  redis_try_acquire s key max =
  (attempt_outcome (attempt_run 3 AStart (redis_conn s)).1,
   set_conn s (attempt_run 3 AStart (redis_conn s)).2).
Proof.
  unfold redis_try_acquire. cbn [attempt_run undecided attempt_next].
  destruct (redis_incr _ _ _) as [[v|e] r]; [|done]. cbn [undecided attempt_next].
  destruct (redis_expire _ _ _) as [[b|e] r1]; [|done].
  destruct (conc_refused max v); [|done]. cbn [undecided attempt_next].
  by destruct (redis_decr r1 _ _) as [[v'|e] r2].
Qed.

(** ** Any number of them, interleaved *)

Inductive conc_step : relation (R * list Attempt) :=
| conc_arrive r ts : conc_step (r, ts) (r, ts ++ [AStart])
| conc_next r ts i a :
    ts !! i = Some a →
    conc_step (r, ts) ((attempt_next a r).2, <[i := (attempt_next a r).1]> ts).

(** The attempts the counter counts, and those that hold or will hold a slot. *)
Definition counts (a : Attempt) : bool :=
  match a with ACounted _ | ARollback | AHeld => true | _ => false end.
Definition grants (a : Attempt) : bool :=
  match a with ACounted v => negb (conc_refused max v) | AHeld => true | _ => false end.
Definition started (a : Attempt) : bool := match a with AStart => false | _ => true end.

Definition count_of (f : Attempt → bool) (ts : list Attempt) : Z := blen (List.filter f ts).

Lemma count_of_app f ts us : count_of f (ts ++ us) = count_of f ts + count_of f us.
Proof. unfold count_of, blen. rewrite List.filter_app, length_app. lia. Qed.

Definition bit (b : bool) : Z := if b then 1 else 0.

Lemma count_of_cons f a ts : count_of f (a :: ts) = bit (f a) + count_of f ts.
Proof. unfold count_of, blen, bit. cbn. destruct (f a); cbn; lia. Qed.

Lemma count_of_insert f ts i a b :
  ts !! i = Some a → count_of f (<[i := b]> ts) = count_of f ts - bit (f a) + bit (f b).
Proof.
  intros Hi. rewrite <- (take_drop_middle _ _ _ Hi) at 2.
  rewrite insert_take_drop by by eapply lookup_lt_Some.
  rewrite !count_of_app, !count_of_cons. lia.
Qed.

Lemma count_of_le f g ts :
  (∀ a, f a = true → g a = true) → count_of f ts ≤ count_of g ts.
Proof.
  intros Hfg. induction ts as [|a ts IH]; [done|]. rewrite !count_of_cons.
  pose proof (Hfg a) as Ha. unfold bit. destruct (f a), (g a); lia.
Qed.

Lemma count_of_length f ts : 0 ≤ count_of f ts ≤ blen ts.
Proof.
  split; [unfold count_of, blen; lia|]. unfold count_of, blen.
  induction ts as [|a ts IH]; [done|]. cbn. destruct (f a); cbn in *; lia.
Qed.

(** The counter counts at least the attempts it should and at most those that ever
    started; no more slots are granted than the maximum. *)
Record conc_ok (s : R * list Attempt) : Prop := {
  conc_low : count_of counts s.2 ≤ redis_num s.1 k;
  conc_high : redis_num s.1 k ≤ count_of started s.2;
  conc_granted : count_of grants s.2 ≤ max
}.

Lemma conc_granted_counts ts : count_of grants ts ≤ count_of counts ts.
Proof. apply count_of_le. by intros []. Qed.

(** What one command does to the counter, whether or not its answer arrives. *)
Lemma incr_counts r v r' :
  redis_incr r k 1 = (Ok v, r') → v = redis_num r k + 1 ∧ redis_num r' k = redis_num r k + 1.
Proof. intros [-> Hn]%redis_incr_Ok. by rewrite Hn, String.eqb_refl. Qed.

Lemma incr_bounds r x r' :
  redis_incr r k 1 = (x, r') → redis_num r k ≤ redis_num r' k ≤ redis_num r k + 1.
Proof.
  destruct x as [v|e]; [intros [_ ->]%incr_counts; lia|].
  intros [[-> | ->] _]%redis_incr_Err; lia.
Qed.

Lemma decr_counts r v r' :
  redis_decr r k 1 = (Ok v, r') → redis_num r' k = redis_num r k - 1.
Proof. intros [-> Hn]%redis_decr_Ok. by rewrite Hn, String.eqb_refl. Qed.

Lemma decr_bounds r x r' :
  redis_decr r k 1 = (x, r') → redis_num r k - 1 ≤ redis_num r' k ≤ redis_num r k.
Proof.
  destruct x as [v|e]; [intros ->%decr_counts; lia|].
  intros [[-> | ->] _]%redis_decr_Err; lia.
Qed.

(** One attempt moves from [a] to [b]: the counter follows what it counts, and a slot is
    promised only below the maximum. *)
Lemma conc_update r r' ts i a b :
  ts !! i = Some a → conc_ok (r, ts) →
  bit (counts b) - bit (counts a) ≤ redis_num r' k - redis_num r k ≤
    bit (started b) - bit (started a) →
  bit (grants b) ≤ bit (grants a) ∨ count_of grants ts < max →
  conc_ok (r', <[i := b]> ts).
Proof.
  intros Hi [Hlow Hhigh Hgr] Hd Hg. cbn [fst snd] in *.
  constructor; cbn [fst snd]; rewrite (count_of_insert _ _ _ _ _ Hi); unfold bit in *;
    repeat case_match; lia.
Qed.

(** An attempt yet to start is one the counter cannot have counted. *)
Lemma start_uncounted ts i : ts !! i = Some AStart → count_of started ts + 1 ≤ blen ts.
Proof.
  intros Hi. rewrite <- (take_drop_middle _ _ _ Hi), count_of_app, count_of_cons.
  pose proof (count_of_length started (take i ts)).
  pose proof (count_of_length started (drop (S i) ts)).
  unfold blen in *. rewrite length_app. cbn. lia.
Qed.

(** Short of 2^32 attempts the [u32] compared with the maximum is the count itself. *)
Lemma incr_grants r ts i :
  0 ≤ max → blen ts < 2 ^ 32 → conc_ok (r, ts) → ts !! i = Some AStart →
  conc_refused max (redis_num r k + 1) = false → count_of grants ts < max.
Proof.
  intros Hmax Hlen [Hlow Hhigh _] Hi%start_uncounted Hr. cbn [fst snd] in *.
  pose proof (conc_granted_counts ts). pose proof (count_of_length counts ts).
  unfold conc_refused in Hr. apply Z.ltb_ge in Hr. unfold as_u32 in Hr.
  rewrite Z.mod_small in Hr by lia. lia.
Qed.

Lemma conc_next_ok r ts i a :
  0 ≤ max → blen ts < 2 ^ 32 → conc_ok (r, ts) → ts !! i = Some a →
  conc_ok ((attempt_next a r).2, <[i := (attempt_next a r).1]> ts).
Proof.
  intros Hmax Hlen Hok Hi. destruct a as [|v| | | | |e]; cbn [attempt_next].
  - destruct (redis_incr r k 1) as [[v|e] r'] eqn:Hr; apply (conc_update r _ _ _ _ _ Hi Hok);
      cbn; try (apply incr_bounds in Hr; lia); apply incr_counts in Hr as [-> Hn]; [lia|].
    destruct (conc_refused max _) eqn:Hc; [by left|right; by eapply incr_grants].
  - pose proof (redis_expire_num r k CONC_TTL k) as Hn.
    destruct (redis_expire r k CONC_TTL) as [[b|e] r'] eqn:Hr; cbn [snd] in Hn;
      apply (conc_update r _ _ _ _ _ Hi Hok); cbn; destruct (conc_refused max v); cbn; lia.
  - destruct (redis_decr r k 1) as [[v|e] r'] eqn:Hr; apply (conc_update r _ _ _ _ _ Hi Hok);
      cbn; apply decr_bounds in Hr; lia.
  - destruct (redis_decr r k 1) as [x r'] eqn:Hr; apply (conc_update r _ _ _ _ _ Hi Hok);
      cbn; apply decr_bounds in Hr; lia.
  - apply (conc_update r _ _ _ _ _ Hi Hok); cbn; lia.
  - apply (conc_update r _ _ _ _ _ Hi Hok); cbn; lia.
  - apply (conc_update r _ _ _ _ _ Hi Hok); cbn; lia.
Qed.

Lemma conc_step_ok s s' :
  0 ≤ max → blen s'.2 < 2 ^ 32 → conc_ok s → conc_step s s' → conc_ok s'.
Proof.
  intros Hmax Hlen Hok Hs. destruct Hs as [r ts|r ts i a Hi]; cbn [fst snd] in *.
  - destruct Hok. constructor; cbn [fst snd] in *; rewrite count_of_app;
      unfold count_of at 2, blen; cbn; lia.
  - apply conc_next_ok; [done| |done|done]. unfold blen in *. by rewrite length_insert in Hlen.
Qed.
End Attempts.

Section Theorems.
Context `{RedisLaws R}.

Definition is_held (a : Attempt) : bool := match a with AHeld => true | _ => false end.

Lemma conc_step_length key max s s' : conc_step key max s s' → blen s.2 ≤ blen s'.2.
Proof.
  intros [r ts|r ts i a Hi]; cbn [snd]; unfold blen.
  - rewrite length_app. lia.
  - by rewrite length_insert.
Qed.

Lemma conc_steps_ok key max r0 s :
  0 ≤ max → redis_num r0 (conc_key key) = 0 →
  rtc (conc_step key max) (r0, []) s → blen s.2 < 2 ^ 32 → conc_ok key max s.
Proof.
  intros Hmax Hz. revert s. refine (rtc_ind_r _ _ _ _).
  - intros _. constructor; cbn [fst snd]; rewrite ?Hz; unfold count_of, blen; cbn; lia.
  - intros s s' _ Hstep IH Hlen. pose proof (conc_step_length _ _ _ _ Hstep) as Hl.
    apply (conc_step_ok key max s s'); [done|done|apply IH; lia|done].
Qed.

(** Acquisitions one after the other, by whoever. *)
Fixpoint acquisitions (n : nat) (key : string) (max : Z) (s : RedisCounterStore R) :
    list (store_result (option ConcurrencyPermit)) * RedisCounterStore R :=
  match n with
  | O => ([], s)
  | S n =>
      let '(a, s) := redis_try_acquire s key max in
      let '(rest, s) := acquisitions n key max s in (a :: rest, s)
  end.

(** A server that answers. *)
Definition answering (k : string) : Prop :=
  ∀ r, (∃ v, (redis_incr r k 1).1 = Ok v) ∧ (∃ v, (redis_decr r k 1).1 = Ok v) ∧
       (∃ b, (redis_expire r k CONC_TTL).1 = Ok b).

Lemma acquire_negative key max s :
  answering (conc_key key) →
  redis_num (redis_conn s) (conc_key key) + 1 < 0 →
  0 ≤ max < 2 ^ 32 + redis_num (redis_conn s) (conc_key key) + 1 →
  ∃ s', redis_try_acquire s key max = (Ok None, s') ∧
    redis_num (redis_conn s') (conc_key key) = redis_num (redis_conn s) (conc_key key).
Proof.
  intros Hans Hneg Hmax. set (k := conc_key key) in *. unfold redis_try_acquire. fold k.
  destruct (Hans (redis_conn s)) as ([v Hv] & _ & _).
  destruct (redis_incr (redis_conn s) k 1) as [r1 c1] eqn:Ha. cbn in Hv. subst r1.
  apply redis_incr_Ok in Ha as [-> Hn1]. specialize (Hn1 k). rewrite String.eqb_refl in Hn1.
  destruct (Hans c1) as (_ & _ & [b Hb]). pose proof (redis_expire_num c1 k CONC_TTL k) as Hn2.
  destruct (redis_expire c1 k CONC_TTL) as [r2 c2]. cbn in Hb, Hn2. subst r2.
  assert (Hr : conc_refused max (redis_num (redis_conn s) k + 1) = true).
  { apply Z.ltb_lt. unfold as_u32.
    rewrite <- (Z.mod_add _ 1) by lia. rewrite Z.mod_small; lia. }
  rewrite Hr. destruct (Hans c2) as (_ & [w Hw] & _).
  destruct (redis_decr c2 k 1) as [r3 c3] eqn:Hd. cbn in Hw. subst r3.
  apply redis_decr_Ok in Hd as [-> Hn3]. specialize (Hn3 k). rewrite String.eqb_refl in Hn3.
  eexists. split; [done|]. cbn. lia.
Qed.
End Theorems.

(** C18: However the commands of any number of acquisitions and releases interleave, and
    whichever of them fail, a Redis key that does not expire never lets more than the
    maximum hold a slot at once (below 2^32 attempts). *)
Theorem redis_slots_bounded `{RedisLaws R} key max r0 r ts :
  0 ≤ max → redis_num r0 (conc_key key) = 0 →
  rtc (conc_step key max) (r0, []) (r, ts) → blen ts < 2 ^ 32 →
  count_of is_held ts ≤ max.
Proof.
  intros Hmax Hz Hs Hlen. pose proof (conc_steps_ok key max r0 (r, ts) Hmax Hz Hs Hlen) as Hok.
  transitivity (count_of (grants max) ts); [|exact (conc_granted _ _ _ Hok)].
  apply count_of_le. by intros [].
Qed.

(** A concurrency counter at -2 or below refuses every acquisition, and each
    refusal puts it back where it was: the key is locked out for as long as requests
    keep coming and keep it alive. *)
Theorem redis_negative_locks_out `{RedisLaws R} key max s n :
  answering (conc_key key) →
  redis_num (redis_conn s) (conc_key key) + 1 < 0 →
  0 ≤ max < 2 ^ 32 + redis_num (redis_conn s) (conc_key key) + 1 →
  Forall (λ a, a = Ok None) (acquisitions n key max s).1 ∧
  length (acquisitions n key max s).1 = n ∧
  redis_num (redis_conn (acquisitions n key max s).2) (conc_key key) =
    redis_num (redis_conn s) (conc_key key).
Proof.
  intros Hans. revert s. induction n as [|n IH]; intros s Hneg Hmax; [by split_and!|].
  destruct (acquire_negative key max s Hans Hneg Hmax) as (s1 & Ha & Hn). cbn [acquisitions].
  rewrite Ha. destruct (IH s1) as (Hf & Hl & Hs); [lia|lia|].
  destruct (acquisitions n key max s1) as [rest s2]. cbn in *.
  split_and!; [by constructor|by rewrite Hl|by rewrite Hs].
Qed.

(** * A server in a map, and how the counter gets there *)

Section Example.
#[local] Instance map_redis : Redis (gmap string Z) := {
  redis_incr r k by_ := let v := default 0 (r !! k) + by_ in (Ok v, <[k := v]> r);
  redis_decr r k by_ := let v := default 0 (r !! k) - by_ in (Ok v, <[k := v]> r);
  redis_expire r k ttl := (Ok true, r);
  redis_get r k := (Ok None, r);
  redis_incrbyfloat r k x := (Ok x, r);
  redis_set_ex r k v ttl := (Ok (), r);
  redis_del r k := (Ok (), delete k r);
  redis_int b := Ok 0;
  redis_text b := Ok ""%string
}.

#[local] Instance map_redis_laws : RedisLaws (gmap string Z).
Proof.
  refine {| redis_num r k := default 0 (r !! k) |}; cbn; try done.
  - intros r k by_ v r' [= <- <-]. split; [done|]. intros k'.
    destruct (String.eqb_spec k' k) as [->|]; [by rewrite lookup_insert_eq|by rewrite lookup_insert_ne].
  - intros r k by_ v r' [= <- <-]. split; [done|]. intros k'.
    destruct (String.eqb_spec k' k) as [->|]; [by rewrite lookup_insert_eq|by rewrite lookup_insert_ne].
Defined.

Definition redis_new : RedisCounterStore (gmap string Z) :=
  {| redis_conn := ∅; redis_utc := λ _, 0 |}.

(** Two slots are taken, the key expires, and both are released. *)
Definition after_expiry : RedisCounterStore (gmap string Z) :=
  let '(_, s) := acquisitions 2 "u" 5 redis_new in
  let s := set_conn s (redis_del (redis_conn s) (conc_key "u")).2 in
  redis_release (redis_release s {| permit_key := conc_key "u" |})
    {| permit_key := conc_key "u" |}.

Lemma redis_negative_locks_out_witness :
  (acquisitions 2 "u" 5 redis_new).1 =
    [Ok (Some {| permit_key := conc_key "u" |}); Ok (Some {| permit_key := conc_key "u" |})] ∧
  Forall (λ a, a = Ok None) (acquisitions 100 "u" 5 after_expiry).1.
Proof.
  split; [vm_compute; reflexivity|].
  apply (redis_negative_locks_out "u" 5 after_expiry 100).
  - intros r. cbn. by split_and!; eexists.
  - vm_compute. reflexivity.
  - vm_compute. split; [discriminate|reflexivity].
Defined.

Lemma redis_slots_bounded_witness :
  ∃ r, rtc (conc_step (R:=gmap string Z) "u" 1) (∅, []) (r, [AHeld; ARefused]) ∧
    count_of is_held [AHeld; ARefused] ≤ 1.
Proof.
  assert (Hs : ∃ r, rtc (conc_step (R:=gmap string Z) "u" 1) (∅, []) (r, [AHeld; ARefused])).
  { eexists.
    eapply rtc_l; [apply conc_arrive|]. eapply rtc_l; [apply conc_arrive|].
    eapply rtc_l; [by apply (conc_next _ _ _ _ 0%nat AStart)|].
    eapply rtc_l; [by apply (conc_next _ _ _ _ 1%nat AStart)|].
    eapply rtc_l; [by apply (conc_next _ _ _ _ 0%nat (ACounted 1))|].
    eapply rtc_l; [by apply (conc_next _ _ _ _ 1%nat (ACounted 2))|].
    eapply rtc_l; [by apply (conc_next _ _ _ _ 1%nat ARollback)|].
    apply rtc_refl. }
  destruct Hs as [r Hs]. exists r. split; [exact Hs|].
  apply (redis_slots_bounded "u" 1 (∅ : gmap string Z) r _); [lia|reflexivity|exact Hs|].
  vm_compute. reflexivity.
Defined.
End Example.
