(* ===== verification/RedisRefine.v ===== *)
(** The rate limiter on Redis does what it does in memory: a simulation between counter
    stores that lifts through the limiter's own code (gateway-api/src/ratelimit.rs), and its
    instance for [RedisCounterStore] (gateway-storage/src/redis/counter.rs) over a server
    that answers and does not expire keys, against [MemoryCounterStore]
    (gateway-storage/src/memory/mod.rs). *)
From Stdlib Require Import ZArith Lia Bool Ascii String SpecFloat.
From stdpp Require Import prelude gmap strings list.
From S2P Require Import Prelude Text Decimal F64 Errors Models Stores MemoryCounter Config.
From S2P Require Import RateLimit Redis RedisCorrect.
Open Scope Z_scope.

(** * Histories of a limiter *)

(** A request asks to be let in, its permit is dropped, or it is settled with the tokens
    used; permits are named by their place among those held. *)
Inductive LimiterOp : Type :=
| Ask (limits : list LimitConfig) (key_id project_id : string)
| Drop (n : nat)
| Settle (n : nat) (actual_tokens : Z).

Section Histories.
Context `{CounterStore C}.

(** The verdict, if the operation has one, and the permits then held. *)
Definition limiter_op (o : LimiterOp) (held : list RatePermit) (c : C) :
    (option (result unit ApiError) * list RatePermit) * C :=
  match o with
  | Ask limits key_id project_id =>
      match check_limits limits key_id project_id c with
      | (Ok p, c) => ((Some (Ok ()), held ++ [p]), c)
      | (Err e, c) => ((Some (Err e), held), c)
      end
  | Drop n =>
      match held !! n with
      | Some p => ((None, delete n held), drop_permit p c)
      | None => ((None, held), c)
      end
  | Settle n actual =>
      match held !! n with
      | Some p => ((None, delete n held), reconcile_tokens p actual c)
      | None => ((None, held), c)
      end
  end.

Fixpoint limiter_run (os : list LimiterOp) (held : list RatePermit) (c : C) :
    (list (option (result unit ApiError)) * list RatePermit) * C :=
  match os with
  | [] => (([], held), c)
  | o :: os =>
      let '((v, held), c) := limiter_op o held c in
      let '((vs, held), c) := limiter_run os held c in ((v :: vs, held), c)
  end.
End Histories.

(** * Simulations of counter stores *)

Section Simulation.
Context `{CounterStore C} `{CounterStore D}.
Context (fine : C → Prop) (rel : C → D → Prop)
  (relabel : ConcurrencyPermit → ConcurrencyPermit).

(** As long as the first store ends fine, the operation on the second gives the same answer
    (up to [f]) and a related store; fine is not regained once lost. *)
Definition simulates {A B} (f : A → B) (o1 : C → A * C) (o2 : D → B * D) : Prop :=
  ∀ c, fine (o1 c).2 → fine c ∧
    ∀ d, rel c d → (o2 d).1 = f (o1 c).1 ∧ rel (o1 c).2 (o2 d).2.

(** The operations the limiter uses. *)
Class CounterSimulation : Prop := {
  sim_incr k b :
    simulates (result_map (λ n, n)) (λ c, incr_window c k WINDOW_MS b)
      (λ d, incr_window d k WINDOW_MS b);
  sim_acquire k m :
    simulates (result_map (fmap relabel)) (λ c, try_acquire_concurrency c k m)
      (λ d, try_acquire_concurrency d k m);
  sim_release p :
    simulates (λ u : unit, u) (λ c, ((), release c p)) (λ d, ((), release d (relabel p)))
}.

Lemma sim_ret {A B} (f : A → B) a b : b = f a → simulates f (λ c, (a, c)) (λ d, (b, d)).
Proof. intros -> c Hf. by split. Qed.

(** Only the store matters. *)
Lemma sim_after {A B A' B'} (f : A → B) (g : A' → B') o1 o2 a b :
  simulates f o1 o2 → b = g a → simulates g (λ c, (a, (o1 c).2)) (λ d, (b, (o2 d).2)).
Proof.
  intros Ho -> c Hf. destruct (Ho c Hf) as [Hc Hd]. split; [done|].
  intros d Hr. split; [done|]. by apply Hd.
Qed.

Lemma sim_then {A B A' B'} (f : A → B) (g : A' → B') o1 o2 k1 k2 :
  simulates f o1 o2 → (∀ a, simulates g (k1 a) (k2 (f a))) →
  simulates g (λ c, k1 (o1 c).1 (o1 c).2) (λ d, k2 (o2 d).1 (o2 d).2).
Proof.
  intros Ho Hk c Hf. destruct (Hk _ _ Hf) as [Hf1 Hk1]. destruct (Ho _ Hf1) as [Hf0 Ho1].
  split; [done|]. intros d Hr. destruct (Ho1 d Hr) as [-> Hr1]. by apply Hk1.
Qed.
End Simulation.
Arguments sim_incr {C _ D _ fine rel relabel _} _ _.
Arguments sim_acquire {C _ D _ fine rel relabel _} _ _.
Arguments sim_release {C _ D _ fine rel relabel _} _.
Arguments sim_ret {C D fine rel A B} f a b _.
Arguments sim_after {C D fine rel A B A' B'} f g o1 o2 a b _ _.
Arguments sim_then {C D fine rel A B A' B'} f g o1 o2 k1 k2 _ _.

(** The shape of the limiter's code: an operation, and what follows an answer. *)
Definition orelse {S A B E E'} (h : E → E') (o : S → result A E * S)
    (k : A → S → result B E' * S) : S → result B E' * S := λ s,
  match o s with (Err e, s) => (Err (h e), s) | (Ok a, s) => k a s end.

Section Limiter.
Context `{CounterStore C} `{CounterStore D} (fine : C → Prop) (rel : C → D → Prop)
  (relabel : ConcurrencyPermit → ConcurrencyPermit).
Abbreviation sim := (simulates fine rel).

Lemma sim_orelse {A A' B B' E E'} (f : A → A') (g : B → B') (h : E → E') o1 o2 k1 k2 :
  sim (result_map f) o1 o2 → (∀ a, sim (result_map g) (k1 a) (k2 (f a))) →
  sim (result_map g) (orelse h o1 k1) (orelse h o2 k2).
Proof.
  intros Ho Hk c. unfold orelse. specialize (Ho c).
  destruct (o1 c) as [[a|e] c1]; cbn [fst snd] in Ho.
  - intros Hf. destruct (Hk a c1 Hf) as [Hf1 Hk1]. destruct (Ho Hf1) as [Hf0 Ho1].
    split; [done|]. intros d Hr. destruct (Ho1 d Hr) as [Ha Hr1].
    destruct (o2 d) as [r d1]. cbn in Ha, Hr1. subst r. by apply Hk1.
  - cbn. intros Hf. destruct (Ho Hf) as [Hf0 Ho1]. split; [done|]. intros d Hr.
    destruct (Ho1 d Hr) as [Ha Hr1]. destruct (o2 d) as [r d1]. cbn in Ha, Hr1. by subst r.
Qed.

Context `{!CounterSimulation fine rel relabel}.

Lemma sim_rpm scope l :
  sim (result_map (λ u, u)) (check_rpm scope l) (check_rpm scope l).
Proof.
  destruct l as [rpm|]; [|by apply sim_ret].
  refine (sim_orelse (λ n, n) (λ u, u) AStorage _ _
    (λ n c, if rpm <? as_u64 n then (Err rate_limited, c) else (Ok (), c))
    (λ n c, if rpm <? as_u64 n then (Err rate_limited, c) else (Ok (), c))
    (sim_incr (rpm_key scope) 1) _).
  intros n. by destruct (rpm <? as_u64 n); apply sim_ret.
Qed.

Lemma sim_tpm scope l :
  sim (result_map (λ rs, rs)) (check_tpm scope l) (check_tpm scope l).
Proof.
  destruct l as [tpm|]; [|by apply sim_ret]. set (key := tpm_key scope).
  refine (sim_orelse (λ n, n) (λ rs, rs) AStorage _ _
    (λ n c, if tpm <? as_u64 n
            then (Err rate_limited, (incr_window c key WINDOW_MS (- DEFAULT_TOKEN_PREDEDUCT)).2)
            else (Ok [(key, DEFAULT_TOKEN_PREDEDUCT)], c))
    (λ n c, if tpm <? as_u64 n
            then (Err rate_limited, (incr_window c key WINDOW_MS (- DEFAULT_TOKEN_PREDEDUCT)).2)
            else (Ok [(key, DEFAULT_TOKEN_PREDEDUCT)], c))
    (sim_incr key DEFAULT_TOKEN_PREDEDUCT) _).
  intros n. destruct (tpm <? as_u64 n); [|by apply sim_ret].
  by apply (sim_after _ _ _ _ _ _ (sim_incr key (- DEFAULT_TOKEN_PREDEDUCT))).
Qed.

Lemma sim_concurrency scope l :
  sim (result_map (fmap relabel)) (check_concurrency scope l) (check_concurrency scope l).
Proof.
  destruct l as [m|]; [|by apply sim_ret].
  refine (sim_orelse (fmap relabel) (fmap relabel) AStorage _ _
    (λ o c, match o with Some p => (Ok [p], c) | None => (Err rate_limited, c) end)
    (λ o c, match o with Some p => (Ok [p], c) | None => (Err rate_limited, c) end)
    (sim_acquire (RateLimit.conc_key scope) m) _).
  by intros [p|]; apply sim_ret.
Qed.

Definition relabel_permit (p : RatePermit) : RatePermit :=
  {| concurrency_permits := relabel <$> concurrency_permits p;
     tpm_reservations := tpm_reservations p |}.
Abbreviation relabelled := (result_map (E:=ApiError) relabel_permit).

Lemma sim_limit limit scope : sim relabelled (check_limit limit scope) (check_limit limit scope).
Proof.
  refine (sim_orelse (λ u, u) relabel_permit (λ e, e) _ _
    (λ _, orelse (λ e, e) (check_tpm scope (tpm limit))
       (λ rs, orelse (λ e, e) (check_concurrency scope (conc limit))
          (λ ps c, (Ok {| concurrency_permits := ps; tpm_reservations := rs |}, c))))
    (λ _, orelse (λ e, e) (check_tpm scope (tpm limit))
       (λ rs, orelse (λ e, e) (check_concurrency scope (conc limit))
          (λ ps c, (Ok {| concurrency_permits := ps; tpm_reservations := rs |}, c))))
    (sim_rpm scope (rpm limit)) _).
  intros _. apply (sim_orelse (λ rs, rs)); [apply sim_tpm|]. intros rs.
  apply (sim_orelse (fmap relabel)); [apply sim_concurrency|]. intros ps. by apply sim_ret.
Qed.

Lemma sim_release_all ps :
  sim (λ u : unit, u) (λ c, ((), release_all ps c)) (λ d, ((), release_all (relabel <$> ps) d)).
Proof.
  induction ps as [|p ps IH]; [by apply sim_ret|].
  exact (sim_then _ _ _ _ (λ _ c, ((), release_all ps c))
    (λ _ d, ((), release_all (relabel <$> ps) d)) (sim_release p) (λ _, IH)).
Qed.

Lemma sim_loop limits key_id project_id acc :
  sim relabelled (check_loop limits key_id project_id acc)
    (check_loop limits key_id project_id (relabel_permit acc)).
Proof.
  revert acc. induction limits as [|limit limits IH]; intros acc; cbn [check_loop];
    [by apply sim_ret|].
  destruct (scope_of limit key_id project_id) as [scope|]; [|apply IH].
  intros c. pose proof (sim_limit limit scope c) as Hl.
  destruct (check_limit limit scope c) as [[p|e] c1]; cbn [fst snd] in Hl.
  - set (acc' := {| concurrency_permits := _ |}). intros Hf.
    destruct (IH acc' c1 Hf) as [Hf1 IH1]. destruct (Hl Hf1) as [Hf0 Hl1]. split; [done|].
    intros d Hr. destruct (Hl1 d Hr) as [Ha Hr1].
    destruct (check_limit limit scope d) as [r d1]. cbn in Ha, Hr1. subst r.
    assert (Hacc : relabel_permit acc' =
      {| concurrency_permits := concurrency_permits (relabel_permit acc) ++
           concurrency_permits (relabel_permit p);
         tpm_reservations := tpm_reservations (relabel_permit acc) ++
           tpm_reservations (relabel_permit p) |})
      by (unfold relabel_permit; cbn; by rewrite fmap_app).
    rewrite Hacc in IH1. by apply IH1.
  - intros Hf. destruct (sim_release_all (concurrency_permits acc) c1 Hf) as [Hf1 Hp].
    destruct (Hl Hf1) as [Hf0 Hl1]. split; [done|]. intros d Hr.
    destruct (Hl1 d Hr) as [Ha Hr1]. destruct (check_limit limit scope d) as [r d1].
    cbn in Ha, Hr1. subst r. split; [done|]. by apply Hp.
Qed.

Lemma sim_reconcile p actual :
  sim (λ u : unit, u) (λ c, ((), reconcile_tokens p actual c))
    (λ d, ((), reconcile_tokens (relabel_permit p) actual d)).
Proof.
  unfold reconcile_tokens, drop_permit. cbn [relabel_permit concurrency_permits tpm_reservations].
  induction (tpm_reservations p) as [|[k n] rs IH]; cbn [foldl]; [apply sim_release_all|].
  assert (Hone : sim (λ u : unit, u) (λ c, ((), reconcile_one actual c (k, n)))
                   (λ d, ((), reconcile_one actual d (k, n)))).
  { unfold reconcile_one. cbn [fst snd]. destruct (as_i64 (actual - n) =? 0);
      [by apply sim_ret|]. by apply (sim_after _ _ _ _ _ _ (sim_incr k (as_i64 (actual - n)))). }
  exact (sim_then _ _ _ _
    (λ _ c, ((), release_all (concurrency_permits p) (foldl (reconcile_one actual) c rs)))
    (λ _ d, ((), release_all (relabel <$> concurrency_permits p)
                   (foldl (reconcile_one actual) d rs))) Hone (λ _, IH)).
Qed.

(** ** Whole histories *)

Definition relabel_held {A} (r : A * list RatePermit) : A * list RatePermit :=
  (r.1, relabel_permit <$> r.2).

Lemma sim_op o held :
  sim relabel_held (limiter_op o held) (limiter_op o (relabel_permit <$> held)).
Proof.
  destruct o as [limits key_id project_id|n|n actual]; unfold limiter_op.
  - intros c. pose proof (sim_loop limits key_id project_id no_permit c) as Hl.
    change (relabel_permit no_permit) with no_permit in Hl.
    unfold check_limits. destruct (check_loop limits key_id project_id no_permit c) as [[p|e] c1];
      cbn [fst snd] in *; intros Hf; destruct (Hl Hf) as [Hc Hd]; (split; [done|]); intros d Hr;
      destruct (Hd d Hr) as [Ha Hr1];
      destruct (check_loop limits key_id project_id no_permit d) as [r d1]; cbn in Ha, Hr1; subst r.
    + split; [|done]. unfold relabel_held. cbn. by rewrite fmap_app.
    + done.
  - rewrite list_lookup_fmap. destruct (held !! n) as [p|]; cbn; [|by apply sim_ret].
    refine (sim_after _ _ _ _ (None, delete n held) _ (sim_release_all (concurrency_permits p)) _).
    unfold relabel_held. cbn. by rewrite list_fmap_delete.
  - rewrite list_lookup_fmap. destruct (held !! n) as [p|]; cbn; [|by apply sim_ret].
    refine (sim_after _ _ _ _ (None, delete n held) _ (sim_reconcile p actual) _).
    unfold relabel_held. cbn. by rewrite list_fmap_delete.
Qed.

Lemma sim_run os held :
  sim relabel_held (limiter_run os held) (limiter_run os (relabel_permit <$> held)).
Proof.
  revert held. induction os as [|o os IH]; intros held; [by apply sim_ret|].
  intros c. cbn [limiter_run]. pose proof (sim_op o held c) as Ho.
  destruct (limiter_op o held c) as [[v h1] c1]. cbn [fst snd] in Ho.
  specialize (IH h1 c1). destruct (limiter_run os h1 c1) as [[vs h2] c2]. cbn [fst snd] in *.
  intros Hf. destruct (IH Hf) as [Hf1 IH1]. destruct (Ho Hf1) as [Hf0 Ho1]. split; [done|].
  intros d Hr. destruct (Ho1 d Hr) as [Ha Hr1].
  destruct (limiter_op o (relabel_permit <$> held) d) as [[v' h1'] d1].
  injection Ha as -> ->. destruct (IH1 d1 Hr1) as [Hb Hr2].
  destruct (limiter_run os (relabel_permit <$> h1) d1) as [[vs' h2'] d2].
  injection Hb as -> ->. by split.
Qed.
End Limiter.

(** * The memory store, watched for overflow *)

(** [MemoryCounterStore] with whether every count so far stayed within its width: windows
    within an [i64] without wrapping, slots below 2^32, and no release without a slot. *)
Record Watched : Type := { watched : MemoryCounterStore; in_width : bool }.

Definition window_fits (c : MemoryCounterStore) (key : string) (window_ms by_ : Z) : bool :=
  let v := default 0 (windows c !! (key, window_ms, bucket_of (now (utc c)) window_ms)) + by_ in
  (i64_min <=? v) && (v <=? i64_max).
Definition slot_fits (c : MemoryCounterStore) (key : string) : bool :=
  Z.of_N (default 0%N (concurrency c !! key)) + 1 <? 2 ^ 32.
Definition slot_held (c : MemoryCounterStore) (key : string) : bool :=
  let n := Z.of_N (default 0%N (concurrency c !! key)) in (0 <? n) && (n <=? 2 ^ 32).

Definition watching {A} (fits : bool) (r : A * MemoryCounterStore) (w : Watched) : A * Watched :=
  (r.1, {| watched := r.2; in_width := in_width w && fits |}).

#[export] Instance watched_counter : CounterStore Watched := {
  incr_window w k ms b :=
    watching (window_fits (watched w) k ms b) (mem_incr_window (watched w) k ms b) w;
  current w k ms := watching true (mem_current (watched w) k ms) w;
  try_acquire_concurrency w k m :=
    watching (slot_fits (watched w) k) (mem_try_acquire (watched w) k m) w;
  release w p :=
    {| watched := mem_release (watched w) p;
       in_width := in_width w && slot_held (watched w) (permit_key p) |};
  incr_budget w b p d := watching true (mem_incr_budget (watched w) b p d) w;
  read_budget w b p := watching true (mem_read_budget (watched w) b p) w
}.

(** Watching changes nothing. *)
Definition is_watched (w : Watched) (c : MemoryCounterStore) : Prop := watched w = c.

#[export] Instance watched_simulation :
  CounterSimulation (λ _, True) is_watched (λ p, p).
Proof.
  constructor; intros; intros w _; (split; [done|]); intros c <-; (split; [|done]); [by cbn| |done].
  cbn. unfold mem_try_acquire. by case_match.
Qed.

(** * Redis *)

(** A server that answers and on which no key expires, refusing only what does not fit in
    an [i64]. *)
Class RedisUp (R : Type) `{RedisLaws R} : Prop := {
  redis_incr_up r k by_ : in_i64 (redis_num r k + by_) → ∃ v, (redis_incr r k by_).1 = Ok v;
  redis_decr_up r k by_ : in_i64 (redis_num r k - by_) → ∃ v, (redis_decr r k by_).1 = Ok v;
  redis_expire_up r k ttl : ∃ b, (redis_expire r k ttl).1 = Ok b
}.

(** ** Names of keys *)

Definition window_key (key : string) (window_ms bucket : Z) : string :=
  ("ctr:" +:+ key +:+ ":" +:+ dec_of window_ms +:+ ":" +:+ dec_of bucket)%string.

Lemma last_part c s s' a a' :
  contains_char c a = false → contains_char c a' = false →
  (s +:+ String c a = s' +:+ String c a')%string → s = s' ∧ a = a'.
Proof.
  intros Ha Ha'. revert s'. induction s as [|x s IH]; intros [|x' s'].
  - rewrite !str_app_nil. by intros [= ->].
  - rewrite str_app_nil, str_app_cons. intros [= -> Hs]. exfalso. rewrite Hs in Ha. clear -Ha.
    induction s' as [|y s' IH]; [rewrite str_app_nil in Ha|rewrite str_app_cons in Ha];
      cbn [contains_char] in Ha.
    + by rewrite Ascii.eqb_refl in Ha.
    + apply orb_false_iff in Ha as [_ Ha]. by apply IH.
  - rewrite str_app_nil, str_app_cons. intros [= -> Hs]. exfalso. rewrite <- Hs in Ha'. clear -Ha'.
    induction s as [|y s IH]; [rewrite str_app_nil in Ha'|rewrite str_app_cons in Ha'];
      cbn [contains_char] in Ha'.
    + by rewrite Ascii.eqb_refl in Ha'.
    + apply orb_false_iff in Ha' as [_ Ha']. by apply IH.
  - rewrite !str_app_cons. intros [= -> Hs]. by destruct (IH s' Hs) as [-> ->].
Qed.

Lemma window_key_inj key key' w w' b b' :
  in_i64 w → in_i64 w' → in_i64 b → in_i64 b' →
  window_key key w b = window_key key' w' b' → key = key' ∧ w = w' ∧ b = b'.
Proof.
  intros Hw Hw' Hb Hb' Hk. unfold window_key in Hk.
  change (String "c" (String "t" (String "r" (String ":"
            (key +:+ ":" +:+ dec_of w +:+ String ":" (dec_of b))))) =
          String "c" (String "t" (String "r" (String ":"
            (key' +:+ ":" +:+ dec_of w' +:+ String ":" (dec_of b'))))))%string in Hk.
  injection Hk as Hk. rewrite !str_app_assoc in Hk.
  apply last_part in Hk as [Hk Hbb]; [|by apply dec_of_chars..].
  rewrite <- !str_app_assoc in Hk.
  change (key +:+ String ":" (dec_of w) = key' +:+ String ":" (dec_of w'))%string in Hk.
  apply last_part in Hk as [-> Hww]; [|by apply dec_of_chars..].
  apply (f_equal parse_i64) in Hbb, Hww. rewrite !parse_dec_of in Hbb, Hww by done.
  by injection Hbb; injection Hww.
Qed.

Lemma bucket_in_i64 t : in_i64 (bucket_of t WINDOW_MS).
Proof.
  unfold bucket_of, in_i64, i64_min, i64_max, WINDOW_MS. rewrite Z.max_l by lia.
  assert (0 ≤ as_u64 t < 2 ^ 64) by (apply Z.mod_pos_bound; lia).
  split; [transitivity 0; [lia|by apply Z.div_pos; lia]|].
  apply Z.div_le_upper_bound; lia.
Qed.

Section OnRedis.
Context `{RedisUp R}.

Record agrees (w : Watched) (s : RedisCounterStore R) : Prop := {
  agrees_clock : utc (watched w) = redis_utc s;
  agrees_windows k ms b : in_i64 ms → in_i64 b →
    default 0 (windows (watched w) !! (k, ms, b)) = redis_num (redis_conn s) (window_key k ms b);
  agrees_slots k :
    Z.of_N (default 0%N (concurrency (watched w) !! k)) =
    redis_num (redis_conn s) (Redis.conc_key k)
}.

Definition redis_label (p : ConcurrencyPermit) : ConcurrencyPermit :=
  {| permit_key := Redis.conc_key (permit_key p) |}.

Lemma window_not_slot key w b k : window_key key w b ≠ Redis.conc_key k.
Proof. discriminate. Qed.
Lemma conc_key_inj k k' : Redis.conc_key k = Redis.conc_key k' → k = k'.
Proof. intros Hk. cbn in Hk. by injection Hk. Qed.

(** INCR, then EXPIRE. *)
Lemma incr_expire r k by_ ttl :
  in_i64 (redis_num r k + by_) →
  ∃ r1 b r2, redis_incr r k by_ = (Ok (redis_num r k + by_), r1) ∧
    redis_expire r1 k ttl = (Ok b, r2) ∧
    ∀ k', redis_num r2 k' = if String.eqb k' k then redis_num r k + by_ else redis_num r k'.
Proof.
  intros Hin. destruct (redis_incr_up r k by_ Hin) as [v Hv].
  destruct (redis_incr r k by_) as [x r1] eqn:Hi. cbn in Hv. subst x.
  apply redis_incr_Ok in Hi as [-> Hn]. destruct (redis_expire_up r1 k ttl) as [b Hb].
  pose proof (λ k', redis_expire_num r1 k ttl k') as He.
  destruct (redis_expire r1 k ttl) as [y r2] eqn:Hx. cbn in Hb, He. subst y.
  exists r1, b, r2. split; [done|]. split; [done|]. intros k'. by rewrite He, Hn.
Qed.

Lemma decr_once r k by_ :
  in_i64 (redis_num r k - by_) →
  ∃ r1, redis_decr r k by_ = (Ok (redis_num r k - by_), r1) ∧
    ∀ k', redis_num r1 k' = if String.eqb k' k then redis_num r k - by_ else redis_num r k'.
Proof.
  intros Hin. destruct (redis_decr_up r k by_ Hin) as [v Hv].
  destruct (redis_decr r k by_) as [x r1] eqn:Hi. cbn in Hv. subst x.
  apply redis_decr_Ok in Hi as [-> Hn]. by exists r1.
Qed.

Lemma in_i64_small z : 0 ≤ z ≤ 2 ^ 32 → in_i64 z.
Proof. unfold in_i64, i64_min, i64_max. lia. Qed.

(** The slots after the count of [k] became [n] on both sides. *)
Lemma slots_set (c : gmap string N) (r r' : R) k n :
  (∀ k, Z.of_N (default 0%N (c !! k)) = redis_num r (Redis.conc_key k)) →
  (∀ k', redis_num r' k' = if String.eqb k' (Redis.conc_key k) then Z.of_N n else redis_num r k') →
  ∀ k', Z.of_N (default 0%N (<[k := n]> c !! k')) = redis_num r' (Redis.conc_key k').
Proof.
  intros Hc Hr k'. rewrite Hr. destruct (String.eqb_spec (Redis.conc_key k') (Redis.conc_key k)) as [He|Hne].
  - apply conc_key_inj in He as ->. by rewrite lookup_insert_eq.
  - rewrite lookup_insert_ne by congruence. apply Hc.
Qed.

(** Changing the count of a slot leaves the windows. *)
Lemma windows_beside (r r' : R) k n :
  (∀ k', redis_num r' k' = if String.eqb k' (Redis.conc_key k) then n else redis_num r k') →
  ∀ key ms b, redis_num r' (window_key key ms b) = redis_num r (window_key key ms b).
Proof.
  intros Hr key ms b. rewrite Hr. destruct (String.eqb_spec (window_key key ms b) (Redis.conc_key k));
    [by apply window_not_slot in e|done].
Qed.

Abbreviation in_range := (λ w, in_width w = true).

Lemma redis_sim_incr k b :
  simulates in_range agrees (result_map (λ n, n)) (λ w, incr_window w k WINDOW_MS b)
    (λ s, incr_window s k WINDOW_MS b).
Proof.
  intros w. cbn. intros [Hok Hfit]%andb_true_iff. split; [done|]. intros s [Hclk Hwin Hslot].
  unfold window_fits in Hfit. apply andb_true_iff in Hfit as [Hlo%Z.leb_le Hhi%Z.leb_le].
  unfold redis_incr_window. rewrite <- Hclk. set (bucket := bucket_of (now (utc (watched w))) WINDOW_MS) in *.
  change (bucket_key (now (utc (watched w))) k WINDOW_MS) with (window_key k WINDOW_MS bucket).
  assert (Hb : in_i64 bucket) by apply bucket_in_i64.
  assert (Hms : in_i64 WINDOW_MS) by (unfold in_i64, i64_min, i64_max, WINDOW_MS; lia).
  rewrite (Hwin k _ _ Hms Hb) in *.
  destruct (incr_expire (redis_conn s) (window_key k WINDOW_MS bucket) b (window_ttl WINDOW_MS))
    as (r1 & x & r2 & -> & -> & Hn); [by split|].
  rewrite as_i64_id by by split.
  split; [done|]. constructor; cbn; [done| |].
  - intros k' ms b' Hms' Hb'. rewrite Hn.
    destruct (String.eqb_spec (window_key k' ms b') (window_key k WINDOW_MS bucket)) as [He|Hne].
    + apply window_key_inj in He as (-> & -> & ->); [|done..]. by rewrite lookup_insert_eq.
    + rewrite lookup_insert_ne by congruence. by apply Hwin.
  - intros k'. rewrite Hn.
    destruct (String.eqb_spec (Redis.conc_key k') (window_key k WINDOW_MS bucket)); [|done].
    symmetry in e. by apply window_not_slot in e.
Qed.

Lemma redis_sim_acquire k m :
  simulates in_range agrees (result_map (fmap redis_label))
    (λ w, try_acquire_concurrency w k m) (λ s, try_acquire_concurrency s k m).
Proof.
  intros w. cbn. intros [Hok Hfit%Z.ltb_lt]%andb_true_iff. split; [done|].
  intros s [Hclk Hwin Hslot]. unfold redis_try_acquire, mem_try_acquire.
  pose proof (Hslot k) as Hk. set (n := default 0%N (concurrency (watched w) !! k)) in *.
  destruct (incr_expire (redis_conn s) (Redis.conc_key k) 1 CONC_TTL)
    as (r1 & x & r2 & -> & -> & Hn); [rewrite <- Hk; apply in_i64_small; lia|].
  rewrite <- Hk in *. unfold conc_refused, as_u32. rewrite Z.mod_small by lia.
  destruct (Z.leb_spec m (Z.of_N n)) as [Hle|Hlt].
  - rewrite (proj2 (Z.ltb_lt m (Z.of_N n + 1))) by lia.
    assert (Hn2 : redis_num r2 (Redis.conc_key k) = Z.of_N n + 1) by by rewrite Hn, String.eqb_refl.
    destruct (decr_once r2 (Redis.conc_key k) 1) as (r3 & -> & Hn3);
      [rewrite Hn2; apply in_i64_small; lia|].
    assert (Hback : ∀ k', redis_num r3 k' =
      if String.eqb k' (Redis.conc_key k) then Z.of_N n else redis_num (redis_conn s) k').
    { intros k'. rewrite Hn3, Hn2, Hn. destruct (String.eqb k' _); lia. }
    split; [done|]. constructor; [done| |]; cbn.
    + intros k' ms b Hms Hb. rewrite (windows_beside _ _ _ _ Hback). by apply Hwin.
    + by apply (slots_set _ (redis_conn s)).
  - rewrite (proj2 (Z.ltb_ge m (Z.of_N n + 1))) by lia. split; [done|].
    constructor; [done| |]; cbn.
    + intros k' ms b Hms Hb. rewrite (windows_beside _ _ _ _ Hn). by apply Hwin.
    + apply (slots_set _ (redis_conn s)); [done|]. intros k'. rewrite Hn.
      destruct (String.eqb k' _); lia.
Qed.

Lemma redis_sim_release p :
  simulates in_range agrees (λ u : unit, u) (λ w, ((), release w p))
    (λ s, ((), release s (redis_label p))).
Proof.
  intros w. cbn. intros [Hok [Hpos%Z.ltb_lt Hmax%Z.leb_le]%andb_true_iff]%andb_true_iff.
  split; [done|]. intros s [Hclk Hwin Hslot]. split; [done|].
  unfold redis_release, mem_release. pose proof (Hslot (permit_key p)) as Hk.
  destruct (concurrency (watched w) !! permit_key p) as [n|] eqn:Hl; [|cbn in Hpos; lia].
  cbn in Hpos, Hmax, Hk. cbn [redis_label permit_key].
  destruct (decr_once (redis_conn s) (Redis.conc_key (permit_key p)) 1) as (r1 & -> & Hn);
    [rewrite <- Hk; apply in_i64_small; lia|].
  constructor; [done| |]; cbn.
  - intros k' ms b Hms Hb. rewrite (windows_beside _ _ _ _ Hn). by apply Hwin.
  - apply (slots_set _ (redis_conn s)); [done|]. intros k'. rewrite Hn, <- Hk.
    destruct (String.eqb k' _); [lia|done].
Qed.

#[export] Instance redis_simulation : CounterSimulation in_range agrees redis_label.
Proof. constructor; [apply redis_sim_incr|apply redis_sim_acquire|apply redis_sim_release]. Qed.
End OnRedis.

(** * The refinement *)

(** Whether a history on the memory store stays within the widths of the counts. *)
Definition stays_in_width (os : list LimiterOp) (held : list RatePermit)
    (c : MemoryCounterStore) : bool :=
  in_width (limiter_run os held {| watched := c; in_width := true |}).2.

Lemma relabel_permit_id p : relabel_permit (λ q, q) p = p.
Proof. destruct p as [ps rs]. unfold relabel_permit. cbn. by rewrite list_fmap_id. Qed.

Lemma relabel_permits_id (ps : list RatePermit) : relabel_permit (λ q, q) <$> ps = ps.
Proof.
  induction ps as [|p ps IH]; [done|]. by rewrite fmap_cons, relabel_permit_id, IH.
Qed.

Lemma watched_run os held w :
  (limiter_run os held (watched w)).1 = (limiter_run os held w).1.
Proof.
  destruct (sim_run _ _ _ os held w) as [_ Hd]; [done|].
  destruct (Hd (watched w) eq_refl) as [Hv _]. rewrite relabel_permits_id in Hv. rewrite Hv.
  unfold relabel_held. rewrite relabel_permits_id. by destruct (limiter_run os held w) as [[v h] w'].
Qed.

(** C19: Redis limits like memory.  On a server that answers and expires no key, any history
    of requests asking to be let in, dropping and settling their permits gets exactly the
    verdicts, and holds exactly the permits (under Redis's names for the slots), that the
    in-memory store gives, from stores that agree and for as long as the counts stay within
    their widths. *)
Theorem redis_limits_like_memory `{RedisUp R} os (c : MemoryCounterStore)
    (s : RedisCounterStore R) :
  agrees {| watched := c; in_width := true |} s → stays_in_width os [] c = true →
  (limiter_run os [] s).1.1 = (limiter_run os [] c).1.1 ∧
  (limiter_run os [] s).1.2 = relabel_permit redis_label <$> (limiter_run os [] c).1.2.
Proof.
  intros Ha Hok. set (w := {| watched := c; in_width := true |}) in *.
  destruct (sim_run _ _ _ os [] w Hok) as [_ Hd]. destruct (Hd s Ha) as [Hv _].
  cbn [fmap list_fmap] in Hv. rewrite Hv. pose proof (watched_run os [] w) as Hw. cbn [watched w] in Hw.
  rewrite Hw. by destruct (limiter_run os [] w) as [[v h] w'].
Qed.

(** * The server of RedisCorrect's examples *)

Section Example.
#[local] Existing Instance map_redis.
#[local] Existing Instance map_redis_laws.

#[local] Instance map_redis_up : RedisUp (gmap string Z).
Proof. constructor; cbn; intros; by eexists. Qed.

Definition at_seven : Clock := λ _, 7.
Definition map_redis_new : RedisCounterStore (gmap string Z) :=
  {| redis_conn := ∅; redis_utc := at_seven |}.

(** One request in flight per key, two per minute. *)
Definition narrow : LimitConfig :=
  {| limit_target := {| limit_kind := "key"; limit_id := None; limit_key := None |};
     rpm := Some 2; tpm := Some 5000; conc := Some 1 |}.

Definition rush : list LimiterOp :=
  [Ask [narrow] "k" "p"; Ask [narrow] "k" "p"; Settle 0 300; Ask [narrow] "k2" "p";
   Ask [narrow] "k" "p"; Drop 0].

Lemma redis_limits_like_memory_witness :
  (limiter_run rush [] map_redis_new).1.1 =
  [Some (Ok ()); Some (Err rate_limited); None; Some (Ok ()); Some (Err rate_limited); None].
Proof.
  destruct (redis_limits_like_memory rush (counter_new at_seven) map_redis_new) as [Hv _].
  - constructor; [reflexivity|intros k ms b _ _; reflexivity|intros k; reflexivity].
  - vm_compute. reflexivity.
  - rewrite Hv. vm_compute. reflexivity.
Defined.
End Example.
