(* ===== verification/Security.v ===== *)
(** Credentials: gateway-core/src/security (gateway_key.rs, master_key.rs,
    admin_auth.rs).  The cryptographic crates are parameters. *)
From Stdlib Require Import ZArith Lia Bool Ascii String.
From stdpp Require Import prelude gmap strings list.
From S2P Require Import Prelude Text Decimal Errors Config.
Open Scope Z_scope.

(** * Third-party primitives *)

Record AdminTokenClaims : Type := {
  claim_sub : string;
  claim_username : string;
  claim_exp : Z;
  claim_iat : Z
}.

Inductive PasswordError : Type := WrongPassword | PasswordOther (msg : string).

Class Crypto : Type := {
  (** blake3's [keyed_hash(key, data)] *)
  keyed_hash : bytes → bytes → bytes;
  (** base64's standard decoder *)
  base64_decode : string → result bytes string;
  (** jsonwebtoken's [encode] and [decode], the latter at a time in unix seconds *)
  jwt_encode : bytes → AdminTokenClaims → result string string;
  jwt_decode : bytes → string → Z → result AdminTokenClaims string;
  (** argon2: hashing with a salt, parsing a PHC string, verifying *)
  argon_hash : string → string → result string string;
  argon_parse : string → result unit string;
  argon_verify : string → string → result unit PasswordError
}.

(** What the crates document: a token decodes, before its expiry, to the claims
    it was issued with; a hash verifies its own password. *)
Class CryptoLaws `{Crypto} : Prop := {
  jwt_roundtrip key claims token now :
    jwt_encode key claims = Ok token → now < claim_exp claims →
    jwt_decode key token now = Ok claims;
  argon_roundtrip password salt phc :
    argon_hash password salt = Ok phc →
    argon_parse phc = Ok () ∧ argon_verify password phc = Ok ()
}.

(** * Gateway keys *)

Inductive KeyEnv : Type := Live | Test.

Definition env_key_prefix (e : KeyEnv) : string :=
  match e with Live => PREFIX_LIVE | Test => PREFIX_TEST end.

Definition key_env_parse (s : string) : option KeyEnv :=
  if String.eqb s "live" then Some Live
  else if String.eqb s "test" then Some Test
  else None.

Record GatewayKeySecret : Type := {
  plaintext : string;
  secret_prefix : string;
  secret_last4 : string;
  secret_hash : bytes
}.

Definition SECRET_LEN : nat := 32.

(** [parse_gateway_key]. *)
Definition parse_gateway_key (secret : string) : option string :=
  if starts_with secret PREFIX_LIVE then Some PREFIX_LIVE
  else if starts_with secret PREFIX_TEST then Some PREFIX_TEST
  else None.

Section Keys.
Context `{Crypto}.

Definition derive_hash (master : bytes) (plaintext : string) : bytes :=
  keyed_hash master (str_bytes plaintext).

(** [generate_gateway_key]; [random] is the sequence of alphanumeric characters
    the generator draws. *)
Definition generate_gateway_key (e : KeyEnv) (master : bytes) (random : list ascii) :
    GatewayKeySecret :=
  let secret := String.string_of_list_ascii (take SECRET_LEN random) in
  let text := (env_key_prefix e +:+ secret)%string in
  {| plaintext := text; secret_prefix := env_key_prefix e;
     secret_last4 := last_chars 4 text; secret_hash := derive_hash master text |}.

Definition verify_gateway_key (presented : string) (master stored_hash : bytes) : bool :=
  if negb (length stored_hash =? 32)%nat then false
  else bool_decide (derive_hash master presented = stored_hash).

(** * The master key *)

Definition master_from_base64 (s : string) : result bytes GatewayError :=
  let? raw := map_err (λ e, Internal ("master key base64 decode failed: " +:+ e)%string)
                (base64_decode (trim s)) in
  if negb (length raw =? 32)%nat
  then Err (Internal ("master key must decode to exactly 32 bytes (got "
                      +:+ dec_of (blen raw) +:+ ")")%string)
  else Ok raw.

Definition master_from_env (env : string → option string) (var : string) :
    result bytes GatewayError :=
  let? v := ok_or (env var) (Internal ("env var " +:+ var +:+ " not set")%string) in
  master_from_base64 v.

(** * Administrator sessions and passwords *)

Definition issue (master : bytes) (now : Z) (user_id username : string) (ttl_secs : Z) :
    result string GatewayError :=
  let claims := {| claim_sub := user_id; claim_username := username;
                   claim_iat := as_u64 now; claim_exp := as_u64 (as_i64 (now + ttl_secs)) |} in
  map_err (λ e, Internal ("jwt encode: " +:+ e)%string) (jwt_encode master claims).

Definition verify_token (master : bytes) (now : Z) (token : string) :
    result AdminTokenClaims GatewayError :=
  map_err (λ _, Unauthorized) (jwt_decode master token now).

Definition hash_password (password salt : string) : result string GatewayError :=
  map_err (λ e, Internal ("argon2 hash: " +:+ e)%string) (argon_hash password salt).

Definition verify_password (presented stored_phc : string) : result bool GatewayError :=
  let? _ := map_err (λ e, Internal ("parse argon2: " +:+ e)%string)
              (argon_parse stored_phc) in
  match argon_verify presented stored_phc with
  | Ok _ => Ok true
  | Err WrongPassword => Ok false
  | Err (PasswordOther e) => Err (Internal ("argon2 verify: " +:+ e)%string)
  end.
End Keys.

(** * Facts about key texts *)

(** Visible ASCII characters. *)
Definition graphic (a : ascii) : bool := (33 <=? ascii_val a) && (ascii_val a <=? 126).

Definition is_alphanumeric (a : ascii) : bool :=
  is_ascii_digit a || ((65 <=? ascii_val a) && (ascii_val a <=? 90)) ||
  ((97 <=? ascii_val a) && (ascii_val a <=? 122)).

Lemma graphic_cases (P : ascii → Prop) :
  Forall P (List.filter graphic (map (λ n, ascii_of_nat n) (seq 0 256))) →
  ∀ a, graphic a = true → P a.
Proof.
  intros Hall a Ha. rewrite Forall_forall in Hall. apply Hall.
  apply list_elem_of_In, filter_In. split; [|done]. apply in_map_iff.
  exists (nat_of_ascii a). split; [apply ascii_nat_embedding|].
  apply in_seq. pose proof (nat_ascii_bounded a). lia.
Qed.

Lemma graphic_simple a :
  graphic a = true →
  is_cont a = false ∧ is_whitespace (String a EmptyString) = false.
Proof.
  revert a. apply graphic_cases, Forall_fold_right. vm_compute. tauto.
Qed.

Lemma alphanumeric_graphic a : is_alphanumeric a = true → graphic a = true.
Proof.
  unfold is_alphanumeric, is_ascii_digit, graphic.
  rewrite !orb_true_iff, !andb_true_iff, !Z.leb_le. lia.
Qed.

Lemma chars_graphic s :
  all_chars graphic s = true →
  collect (chars s) = s ∧ Forall (λ c, is_whitespace c = false) (chars s) ∧
  Forall (λ c, starts_with_cont c = false) (chars s).
Proof.
  induction s as [|a s IH]; simpl; [done|].
  rewrite andb_true_iff. intros [Ha Hs]. destruct (graphic_simple a Ha) as [Hc Hw].
  destruct (IH Hs) as (IH1 & IH2 & IH3).
  destruct (chars s) as [|c cs] eqn:Hcs.
  - simpl in IH1. subst s. split; [done|]. split; by repeat constructor.
  - apply Forall_cons in IH3 as [Hcc IH3]. rewrite Hcc. split.
    + change (String a (collect (c :: cs)) = String a s). by rewrite IH1.
    + split; [by constructor|]. constructor; [done|by constructor].
Qed.

Lemma drop_while_none {A} (f : A → bool) l :
  Forall (λ x, f x = false) l → drop_while f l = l.
Proof. intros Hl. destruct Hl as [|x l Hx]; simpl; [done|]. by rewrite Hx. Qed.

(** Text without blanks is its own trimming. *)
Lemma trim_graphic s : all_chars graphic s = true → trim s = s.
Proof.
  intros (Hc & Hw & _)%chars_graphic. unfold trim, drop_while_end.
  rewrite (drop_while_none _ (chars s)) by done.
  rewrite drop_while_none by by apply List.Forall_rev.
  by rewrite rev_involutive.
Qed.

Lemma strip_prefix_app p s : strip_prefix p (p +:+ s)%string = Some s.
Proof. induction p as [|a p IH]; simpl; [done|]. by rewrite Ascii.eqb_refl. Qed.

Lemma generated_key_text `{Crypto} e master random :
  Forall (λ a, is_alphanumeric a = true) random →
  let k := generate_gateway_key e master random in
  trim (plaintext k) = plaintext k ∧ plaintext k ≠ "" ∧
  is_Some (parse_gateway_key (plaintext k)).
Proof.
  intros Hr k. split; [|split].
  - apply trim_graphic. unfold k. simpl. rewrite all_chars_app.
    replace (all_chars graphic (env_key_prefix e)) with true by by destruct e.
    simpl. assert (Hr' : Forall (λ a, is_alphanumeric a = true) (take SECRET_LEN random))
      by by apply Forall_take.
    induction Hr' as [|a l Ha _ IH]; simpl; [done|].
    by rewrite (alphanumeric_graphic a Ha).
  - by destruct e.
  - unfold parse_gateway_key, starts_with, k. cbn [plaintext generate_gateway_key].
    destruct e; cbn [env_key_prefix].
    + rewrite strip_prefix_app. by eexists.
    + destruct (strip_prefix PREFIX_LIVE _); [by eexists|].
      rewrite strip_prefix_app. by eexists.
Qed.

(** * Concrete primitives, for evaluating examples *)

(** Numbers as bit strings. *)
Fixpoint bits_of (p : positive) : string :=
  match p with
  | xH => ""
  | xO p => String "0" (bits_of p)
  | xI p => String "1" (bits_of p)
  end.
Fixpoint of_bits (s : string) : positive :=
  match s with
  | EmptyString => xH
  | String a r => if Ascii.eqb a "0" then xO (of_bits r) else xI (of_bits r)
  end.
Lemma of_bits_of p : of_bits (bits_of p) = p.
Proof. induction p as [p IH|p IH|]; simpl; congruence. Qed.

Definition claims_tuple (c : AdminTokenClaims) : string * string * Z * Z :=
  (claim_sub c, claim_username c, claim_exp c, claim_iat c).

Definition toy_crypto : Crypto :=
  {| keyed_hash key data := key ++ data;
     base64_decode s := Ok (str_bytes s);
     jwt_encode key c := Ok (bits_of (encode (claims_tuple c)));
     jwt_decode key token now :=
       match decode (of_bits token) with
       | Some (s, u, e, i) =>
           if now <? e
           then Ok {| claim_sub := s; claim_username := u; claim_exp := e; claim_iat := i |}
           else Err "expired"
       | None => Err "bad token"
       end;
     argon_hash password salt := Ok password;
     argon_parse phc := Ok ();
     argon_verify password phc :=
       if String.eqb password phc then Ok () else Err WrongPassword |}.

Definition toy_crypto_laws : @CryptoLaws toy_crypto.
Proof.
  constructor; simpl.
  - intros key [s u e i] token now [= <-] Hnow. simpl in Hnow.
    rewrite of_bits_of, decode_encode. simpl.
    by rewrite (proj2 (Z.ltb_lt _ _)).
  - intros password salt phc [= <-]. by rewrite String.eqb_refl.
Defined.
