(* ===== verification/Auth.v ===== *)
(** Who a request comes from, and the administration of keys and users:
    gateway-api/src/auth.rs, routes/admin/keys.rs and routes/admin/auth.rs.
    Identifiers (uuid), random characters, salts and clock readings are
    arguments of the handlers that draw them. *)
From Stdlib Require Import ZArith Lia Bool Ascii String.
From stdpp Require Import prelude gmap strings list.
From S2P Require Import Prelude Text Json Errors Models Stores Config HttpTypes.
From S2P Require Import Security MemoryMeta.
Open Scope Z_scope.

Inductive AdminPrincipal : Type :=
| Root
| User (id username : string).

Record GatewayKeyPrincipal : Type := {
  principal_key_id : string;
  principal_project_id : string
}.

(** The part of [AppState] that authentication reads. *)
Record AuthState : Type := {
  default_project : string;
  admin_root_token : option string;
  master_key : bytes
}.

(** * auth.rs *)

Section Extractors.
Context `{HttpTypes} `{Crypto} (app : AuthState).

Definition extract_bearer (headers : HeaderMap) : option string :=
  s ← hm_get_str headers "authorization";
  rest ← strip_prefix "Bearer " s;
  let rest := trim rest in
  if str_is_empty rest then None else Some rest.

(** [AdminPrincipal::from_request_parts] at [now] (unix seconds). *)
Definition admin_principal (now : Z) (headers : HeaderMap) :
    result AdminPrincipal ApiError :=
  let? token := ok_or (extract_bearer headers) AUnauthorized in
  if bool_decide (admin_root_token app = Some token) then Ok Root
  else
    match verify_token (master_key app) now token with
    | Ok claims => Ok (User (claim_sub claims) (claim_username claims))
    | Err _ => Err AUnauthorized
    end.

(** The checks on the row found. *)
Definition row_usable (now : Z) (row : GatewayKeyRow) : bool :=
  String.eqb (key_status row) "active" &&
  match key_expires_at row with Some exp => negb (exp <=? now) | None => true end.

(** [GatewayKeyPrincipal::from_request_parts] at [now] (unix milliseconds): the
    principal, and the key whose last use the spawned task will record. *)
Definition gateway_principal `{MetadataStore M} (m : M) (now : Z) (headers : HeaderMap) :
    result (GatewayKeyPrincipal * (string * Z)) ApiError :=
  let? token := ok_or (extract_bearer headers) AUnauthorized in
  let? _ := ok_or (parse_gateway_key token) AUnauthorized in
  let? found := map_err AStorage (find_key_by_hash m (derive_hash (master_key app) token)) in
  let? row := ok_or found AUnauthorized in
  if row_usable now row
  then Ok ({| principal_key_id := key_id row;
              principal_project_id := key_project_id row |}, (key_id row, now))
  else Err AUnauthorized.

(** The spawned task; its error is dropped. *)
Definition record_last_used `{MetadataStore M} (touch : string * Z) (m : M) : M :=
  (touch_key_last_used m touch.1 touch.2).2.

(** A handler behind the [AdminPrincipal] extractor. *)
Definition admin_only {A S : Type} (now : Z) (headers : HeaderMap)
    (handler : S → result A ApiError * S) (s : S) : result A ApiError * S :=
  match admin_principal now headers with
  | Ok _ => handler s
  | Err e => (Err e, s)
  end.
End Extractors.

(** * routes/admin/keys.rs *)

Record CreateKeyRequest : Type := {
  ck_name : string;
  ck_env : string;
  ck_project_id : option string;
  ck_scopes : list string;
  ck_expires_at : option Z
}.

Record CreateKeyResponse : Type := {
  ckr_id : string;
  ckr_name : string;
  ckr_prefix : string;
  ckr_last4 : string;
  ckr_secret : string;
  ckr_created_at : Z
}.

Record KeySummary : Type := {
  ks_id : string;
  ks_project_id : string;
  ks_name : string;
  ks_prefix : string;
  ks_last4 : string;
  ks_status : string;
  ks_created_at : Z;
  ks_last_used_at : option Z;
  ks_expires_at : option Z;
  ks_origin : string
}.

Section AdminKeys.
Context `{Crypto} (app : AuthState) `{MetadataStore M}.

Definition admin_create_key (uuid : string) (random : list ascii) (req : CreateKeyRequest)
    (m : M) : result CreateKeyResponse ApiError * M :=
  match key_env_parse (ck_env req) with
  | None =>
      (Err (ABadRequest ("invalid env '" +:+ ck_env req +:+
         "', expected live or test")%string), m)
  | Some env =>
      let secret := generate_gateway_key env (master_key app) random in
      let '(r, m) := create_key m
        {| nk_id := uuid;
           nk_project_id := default (default_project app) (ck_project_id req);
           nk_name := ck_name req; nk_prefix := secret_prefix secret;
           nk_hash := secret_hash secret; nk_last4 := secret_last4 secret;
           nk_scopes := ck_scopes req; nk_expires_at := ck_expires_at req;
           nk_origin := KEY_ORIGIN_ADMIN |} in
      match r with
      | Err e => (Err (AStorage e), m)
      | Ok row =>
          (Ok {| ckr_id := key_id row; ckr_name := key_name row;
                 ckr_prefix := key_prefix row; ckr_last4 := key_last4 row;
                 ckr_secret := plaintext secret; ckr_created_at := key_created_at row |},
           m)
      end
  end.

Definition key_summary (r : GatewayKeyRow) : KeySummary :=
  {| ks_id := key_id r; ks_project_id := key_project_id r; ks_name := key_name r;
     ks_prefix := key_prefix r; ks_last4 := key_last4 r; ks_status := key_status r;
     ks_created_at := key_created_at r; ks_last_used_at := key_last_used_at r;
     ks_expires_at := key_expires_at r; ks_origin := key_origin r |}.

Definition admin_list_keys (project_id : option string) (m : M) :
    result (list KeySummary) ApiError * M :=
  match list_keys m (default (default_project app) project_id) with
  | Ok rows => (Ok (key_summary <$> rows), m)
  | Err e => (Err (AStorage e), m)
  end.

(** Whether the existing row, if any, is managed by the config file. *)
Definition config_managed (row : option GatewayKeyRow) : bool :=
  match row with
  | Some existing => String.eqb (key_origin existing) KEY_ORIGIN_CONFIG
  | None => false
  end.

Definition admin_revoke_key (id : string) (m : M) : result Value ApiError * M :=
  match get_key m id with
  | Err e => (Err (AStorage e), m)
  | Ok existing =>
      if config_managed existing then
        (Err (ABadRequest ("key '" +:+ id +:+
           "' is managed by the config file; remove it from gateway_keys[] to revoke")%string),
         m)
      else
        match revoke_key m id with
        | (Err e, m) => (Err (AStorage e), m)
        | (Ok _, m) =>
            (Ok (VObject [("id", VString id); ("status", VString "revoked")]), m)
        end
  end.

(** * routes/admin/auth.rs *)

Definition SESSION_TTL_SECS : Z := 12 * 60 * 60.

Record LoginRequest : Type := { login_username : string; login_password : string }.
Record LoginResponse : Type := {
  login_token : string;
  login_as : string;
  login_expires_at : Z
}.

(** [login]; [now_ms] and [now_s] are the successive clock readings.  The
    [password_login] setting is not consulted. *)
Definition login (now_ms now_s now_s' : Z) (req : LoginRequest) (m : M) :
    result LoginResponse ApiError * M :=
  match find_admin_user m (login_username req) with
  | Err e => (Err (AStorage e), m)
  | Ok None => (Err AUnauthorized, m)
  | Ok (Some user) =>
      match verify_password (login_password req) (admin_password_hash user) with
      | Err e => (Err (AGateway e), m)
      | Ok false => (Err AUnauthorized, m)
      | Ok true =>
          let m := (touch_admin_last_login m (admin_id user) now_ms).2 in
          match issue (master_key app) now_s (admin_id user) (admin_username user)
                  SESSION_TTL_SECS with
          | Err e => (Err (AGateway e), m)
          | Ok token =>
              (Ok {| login_token := token; login_as := admin_username user;
                     login_expires_at := as_i64 (now_s' + SESSION_TTL_SECS) |}, m)
          end
      end
  end.

(** [me]: the rendering of a principal. *)
Definition me (p : AdminPrincipal) : string * option string * option string :=
  match p with
  | Root => ("root", None, None)
  | User id username => ("user", Some username, Some id)
  end.

Definition create_admin (uuid salt username password : string) (m : M) :
    result (string * string) ApiError * M :=
  if str_is_empty username || (slen password <? 6)
  then (Err (ABadRequest "username required, password >= 6 chars"), m)
  else
    match hash_password password salt with
    | Err e => (Err (AGateway e), m)
    | Ok phc =>
        match create_admin_user m
          {| na_id := uuid; na_username := username; na_password_hash := phc |} with
        | (Err e, m) => (Err (AStorage e), m)
        | (Ok user, m) => (Ok (admin_id user, admin_username user), m)
        end
    end.

Definition list_admins (m : M) :
    result (list (string * string * Z * option Z)) ApiError * M :=
  match list_admin_users m with
  | Ok users =>
      (Ok ((λ u, (admin_id u, admin_username u, admin_created_at u, admin_last_login_at u))
             <$> users), m)
  | Err e => (Err (AStorage e), m)
  end.
End AdminKeys.

(** * Facts *)

Section AuthFacts.
Context `{HttpTypes} `{Crypto} (app : AuthState) `{KeyLaws M}.

Lemma gateway_principal_Ok (m : M) now headers p touch :
  gateway_principal app m now headers = Ok (p, touch) →
  ∃ token row i,
    extract_bearer headers = Some token ∧ is_Some (parse_gateway_key token) ∧
    keys_of m !! i = Some row ∧ key_hash row = derive_hash (master_key app) token ∧
    row_usable now row = true ∧ touch = (key_id row, now) ∧
    p = {| principal_key_id := key_id row; principal_project_id := key_project_id row |}.
Proof.
  unfold gateway_principal. destruct (extract_bearer headers) as [token|]; [|done]. simpl.
  destruct (parse_gateway_key token) as [pre|] eqn:Hp; [|done]. simpl.
  destruct (find_key_by_hash m _) as [[row|]|e] eqn:Hf; [|done|done]. simpl.
  destruct (row_usable now row) eqn:Hu; [|done]. intros [= <- <-].
  apply find_key_sound in Hf as [Hh [i Hi]].
  exists token, row, i. split_and!; done.
Qed.

(** The only row with the hash of the presented token decides. *)
Lemma gateway_principal_row (m : M) now headers token row :
  extract_bearer headers = Some token → is_Some (parse_gateway_key token) →
  (∀ e, find_key_by_hash m (derive_hash (master_key app) token) ≠ Err e) →
  (∃ i, keys_of m !! i = Some row) → key_hash row = derive_hash (master_key app) token →
  (∀ i r, keys_of m !! i = Some r →
     key_hash r = derive_hash (master_key app) token → r = row) →
  gateway_principal app m now headers =
    if row_usable now row
    then Ok ({| principal_key_id := key_id row;
                principal_project_id := key_project_id row |}, (key_id row, now))
    else Err AUnauthorized.
Proof.
  intros Ht [pre Hp] Hans [i Hi] Hh Huniq. unfold gateway_principal.
  rewrite Ht. simpl. rewrite Hp. simpl.
  destruct (find_key_by_hash m _) as [[r|]|e] eqn:Hf.
  - apply find_key_sound in Hf as [Hr [j Hj]]. simpl.
    by rewrite (Huniq j r Hj Hr).
  - by destruct (find_key_complete _ _ Hf i row Hi).
  - by destruct (Hans e).
Qed.

Lemma extract_bearer_of headers token :
  hm_get_str headers "authorization" = Some ("Bearer " +:+ token)%string →
  trim token = token → token ≠ "" → extract_bearer headers = Some token.
Proof.
  intros Hh Ht Hne. unfold extract_bearer. rewrite Hh. cbn [mbind option_bind].
  rewrite strip_prefix_app. cbn [mbind option_bind]. rewrite Ht. by destruct token.
Qed.
End AuthFacts.

(** A user just created is the one its name finds. *)
Lemma created_admin_found `{HashOrder} (m : MemMeta) (u : NewAdminUser) :
  (∀ user m1, mem_create_admin_user m u = (Ok user, m1) →
     mem_find_admin_user m1 (na_username u) = Ok (Some user) ∧
     admin_id user = na_id u ∧ admin_username user = na_username u ∧
     admin_password_hash user = na_password_hash u) ∧
  ∀ e m1, mem_create_admin_user m u = (Err e, m1) → admins m1 = admins m.
Proof.
  unfold mem_create_admin_user. simpl.
  destruct (existsb _ _) eqn:Hex; (split; [|]); intros ? m1; try done.
  - by intros [= _ <-].
  - intros [= <- <-]. split; [|done]. unfold mem_find_admin_user. simpl. f_equal.
    destruct (List.find _ _) as [a|] eqn:Hf.
    + apply find_hash_values_Some in Hf as [Hn [j Hj]]. f_equal.
      apply lookup_insert_Some in Hj as [[_ <-]|[_ Hj]]; [done|].
      apply not_true_iff_false in Hex. destruct Hex. apply existsb_exists.
      exists a. split; [|done]. apply list_elem_of_In, elem_of_hash_values. by exists j.
    + exfalso. pose proof (find_hash_values_None _ _ Hf (na_id u) _
        (lookup_insert_eq _ _ _)) as Hn. simpl in Hn. by rewrite String.eqb_refl in Hn.
Qed.

(** * Properties *)

(** C7: Only a usable key gets in: a request is accepted as a gateway key only if
    its bearer token carries a gateway prefix and hashes, under the master key,
    to a stored row that is active and not expired, and it then acts as exactly
    that key in exactly that key's project. *)
Theorem gateway_auth_sound `{HttpTypes} `{Crypto} `{KeyLaws M} app (m : M) now headers
    p touch :
  gateway_principal app m now headers = Ok (p, touch) →
  ∃ token row i,
    extract_bearer headers = Some token ∧ is_Some (parse_gateway_key token) ∧
    keys_of m !! i = Some row ∧ key_hash row = derive_hash (master_key app) token ∧
    key_status row = "active" ∧
    (∀ exp, key_expires_at row = Some exp → now < exp) ∧
    principal_key_id p = key_id row ∧ principal_project_id p = key_project_id row ∧
    touch = (key_id row, now).
Proof.
  intros Hok. destruct (gateway_principal_Ok app m now headers p touch Hok)
    as (token & row & i & Ht & Hp & Hi & Hh & Hu & -> & ->).
  exists token, row, i. unfold row_usable in Hu.
  apply andb_true_iff in Hu as [Hs He]. apply String.eqb_eq in Hs.
  split_and!; try done. intros exp Hexp. rewrite Hexp in He.
  apply negb_true_iff, Z.leb_gt in He. done.
Qed.

(** The life of a key: the secret returned when an administrator creates a
    key authenticates, on a store where no other key has its hash and until it
    expires, as that key of the requested project; once the administrator has
    revoked the key the same secret is refused. *)
Theorem created_key_lifecycle `{HttpTypes} `{Crypto} `{KeyLaws M} app (m m1 : M)
    uuid random req resp now headers :
  admin_create_key app uuid random req m = (Ok resp, m1) →
  Forall (λ a, is_alphanumeric a = true) random →
  hm_get_str headers "authorization" = Some ("Bearer " +:+ ckr_secret resp)%string →
  let h := derive_hash (master_key app) (ckr_secret resp) in
  (∀ i row, i ≠ uuid → keys_of m !! i = Some row → key_hash row ≠ h) →
  (∀ exp, ck_expires_at req = Some exp → now < exp) →
  (∀ (m : M) e, find_key_by_hash m h ≠ Err e) →
  gateway_principal app m1 now headers =
    Ok ({| principal_key_id := uuid;
           principal_project_id := default (default_project app) (ck_project_id req) |},
        (uuid, now)) ∧
  ∀ v m2, admin_revoke_key uuid m1 = (Ok v, m2) →
    gateway_principal app m2 now headers = Err AUnauthorized.
Proof.
  intros Hc Hr Hh h Huniq Hexp Hans. unfold admin_create_key in Hc.
  destruct (key_env_parse (ck_env req)) as [env|]; [|done].
  destruct (create_key m _) as [[row|e] m'] eqn:Hck; [|done].
  injection Hc as <- <-. cbn [ckr_secret] in *.
  destruct (generated_key_text env (master_key app) random Hr) as (Htrim & Hne & Hpre).
  apply create_key_spec in Hck as (Hid & Hproj & Hhash & Hst & _ & Hex & Hkeys & _).
  cbn [nk_id nk_project_id nk_hash nk_expires_at] in *.
  pose proof (extract_bearer_of headers _ Hh Htrim Hne) as Htok.
  assert (Honly : ∀ i r, keys_of m' !! i = Some r → key_hash r = h → i = uuid ∧ r = row).
  { intros i r. rewrite Hkeys. intros [[<- <-]|[Hi Hl]]%lookup_insert_Some; [done|].
    intros Heq. by destruct (Huniq i r). }
  split.
  - rewrite (gateway_principal_row app m' now headers _ row Htok Hpre).
    + unfold row_usable. rewrite Hst, Hid, Hproj, Hex. simpl.
      destruct (ck_expires_at req) as [exp|]; [|done].
      by rewrite (proj2 (Z.leb_gt _ _)) by by apply Hexp.
    + apply Hans.
    + exists uuid. by rewrite Hkeys, lookup_insert_eq.
    + done.
    + intros i r Hi Hri. by apply (Honly i r).
  - intros v m2 Hrev. unfold admin_revoke_key in Hrev.
    destruct (get_key m' uuid) as [ex|e]; [|done].
    destruct (config_managed ex); [done|].
    destruct (revoke_key m' uuid) as [[[]|e] m3] eqn:Hrk; [|done]. injection Hrev as <- <-.
    apply revoke_key_spec in Hrk as [(row' & ts & Hrow' & Hkeys') _].
    rewrite Hkeys, lookup_insert_eq in Hrow'. injection Hrow' as <-.
    rewrite (gateway_principal_row app m3 now headers _ (revoked_row row ts) Htok Hpre).
    + done.
    + apply Hans.
    + exists uuid. by rewrite Hkeys', lookup_insert_eq.
    + done.
    + intros i r. rewrite Hkeys'. intros [[<- <-]|[Hi Hl]]%lookup_insert_Some; [done|].
      intros Heq. by destruct (Honly i r Hl Heq).
Qed.

(** A key declared in the configuration cannot be revoked through the Admin
    API: the attempt fails and leaves the store as it was. *)
Theorem config_key_not_revocable `{KeyLaws M} (m : M) i row :
  keys_of m !! i = Some row → key_origin row = KEY_ORIGIN_CONFIG →
  ∃ e, admin_revoke_key i m = (Err e, m).
Proof.
  intros Hrow Ho. unfold admin_revoke_key.
  destruct (get_key m i) as [r|e] eqn:Hg; [|by eexists].
  apply get_key_spec in Hg as Hg'. rewrite Hrow in Hg'. subst r. simpl.
  rewrite Ho. by eexists.
Qed.

(** The Admin API is closed: a handler behind the extractor runs only for a
    bearer token that is the root token or a session token of this gateway, and
    otherwise the request is refused and the stores stay as they were. *)
Theorem admin_only_authorized `{HttpTypes} `{Crypto} app now headers {A S : Type}
    (handler : S → result A ApiError * S) s :
  (∃ token, extract_bearer headers = Some token ∧
     (admin_root_token app = Some token ∨
      ∃ claims, jwt_decode (master_key app) token now = Ok claims) ∧
     admin_only app now headers handler s = handler s) ∨
  admin_only app now headers handler s = (Err AUnauthorized, s).
Proof.
  unfold admin_only, admin_principal.
  destruct (extract_bearer headers) as [token|]; [|by right]. simpl.
  case_bool_decide as Hroot; [left; exists token; auto|].
  unfold verify_token. destruct (jwt_decode _ _ _) as [claims|e] eqn:Hj; simpl; [|by right].
  left. exists token. split; [done|]. split; [|done]. right. by exists claims.
Qed.

(** A new administrator can log in: on the in-memory store, after an account
    has been created, a login with its password is refused only if the token
    cannot be encoded, and the token it returns is accepted, until it expires,
    as that user. *)
Theorem admin_login_roundtrip `{HashOrder} `{HttpTypes} `{CryptoLaws} app (m m1 m2 : MemMeta)
    uuid salt username password i u t_ms t_s t_s' resp now headers :
  create_admin uuid salt username password m = (Ok (i, u), m1) →
  login app t_ms t_s t_s' {| login_username := username; login_password := password |} m1
    = (Ok resp, m2) →
  hm_get_str headers "authorization" = Some ("Bearer " +:+ login_token resp)%string →
  trim (login_token resp) = login_token resp → login_token resp ≠ "" →
  admin_root_token app ≠ Some (login_token resp) →
  0 ≤ t_s → t_s + SESSION_TTL_SECS ≤ i64_max → now < t_s + SESSION_TTL_SECS →
  admin_principal app now headers = Ok (User uuid username).
Proof.
  intros Hcreate Hlogin Hh Htrim Hne Hroot Hts Hmax Hnow.
  unfold create_admin in Hcreate.
  destruct (str_is_empty username || (slen password <? 6)); [done|].
  unfold hash_password in Hcreate.
  destruct (argon_hash password salt) as [phc|] eqn:Hphc; [|done]. simpl in Hcreate.
  destruct (created_admin_found m {| na_id := uuid; na_username := username;
    na_password_hash := phc |}) as [Hfound _].
  destruct (mem_create_admin_user m _) as [[user|e] m'] eqn:Hcu; [|done].
  injection Hcreate as <- <- ->.
  destruct (Hfound user m1 eq_refl) as (Hf & Hid & Hname & Hpw). simpl in *.
  unfold login in Hlogin.
  cbn [find_admin_user memory_metadata login_username login_password] in Hlogin.
  rewrite Hf, Hpw in Hlogin.
  destruct (argon_roundtrip _ _ _ Hphc) as [Hparse Hver].
  unfold verify_password in Hlogin. rewrite Hparse in Hlogin. simpl in Hlogin.
  rewrite Hver in Hlogin. unfold issue in Hlogin.
  destruct (jwt_encode _ _) as [token|] eqn:Hj; [|done]. simpl in Hlogin.
  injection Hlogin as <- _. cbn [login_token] in *.
  unfold admin_principal. rewrite (extract_bearer_of headers token Hh Htrim Hne). simpl.
  rewrite bool_decide_false by done. unfold verify_token.
  rewrite (jwt_roundtrip _ _ _ now Hj).
  - simpl. by rewrite Hid, Hname.
  - cbn [claim_exp]. unfold i64_max, SESSION_TTL_SECS in *.
    rewrite as_i64_id, as_u64_id; unfold in_i64, in_u64, i64_min, i64_max, u64_max; lia.
Qed.

(** * Concrete runs *)

Definition sample_app : AuthState :=
  {| default_project := "default"; admin_root_token := Some "root"; master_key := [] |}.

Definition sample_random : list ascii := repeat "a"%char 40.

Definition sample_create : CreateKeyRequest :=
  {| ck_name := "n"; ck_env := "live"; ck_project_id := None; ck_scopes := [];
     ck_expires_at := None |}.

Definition sample_meta : MemMeta := meta_new (λ _, 7).

Definition bearer (token : string) : list (string * string) :=
  [("authorization", "Bearer " +:+ token)]%string.

(** The administrator's key of the example. *)
Definition sample_created : result CreateKeyResponse ApiError * MemMeta :=
  @admin_create_key toy_crypto sample_app MemMeta (@memory_metadata tree_order) "id-1"
    sample_random sample_create sample_meta.

Definition sample_secret : string :=
  match sample_created.1 with Ok r => ckr_secret r | Err _ => "" end.

Lemma created_key_lifecycle_witness :
  ∃ resp m1, sample_created = (Ok resp, m1) ∧
    @gateway_principal plain_http toy_crypto sample_app MemMeta
      (@memory_metadata tree_order) m1 100 (bearer (ckr_secret resp)) =
    Ok ({| principal_key_id := "id-1"; principal_project_id := "default" |},
        ("id-1", 100)).
Proof.
  destruct sample_created as [[resp|e] m1] eqn:Hc; [|discriminate Hc].
  exists resp, m1. split; [reflexivity|].
  refine (proj1 (@created_key_lifecycle plain_http toy_crypto MemMeta
    (@memory_metadata tree_order) (@memory_key_laws tree_order) sample_app sample_meta m1
    "id-1" sample_random sample_create resp 100 (bearer (ckr_secret resp))
    Hc _ _ _ _ _)).
  - unfold sample_random. simpl. repeat (apply Forall_cons; split; [reflexivity|]).
    apply Forall_nil. exact I.
  - reflexivity.
  - intros i row _ Hrow.
    change ((∅ : gmap string GatewayKeyRow) !! i = Some row) in Hrow.
    rewrite lookup_empty in Hrow. discriminate Hrow.
  - intros exp Hexp. discriminate Hexp.
  - intros m e He. discriminate He.
Defined.

Lemma gateway_auth_sound_witness :
  ∃ p touch, @gateway_principal plain_http toy_crypto sample_app MemMeta
      (@memory_metadata tree_order) sample_created.2 100 (bearer sample_secret) = Ok (p, touch)
    ∧ touch = (principal_key_id p, 100).
Proof.
  destruct (@gateway_principal plain_http toy_crypto sample_app MemMeta
    (@memory_metadata tree_order) sample_created.2 100 (bearer sample_secret))
    as [[p touch]|e] eqn:Hp.
  - exists p, touch. split; [reflexivity|].
    destruct (@gateway_auth_sound plain_http toy_crypto MemMeta (@memory_metadata tree_order)
      (@memory_key_laws tree_order) sample_app sample_created.2 100 (bearer sample_secret)
      p touch Hp) as (token & row & i & _ & _ & _ & _ & _ & _ & Hid & _ & ->).
    rewrite Hid. reflexivity.
  - exfalso. vm_compute in Hp. discriminate Hp.
Defined.

Definition seeded_row : GatewayKeyRow :=
  {| key_id := "cfg"; key_project_id := "default"; key_name := "c"; key_prefix := "";
     key_hash := []; key_last4 := ""; key_scopes := []; key_status := "active";
     key_expires_at := None; key_last_used_at := None; key_created_at := 0;
     key_revoked_at := None; key_origin := KEY_ORIGIN_CONFIG |}.

Definition seeded_meta : MemMeta := set_keys sample_meta {["cfg" := seeded_row]}.

Lemma config_key_not_revocable_witness :
  ∃ e, @admin_revoke_key MemMeta (@memory_metadata tree_order) "cfg" seeded_meta
       = (Err e, seeded_meta).
Proof.
  apply (@config_key_not_revocable MemMeta (@memory_metadata tree_order)
    (@memory_key_laws tree_order) seeded_meta "cfg" seeded_row).
  - apply lookup_singleton_eq.
  - reflexivity.
Defined.

Definition sample_login : result LoginResponse ApiError * MemMeta :=
  let m := (@create_admin toy_crypto MemMeta (@memory_metadata tree_order)
              "u1" "salt" "ann" "secret" sample_meta).2 in
  @login toy_crypto sample_app MemMeta (@memory_metadata tree_order) 5 6 7
    {| login_username := "ann"; login_password := "secret" |} m.

Definition sample_token : string :=
  match sample_login.1 with Ok r => login_token r | Err _ => "" end.

Lemma admin_login_roundtrip_witness :
  @admin_principal plain_http toy_crypto sample_app 100 (bearer sample_token) =
  Ok (User "u1" "ann").
Proof.
  assert (Hc : ∃ m1, @create_admin toy_crypto MemMeta (@memory_metadata tree_order)
    "u1" "salt" "ann" "secret" sample_meta = (Ok ("u1", "ann"), m1) ∧
    ∃ resp m2, @login toy_crypto sample_app MemMeta (@memory_metadata tree_order) 5 6 7
      {| login_username := "ann"; login_password := "secret" |} m1 = (Ok resp, m2) ∧
      login_token resp = sample_token).
  { eexists. split; [reflexivity|]. do 2 eexists. split; reflexivity. }
  destruct Hc as (m1 & Hc & resp & m2 & Hl & Ht).
  apply (@admin_login_roundtrip tree_order plain_http toy_crypto toy_crypto_laws
    sample_app sample_meta m1 m2 "u1" "salt" "ann" "secret" "u1" "ann" 5 6 7 resp 100
    (bearer sample_token) Hc Hl).
  - rewrite Ht. reflexivity.
  - rewrite Ht. apply trim_graphic. vm_compute. reflexivity.
  - rewrite Ht. vm_compute. discriminate.
  - rewrite Ht. vm_compute. discriminate.
  - lia.
  - unfold SESSION_TTL_SECS, i64_max. lia.
  - unfold SESSION_TTL_SECS. lia.
Defined.
