(* ===== verification/Seeding.v ===== *)
(** Start-up and hot reload: gateway-api/src/seed_keys.rs and reload.rs, and the
    decisions of gateway-bin/src/main.rs.  The file watcher, the YAML loader and
    the process environment are parameters. *)
From Stdlib Require Import ZArith Lia Bool Ascii String SpecFloat.
From stdpp Require Import prelude gmap strings list.
From S2P Require Import Prelude Text F64 Errors Models Config Stores Security MemoryMeta.
Open Scope Z_scope.

(** * seed_keys.rs *)

Section Seed.
Context `{HashOrder} `{Crypto} `{MetadataStore M}.
Context (env : string → option string) (master : bytes) (default_project_id : string).

Definition key_project (k : GatewayKeyConfig) : string :=
  default default_project_id (gk_project_id k).

(** A key with its resolved secret and prefix. *)
Record Resolved : Type := {
  rk_key : GatewayKeyConfig;
  rk_plaintext : string;
  rk_prefix : string
}.

Definition resolve_key (k : GatewayKeyConfig) : result Resolved string :=
  let? plaintext := map_err (λ e, "gateway_keys[id=" +:+ gk_id k +:+
      "].secret could not be resolved: " +:+ e)%string (resolve_secret env k) in
  let? prefix := ok_or (parse_gateway_key plaintext)
      ("gateway_keys[id=" +:+ gk_id k +:+
       "].secret must start with 'sk-gw-live-' or 'sk-gw-test-'")%string in
  Ok {| rk_key := k; rk_plaintext := plaintext; rk_prefix := prefix |}.

(** [by_project.entry(p).or_default().push(id)] *)
Definition push_id (m : gmap string (list string)) (p id : string) :
    gmap string (list string) :=
  <[p := default [] (m !! p) ++ [id]]> m.

(** The first pass: ids by project, and the keys to upsert. *)
Fixpoint prepare (keys : list GatewayKeyConfig) (by_project : gmap string (list string))
    (to_upsert : list Resolved) :
    result (gmap string (list string) * list Resolved) string :=
  match keys with
  | [] => Ok (by_project, to_upsert)
  | k :: rest =>
      let? r := resolve_key k in
      prepare rest (push_id by_project (key_project k) (gk_id k)) (to_upsert ++ [r])
  end.

Definition seeded_key (r : Resolved) : NewGatewayKey :=
  {| nk_id := gk_id (rk_key r); nk_project_id := key_project (rk_key r);
     nk_name := gk_name (rk_key r); nk_prefix := rk_prefix r;
     nk_hash := derive_hash master (rk_plaintext r);
     nk_last4 := last_chars 4 (rk_plaintext r); nk_scopes := gk_scopes (rk_key r);
     nk_expires_at := None; nk_origin := KEY_ORIGIN_CONFIG |}.

Fixpoint upsert_all (rs : list Resolved) (m : M) : result unit string * M :=
  match rs with
  | [] => (Ok (), m)
  | r :: rest =>
      match upsert_seeded_key m (seeded_key r) with
      | (Ok _, m) => upsert_all rest m
      | (Err e, m) =>
          (Err ("upsert gateway_keys[id=" +:+ gk_id (rk_key r) +:+ "] failed: " +:+
             storage_error_to_string e)%string, m)
      end
  end.

Fixpoint prune_all (l : list (string * list string)) (m : M) : result unit string * M :=
  match l with
  | [] => (Ok (), m)
  | (project_id, ids) :: rest =>
      match prune_seeded_keys_not_in m project_id ids with
      | (Ok _, m) => prune_all rest m
      | (Err e, m) =>
          (Err ("prune seeded keys for project '" +:+ project_id +:+ "' failed: " +:+
             storage_error_to_string e)%string, m)
      end
  end.

(** The default project is pruned even when no key names it. *)
Definition prune_default (keys : list GatewayKeyConfig) (m : M) : result unit string * M :=
  if existsb (λ k, String.eqb (key_project k) default_project_id) keys then (Ok (), m)
  else
    match prune_seeded_keys_not_in m default_project_id [] with
    | (Ok _, m) => (Ok (), m)
    | (Err e, m) =>
        (Err ("prune seeded keys for default project failed: " +:+
           storage_error_to_string e)%string, m)
    end.

(** [seed_keys::apply]. *)
Definition seed_apply (keys : list GatewayKeyConfig) (m : M) : result unit string * M :=
  match prepare keys ∅ [] with
  | Err e => (Err e, m)
  | Ok (by_project, to_upsert) =>
      match upsert_all to_upsert m with
      | (Err e, m) => (Err e, m)
      | (Ok _, m) =>
          match prune_all (hash_iter by_project) m with
          | (Err e, m) => (Err e, m)
          | (Ok _, m) => prune_default keys m
          end
      end
  end.

(** [apply_from_config]: the error is only logged. *)
Definition apply_from_config (config : AppConfig) (m : M) : M :=
  (seed_apply (gateway_keys config) m).2.

(** * reload.rs *)

(** [try_reload], with what the loader returned: the published configuration
    and the metadata store. *)
Definition try_reload (loaded : result AppConfig GatewayError) (s : AppConfig * M) :
    AppConfig * M :=
  match loaded with
  | Ok new_cfg => (new_cfg, apply_from_config new_cfg s.2)
  | Err _ => s
  end.

Definition provider_changed (new : AppConfig) (kv : string * ProviderConfig) : bool :=
  match providers new !! kv.1 with
  | Some n => negb (String.eqb (base_url n) (base_url kv.2))
  | None => true
  end.

Definition warn_unsafe_changes (old new : AppConfig) : string :=
  let bind_changed := negb (String.eqb (bind (server old)) (bind (server new))) in
  let providers_changed :=
    negb (size (providers old) =? size (providers new))%nat ||
    existsb (provider_changed new) (hash_iter (providers old)) in
  let storage_changed :=
    negb (String.eqb (profile_name (storage old)) (profile_name (storage new))) in
  String.concat ", "
    ((if bind_changed then ["server.bind changed (requires restart)"] else []) ++
     (if providers_changed then
        ["providers changed (proxy engine still uses old credentials until restart)"]
      else []) ++
     (if storage_changed then ["storage.profile changed (requires restart)"] else [])).

(** * main.rs *)

Definition read_admin_token (config : AppConfig) : result (option string) string :=
  let raw := trim (root_token (admin config)) in
  if str_is_empty raw then Ok None
  else
    match strip_prefix env_prefix raw with
    | Some var =>
        if str_is_empty var
        then Err "admin.root_token env reference is missing a var name"
        else Ok (opt_filter (λ v, negb (str_is_empty v)) (env var))
    | None => Ok (Some raw)
    end.

Definition MASTER_KEY_ENV : string := "GATEWAY_MASTER_KEY".

(** [debug_body] renders an upstream body in errors; none arises here. *)
Definition load_master_key (debug_body : option string → string) : result bytes string :=
  match env MASTER_KEY_ENV with
  | Some v =>
      map_err (λ e, (MASTER_KEY_ENV +:+ " invalid: " +:+
                     gateway_error_to_string debug_body e)%string)
        (master_from_base64 v)
  | None => Err (MASTER_KEY_ENV +:+
      " not set; generate one with `openssl rand -base64 32` and export it")%string
  end.

(** [v.parse::<u32>()] *)
Definition parse_u32 (s : string) : option Z :=
  n ← parse_u64 s; if n <=? u32_max then Some n else None.

Definition validate_runtime_environment (config : AppConfig) : result unit string :=
  match storage config with
  | Lite _ _ =>
      guard_err (1 <? default 1 (env "GATEWAY_WORKERS" ≫= parse_u32))
        "GATEWAY_WORKERS>1 is incompatible with storage.profile=lite; switch to profile=standard or run a single worker"
  | _ => Ok ()
  end.

Definition seed_default_project (m : M) : store_result unit * M :=
  match get_project m default_project_id with
  | Err e => (Err e, m)
  | Ok (Some _) => (Ok (), m)
  | Ok None =>
      match create_project m {| np_id := default_project_id; np_name := default_project_id |} with
      | (Ok _, m) => (Ok (), m)
      | (Err e, m) => (Err e, m)
      end
  end.

(** What start-up does to the metadata store. *)
Definition seed_stores (keys : list GatewayKeyConfig) (m : M) : result unit string * M :=
  match seed_default_project m with
  | (Err e, m) => (Err (storage_error_to_string e), m)
  | (Ok _, m) =>
      match seed_apply keys m with
      | (Ok _, m) => (Ok (), m)
      | (Err e, m) =>
          (Err ("config-seeded gateway keys could not be applied: " +:+ e)%string, m)
      end
  end.
End Seed.

(** * Facts *)

Section Facts.
Context `{HashOrder} `{Crypto} `{KeyLaws M}.
Context (env : string → option string) (master : bytes) (default_project_id : string).

Abbreviation project_of := (key_project default_project_id).

(** The ids of the keys of a project. *)
Definition ids_in (keys : list GatewayKeyConfig) (p : string) : list string :=
  gk_id <$> List.filter (λ k, String.eqb (project_of k) p) keys.

Lemma elem_of_ids_in keys p i :
  i ∈ ids_in keys p ↔ ∃ k, k ∈ keys ∧ project_of k = p ∧ gk_id k = i.
Proof.
  unfold ids_in. rewrite list_elem_of_fmap. setoid_rewrite list_elem_of_In.
  setoid_rewrite filter_In. setoid_rewrite String.eqb_eq. clear. split.
  - intros (k & -> & Hk & Hp). by exists k.
  - intros (k & Hk & Hp & <-). by exists k.
Qed.

Lemma ids_in_snoc keys k p :
  ids_in (keys ++ [k]) p =
  ids_in keys p ++ (if String.eqb (project_of k) p then [gk_id k] else []).
Proof.
  unfold ids_in. rewrite List.filter_app, fmap_app. simpl. by case_match.
Qed.

(** A project is listed when it has keys. *)
Definition listed (l : list string) : option (list string) :=
  match l with [] => None | _ => Some l end.

Lemma prepare_spec keys done_keys by_project rs by_project' rs' :
  prepare env default_project_id keys by_project rs = Ok (by_project', rs') →
  (∀ p, by_project !! p = listed (ids_in done_keys p)) →
  (∀ p, by_project' !! p = listed (ids_in (done_keys ++ keys) p)) ∧
  ∃ new, rs' = rs ++ new ∧ Forall2 (λ k r, resolve_key env k = Ok r) keys new.
Proof.
  revert done_keys by_project rs. induction keys as [|k keys IH];
    intros done_keys by_project rs; simpl.
  { intros [= <- <-] Hby. rewrite app_nil_r. split; [done|]. exists [].
    by rewrite app_nil_r. }
  destruct (resolve_key env k) as [r|e] eqn:Hk; [|done]. intros Hp Hby.
  destruct (IH (done_keys ++ [k]) _ _ Hp) as (Hby' & new & -> & Hnew).
  { intros p. rewrite ids_in_snoc. unfold push_id.
    destruct (String.eqb_spec (project_of k) p) as [<-|Hne].
    - rewrite lookup_insert_eq, Hby. by destruct (ids_in done_keys _).
    - by rewrite lookup_insert_ne, app_nil_r. }
  split; [by rewrite <- app_assoc in Hby'|].
  exists (r :: new). rewrite <- app_assoc. split; [done|]. by constructor.
Qed.

Lemma resolve_key_Ok k r :
  resolve_key env k = Ok r →
  rk_key r = k ∧ resolve_secret env k = Ok (rk_plaintext r) ∧
  parse_gateway_key (rk_plaintext r) = Some (rk_prefix r).
Proof.
  unfold resolve_key. destruct (resolve_secret env k) as [text|e]; simpl; [|done].
  destruct (parse_gateway_key text) as [prefix|] eqn:Hp; simpl; [|done].
  by intros [= <-].
Qed.

(** The row a resolved key is seeded as. *)
Definition seeded_as (r : Resolved) (row : GatewayKeyRow) : Prop :=
  key_id row = gk_id (rk_key r) ∧ key_project_id row = project_of (rk_key r) ∧
  key_hash row = derive_hash master (rk_plaintext r) ∧ key_status row = "active" ∧
  key_origin row = KEY_ORIGIN_CONFIG ∧ key_expires_at row = None.

Abbreviation ids_of rs := ((λ r, gk_id (rk_key r)) <$> rs).

Lemma upsert_all_spec rs m m' :
  upsert_all master default_project_id rs m = (Ok (), m') → keys_wf m →
  keys_wf m' ∧
  (∀ i, i ∉ ids_of rs → keys_of m' !! i = keys_of m !! i) ∧
  (∀ i row, keys_of m !! i = Some row → key_origin row ≠ KEY_ORIGIN_CONFIG →
     i ∉ ids_of rs) ∧
  (NoDup (ids_of rs) → ∀ r, r ∈ rs → ∃ row,
     keys_of m' !! gk_id (rk_key r) = Some row ∧ seeded_as r row).
Proof.
  revert m. induction rs as [|r rs IH]; intros m; simpl.
  { intros [= <-] Hwf. split_and!; [done|done|set_solver|]. intros _ r Hr. by inversion Hr. }
  destruct (upsert_seeded_key m _) as [[row|e] m1] eqn:Hu; [|done]. intros Hall Hwf.
  apply upsert_seeded_key_ok in Hu as (Hold & Hid & Hproj & Hhash & Hst & Ho & Hex & Hks & Hwf1).
  destruct (IH _ Hall (Hwf1 Hwf)) as (Hwf' & Hkeep & Hadmin & Hin). simpl in *.
  split; [done|]. split; [|split].
  - intros i Hi. apply not_elem_of_cons in Hi as [Hne Hi]. rewrite Hkeep by done.
    by rewrite Hks, lookup_insert_ne.
  - intros i row' Hrow Horig. apply not_elem_of_cons.
    assert (Hne : i ≠ gk_id (rk_key r)) by (intros ->; by apply Horig, Hold).
    split; [done|]. apply (Hadmin i row'); [|done]. by rewrite Hks, lookup_insert_ne.
  - intros [Hnin Hnd]%NoDup_cons r' [->|Hr']%elem_of_cons; [|by apply Hin].
    exists row. rewrite Hkeep by done. rewrite Hks, lookup_insert_eq. by repeat split.
Qed.

(** What pruning leaves. *)
Definition pruned (l : list (string * list string)) (row : GatewayKeyRow) : Prop :=
  ∃ p ids, (p, ids) ∈ l ∧ key_project_id row = p ∧
    key_origin row = KEY_ORIGIN_CONFIG ∧ key_id row ∉ ids.

Lemma prune_one m p ids n m' :
  prune_seeded_keys_not_in m p ids = (Ok n, m') → keys_wf m →
  keys_wf m' ∧ ∀ i row, keys_of m' !! i = Some row ↔
    keys_of m !! i = Some row ∧ ¬ pruned [(p, ids)] row.
Proof.
  intros Hp Hwf. apply prune_spec in Hp as [Hks Hwf']. split; [auto|].
  intros i row. rewrite (Hks Hwf), map_lookup_filter_Some. simpl. unfold pruned.
  split; (intros [Hrow Hn]; split; [exact Hrow|]).
  - intros (q & qs & [= -> ->]%list_elem_of_singleton & Hrest). by apply Hn.
  - intros Hrest. apply Hn. exists p, ids. split; [by left|done].
Qed.

Lemma prune_all_spec l m m' :
  prune_all l m = (Ok (), m') → keys_wf m →
  keys_wf m' ∧ ∀ i row, keys_of m' !! i = Some row ↔
    keys_of m !! i = Some row ∧ ¬ pruned l row.
Proof.
  revert m. induction l as [|[p ids] l IH]; intros m; simpl.
  { intros [= <-] Hwf. split; [done|]. intros i row. split; [|tauto].
    intros Hrow. split; [done|]. intros (? & ? & Hin & _). by inversion Hin. }
  destruct (prune_seeded_keys_not_in m p ids) as [[n|e] m1] eqn:Hp; [|done].
  intros Hall Hwf. destruct (prune_one _ _ _ _ _ Hp Hwf) as [Hwf1 Hs1].
  destruct (IH _ Hall Hwf1) as [Hwf' Hs2]. split; [done|]. intros i row.
  rewrite Hs2, Hs1. split.
  - intros [[Hrow Hn1] Hn2]. split; [done|].
    intros (q & qs & [Heq|Hin]%elem_of_cons & Hrest).
    + apply Hn1. exists q, qs. rewrite Heq. split; [by left|done].
    + apply Hn2. by exists q, qs.
  - intros [Hrow Hn]. split; [split; [done|]|].
    + intros (q & qs & Heq%list_elem_of_singleton & Hrest). apply Hn. exists q, qs.
      rewrite <- Heq. split; [by left|done].
    + intros (q & qs & Hin & Hrest). apply Hn. exists q, qs. split; [by right|done].
Qed.

(** A config row that a successful run removes. *)
Definition dropped (keys : list GatewayKeyConfig) (row : GatewayKeyRow) : Prop :=
  key_origin row = KEY_ORIGIN_CONFIG ∧
  (key_project_id row = default_project_id ∨
   ∃ k, k ∈ keys ∧ project_of k = key_project_id row) ∧
  key_id row ∉ ids_in keys (key_project_id row).

Lemma pruned_listed (keys : list GatewayKeyConfig) by_project row :
  (∀ p, by_project !! p = listed (ids_in keys p)) →
  pruned (hash_iter by_project) row ↔
  key_origin row = KEY_ORIGIN_CONFIG ∧
  (∃ k, k ∈ keys ∧ project_of k = key_project_id row) ∧
  key_id row ∉ ids_in keys (key_project_id row).
Proof.
  intros Hby. unfold pruned. setoid_rewrite elem_of_hash_iter. setoid_rewrite Hby. split.
  - intros (p & ids & Hl & <- & Ho & Hnin).
    destruct (ids_in keys (key_project_id row)) as [|i l] eqn:Hids; [done|].
    injection Hl as <-. split; [done|]. split; [|done].
    assert (Hi : i ∈ ids_in keys (key_project_id row)) by (rewrite Hids; by left).
    apply elem_of_ids_in in Hi as (k & Hk & Hp & _). by exists k.
  - intros (Ho & (k & Hk & Hp) & Hnin).
    exists (key_project_id row), (ids_in keys (key_project_id row)).
    split; [|done].
    assert (Hi : gk_id k ∈ ids_in keys (key_project_id row)) by (apply elem_of_ids_in; eauto).
    destruct (ids_in keys _); [by apply not_elem_of_nil in Hi|done].
Qed.

Lemma seed_apply_Ok keys m m' :
  seed_apply env master default_project_id keys m = (Ok (), m') → keys_wf m →
  ∃ rs m1, Forall2 (λ k r, resolve_key env k = Ok r) keys rs ∧
    upsert_all master default_project_id rs m = (Ok (), m1) ∧ keys_wf m1 ∧
    ∀ i row, keys_of m' !! i = Some row ↔ keys_of m1 !! i = Some row ∧ ¬ dropped keys row.
Proof.
  unfold seed_apply. destruct (prepare _ _ _ _ _) as [[by_project rs]|e] eqn:Hp; [|done].
  apply (prepare_spec _ []) in Hp as (Hby & new & -> & Hnew); [|done]. simpl in *.
  destruct (upsert_all _ _ new m) as [[[]|e] m1] eqn:Hu; [|done].
  destruct (prune_all _ m1) as [[[]|e] m2] eqn:Hpr; [|done]. intros Hd Hwf.
  destruct (upsert_all_spec _ _ _ Hu Hwf) as (Hwf1 & _).
  destruct (prune_all_spec _ _ _ Hpr Hwf1) as [Hwf2 Hs2].
  exists new, m1. split; [done|]. split; [done|]. split; [done|]. intros i row.
  pose proof (pruned_listed keys by_project row Hby) as Hpl. unfold prune_default in Hd.
  destruct (existsb _ keys) eqn:Hex.
  - injection Hd as <-. rewrite Hs2, Hpl. unfold dropped.
    apply existsb_exists in Hex as (k & Hk%list_elem_of_In & Hkp%String.eqb_eq).
    split; (intros [Hrow Hn]; split; [done|]; intros (Ho & Hp & Hnin); apply Hn;
      split; [done|]; split; [|done]).
    + destruct Hp as [-> | Hp]; [by exists k|done].
    + by right.
  - destruct (prune_seeded_keys_not_in m2 _ _) as [[n|e] m3] eqn:Hp3; [|done].
    injection Hd as <-. destruct (prune_one _ _ _ _ _ Hp3 Hwf2) as [_ Hs3].
    rewrite Hs3, Hs2, Hpl. unfold dropped, pruned.
    assert (Hnil : ids_in keys default_project_id = []).
    { destruct (ids_in keys default_project_id) as [|i0 l] eqn:Hids; [done|].
      assert (Hi : i0 ∈ ids_in keys default_project_id) by (rewrite Hids; by left).
      apply elem_of_ids_in in Hi as (k & Hk & Hkp & _).
      assert (Ht : existsb (λ k, String.eqb (project_of k) default_project_id) keys = true).
      { apply existsb_exists. exists k. split; [by apply list_elem_of_In|].
        by apply String.eqb_eq. }
      congruence. }
    split.
    + intros [[Hrow Hn1] Hn2]. split; [done|]. intros (Ho & [Hp|Hp] & Hnin); [|by apply Hn1].
      apply Hn2. exists default_project_id, []. split; [by left|]. split; [done|].
      split; [done|]. apply not_elem_of_nil.
    + intros [Hrow Hn]. split; [split; [done|]|].
      * intros (Ho & Hp & Hnin). apply Hn. split; [done|]. split; [by right|done].
      * intros (p & ids & [= -> ->]%list_elem_of_singleton & Hp & Ho & _). apply Hn.
        split; [done|]. split; [by left|]. rewrite Hp, Hnil. apply not_elem_of_nil.
Qed.

(** The rows after a successful run: a declared key is seeded; any other row was there
    before and is not a config row to be removed. *)
Lemma seed_apply_rows keys m m' :
  seed_apply env master default_project_id keys m = (Ok (), m') →
  keys_wf m → NoDup (gk_id <$> keys) →
  (∀ k, k ∈ keys → ∃ r row, rk_key r = k ∧ resolve_secret env k = Ok (rk_plaintext r) ∧
     is_Some (parse_gateway_key (rk_plaintext r)) ∧
     keys_of m' !! gk_id k = Some row ∧ seeded_as r row) ∧
  (∀ i row, keys_of m' !! i = Some row →
     ¬ dropped keys row ∧
     (i ∉ gk_id <$> keys → keys_of m !! i = Some row)) ∧
  (∀ i row, keys_of m !! i = Some row →
     (key_origin row ≠ KEY_ORIGIN_CONFIG → i ∉ gk_id <$> keys) ∧
     (i ∉ gk_id <$> keys → ¬ dropped keys row → keys_of m' !! i = Some row)).
Proof.
  intros Ha Hwf Hnd. apply seed_apply_Ok in Ha as (rs & m1 & Hrs & Hu & _ & Hs); [|done].
  destruct (upsert_all_spec _ _ _ Hu Hwf) as (_ & Hkeep & Hadmin & Hin).
  assert (Hids : (λ r, gk_id (rk_key r)) <$> rs = gk_id <$> keys).
  { clear -Hrs. induction Hrs as [|k r ks rs Hk _ IH]; [done|].
    rewrite !fmap_cons, IH. by destruct (resolve_key_Ok _ _ Hk) as [-> _]. }
  rewrite Hids in Hkeep, Hadmin, Hin. split_and!.
  - intros k Hk. apply list_elem_of_lookup in Hk as [n Hn].
    destruct (Forall2_lookup_l _ _ _ _ _ Hrs Hn) as (r & Hr & Hkr).
    apply resolve_key_Ok in Hkr as (Hkey & Hsec & Hpre).
    apply list_elem_of_lookup_2 in Hr, Hn.
    destruct (Hin Hnd r Hr) as (row & Hrow & Hseed). rewrite Hkey in *.
    exists r, row. split_and!; [done|done|by eexists| |done].
    apply Hs. split; [done|]. intros (_ & _ & Hnin). apply Hnin, elem_of_ids_in.
    destruct Hseed as (Hid & Hp & _). exists k. by rewrite Hid, Hp, Hkey.
  - intros i row [Hrow Hd]%Hs. split; [done|]. intros Hi. by rewrite <- Hkeep.
  - intros i row Hrow. split; [by apply Hadmin|].
    intros Hi Hd. apply Hs. split; [|done]. by rewrite Hkeep.
Qed.
End Facts.

(** The configuration decides its own keys and nothing else: after a
    successful run every declared key is an active row of its project with the
    hash of its secret; no config-managed row of the default project, or of a
    project that still declares keys, survives without being declared there; and
    every row made through the Admin API is still there, unchanged. *)
Theorem seed_apply_spec `{HashOrder} `{Crypto} `{KeyLaws M} env master default_project_id
    keys (m m' : M) :
  seed_apply env master default_project_id keys m = (Ok (), m') →
  keys_wf m → NoDup (gk_id <$> keys) →
  (∀ k, k ∈ keys → ∃ plaintext row,
     resolve_secret env k = Ok plaintext ∧ keys_of m' !! gk_id k = Some row ∧
     key_hash row = derive_hash master plaintext ∧
     key_project_id row = key_project default_project_id k ∧
     key_status row = "active" ∧ key_origin row = KEY_ORIGIN_CONFIG) ∧
  (∀ i row, keys_of m' !! i = Some row → key_origin row = KEY_ORIGIN_CONFIG →
     key_project_id row = default_project_id ∨
     (∃ k, k ∈ keys ∧ key_project default_project_id k = key_project_id row) →
     ∃ k, k ∈ keys ∧ gk_id k = key_id row ∧
          key_project default_project_id k = key_project_id row) ∧
  (∀ i row, keys_of m !! i = Some row → key_origin row ≠ KEY_ORIGIN_CONFIG →
     keys_of m' !! i = Some row).
Proof.
  intros Ha Hwf Hnd.
  destruct (seed_apply_rows _ _ _ _ _ _ Ha Hwf Hnd) as (Hdecl & Hafter & Hbefore). split; [|split].
  - intros k (r & row & Hkey & Hsec & _ & Hrow & _ & Hp & Hh & Hst & Ho & _)%Hdecl.
    exists (rk_plaintext r), row. by rewrite Hkey in Hp.
  - intros i row [Hd _]%Hafter Ho Hp.
    destruct (decide (key_id row ∈ ids_in default_project_id keys (key_project_id row)))
      as [Hi|Hi]; [|by destruct Hd].
    apply elem_of_ids_in in Hi as (k & Hk & Hkp & Hid). by exists k.
  - intros i row [Hadm Hstay]%Hbefore Ho. apply Hstay; [by apply Hadm|by intros [Hc _]].
Qed.

(** * A concrete run: one declared key, one that was dropped from the file, and
    one made by an administrator. *)

Definition declared_key : GatewayKeyConfig :=
  {| gk_id := "cfg-new"; gk_name := "n"; gk_project_id := None;
     gk_secret := "env://KEY"; gk_scopes := [] |}.

Definition sample_env (var : string) : option string :=
  if String.eqb var "KEY" then Some "sk-gw-live-0123456789" else None.

Definition row_of (id origin : string) : GatewayKeyRow :=
  {| key_id := id; key_project_id := "default"; key_name := "c"; key_prefix := "";
     key_hash := []; key_last4 := ""; key_scopes := []; key_status := "active";
     key_expires_at := None; key_last_used_at := None; key_created_at := 0;
     key_revoked_at := None; key_origin := origin |}.

Definition before_seeding : MemMeta :=
  set_keys (meta_new (λ _, 7))
    {["cfg-old" := row_of "cfg-old" KEY_ORIGIN_CONFIG; "adm" := row_of "adm" "admin"]}.

Definition after_seeding : result unit string * MemMeta :=
  @seed_apply tree_order toy_crypto MemMeta (@memory_metadata tree_order) sample_env []
    "default" [declared_key] before_seeding.

Lemma seed_apply_spec_witness :
  ∃ m' row, after_seeding = (Ok (), m') ∧
    @keys_of MemMeta _ (@memory_key_laws tree_order) m' !! "cfg-new" = Some row ∧
    key_hash row = str_bytes "sk-gw-live-0123456789" ∧
    @keys_of MemMeta _ (@memory_key_laws tree_order) m' !! "adm" = Some (row_of "adm" "admin").
Proof.
  destruct after_seeding as [r m'] eqn:Ha.
  assert (Hr : r = Ok ()).
  { change r with (r, m').1. rewrite <- Ha. vm_compute. reflexivity. }
  subst r. unfold after_seeding in Ha.
  assert (Hwf : @keys_wf MemMeta _ (@memory_key_laws tree_order) before_seeding).
  { intros i row Hrow. change (({["cfg-old" := row_of "cfg-old" KEY_ORIGIN_CONFIG;
      "adm" := row_of "adm" "admin"]} : gmap string GatewayKeyRow) !! i = Some row) in Hrow.
    apply lookup_insert_Some in Hrow as [[<- <-]|[_ [<- <-]%lookup_singleton_Some]];
      reflexivity. }
  destruct (@seed_apply_spec tree_order toy_crypto MemMeta (@memory_metadata tree_order)
    (@memory_key_laws tree_order) sample_env [] "default" [declared_key] before_seeding m' Ha
    Hwf) as (Hdecl & _ & Hadm).
  { apply NoDup_singleton. }
  destruct (Hdecl declared_key) as (text & row & Hsec & Hrow & Hh & _).
  { apply list_elem_of_singleton. reflexivity. }
  exists m', row. split; [reflexivity|]. split; [exact Hrow|]. split.
  - injection Hsec as <-. exact Hh.
  - apply Hadm; [reflexivity|discriminate].
Defined.
