(* ===== verification/HotReload.v ===== *)
(** Hot reload and access: what a reload of the configuration (try_reload in
    gateway-api/src/reload.rs) means for the keys requests authenticate with (auth.rs).
    The composition of Config, Seeding and Auth. *)
From Stdlib Require Import ZArith Lia Bool Ascii String SpecFloat.
From stdpp Require Import prelude gmap strings list.
From S2P Require Import Prelude Text F64 Json Errors Models HttpTypes Stores MemoryMeta Config Security Auth Seeding.
Open Scope Z_scope.

Section Reload.
Context `{HashOrder} `{HttpTypes} `{Crypto} `{KeyLaws M}.
Context (env : string → option string) (app : AuthState) (default_project_id : string).

Abbreviation reload := (try_reload env (master_key app) default_project_id).
Abbreviation hash_of := (derive_hash (master_key app)).

(** Seeding the keys of a configuration succeeds. *)
Definition seeds (cfg : AppConfig) (m : M) : Prop :=
  (seed_apply env (master_key app) default_project_id (gateway_keys cfg) m).1 = Ok ().

(** A config row whose project neither is the default one nor has a declared key. *)
Definition abandoned (cfg : AppConfig) (row : GatewayKeyRow) : Prop :=
  key_project_id row ≠ default_project_id ∧
  ∀ k, k ∈ gateway_keys cfg → key_project default_project_id k ≠ key_project_id row.

Lemma not_dropped cfg row i :
  key_id row = i → i ∉ gk_id <$> gateway_keys cfg →
  ¬ dropped default_project_id (gateway_keys cfg) row ↔
  (key_origin row = KEY_ORIGIN_CONFIG → abandoned cfg row).
Proof.
  intros Hid Hi.
  assert (Hn : key_id row ∉ ids_in default_project_id (gateway_keys cfg) (key_project_id row)).
  { rewrite elem_of_ids_in. intros (k & Hk & _ & Hkid). apply Hi, list_elem_of_fmap.
    exists k. by rewrite Hkid. }
  unfold dropped, abandoned. split.
  - intros Hd Ho. split; [intros Hp|intros k Hk Hp]; apply Hd.
    + split_and!; [done|by left|done].
    + split_and!; [done|right; by exists k|done].
  - intros Ha (Ho & [Hp|(k & Hk & Hp)] & _); destruct (Ha Ho) as [Hp1 Hp2]; [done|by eapply Hp2].
Qed.

Lemma reload_state parse_yaml path file new old m :
  load_from_path parse_yaml path file = Ok new →
  reload (load_from_path parse_yaml path file) (old, m) =
    (new, (seed_apply env (master_key app) default_project_id (gateway_keys new) m).2).
Proof. by intros ->. Qed.

(** The rows after a reload, each under its own id. *)
Lemma reload_rows parse_yaml path file new m :
  load_from_path parse_yaml path file = Ok new → keys_wf m → seeds new m →
  let m' := (seed_apply env (master_key app) default_project_id (gateway_keys new) m).2 in
  (∀ k, k ∈ gateway_keys new → ∃ r row, rk_key r = k ∧
     resolve_secret env k = Ok (rk_plaintext r) ∧
     is_Some (parse_gateway_key (rk_plaintext r)) ∧
     keys_of m' !! gk_id k = Some row ∧ seeded_as (master_key app) default_project_id r row) ∧
  (∀ i row, keys_of m' !! i = Some row → i ∉ gk_id <$> gateway_keys new →
     key_id row = i ∧ keys_of m !! i = Some row ∧
     (key_origin row = KEY_ORIGIN_CONFIG → abandoned new row)) ∧
  (∀ i row, keys_of m !! i = Some row → i ∉ gk_id <$> gateway_keys new →
     (key_origin row = KEY_ORIGIN_CONFIG → abandoned new row) → keys_of m' !! i = Some row).
Proof.
  intros Hload%load_valid Hwf Hs m'. unfold seeds in Hs.
  destruct (seed_apply env (master_key app) default_project_id (gateway_keys new) m)
    as [r m1] eqn:Ha. simpl in Hs, m'. subst r.
  destruct (seed_apply_rows _ _ _ _ _ _ Ha Hwf (vc_key_ids _ Hload)) as (Hdecl & Hafter & Hbefore).
  split_and!; [done| |].
  - intros i row Hrow Hi. destruct (Hafter i row Hrow) as [Hd Hm]. specialize (Hm Hi).
    pose proof (keys_wf_id _ Hwf _ _ Hm) as Hid. split_and!; [done|done|].
    by apply (not_dropped new row i).
  - intros i row Hrow Hi Hab. apply Hbefore; [done|done|].
    apply (not_dropped new row i); [by eapply keys_wf_id|done|done].
Qed.
End Reload.

(** * Properties *)

(** C9: The reloaded file decides who gets in: when the new keys could be seeded, a
    request that presents the secret of a declared key acts as that key in its project;
    and a request that is accepted at all presents the secret of a declared key, or a
    key that was there before and that either an administrator made or belongs to a
    project the file no longer names. *)
Theorem reload_governs_access `{HashOrder} `{HttpTypes} `{Crypto} `{KeyLaws M} env app
    default_project_id parse_yaml path file new old (m : M) :
  load_from_path parse_yaml path file = Ok new → keys_wf m →
  seeds env app default_project_id new m →
  let s := try_reload env (master_key app) default_project_id
             (load_from_path parse_yaml path file) (old, m) in
  s.1 = new ∧
  (∀ k plaintext now headers,
     k ∈ gateway_keys new → resolve_secret env k = Ok plaintext →
     extract_bearer headers = Some plaintext →
     let h := derive_hash (master_key app) plaintext in
     (∀ e, find_key_by_hash s.2 h ≠ Err e) →
     (∀ i row, i ≠ gk_id k → keys_of s.2 !! i = Some row → key_hash row ≠ h) →
     gateway_principal app s.2 now headers =
       Ok ({| principal_key_id := gk_id k;
              principal_project_id := key_project default_project_id k |}, (gk_id k, now))) ∧
  (∀ now headers p touch,
     gateway_principal app s.2 now headers = Ok (p, touch) →
     ∃ token, extract_bearer headers = Some token ∧
       let h := derive_hash (master_key app) token in
       ((∃ k plaintext, k ∈ gateway_keys new ∧ gk_id k = principal_key_id p ∧
           resolve_secret env k = Ok plaintext ∧ derive_hash (master_key app) plaintext = h) ∨
        (∃ row, keys_of m !! principal_key_id p = Some row ∧ key_hash row = h ∧
           (key_origin row = KEY_ORIGIN_CONFIG → abandoned default_project_id new row)))).
Proof.
  intros Hload Hwf Hs s. subst s. rewrite (reload_state _ _ _ _ _ _ _ _ _ Hload). cbn [fst snd].
  destruct (reload_rows _ _ _ _ _ _ _ _ Hload Hwf Hs) as (Hdecl & Hafter & _).
  split_and!; [done| |].
  - intros k plaintext now headers Hk Hsec Htok Hans Huniq.
    destruct (Hdecl k Hk) as (r & row & Hkey & Hsec' & Hpre & Hrow & Hid & Hp & Hh & Hst & _ & Hex).
    rewrite Hsec in Hsec'. injection Hsec' as ->. rewrite Hkey in Hid, Hp.
    rewrite (gateway_principal_row app _ now headers _ row Htok Hpre Hans).
    + unfold row_usable. by rewrite Hst, Hex, Hid, Hp.
    + by exists (gk_id k).
    + done.
    + intros i row' Hrow' Hh'. destruct (decide (i = gk_id k)) as [->|Hne]; [congruence|].
      by destruct (Huniq i row' Hne Hrow').
  - intros now headers p touch Hok.
    destruct (gateway_principal_Ok _ _ _ _ _ _ Hok) as (token & row & i & Ht & _ & Hi & Hh & _ & _ & ->).
    exists token. split; [done|]. cbn [principal_key_id].
    destruct (decide (i ∈ gk_id <$> gateway_keys new)) as [Hin|Hnin].
    + left. apply list_elem_of_fmap in Hin as (k & -> & Hk).
      destruct (Hdecl k Hk) as (r & row' & Hkey & Hsec & _ & Hrow' & Hid & _ & Hh' & _).
      rewrite Hi in Hrow'. injection Hrow' as <-. rewrite Hkey in Hid.
      exists k, (rk_plaintext r). split_and!; [done|done|done|congruence].
    + right. destruct (Hafter i row Hi Hnin) as (Hid & Hm & Hab). exists row. by rewrite Hid.
Qed.

(** A key that is removed from the file together with all other keys of its project
    keeps its access, whatever the new file declares elsewhere. *)
Theorem abandoned_key_keeps_access `{HashOrder} `{HttpTypes} `{Crypto} `{KeyLaws M} env app
    default_project_id parse_yaml path file new old (m : M) i row token now headers :
  load_from_path parse_yaml path file = Ok new → keys_wf m →
  seeds env app default_project_id new m →
  keys_of m !! i = Some row → i ∉ gk_id <$> gateway_keys new →
  abandoned default_project_id new row → row_usable now row = true →
  extract_bearer headers = Some token → is_Some (parse_gateway_key token) →
  key_hash row = derive_hash (master_key app) token →
  let s := try_reload env (master_key app) default_project_id
             (load_from_path parse_yaml path file) (old, m) in
  (∀ e, find_key_by_hash s.2 (derive_hash (master_key app) token) ≠ Err e) →
  (∀ j r, keys_of s.2 !! j = Some r →
     key_hash r = derive_hash (master_key app) token → r = row) →
  gateway_principal app s.2 now headers =
    Ok ({| principal_key_id := i; principal_project_id := key_project_id row |}, (i, now)).
Proof.
  intros Hload Hwf Hs Hrow Hi Hab Hu Htok Hpre Hh s Hans Huniq. subst s.
  rewrite (reload_state _ _ _ _ _ _ _ _ _ Hload) in *. cbn [fst snd] in *.
  destruct (reload_rows _ _ _ _ _ _ _ _ Hload Hwf Hs) as (_ & _ & Hstay).
  rewrite (gateway_principal_row app _ now headers token row Htok Hpre Hans); [|eauto|done|done].
  by rewrite Hu, (keys_wf_id _ Hwf _ _ Hrow).
Qed.

(** * A concrete reload: a declared key gets in; one whose whole project left the file
    still does. *)

Section Example.
#[local] Existing Instance tree_order.
#[local] Existing Instance plain_http.
#[local] Existing Instance toy_crypto.

Definition new_config : AppConfig :=
  {| server := default_server; storage := Memory default_cache_config;
     admin := {| root_token := ""; password_login := false |}; providers := ∅; routes := [];
     limits := []; budget_configs := []; observability := default_observability;
     gateway_keys := [declared_key] |}.

Definition team_token : string := "sk-gw-live-team".

Definition team_row : GatewayKeyRow :=
  {| key_id := "team"; key_project_id := "team-b"; key_name := "t"; key_prefix := "";
     key_hash := str_bytes team_token; key_last4 := ""; key_scopes := []; key_status := "active";
     key_expires_at := None; key_last_used_at := None; key_created_at := 0;
     key_revoked_at := None; key_origin := KEY_ORIGIN_CONFIG |}.

Definition before_reload : MemMeta := set_keys (meta_new (λ _, 7)) {["team" := team_row]}.

Definition yaml_text (text : string) : result AppConfig string := Ok new_config.

Definition after_reload : AppConfig * MemMeta :=
  try_reload sample_env [] "default" (load_from_path yaml_text "gateway.yaml" (Ok ""))
    (new_config, before_reload).

Lemma before_reload_wf : keys_wf before_reload.
Proof.
  intros i row Hrow.
  change (({["team" := team_row]} : gmap string GatewayKeyRow) !! i = Some row) in Hrow.
  by apply lookup_singleton_Some in Hrow as [<- <-].
Qed.

Lemma reload_governs_access_witness :
  gateway_principal sample_app after_reload.2 100 (bearer "sk-gw-live-0123456789") =
    Ok ({| principal_key_id := "cfg-new"; principal_project_id := "default" |},
        ("cfg-new", 100)).
Proof.
  assert (Hload : load_from_path yaml_text "gateway.yaml" (Ok "") = Ok new_config)
    by (vm_compute; reflexivity).
  assert (Hseeds : seeds sample_env sample_app "default" new_config before_reload)
    by (vm_compute; reflexivity).
  destruct (reload_governs_access sample_env sample_app "default" yaml_text "gateway.yaml"
    (Ok "") new_config new_config before_reload Hload before_reload_wf Hseeds)
    as (_ & Hin & _).
  apply (Hin declared_key "sk-gw-live-0123456789" 100 (bearer "sk-gw-live-0123456789")).
  - by left.
  - reflexivity.
  - reflexivity.
  - intros e He. vm_compute in He. discriminate He.
  - intros i row Hi Hrow Hh.
    assert (Hrow' : keys after_reload.2 !! i = Some row) by exact Hrow.
    apply elem_of_map_to_list, list_elem_of_In in Hrow'.
    assert (Hall : forallb (λ kv, String.eqb kv.1 "cfg-new" ||
        negb (bool_decide (key_hash kv.2 = derive_hash [] "sk-gw-live-0123456789")))
        (map_to_list (keys after_reload.2)) = true) by (vm_compute; reflexivity).
    pose proof (proj1 (forallb_forall _ _) Hall _ Hrow') as Hc. cbn [fst snd] in Hc.
    apply orb_true_iff in Hc as [Hc|Hc]; [by apply Hi, String.eqb_eq|].
    apply negb_true_iff, bool_decide_eq_false in Hc. by apply Hc.
Defined.

Lemma team_key_still_gets_in :
  gateway_principal sample_app after_reload.2 100 (bearer team_token) =
    Ok ({| principal_key_id := "team"; principal_project_id := "team-b" |}, ("team", 100)).
Proof. vm_compute. reflexivity. Qed.
End Example.
