(* ===== verification/Watcher.v ===== *)
(** The configuration watcher: the [run] loop of gateway-api/src/reload.rs between the file,
    the notification thread, the bounded event channel and the published configuration, as
    a state machine whose moves may come in any order.

    Parameters: the YAML parser, and the environment's moves (writes of the file, calls of
    the notification callback, time, the end of the notification thread). *)
From Stdlib Require Import ZArith Lia Bool Ascii String.
From stdpp Require Import prelude gmap strings list relations.
From S2P Require Import Prelude Text Errors Models Stores Security MemoryMeta Auth Config Seeding HotReload.
Open Scope Z_scope.

(** [mpsc::channel::<()>(8)] and [Duration::from_millis(200)] *)
Definition EVENT_CHANNEL : nat := 8.
Definition DEBOUNCE_MS : Z := 200.

(** What reading the file gives. *)
Abbreviation FileText := (result string string).

(** Where the loop is: at [rx.recv()], in the draining loop, about to read the file, having
    read it, or returned. *)
Inductive Phase : Type :=
| Waiting
| Draining (deadline : Z)
| Reading
| Applying (text : FileText)
| Exited.

(** [w_due]: a write whose notification has not been delivered yet.  [w_applied]: what was
    last read and applied. *)
Record Watcher (M : Type) : Type := {
  w_now : Z;
  w_file : FileText;
  w_due : bool;
  w_queue : nat;
  w_open : bool;
  w_phase : Phase;
  w_applied : FileText;
  w_published : AppConfig * M
}.
Arguments w_now {M} _.
Arguments w_file {M} _.
Arguments w_due {M} _.
Arguments w_queue {M} _.
Arguments w_open {M} _.
Arguments w_phase {M} _.
Arguments w_applied {M} _.
Arguments w_published {M} _.

(** The environment's moves: the file is written, the callback is called, time passes, the
    notification thread ends (its [park] returns) and drops the watcher with its sender. *)
Inductive EnvAct : Type :=
| Write (text : FileText)
| Notify (is_ok : bool)
| Tick (ms : Z)
| ThreadEnds.

(** The moves of the loop. *)
Inductive LoopAct : Type :=
| Recv
| Drain
| Timeout
| Read
| Publish
| Exit.

Section Watcher.
Context `{HashOrder} `{Crypto} `{MetadataStore M}.
Context (parse_yaml : string → result AppConfig string) (path : string).
Context (env : string → option string) (master : bytes) (default_project_id : string).
Abbreviation W := (Watcher M).

Definition set_channel (w : W) (due : bool) (queue : nat) (opened : bool) : W :=
  {| w_now := w_now w; w_file := w_file w; w_due := due; w_queue := queue; w_open := opened;
     w_phase := w_phase w; w_applied := w_applied w; w_published := w_published w |}.
Definition set_phase (w : W) (queue : nat) (p : Phase) : W :=
  {| w_now := w_now w; w_file := w_file w; w_due := w_due w; w_queue := queue;
     w_open := w_open w; w_phase := p; w_applied := w_applied w;
     w_published := w_published w |}.

(** The callback: an event is put in the channel unless the channel is full; an error of
    the watcher is dropped. *)
Definition on_notify (is_ok : bool) (w : W) : W :=
  if is_ok then
    set_channel w false
      (if (w_queue w <? EVENT_CHANNEL)%nat then S (w_queue w) else w_queue w) (w_open w)
  else w.

(** [try_reload], from the text that was read. *)
Definition publish (text : FileText) (w : W) : W :=
  {| w_now := w_now w; w_file := w_file w; w_due := w_due w; w_queue := w_queue w;
     w_open := w_open w; w_phase := Waiting; w_applied := text;
     w_published := try_reload env master default_project_id
                      (load_from_path parse_yaml path text) (w_published w) |}.

Definition env_next (a : EnvAct) (w : W) : option W :=
  match a with
  | Write text =>
      Some {| w_now := w_now w; w_file := text; w_due := true; w_queue := w_queue w;
              w_open := w_open w; w_phase := w_phase w; w_applied := w_applied w;
              w_published := w_published w |}
  | Notify is_ok => if w_open w then Some (on_notify is_ok w) else None
  | Tick ms =>
      if 0 <=? ms then
        Some {| w_now := w_now w + ms; w_file := w_file w; w_due := w_due w;
                w_queue := w_queue w; w_open := w_open w; w_phase := w_phase w;
                w_applied := w_applied w; w_published := w_published w |}
      else None
  | ThreadEnds => Some (set_channel w (w_due w) (w_queue w) false)
  end.

(** [rx.recv()] in both loops. *)
Definition receive (p : Phase) (w : W) : option W :=
  match w_queue w with S n => Some (set_phase w n p) | O => None end.

(** A move of the loop, where it can be made; [select!] takes either arm that is ready. *)
Definition loop_next (a : LoopAct) (w : W) : option W :=
  match a, w_phase w with
  | Recv, Waiting => receive (Draining (w_now w + DEBOUNCE_MS)) w
  | Exit, Waiting =>
      if (w_queue w =? 0)%nat && negb (w_open w) then Some (set_phase w 0 Exited) else None
  | Drain, Draining d => receive (Draining d) w
  | Timeout, Draining d =>
      if d <=? w_now w then Some (set_phase w (w_queue w) Reading) else None
  | Read, Reading => Some (set_phase w (w_queue w) (Applying (w_file w)))
  | Publish, Applying text => Some (publish text w)
  | _, _ => None
  end.

Definition watch_next (a : EnvAct + LoopAct) : W → option W :=
  match a with inl e => env_next e | inr l => loop_next l end.
Definition watch_step : relation W := λ w w', ∃ a, watch_next a w = Some w'.
Definition loop_step : relation W := λ w w', ∃ a, loop_next a w = Some w'.

(** [spawn]: the loop starts with what start-up loaded, on a channel that is open when the
    watcher could be created; the file is taken to be as it was when it was loaded (what
    is written between the two is not noticed). *)
Definition watch_start (created : bool) (now : Z) (text : FileText) (s : AppConfig * M) : W :=
  {| w_now := now; w_file := text; w_due := false; w_queue := 0; w_open := created;
     w_phase := Waiting; w_applied := text; w_published := s |}.

(** A run of moves. *)
Fixpoint watch_run (acts : list (EnvAct + LoopAct)) (w : W) : option W :=
  match acts with
  | [] => Some w
  | a :: rest => w' ← watch_next a w; watch_run rest w'
  end.

Lemma watch_run_steps acts w w' : watch_run acts w = Some w' → rtc watch_step w w'.
Proof.
  revert w. induction acts as [|a acts IH]; intros w; simpl; [by intros [= <-]|].
  destruct (watch_next a w) as [w1|] eqn:Ha; [|done]. intros Hr.
  eapply rtc_l; [by exists a|by apply IH].
Qed.

Lemma loop_run_steps acts w w' :
  watch_run (inr <$> acts) w = Some w' → nsteps loop_step (length acts) w w'.
Proof.
  revert w. induction acts as [|a acts IH]; intros w; simpl; [intros [= <-]; apply nsteps_O|].
  destruct (loop_next a w) as [w1|] eqn:Ha; [|done]. intros Hr.
  eapply nsteps_l; [by exists a|by apply IH].
Qed.

(** * The invariant *)

(** A re-read is still to come. *)
Definition pending (w : W) : Prop := w_due w = true ∨ (0 < w_queue w)%nat.

(** What has been applied is what the file says, unless a re-read is to come. *)
Definition up_to_date (w : W) : Prop :=
  match w_phase w with
  | Waiting | Exited => pending w ∨ w_applied w = w_file w
  | Applying text => pending w ∨ text = w_file w
  | Draining _ | Reading => True
  end.

(** The published configuration is the one last read, if that is valid, its keys seeded. *)
Definition consistent (w : W) : Prop :=
  ∀ new, load_from_path parse_yaml path (w_applied w) = Ok new → (w_published w).1 = new.

Lemma env_next_kept a w w' :
  env_next a w = Some w' →
  w_phase w' = w_phase w ∧ w_applied w' = w_applied w ∧ w_published w' = w_published w ∧
  (pending w' ∨ (w_file w' = w_file w ∧ ¬ pending w)).
Proof.
  assert (Hdec : pending w ∨ ¬ pending w).
  { unfold pending. destruct (w_due w); [by auto|]. destruct (w_queue w); [right|left; lia].
    intros [?|?]; [done|lia]. }
  destruct a as [text|ok|ms|]; cbn [env_next].
  - intros [= <-]. split_and!; try done. left. by left.
  - destruct (w_open w); [|done]. intros [= <-]. unfold on_notify. destruct ok.
    + split_and!; try done. left. right. cbn [set_channel w_queue].
      destruct (Nat.ltb_spec (w_queue w) EVENT_CHANNEL) as [|Hq]; [lia|].
      unfold EVENT_CHANNEL in Hq. lia.
    + split_and!; try done. destruct Hdec; auto.
  - destruct (0 <=? ms); [|done]. intros [= <-]. split_and!; try done.
    destruct Hdec; auto.
  - intros [= <-]. split_and!; try done. destruct Hdec; auto.
Qed.

Lemma env_next_inv a w w' :
  env_next a w = Some w' → up_to_date w ∧ consistent w → up_to_date w' ∧ consistent w'.
Proof.
  intros (Hp & Ha & Hpub & Hf)%env_next_kept [Hu Hc]. unfold consistent. rewrite Ha, Hpub.
  split; [|exact Hc]. unfold up_to_date in *. rewrite Hp, Ha.
  destruct Hf as [Hf|[Hf Hn]]; [by case_match; auto|]. rewrite Hf.
  case_match; try done; (destruct Hu as [Hu|Hu]; [by destruct Hn|by right]).
Qed.

Lemma publish_consistent text w : consistent (publish text w).
Proof.
  intros new. unfold publish. cbn [w_applied w_published]. by intros ->.
Qed.

Lemma loop_next_inv a w w' :
  loop_next a w = Some w' → up_to_date w ∧ consistent w → up_to_date w' ∧ consistent w'.
Proof.
  intros Ha [Hu Hc]. unfold up_to_date in Hu.
  destruct a, (w_phase w) as [|d| |text|] eqn:Hp; cbn [loop_next] in Ha;
    rewrite Hp in Ha; unfold receive in Ha; try discriminate Ha.
  - destruct (w_queue w); [done|]. by injection Ha as <-.
  - destruct (w_queue w); [done|]. by injection Ha as <-.
  - destruct (d <=? w_now w); [|done]. by injection Ha as <-.
  - injection Ha as <-. split; [by right|exact Hc].
  - injection Ha as <-. split; [|apply publish_consistent].
    destruct Hu as [Hu|Hu]; [by left|by right].
  - destruct (w_queue w =? 0)%nat eqn:Hq; [|done]. apply Nat.eqb_eq in Hq.
    destruct (w_open w); [done|]. injection Ha as <-. split; [|exact Hc].
    unfold up_to_date, pending in *. cbn. by rewrite Hq in Hu.
Qed.

Lemma watch_steps_inv w w' :
  rtc watch_step w w' → up_to_date w ∧ consistent w → up_to_date w' ∧ consistent w'.
Proof.
  induction 1 as [w|w w1 w' [[a|a] Ha] _ IH]; [done| |]; intros Hw; apply IH.
  - by eapply env_next_inv.
  - by eapply loop_next_inv.
Qed.

(** * The loop comes to rest *)

(** What is left to do: five moves an event, and those of the round under way. *)
Definition work (w : W) : nat :=
  5 * w_queue w +
  match w_phase w with
  | Waiting => 1 | Draining _ => 4 | Reading => 3 | Applying _ => 2 | Exited => 0
  end.

Lemma loop_next_works a w w' : loop_next a w = Some w' → (work w' < work w)%nat.
Proof.
  unfold work. intros Ha.
  destruct a, (w_phase w) as [|d| |text|] eqn:Hp; cbn [loop_next] in Ha;
    rewrite Hp in Ha; unfold receive in Ha; try discriminate Ha.
  - destruct (w_queue w); [done|]. injection Ha as <-. cbn [set_phase w_queue w_phase]. lia.
  - destruct (w_queue w); [done|]. injection Ha as <-. cbn [set_phase w_queue w_phase]. lia.
  - destruct (d <=? w_now w); [|done]. injection Ha as <-. cbn [set_phase w_queue w_phase]. lia.
  - injection Ha as <-. cbn [set_phase w_queue w_phase]. lia.
  - injection Ha as <-. cbn [publish w_queue w_phase]. lia.
  - destruct (w_queue w =? 0)%nat eqn:Hq; [|done]. apply Nat.eqb_eq in Hq.
    destruct (w_open w); [done|]. injection Ha as <-. cbn [set_phase w_queue w_phase]. lia.
Qed.

Lemma loop_steps_bounded n w w' : nsteps loop_step n w w' → (n + work w' ≤ work w)%nat.
Proof.
  induction 1 as [w|n w w1 w' [a Ha] _ IH]; [lia|]. apply loop_next_works in Ha. lia.
Qed.

(** The deadline of the round under way, if any, has passed. *)
Definition timely (w : W) : Prop :=
  match w_phase w with Draining d => d ≤ w_now w | _ => True end.

(** The loop returns only on an empty channel without senders, which stays as it is. *)
Definition exit_ok (w : W) : Prop :=
  w_phase w = Exited → w_open w = false ∧ w_queue w = 0%nat.

Lemma watch_next_exit a w w' : watch_next a w = Some w' → exit_ok w → exit_ok w'.
Proof.
  unfold exit_ok. intros Ha Hw. destruct a as [a|a]; cbn [watch_next] in Ha.
  - destruct a as [text|ok|ms|]; cbn [env_next] in Ha.
    + by injection Ha as <-.
    + destruct (w_open w) eqn:Ho; [|done]. injection Ha as <-. unfold on_notify.
      destruct ok; [|by rewrite Ho]. cbn. intros He. by destruct (Hw He).
    + destruct (0 <=? ms); [|done]. by injection Ha as <-.
    + injection Ha as <-. cbn. intros He. by destruct (Hw He).
  - destruct a, (w_phase w) eqn:Hp; cbn [loop_next] in Ha; rewrite Hp in Ha;
      unfold receive in Ha; try discriminate Ha; repeat case_match; try discriminate Ha;
      injection Ha as <-; try done.
    match goal with Hc : _ && _ = true |- _ => apply andb_true_iff in Hc as [_ Ho%negb_true_iff] end.
    done.
Qed.

Lemma watch_steps_exit w w' : rtc watch_step w w' → exit_ok w → exit_ok w'.
Proof. induction 1 as [w|w w1 w' [a Ha] _ IH]; eauto using watch_next_exit. Qed.

Lemma loop_steps_watch n w w' : nsteps loop_step n w w' → rtc watch_step w w'.
Proof.
  induction 1 as [w|n w w1 w' [a Ha] _ IH]; [done|].
  eapply rtc_l; [|exact IH]. by exists (inr a).
Qed.

(** Where the loop cannot move it waits for events, or has returned. *)
Lemma loop_stuck w :
  timely w → (∀ w', ¬ loop_step w w') →
  (w_phase w = Waiting ∧ w_queue w = 0%nat ∧ w_open w = true) ∨ w_phase w = Exited.
Proof.
  unfold timely. intros Ht Hno.
  destruct (w_phase w) as [|d| |text|] eqn:Hp; [left| | | |by right].
  - destruct (w_queue w) as [|n] eqn:Hq.
    + destruct (w_open w) eqn:Ho; [done|]. destruct (Hno (set_phase w 0 Exited)).
      exists Exit. cbn [loop_next]. by rewrite Hp, Hq, Ho.
    + destruct (Hno (set_phase w n (Draining (w_now w + DEBOUNCE_MS)))).
      exists Recv. cbn [loop_next]. unfold receive. by rewrite Hp, Hq.
  - destruct (Hno (set_phase w (w_queue w) Reading)).
    exists Timeout. cbn [loop_next]. by rewrite Hp, (proj2 (Z.leb_le _ _) Ht).
  - destruct (Hno (set_phase w (w_queue w) (Applying (w_file w)))).
    exists Read. cbn [loop_next]. by rewrite Hp.
  - destruct (Hno (publish text w)). exists Publish. cbn [loop_next]. by rewrite Hp.
Qed.
End Watcher.

(** C13: The watcher keeps the configuration current.  Whatever order writes of the file,
    notifications (lost to a full channel or not), time and the loop's own moves come in,
    starting from a configuration loaded from the file: whenever every write has been
    notified and the loop is at rest, the published configuration is the one the file holds
    now if that one is valid, and what was applied last is exactly the file's text. *)
Theorem watcher_current `{HashOrder} `{Crypto} `{MetadataStore M} parse_yaml path env master
    default_project_id created now text config (m : M) w :
  load_from_path parse_yaml path text = Ok config →
  rtc (watch_step parse_yaml path env master default_project_id)
    (watch_start created now text (config, m)) w →
  w_due w = false → w_queue w = 0%nat → w_phase w = Waiting →
  w_applied w = w_file w ∧
  ∀ new, load_from_path parse_yaml path (w_file w) = Ok new → (w_published w).1 = new.
Proof.
  intros Hload Hs Hdue Hq Hp.
  destruct (watch_steps_inv _ _ _ _ _ _ _ Hs) as [Hu Hc].
  { split; [by right|]. intros new. cbn. rewrite Hload. by intros [= <-]. }
  unfold up_to_date, pending in Hu. rewrite Hp, Hdue, Hq in Hu.
  assert (Ha : w_applied w = w_file w) by (destruct Hu as [[?|?]|?]; [done|lia|done]).
  split; [done|]. rewrite <- Ha. exact Hc.
Qed.

(** C21: The watcher comes to rest: from every state it can get into, the loop makes at most
    five moves per queued event and four more before it waits; where it cannot move although
    the debounce deadline has passed it is waiting on an open, empty channel or has
    returned; and it has returned only if the channel is empty and its sender gone. *)
Theorem watcher_settles `{HashOrder} `{Crypto} `{MetadataStore M} parse_yaml path env master
    default_project_id created now text s (w w' : Watcher M) n :
  rtc (watch_step parse_yaml path env master default_project_id)
    (watch_start created now text s) w →
  nsteps (loop_step parse_yaml path env master default_project_id) n w w' →
  (n ≤ 5 * w_queue w + 4)%nat ∧
  (timely w' → (∀ w2, ¬ loop_step parse_yaml path env master default_project_id w' w2) →
   (w_phase w' = Waiting ∧ w_queue w' = 0%nat ∧ w_open w' = true) ∨ w_phase w' = Exited) ∧
  (w_phase w' = Exited → w_open w' = false ∧ w_queue w' = 0%nat).
Proof.
  intros Hw Hs. split_and!; [|by apply loop_stuck|].
  - apply loop_steps_bounded in Hs. unfold work in Hs. destruct (w_phase w), (w_phase w'); lia.
  - eapply watch_steps_exit; [by eapply loop_steps_watch|]. by eapply watch_steps_exit.
Qed.

(** * A concrete run: two writes, one of them while the file is being applied. *)

Section Example.
#[local] Existing Instance tree_order.
#[local] Existing Instance toy_crypto.

Definition bare_config : AppConfig :=
  {| server := default_server; storage := Memory default_cache_config;
     admin := {| root_token := ""; password_login := false |}; providers := ∅; routes := [];
     limits := []; budget_configs := []; observability := default_observability;
     gateway_keys := [] |}.

Definition two_texts (text : string) : result AppConfig string :=
  if String.eqb text "bare" then Ok bare_config
  else if String.eqb text "keyed" then Ok new_config else Err "?".

Definition watched (acts : list (EnvAct + LoopAct)) : option (Watcher MemMeta) :=
  watch_run two_texts "gateway.yaml" sample_env [] "default" acts
    (watch_start true 0 (Ok "bare") (bare_config, meta_new (λ _, 7))).

Definition one_round : list (EnvAct + LoopAct) :=
  [inr Recv; inl (Tick 200); inr Timeout; inr Read].
Definition two_writes : list (EnvAct + LoopAct) :=
  [inl (Write (Ok "bare")); inl (Notify true)] ++ one_round ++
  [inl (Write (Ok "keyed")); inl (Notify true); inl (Notify true); inr Publish] ++
  [inr Recv; inr Drain; inl (Tick 250); inr Timeout; inr Read; inr Publish].

Lemma watched_steps acts w :
  watched acts = Some w →
  rtc (watch_step two_texts "gateway.yaml" sample_env [] "default")
    (watch_start true 0 (Ok "bare") (bare_config, meta_new (λ _, 7))) w.
Proof. apply watch_run_steps. Qed.

Lemma watcher_current_witness :
  ∃ w, watched two_writes = Some w ∧ (w_published w).1 = new_config.
Proof.
  assert (Hl : (λ w, (w_due w, w_queue w, w_file w)) <$> watched two_writes =
    Some (false, 0%nat, Ok "keyed"%string)) by (vm_compute; reflexivity).
  assert (Hph : w_phase <$> watched two_writes = Some Waiting) by (vm_compute; reflexivity).
  destruct (watched two_writes) as [w|] eqn:Hw; [|discriminate Hl].
  injection Hl as Hd Hq Hf. injection Hph as Hp. exists w. split; [reflexivity|].
  assert (Hload : load_from_path two_texts "gateway.yaml" (Ok "bare"%string) = Ok bare_config)
    by (vm_compute; reflexivity).
  destruct (watcher_current two_texts "gateway.yaml" sample_env [] "default" true 0
    (Ok "bare"%string) bare_config (meta_new (λ _, 7)) w Hload (watched_steps _ _ Hw) Hd Hq Hp)
    as [_ Hc].
  apply Hc. rewrite Hf. vm_compute. reflexivity.
Defined.

(** A round whose deadline has passed, with an event queued behind it. *)
Definition due_round : list (EnvAct + LoopAct) :=
  [inl (Write (Ok "keyed")); inl (Notify true); inr Recv; inl (Notify true); inl (Tick 250)].

Lemma watcher_settles_witness :
  ∃ w w', watched due_round = Some w ∧
    watch_run two_texts "gateway.yaml" sample_env [] "default"
      (inr <$> [Timeout; Read; Publish; Recv]) w = Some w' ∧
    (4 ≤ 5 * w_queue w + 4)%nat.
Proof.
  destruct (watched due_round) as [w|] eqn:Hw; [|vm_compute in Hw; discriminate Hw].
  assert (Hrun : is_Some (watched due_round ≫= watch_run two_texts "gateway.yaml" sample_env []
    "default" (inr <$> [Timeout; Read; Publish; Recv]))) by (vm_compute; eexists; reflexivity).
  rewrite Hw in Hrun. destruct Hrun as [w' Hr]. exists w, w'.
  split; [reflexivity|]. split; [exact Hr|].
  exact (proj1 (watcher_settles two_texts "gateway.yaml" sample_env [] "default" true 0
    (Ok "bare"%string) (bare_config, meta_new (λ _, 7)) w w' 4 (watched_steps _ _ Hw)
    (loop_run_steps _ _ _ _ _ [Timeout; Read; Publish; Recv] _ _ Hr))).
Defined.
End Example.
