(* ===== verification/SqliteSeeding.v ===== *)
(** Key seeding on the SQL stores: a key may only name a project that exists, and
    start-up creates the default project alone. *)
From Stdlib Require Import ZArith Lia Bool String.
From stdpp Require Import prelude gmap strings list.
From S2P Require Import Prelude Text F64 Json Errors Models Config Stores Security Sql Codec SqliteMeta Seeding.
Open Scope Z_scope.

Section Projects.
Context `{HashOrder} `{SerdeJson} `{SqlEngine}.

(** The upsert of a key does not touch the projects. *)
Lemma upsert_keeps_projects k d r d' :
  sqlite_upsert_seeded_key k d = (r, d') → t_projects d' = t_projects d.
Proof.
  unfold sqlite_upsert_seeded_key, query_with.
  intros [(e & Hs & _)|(ex & d1 & Hs & Hk)]%db_bind_inv; [by apply statement_Err in Hs as ->|].
  apply statement_Ok in Hs as [= <- <-]. simpl in Hk. case_match.
  { by injection Hk as <- <-. }
  apply db_bind_inv in Hk as [(e & [=] & _)|(t & d2 & [= <- <-] & Hk)].
  apply db_bind_inv in Hk as [(e & Hs & _)|([] & d2 & Hs & Hk)];
    [by apply statement_Err in Hs as ->|].
  apply statement_Ok, upsert_key_Ok in Hs as ->.
  apply db_bind_inv in Hk as [(e & Hs & _)|(rec & d2 & Hs & Hk)];
    [by apply statement_Err in Hs as ->|].
  apply statement_Ok in Hs. unfold fetch_one in Hs.
  destruct (_ !! _) in Hs; [|done]. injection Hs as _ <-. by injection Hk as _ <-.
Qed.

(** The upsert of a key of a project that is not there fails. *)
Lemma upsert_unknown k d :
  t_projects d !! nk_project_id k = None → ∃ e d', sqlite_upsert_seeded_key k d = (Err e, d').
Proof.
  intros Hp. destruct (sqlite_upsert_seeded_key k d) as [[row|e] d'] eqn:Hu; [|by eauto].
  exfalso. apply db_bind_Ok in Hu as (ex & d1 & Hs & Hk).
  apply statement_Ok in Hs as [= <- <-]. case_match; [done|].
  apply db_bind_Ok in Hk as (t & d2 & [= <- <-] & Hk).
  apply db_bind_Ok in Hk as ([] & d2 & Hs & _). apply statement_Ok in Hs.
  unfold upsert_key, references_project in Hs. simpl in Hs. by rewrite Hp in Hs.
Qed.
End Projects.

Section Seed.
Context `{HashOrder} `{SerdeJson} `{SqlEngine} `{Crypto}.
Context (env : string → option string) (master : bytes) (default_project_id : string).

Lemma upsert_all_unknown rs r d :
  r ∈ rs → t_projects d !! key_project default_project_id (rk_key r) = None →
  ∃ e d', upsert_all (M:=SqlDb) master default_project_id rs d = (Err e, d').
Proof.
  revert d. induction rs as [|s rs IH]; intros d Hr Hp; [by inversion Hr|]. simpl.
  destruct (sqlite_upsert_seeded_key _ d) as [[row|e] d1] eqn:Hu; [|by eauto].
  apply elem_of_cons in Hr as [<-|Hr].
  - destruct (upsert_unknown (seeded_key master default_project_id r) d Hp) as (e & d2 & Hu').
    rewrite Hu in Hu'. discriminate Hu'.
  - apply IH; [done|]. by rewrite (upsert_keeps_projects _ _ _ _ Hu).
Qed.

Lemma seed_unknown keys k d :
  k ∈ keys → t_projects d !! key_project default_project_id k = None →
  ∃ e d', seed_apply (M:=SqlDb) env master default_project_id keys d = (Err e, d').
Proof.
  intros Hk Hp. unfold seed_apply.
  destruct (prepare _ _ _ _ _) as [[by_project rs]|e] eqn:Hprep; [|by eauto].
  apply (prepare_spec env default_project_id keys []) in Hprep as (_ & new & -> & Hnew);
    [|done].
  apply list_elem_of_lookup in Hk as [i Hi].
  destruct (Forall2_lookup_l _ _ _ _ _ Hnew Hi) as (r & Hr & Hres).
  apply resolve_key_Ok in Hres as (Hrk & _).
  destruct (upsert_all_unknown ([] ++ new) r d) as (e & d' & Hu).
  - apply list_elem_of_lookup. by exists i.
  - by rewrite Hrk.
  - rewrite Hu. eauto.
Qed.
End Seed.

(** * A database that only seeding has written to *)

Section Fresh.
Context `{HashOrder} `{SerdeLaws} `{SqlEngine} `{Crypto}.
Context (env : string → option string) (master : bytes) (default_project_id : string).

(** The engine does not fail, the default project is there, every key row is a
    config one that can be read. *)
Record seedable (d : SqlDb) : Prop := {
  seedable_reliable n : db_faults d n = None;
  seedable_project : is_Some (t_projects d !! default_project_id);
  seedable_rows i r : t_keys d !! i = Some r →
    kc_origin r = KEY_ORIGIN_CONFIG ∧ is_Some (text_strings (kc_scopes r))
}.

Lemma statement_reliable {A} (f : SqlDb → result (A * SqlDb) DbError) d a d' :
  db_faults d 0%nat = None → f (next_faults d) = Ok (a, d') → statement f d = (Ok a, d').
Proof. intros Hf Hs. unfold statement, db_bind, execute. by rewrite Hf, Hs. Qed.

Lemma upsert_reliable k d :
  seedable d → nk_project_id k = default_project_id →
  ∃ row d', sqlite_upsert_seeded_key k d = (Ok row, d') ∧ seedable d'.
Proof.
  intros [Hrel Hproj Hrows] Hk. unfold sqlite_upsert_seeded_key, query_with, db_bind.
  erewrite statement_reliable; [|apply Hrel|done].
  assert (Ho : match kc_origin <$> t_keys (next_faults d) !! nk_id k with
               | Some origin => negb (String.eqb origin KEY_ORIGIN_CONFIG)
               | None => false end = false).
  { simpl. destruct (t_keys d !! nk_id k) as [r|] eqn:Hr; [|done]. simpl.
    destruct (Hrows _ _ Hr) as [-> _]. by rewrite String.eqb_refl. }
  rewrite Ho. unfold db_clock. simpl.
  erewrite statement_reliable; [|apply Hrel|].
  2: { unfold upsert_key, references_project. simpl. rewrite Hk.
       destruct Hproj as [p ->]. done. }
  erewrite statement_reliable; [|apply Hrel|].
  2: { unfold fetch_one. simpl. by rewrite insert_or_same. }
  set (t := now _). set (new := new_key_record k _ _ t).
  set (rec := match t_keys d !! nk_id k with Some _ => _ | None => _ end).
  assert (Hrec : text_strings (kc_scopes rec) = Some (nk_scopes k)
                 ∧ kc_origin rec = KEY_ORIGIN_CONFIG).
  { unfold rec. destruct (t_keys d !! nk_id k) as [r|] eqn:Hr; simpl;
      (split; [apply strings_roundtrip|]); [|done]. by apply (Hrows _ _ Hr). }
  unfold row_to_gateway_key, parsed. rewrite (proj1 Hrec). eexists _, _. split; [done|].
  constructor; simpl; [intros n; apply Hrel|done|].
  intros i r. rewrite insert_or_insert, lookup_insert_Some. intros [[<- <-]|[_ Hr]].
  - destruct Hrec as [Hsc Hor]. split; [exact Hor|]. by exists (nk_scopes k).
  - by apply (Hrows i).
Qed.

Lemma prune_reliable p keep d :
  seedable d → ∃ n d', sqlite_prune_seeded_keys_not_in p keep d = (Ok n, d') ∧ seedable d'.
Proof.
  intros [Hrel Hproj Hrows]. unfold sqlite_prune_seeded_keys_not_in.
  erewrite statement_reliable; [|apply Hrel|done]. eexists _, _. split; [done|].
  constructor; simpl; [intros n; apply Hrel|done|].
  intros i r. rewrite map_lookup_filter_Some. intros [Hr _]. by apply (Hrows i).
Qed.

Lemma upsert_all_reliable rs d :
  seedable d →
  Forall (λ r, key_project default_project_id (rk_key r) = default_project_id) rs →
  ∃ d', upsert_all (M:=SqlDb) master default_project_id rs d = (Ok (), d') ∧ seedable d'.
Proof.
  intros Hd Hrs. revert d Hd. induction Hrs as [|r rs Hr _ IH]; intros d Hd; [by exists d|].
  destruct (upsert_reliable (seeded_key master default_project_id r) d Hd Hr)
    as (row & d1 & Hu & Hd1). simpl. rewrite Hu. by apply IH.
Qed.

Lemma prune_all_reliable l d :
  seedable d → ∃ d', prune_all (M:=SqlDb) l d = (Ok (), d') ∧ seedable d'.
Proof.
  revert d. induction l as [|[p ids] l IH]; intros d Hd; [by exists d|].
  destruct (prune_reliable p ids d Hd) as (n & d1 & Hp & Hd1). simpl. rewrite Hp.
  by apply IH.
Qed.

Lemma prepare_resolved keys by_project rs :
  Forall (λ k, ∃ r, resolve_key env k = Ok r) keys →
  ∃ out, prepare env default_project_id keys by_project rs = Ok out.
Proof.
  intros Hk. revert by_project rs.
  induction Hk as [|k keys [r Hr] _ IH]; intros by_project rs; [by eexists|].
  simpl. rewrite Hr. apply IH.
Qed.

Lemma seed_reliable keys d :
  seedable d → Forall (λ k, ∃ r, resolve_key env k = Ok r) keys →
  Forall (λ k, key_project default_project_id k = default_project_id) keys →
  ∃ d', seed_apply (M:=SqlDb) env master default_project_id keys d = (Ok (), d').
Proof.
  intros Hd Hres Hall. unfold seed_apply.
  destruct (prepare_resolved keys ∅ [] Hres) as [[by_project rs] Hprep]. rewrite Hprep.
  apply (prepare_spec env default_project_id keys []) in Hprep as (_ & new & -> & Hnew);
    [|done].
  destruct (upsert_all_reliable ([] ++ new) d Hd) as (d1 & Hu & Hd1).
  { apply Forall_lookup. intros i r Hr.
    destruct (Forall2_lookup_r _ _ _ _ _ Hnew Hr) as (k & Hk & Hrk).
    apply resolve_key_Ok in Hrk as (-> & _). exact (Forall_lookup_1 _ _ _ _ Hall Hk). }
  rewrite Hu. destruct (prune_all_reliable (hash_iter by_project) d1 Hd1) as (d2 & Hp & Hd2).
  rewrite Hp. unfold prune_default. destruct (existsb _ keys); [by eexists|].
  destruct (prune_reliable default_project_id [] d2 Hd2) as (n & d3 & Hp3 & _).
  simpl. rewrite Hp3. by eexists.
Qed.

Lemma seed_default_new f clk d :
  seed_default_project (M:=SqlDb) default_project_id (db_new f clk) = (Ok (), d) →
  ∀ p, p ≠ default_project_id → t_projects d !! p = None.
Proof.
  unfold seed_default_project. intros Hd p Hne.
  destruct (get_project (db_new f clk) default_project_id) as [[q|]|e] eqn:Hg;
    [by injection Hd as <-| |done].
  destruct (create_project _ _) as [[q|e] d1] eqn:Hc; [|done]. injection Hd as <-.
  apply db_bind_Ok in Hc as (t & d2 & [= <- <-] & Hc).
  apply db_bind_Ok in Hc as ([] & d2 & Hs & [= _ <-]). apply statement_Ok in Hs.
  unfold insert_project, insert_new in Hs. simpl in Hs. rewrite lookup_empty in Hs.
  injection Hs as <-. simpl. by rewrite lookup_insert_ne, lookup_empty.
Qed.
End Fresh.


Section Example.
#[local] Existing Instance tree_order.
#[local] Existing Instance codec.
#[local] Existing Instance codec_laws.
#[local] Existing Instance toy_crypto.
#[local] Instance quiet_engine : SqlEngine := {| db_error_text _ := "constraint" |}.

(** The same secret, declared for a project of its own. *)
Definition foreign_key : GatewayKeyConfig :=
  {| gk_id := "cfg-team"; gk_name := "n"; gk_project_id := Some "team"%string;
     gk_secret := "env://KEY"; gk_scopes := [] |}.

Definition start (keys : list GatewayKeyConfig) : result unit string * SqlDb :=
  seed_stores sample_env [] "default" keys (db_new reliable (λ _, 7)).

End Example.
