(* ===== verification/Logging.v ===== *)
(** The log record of a request: gateway-api/src/logging.rs.

    [LogBuilder] wraps one [RequestLogRecord]; its setters are functions on the
    record.  [submit] hands it to the log store and drops the store's error. *)
From Stdlib Require Import ZArith Lia String SpecFloat.
From stdpp Require Import prelude strings list.
From S2P Require Import Prelude Text F64 Json Errors Models Stores.
Open Scope Z_scope.

(** [LogBuilder::new] at [request_ts] (unix milliseconds). *)
Definition log_builder_new (id project_id : string) (namespace endpoint : option string)
    (request_ts : Timestamp) : RequestLogRecord :=
  {| Models.id := id; Models.project_id := project_id; gateway_key_id := None;
     Models.namespace := namespace; model := None; Models.endpoint := endpoint;
     Models.request_ts := request_ts; duration_ms := None; upstream_ms := None;
     ttfb_ms := None; status := "success"; http_status := None; cached := false;
     retry_count := 0; fallback_used := None; prompt_tokens := None;
     completion_tokens := None; cached_tokens := None; total_tokens := None;
     cost_usd := None; would_have_cost_usd := None; metadata := None;
     client_ip := None; user_agent := None; error_message := None;
     request_body := None; response_body := None |}.

Definition set_id (v : string) (r : RequestLogRecord) : RequestLogRecord :=
  {| id := v; project_id := project_id r; gateway_key_id := gateway_key_id r;
     namespace := namespace r; model := model r; endpoint := endpoint r;
     request_ts := request_ts r; duration_ms := duration_ms r;
     upstream_ms := upstream_ms r; ttfb_ms := ttfb_ms r; status := status r;
     http_status := http_status r; cached := cached r; retry_count := retry_count r;
     fallback_used := fallback_used r; prompt_tokens := prompt_tokens r;
     completion_tokens := completion_tokens r; cached_tokens := cached_tokens r;
     total_tokens := total_tokens r; cost_usd := cost_usd r;
     would_have_cost_usd := would_have_cost_usd r; metadata := metadata r;
     client_ip := client_ip r; user_agent := user_agent r;
     error_message := error_message r; request_body := request_body r;
     response_body := response_body r |}.

Definition set_model (v : option string) (r : RequestLogRecord) : RequestLogRecord :=
  {| id := id r; project_id := project_id r; gateway_key_id := gateway_key_id r;
     namespace := namespace r; model := v; endpoint := endpoint r;
     request_ts := request_ts r; duration_ms := duration_ms r;
     upstream_ms := upstream_ms r; ttfb_ms := ttfb_ms r; status := status r;
     http_status := http_status r; cached := cached r; retry_count := retry_count r;
     fallback_used := fallback_used r; prompt_tokens := prompt_tokens r;
     completion_tokens := completion_tokens r; cached_tokens := cached_tokens r;
     total_tokens := total_tokens r; cost_usd := cost_usd r;
     would_have_cost_usd := would_have_cost_usd r; metadata := metadata r;
     client_ip := client_ip r; user_agent := user_agent r;
     error_message := error_message r; request_body := request_body r;
     response_body := response_body r |}.

Definition set_gateway_key (v : option string)
    (r : RequestLogRecord) : RequestLogRecord :=
  {| id := id r; project_id := project_id r; gateway_key_id := v;
     namespace := namespace r; model := model r; endpoint := endpoint r;
     request_ts := request_ts r; duration_ms := duration_ms r;
     upstream_ms := upstream_ms r; ttfb_ms := ttfb_ms r; status := status r;
     http_status := http_status r; cached := cached r; retry_count := retry_count r;
     fallback_used := fallback_used r; prompt_tokens := prompt_tokens r;
     completion_tokens := completion_tokens r; cached_tokens := cached_tokens r;
     total_tokens := total_tokens r; cost_usd := cost_usd r;
     would_have_cost_usd := would_have_cost_usd r; metadata := metadata r;
     client_ip := client_ip r; user_agent := user_agent r;
     error_message := error_message r; request_body := request_body r;
     response_body := response_body r |}.

Definition set_status (s : string) (http : option Z)
    (r : RequestLogRecord) : RequestLogRecord :=
  {| id := id r; project_id := project_id r; gateway_key_id := gateway_key_id r;
     namespace := namespace r; model := model r; endpoint := endpoint r;
     request_ts := request_ts r; duration_ms := duration_ms r;
     upstream_ms := upstream_ms r; ttfb_ms := ttfb_ms r; status := s;
     http_status := http; cached := cached r; retry_count := retry_count r;
     fallback_used := fallback_used r; prompt_tokens := prompt_tokens r;
     completion_tokens := completion_tokens r; cached_tokens := cached_tokens r;
     total_tokens := total_tokens r; cost_usd := cost_usd r;
     would_have_cost_usd := would_have_cost_usd r; metadata := metadata r;
     client_ip := client_ip r; user_agent := user_agent r;
     error_message := error_message r; request_body := request_body r;
     response_body := response_body r |}.

Definition set_timing (duration upstream ttfb : Z)
    (r : RequestLogRecord) : RequestLogRecord :=
  {| id := id r; project_id := project_id r; gateway_key_id := gateway_key_id r;
     namespace := namespace r; model := model r; endpoint := endpoint r;
     request_ts := request_ts r; duration_ms := Some duration;
     upstream_ms := Some upstream; ttfb_ms := Some ttfb; status := status r;
     http_status := http_status r; cached := cached r; retry_count := retry_count r;
     fallback_used := fallback_used r; prompt_tokens := prompt_tokens r;
     completion_tokens := completion_tokens r; cached_tokens := cached_tokens r;
     total_tokens := total_tokens r; cost_usd := cost_usd r;
     would_have_cost_usd := would_have_cost_usd r; metadata := metadata r;
     client_ip := client_ip r; user_agent := user_agent r;
     error_message := error_message r; request_body := request_body r;
     response_body := response_body r |}.

Definition set_client (ip agent : option string)
    (r : RequestLogRecord) : RequestLogRecord :=
  {| id := id r; project_id := project_id r; gateway_key_id := gateway_key_id r;
     namespace := namespace r; model := model r; endpoint := endpoint r;
     request_ts := request_ts r; duration_ms := duration_ms r;
     upstream_ms := upstream_ms r; ttfb_ms := ttfb_ms r; status := status r;
     http_status := http_status r; cached := cached r; retry_count := retry_count r;
     fallback_used := fallback_used r; prompt_tokens := prompt_tokens r;
     completion_tokens := completion_tokens r; cached_tokens := cached_tokens r;
     total_tokens := total_tokens r; cost_usd := cost_usd r;
     would_have_cost_usd := would_have_cost_usd r; metadata := metadata r;
     client_ip := ip; user_agent := agent; error_message := error_message r;
     request_body := request_body r; response_body := response_body r |}.

Definition set_request_body (v : option string)
    (r : RequestLogRecord) : RequestLogRecord :=
  {| id := id r; project_id := project_id r; gateway_key_id := gateway_key_id r;
     namespace := namespace r; model := model r; endpoint := endpoint r;
     request_ts := request_ts r; duration_ms := duration_ms r;
     upstream_ms := upstream_ms r; ttfb_ms := ttfb_ms r; status := status r;
     http_status := http_status r; cached := cached r; retry_count := retry_count r;
     fallback_used := fallback_used r; prompt_tokens := prompt_tokens r;
     completion_tokens := completion_tokens r; cached_tokens := cached_tokens r;
     total_tokens := total_tokens r; cost_usd := cost_usd r;
     would_have_cost_usd := would_have_cost_usd r; metadata := metadata r;
     client_ip := client_ip r; user_agent := user_agent r;
     error_message := error_message r; request_body := v;
     response_body := response_body r |}.

Definition set_response_body (v : option string)
    (r : RequestLogRecord) : RequestLogRecord :=
  {| id := id r; project_id := project_id r; gateway_key_id := gateway_key_id r;
     namespace := namespace r; model := model r; endpoint := endpoint r;
     request_ts := request_ts r; duration_ms := duration_ms r;
     upstream_ms := upstream_ms r; ttfb_ms := ttfb_ms r; status := status r;
     http_status := http_status r; cached := cached r; retry_count := retry_count r;
     fallback_used := fallback_used r; prompt_tokens := prompt_tokens r;
     completion_tokens := completion_tokens r; cached_tokens := cached_tokens r;
     total_tokens := total_tokens r; cost_usd := cost_usd r;
     would_have_cost_usd := would_have_cost_usd r; metadata := metadata r;
     client_ip := client_ip r; user_agent := user_agent r;
     error_message := error_message r; request_body := request_body r;
     response_body := v |}.

Definition set_error (msg : string) (r : RequestLogRecord) : RequestLogRecord :=
  {| id := id r; project_id := project_id r; gateway_key_id := gateway_key_id r;
     namespace := namespace r; model := model r; endpoint := endpoint r;
     request_ts := request_ts r; duration_ms := duration_ms r;
     upstream_ms := upstream_ms r; ttfb_ms := ttfb_ms r; status := status r;
     http_status := http_status r; cached := cached r; retry_count := retry_count r;
     fallback_used := fallback_used r; prompt_tokens := prompt_tokens r;
     completion_tokens := completion_tokens r; cached_tokens := cached_tokens r;
     total_tokens := total_tokens r; cost_usd := cost_usd r;
     would_have_cost_usd := would_have_cost_usd r; metadata := metadata r;
     client_ip := client_ip r; user_agent := user_agent r; error_message := Some msg;
     request_body := request_body r; response_body := response_body r |}.

Definition set_cached (v : bool) (r : RequestLogRecord) : RequestLogRecord :=
  {| id := id r; project_id := project_id r; gateway_key_id := gateway_key_id r;
     namespace := namespace r; model := model r; endpoint := endpoint r;
     request_ts := request_ts r; duration_ms := duration_ms r;
     upstream_ms := upstream_ms r; ttfb_ms := ttfb_ms r; status := status r;
     http_status := http_status r; cached := v; retry_count := retry_count r;
     fallback_used := fallback_used r; prompt_tokens := prompt_tokens r;
     completion_tokens := completion_tokens r; cached_tokens := cached_tokens r;
     total_tokens := total_tokens r; cost_usd := cost_usd r;
     would_have_cost_usd := would_have_cost_usd r; metadata := metadata r;
     client_ip := client_ip r; user_agent := user_agent r;
     error_message := error_message r; request_body := request_body r;
     response_body := response_body r |}.

Definition set_retry (v : Z) (r : RequestLogRecord) : RequestLogRecord :=
  {| id := id r; project_id := project_id r; gateway_key_id := gateway_key_id r;
     namespace := namespace r; model := model r; endpoint := endpoint r;
     request_ts := request_ts r; duration_ms := duration_ms r;
     upstream_ms := upstream_ms r; ttfb_ms := ttfb_ms r; status := status r;
     http_status := http_status r; cached := cached r; retry_count := v;
     fallback_used := fallback_used r; prompt_tokens := prompt_tokens r;
     completion_tokens := completion_tokens r; cached_tokens := cached_tokens r;
     total_tokens := total_tokens r; cost_usd := cost_usd r;
     would_have_cost_usd := would_have_cost_usd r; metadata := metadata r;
     client_ip := client_ip r; user_agent := user_agent r;
     error_message := error_message r; request_body := request_body r;
     response_body := response_body r |}.

Definition set_fallback (v : option string) (r : RequestLogRecord) : RequestLogRecord :=
  {| id := id r; project_id := project_id r; gateway_key_id := gateway_key_id r;
     namespace := namespace r; model := model r; endpoint := endpoint r;
     request_ts := request_ts r; duration_ms := duration_ms r;
     upstream_ms := upstream_ms r; ttfb_ms := ttfb_ms r; status := status r;
     http_status := http_status r; cached := cached r; retry_count := retry_count r;
     fallback_used := v; prompt_tokens := prompt_tokens r;
     completion_tokens := completion_tokens r; cached_tokens := cached_tokens r;
     total_tokens := total_tokens r; cost_usd := cost_usd r;
     would_have_cost_usd := would_have_cost_usd r; metadata := metadata r;
     client_ip := client_ip r; user_agent := user_agent r;
     error_message := error_message r; request_body := request_body r;
     response_body := response_body r |}.

Definition set_token_usage (prompt completion cached_ total : option Z)
    (r : RequestLogRecord) : RequestLogRecord :=
  {| id := id r; project_id := project_id r; gateway_key_id := gateway_key_id r;
     namespace := namespace r; model := model r; endpoint := endpoint r;
     request_ts := request_ts r; duration_ms := duration_ms r;
     upstream_ms := upstream_ms r; ttfb_ms := ttfb_ms r; status := status r;
     http_status := http_status r; cached := cached r; retry_count := retry_count r;
     fallback_used := fallback_used r; prompt_tokens := prompt;
     completion_tokens := completion; cached_tokens := cached_; total_tokens := total;
     cost_usd := cost_usd r; would_have_cost_usd := would_have_cost_usd r;
     metadata := metadata r; client_ip := client_ip r; user_agent := user_agent r;
     error_message := error_message r; request_body := request_body r;
     response_body := response_body r |}.

Definition set_cost (cost would_have : option f64)
    (r : RequestLogRecord) : RequestLogRecord :=
  {| id := id r; project_id := project_id r; gateway_key_id := gateway_key_id r;
     namespace := namespace r; model := model r; endpoint := endpoint r;
     request_ts := request_ts r; duration_ms := duration_ms r;
     upstream_ms := upstream_ms r; ttfb_ms := ttfb_ms r; status := status r;
     http_status := http_status r; cached := cached r; retry_count := retry_count r;
     fallback_used := fallback_used r; prompt_tokens := prompt_tokens r;
     completion_tokens := completion_tokens r; cached_tokens := cached_tokens r;
     total_tokens := total_tokens r; cost_usd := cost;
     would_have_cost_usd := would_have; metadata := metadata r;
     client_ip := client_ip r; user_agent := user_agent r;
     error_message := error_message r; request_body := request_body r;
     response_body := response_body r |}.

(** [get_or_insert_with(json!({}))], then insert into the object or replace a
    value that is none. *)
Definition merged_metadata (m : option Value) (key : string) (value : Value) : Value :=
  match default (VObject []) m with
  | VObject map => VObject (map_insert map key value)
  | _ => VObject [(key, value)]
  end.
Definition merge_metadata (key : string) (value : Value)
    (r : RequestLogRecord) : RequestLogRecord :=
  {| id := id r; project_id := project_id r; gateway_key_id := gateway_key_id r;
     namespace := namespace r; model := model r; endpoint := endpoint r;
     request_ts := request_ts r; duration_ms := duration_ms r;
     upstream_ms := upstream_ms r; ttfb_ms := ttfb_ms r; status := status r;
     http_status := http_status r; cached := cached r; retry_count := retry_count r;
     fallback_used := fallback_used r; prompt_tokens := prompt_tokens r;
     completion_tokens := completion_tokens r; cached_tokens := cached_tokens r;
     total_tokens := total_tokens r; cost_usd := cost_usd r;
     would_have_cost_usd := would_have_cost_usd r;
     metadata := Some (merged_metadata (metadata r) key value);
     client_ip := client_ip r; user_agent := user_agent r;
     error_message := error_message r; request_body := request_body r;
     response_body := response_body r |}.

Section Submit.
Context `{LogStore L}.

Definition submit (r : RequestLogRecord) : prog L unit :=
  let! _ := append r in prog_ret ().
End Submit.
