(* ===== verification/Streaming.v ===== *)
(** The gateway's shared state and the task that pumps an upstream response to
    the client: the [tokio::spawn] block of gateway-api/src/routes/proxy.rs.

    The task is a value ([StreamTask], what the closure captures) that runs
    against any later state of the gateway.  The client's end of the channel is
    an oracle: whether the n-th send still finds the receiver. *)
From Stdlib Require Import ZArith Lia Bool Ascii String SpecFloat.
From stdpp Require Import prelude gmap strings list.
From S2P Require Import Prelude Text F64 Json Errors Models Config Stores HttpTypes.
From S2P Require Import Engine Cache Tokens Pricing LogBody RateLimit Budget Logging.
Open Scope Z_scope.

(** [const MAX_CACHEABLE_BODY_BYTES: usize = 20 * 1024 * 1024] *)
Definition MAX_CACHEABLE_BODY_BYTES : Z := 20 * 1024 * 1024.

(** The mutable part of [AppState]: the configuration (an [ArcSwap]), the budget
    manager with the counter store and the wall clock, the log and cache
    stores, the pricing catalog, the network with the monotonic clock, the
    random generator, and every record handed to the log store so far. *)
Record Gateway (C L K U : Type) : Type := {
  gw_config : AppConfig;
  gw_budgets : BudgetManager C;
  gw_logs : L;
  gw_kv : K;
  gw_pricing : PricingCatalog;
  gw_net : Net (U:=U);
  gw_rng : nat → f64;
  gw_submitted : list RequestLogRecord
}.
Arguments gw_config {C L K U} _.
Arguments gw_budgets {C L K U} _.
Arguments gw_logs {C L K U} _.
Arguments gw_kv {C L K U} _.
Arguments gw_pricing {C L K U} _.
Arguments gw_net {C L K U} _.
Arguments gw_rng {C L K U} _.
Arguments gw_submitted {C L K U} _.

Section State.
Context {C L K U : Type}.
Abbreviation G := (Gateway C L K U).

Definition put_budgets (g : G) (m : BudgetManager C) : G :=
  {| gw_config := gw_config g; gw_budgets := m; gw_logs := gw_logs g;
     gw_kv := gw_kv g; gw_pricing := gw_pricing g; gw_net := gw_net g;
     gw_rng := gw_rng g; gw_submitted := gw_submitted g |}.
Definition put_logs (g : G) (l : L) : G :=
  {| gw_config := gw_config g; gw_budgets := gw_budgets g; gw_logs := l;
     gw_kv := gw_kv g; gw_pricing := gw_pricing g; gw_net := gw_net g;
     gw_rng := gw_rng g; gw_submitted := gw_submitted g |}.
Definition put_kv (g : G) (k : K) : G :=
  {| gw_config := gw_config g; gw_budgets := gw_budgets g; gw_logs := gw_logs g;
     gw_kv := k; gw_pricing := gw_pricing g; gw_net := gw_net g;
     gw_rng := gw_rng g; gw_submitted := gw_submitted g |}.
Definition put_net (g : G) (n : Net (U:=U)) (rng : nat → f64) : G :=
  {| gw_config := gw_config g; gw_budgets := gw_budgets g; gw_logs := gw_logs g;
     gw_kv := gw_kv g; gw_pricing := gw_pricing g; gw_net := n; gw_rng := rng;
     gw_submitted := gw_submitted g |}.
Definition note_submitted (g : G) (r : RequestLogRecord) : G :=
  {| gw_config := gw_config g; gw_budgets := gw_budgets g; gw_logs := gw_logs g;
     gw_kv := gw_kv g; gw_pricing := gw_pricing g; gw_net := gw_net g;
     gw_rng := gw_rng g; gw_submitted := gw_submitted g ++ [r] |}.

(** [state.config.load()], [state.pricing.load()]. *)
Definition load {A} (f : G → A) : prog G A := returning (λ g, (f g, g)).

(** [Instant::now()] and [started.elapsed().as_millis() as i64]. *)
Definition instant_now : prog G Z :=
  returning (λ g, let '(t, n) := read_instant (gw_net g) in (t, put_net g n (gw_rng g))).
Definition elapsed_since (started : Z) : prog G Z :=
  let! t := instant_now in prog_ret (as_i64 (Z.max 0 (t - started))).

(** [Utc::now().timestamp_millis()] *)
Definition wall_ms : prog G Z := within gw_budgets put_budgets utc_now.

(** An operation on the shared counter store. *)
Definition on_counter {A} (f : C → A * C) : prog G A :=
  returning (λ g,
    let '(a, c) := f (counter (gw_budgets g)) in
    (a, put_budgets g (set_counter (gw_budgets g) c))).

Definition submit_log `{LogStore L} (r : RequestLogRecord) : prog G unit :=
  let! _ := within gw_logs put_logs (submit r) in
  returning (λ g, ((), note_submitted g r)).
End State.

(** * The pump *)

(** The items of a body stream, to its end or first error. *)
Abbreviation stream := (list (result bytes string)).

(** The local variables of the task: what is captured for the log, the chunks
    kept for the cache, and what the channel has accepted. *)
Record Pump : Type := {
  captured : bytes * bool;
  cache_chunks : list CachedChunk;
  cache_total : Z;
  cache_oversize : bool;
  send_err : bool;
  sent : stream
}.

Definition pump_start : Pump :=
  {| captured := ([], false); cache_chunks := []; cache_total := 0;
     cache_oversize := false; send_err := false; sent := [] |}.

(** The cache accumulation of one chunk: chunks, total, oversize. *)
Definition keep_chunk (cache_should_write : bool) (chunk : bytes) (p : Pump) :
    list CachedChunk * Z * bool :=
  if cache_should_write && negb (cache_oversize p) then
    let total := sat_add u64_max (cache_total p) (blen chunk) in
    if MAX_CACHEABLE_BODY_BYTES <? total then ([], total, true)
    else (cache_chunks p ++ [{| data := chunk |}], total, cache_oversize p)
  else (cache_chunks p, cache_total p, cache_oversize p).

(** [tx.send(item).await], unless an earlier send failed. *)
Definition offer (accepts : nat → bool) (item : result bytes string) (p : Pump) :
    bool * stream :=
  if send_err p then (true, sent p)
  else if accepts (length (sent p)) then (false, sent p ++ [item])
  else (true, sent p).

Definition on_chunk (accepts : nat → bool) (cache_should_write : bool)
    (chunk : bytes) (p : Pump) : Pump :=
  let '(kept, total, oversize) := keep_chunk cache_should_write chunk p in
  let '(failed, out) := offer accepts (Ok chunk) p in
  {| captured := capture_chunk (captured p) chunk; cache_chunks := kept;
     cache_total := total; cache_oversize := oversize; send_err := failed;
     sent := out |}.

Definition on_error (accepts : nat → bool) (e : string) (p : Pump) : Pump :=
  {| captured := captured p; cache_chunks := cache_chunks p;
     cache_total := cache_total p; cache_oversize := cache_oversize p;
     send_err := send_err p; sent := (offer accepts (Err e) p).2 |}.

(** The [while let] loop: the local variables at its end, and whether it ended
    with the stream ([true]) or on an error of the upstream. *)
Fixpoint pump (accepts : nat → bool) (cache_should_write : bool) (items : stream)
    (p : Pump) : Pump * bool :=
  match items with
  | [] => (p, true)
  | Ok chunk :: rest =>
      pump accepts cache_should_write rest (on_chunk accepts cache_should_write chunk p)
  | Err e :: _ => (on_error accepts e p, false)
  end.

(** * The task *)

Section Task.
Context `{HttpTypes} `{SerdeJson} `{Codecs} `{CounterStore C} `{LogStore L}
  `{KvStore K} `{Chrono} {U : Type}.
Abbreviation M := (prog (Gateway C L K U)).

(** What the closure captures. *)
Record StreamTask : Type := {
  tk_items : stream;
  tk_log : RequestLogRecord;
  tk_started : Z;
  tk_permit : RatePermit;
  tk_status : Z;
  tk_headers : HeaderMap;
  tk_upstream_ms : Z;
  tk_ttfb_ms : Z;
  tk_provider : string;
  tk_project_id : string;
  tk_key_id : string;
  tk_should_write : bool;
  tk_cache_ttl : option Z;
  tk_cache_key : option string
}.

(** [StatusCode::is_success] *)
Definition is_success (status : Z) : bool := (200 <=? status) && (status <? 300).

(** [if let Some(rid) = extract_response_id(..) { log.set_id(rid) }] *)
Definition adopt_id (body : bytes) (r : RequestLogRecord) : RequestLogRecord :=
  match extract_response_id body with Some rid => set_id rid r | None => r end.

(** The log lines the two ends of the task share. *)
Definition response_log (t : StreamTask) (p : Pump) (class : string) (elapsed : Z) :
    RequestLogRecord :=
  let r := adopt_id (captured p).1 (tk_log t) in
  let r := set_status class (Some (tk_status t)) r in
  set_timing elapsed (tk_upstream_ms t) (tk_ttfb_ms t) r.
Definition captured_text (p : Pump) : option string :=
  captured_body_to_string (captured p).1 (captured p).2.

(** The [Err] arm: the permit is dropped, not reconciled. *)
Definition broken_off (t : StreamTask) (p : Pump) : M unit :=
  let! elapsed := elapsed_since (tk_started t) in
  let r := response_log t p "upstream_error" elapsed in
  let! _ := submit_log (set_response_body (captured_text p) r) in
  on_counter (λ c, ((), drop_permit (tk_permit t) c)).

(** The headers of a cached response: those whose value is text. *)
Definition header_texts (headers : HeaderMap) : list (string * string) :=
  omap (λ kv, v ← hv_to_str kv.2; Some (kv.1, v)) (hm_iter headers).

Definition cache_payload (t : StreamTask) (p : Pump) (now : Z) : CachedResponse :=
  {| cached_status := tk_status t; cached_headers := header_texts (tk_headers t);
     chunks := cache_chunks p; finished_at_ms := now;
     served_by := Some (tk_provider t) |}.

Definition write_back (t : StreamTask) (p : Pump) : M unit :=
  if tk_should_write t && negb (cache_oversize p) then
    let! now := wall_ms in
    match encode (cache_payload t p now), tk_cache_ttl t, tk_cache_key t with
    | Ok blob, Some ttl, Some key =>
        let! _ := within gw_kv put_kv (kv_put key blob ttl) in prog_ret ()
    | _, _, _ => prog_ret ()
    end
  else prog_ret ().

Definition pricing_usage (u : Tokens.TokenUsage) : Pricing.TokenUsage :=
  {| u_prompt := default 0 (usage_prompt u);
     u_completion := default 0 (usage_completion u);
     u_cached := default 0 (usage_cached u) |}.

(** Pricing and budgets: the cost to log. *)
Definition charge_request (t : StreamTask) (usage : Tokens.TokenUsage) : M (option f64) :=
  if is_success (tk_status t) then
    match model (tk_log t) with
    | Some model =>
        let! catalog := load gw_pricing in
        match compute_cost catalog (tk_provider t) model (pricing_usage usage) with
        | Some bd =>
            let! cfg := load gw_config in
            let! _ := within gw_budgets put_budgets
              (record_cost cfg (tk_project_id t) (tk_key_id t) (bd_cost_usd bd)) in
            prog_ret (Some (bd_cost_usd bd))
        | None => prog_ret None
        end
    | None => prog_ret None
    end
  else prog_ret None.

Definition final_log (t : StreamTask) (p : Pump) (usage : Tokens.TokenUsage)
    (cost : option f64) (elapsed : Z) : RequestLogRecord :=
  let class := if is_success (tk_status t) then "success" else "upstream_error" in
  let r := response_log t p class elapsed in
  let r := set_token_usage (usage_prompt usage) (usage_completion usage)
    (usage_cached usage) (total_tokens usage) r in
  let r := set_cost cost cost r in
  set_response_body (captured_text p) r.

(** After the stream has ended. *)
Definition finished (t : StreamTask) (p : Pump) : M unit :=
  let! _ := write_back t p in
  let usage := extract_token_usage (captured p).1 in
  let actual := default 0 (total_tokens usage) in
  let! _ := on_counter (λ c, ((), reconcile_tokens (tk_permit t) actual c)) in
  let! cost := charge_request t usage in
  let! elapsed := elapsed_since (tk_started t) in
  submit_log (final_log t p usage cost elapsed).

(** The whole task: what the client was sent. *)
Definition run_task (accepts : nat → bool) (t : StreamTask) : M stream :=
  let '(p, complete) := pump accepts (tk_should_write t) (tk_items t) pump_start in
  let! _ := (if (complete : bool) then finished t p else broken_off t p) in
  prog_ret (sent p).
End Task.

(** * The pump: facts *)

(** What an upstream stream delivers: its chunks up to its end or first error,
    the error, and the items as the client should see them. *)
Fixpoint chunks_of (items : stream) : list bytes :=
  match items with Ok c :: rest => c :: chunks_of rest | _ => [] end.
Fixpoint error_of (items : stream) : option string :=
  match items with
  | [] => None | Ok _ :: rest => error_of rest | Err e :: _ => Some e
  end.
Definition delivered (items : stream) : stream :=
  (Ok <$> chunks_of items) ++ match error_of items with Some e => [Err e] | None => [] end.

Lemma pump_complete accepts w items p :
  (pump accepts w items p).2 = bool_decide (error_of items = None).
Proof. revert p. induction items as [|[c|e] items IH]; intros p; simpl; auto. Qed.

Lemma pump_captured accepts w items p :
  captured (pump accepts w items p).1 = foldl capture_chunk (captured p) (chunks_of items).
Proof.
  revert p. induction items as [|[c|e] items IH]; intros p; simpl; [done| |done].
  rewrite IH. unfold on_chunk. destruct (keep_chunk w c p) as [[? ?] ?].
  by destruct (offer accepts (Ok c) p).
Qed.

(** The channel accepts a prefix of what arrives, all of it for a client that
    stays. *)
Lemma offer_sent accepts item p :
  (offer accepts item p).2 = sent p ∨
  (send_err p = false ∧ offer accepts item p = (false, sent p ++ [item])).
Proof.
  unfold offer. destruct (send_err p); [by left|].
  destruct (accepts _); [by right|by left].
Qed.

Lemma on_chunk_fields accepts w c p :
  send_err (on_chunk accepts w c p) = (offer accepts (Ok c) p).1 ∧
  sent (on_chunk accepts w c p) = (offer accepts (Ok c) p).2.
Proof.
  unfold on_chunk. destruct (keep_chunk w c p) as [[? ?] ?].
  by destruct (offer accepts (Ok c) p).
Qed.

Lemma delivered_cons c items : delivered (Ok c :: items) = Ok c :: delivered items.
Proof. done. Qed.

Lemma pump_gave_up accepts w items p :
  send_err p = true → sent (pump accepts w items p).1 = sent p.
Proof.
  revert p. induction items as [|[c|e] items IH]; intros p Hp; simpl; [done| |].
  - destruct (on_chunk_fields accepts w c p) as [He Hs].
    rewrite IH; [rewrite Hs|rewrite He]; unfold offer; by rewrite Hp.
  - unfold offer. by rewrite Hp.
Qed.

Lemma pump_prefix accepts w items p :
  sent (pump accepts w items p).1 `prefix_of` sent p ++ delivered items.
Proof.
  revert p. induction items as [|[c|e] items IH]; intros p; simpl.
  - unfold delivered. simpl. by rewrite app_nil_r.
  - rewrite delivered_cons. destruct (on_chunk_fields accepts w c p) as [He Hs].
    destruct (send_err (on_chunk accepts w c p)) eqn:Hf.
    + rewrite pump_gave_up by done. rewrite Hs.
      destruct (offer_sent accepts (Ok c) p) as [->|[_ Ho]].
      * by apply prefix_app_r.
      * rewrite Ho in He. done.
    + specialize (IH (on_chunk accepts w c p)). rewrite Hs in IH.
      destruct (offer_sent accepts (Ok c) p) as [Ho|[_ Ho]].
      * unfold offer in He, Ho. destruct (send_err p); [done|].
        destruct (accepts _); [|done]. simpl in Ho. exfalso.
        apply (f_equal length) in Ho. rewrite length_app in Ho. simpl in Ho. lia.
      * rewrite Ho in IH. simpl in IH. by rewrite <- app_assoc in IH.
  - unfold delivered. simpl. destruct (offer_sent accepts (Err e) p) as [->|[_ ->]]; simpl.
    + by apply prefix_app_r.
    + done.
Qed.

Lemma pump_all accepts w items p :
  (∀ n, accepts n = true) → send_err p = false →
  sent (pump accepts w items p).1 = sent p ++ delivered items.
Proof.
  intros Ha. revert p. induction items as [|[c|e] items IH]; intros p Hp; simpl.
  - unfold delivered. simpl. by rewrite app_nil_r.
  - destruct (on_chunk_fields accepts w c p) as [He Hs].
    unfold offer in He, Hs. rewrite Hp, Ha in He, Hs. simpl in He, Hs.
    rewrite IH by done. by rewrite Hs, delivered_cons, <- app_assoc.
  - unfold offer, delivered. by rewrite Hp, Ha.
Qed.

(** What is kept for the cache: everything, or nothing beyond the limit. *)
Definition kept_ok (cs : list bytes) (p : Pump) : Prop :=
  (cache_oversize p = false ∧ cache_chunks p = Build_CachedChunk <$> cs ∧
   cache_total p = blen (concat cs) ∧ blen (concat cs) ≤ MAX_CACHEABLE_BODY_BYTES) ∨
  (cache_oversize p = true ∧ MAX_CACHEABLE_BODY_BYTES < blen (concat cs)).

Lemma blen_app {A} (a b : list A) : blen (a ++ b) = blen a + blen b.
Proof. unfold blen. rewrite length_app. lia. Qed.

Lemma on_chunk_kept accepts cs c p :
  kept_ok cs p → kept_ok (cs ++ [c]) (on_chunk accepts true c p).
Proof.
  intros Hk. unfold kept_ok.
  assert (Hc : concat (cs ++ [c]) = concat cs ++ c).
  { rewrite concat_app. simpl. by rewrite app_nil_r. }
  rewrite Hc, blen_app. unfold on_chunk, keep_chunk.
  assert (Hmax : MAX_CACHEABLE_BODY_BYTES < u64_max) by done.
  destruct Hk as [(Ho & Hch & Ht & Hle)|(Ho & Hlt)]; rewrite Ho; simpl.
  - rewrite Ht. unfold sat_add.
    destruct (MAX_CACHEABLE_BODY_BYTES <? Z.min u64_max (blen (concat cs) + blen c)) eqn:Hm;
      destruct (offer accepts (Ok c) p) as [f o]; simpl.
    + right. split; [done|]. lia.
    + left. rewrite Hch, fmap_app. repeat split; lia.
  - destruct (offer accepts (Ok c) p) as [f o]. simpl. right. split; [done|].
    unfold blen in *. lia.
Qed.

Lemma pump_kept accepts items p cs :
  kept_ok cs p → kept_ok (cs ++ chunks_of items) (pump accepts true items p).1.
Proof.
  revert p cs. induction items as [|[c|e] items IH]; intros p cs Hp; simpl.
  - by rewrite app_nil_r.
  - specialize (IH _ _ (on_chunk_kept accepts cs c p Hp)). by rewrite <- app_assoc in IH.
  - by rewrite app_nil_r.
Qed.

(** The client has no influence on anything else. *)
Definition alike (p q : Pump) : Prop :=
  captured p = captured q ∧ cache_chunks p = cache_chunks q ∧
  cache_total p = cache_total q ∧ cache_oversize p = cache_oversize q.

Lemma on_chunk_alike a b w c p q :
  alike p q → alike (on_chunk a w c p) (on_chunk b w c q).
Proof.
  intros (H1 & H2 & H3 & H4). unfold on_chunk, keep_chunk. rewrite H1, H2, H3, H4.
  repeat case_match; by simplify_eq.
Qed.

Lemma pump_alike a b w items p q :
  alike p q → alike (pump a w items p).1 (pump b w items q).1.
Proof.
  revert p q. induction items as [|[c|e] items IH]; intros p q Hpq; simpl; [done| |done].
  by apply IH, on_chunk_alike.
Qed.

(** * The task: facts *)

Section TaskFacts.
Context `{HttpTypes} `{SerdeJson} `{Codecs} `{CounterStore C} `{LogStore L}
  `{KvStore K} `{Chrono} {U : Type}.
Abbreviation G := (Gateway C L K U).

Lemma task_alike (t : StreamTask) p q (g : G) :
  alike p q →
  finished t p g = finished t q g ∧ broken_off t p g = broken_off t q g.
Proof.
  destruct p, q. unfold alike. simpl. intros (-> & -> & -> & ->). done.
Qed.

Lemma run_task_Ret accepts (t : StreamTask) (g : G) out g' :
  run_task accepts t g = Ret (out, g') →
  let p := (pump accepts (tk_should_write t) (tk_items t) pump_start).1 in
  out = sent p ∧
  ((error_of (tk_items t) = None ∧ finished t p g = Ret ((), g')) ∨
   (is_Some (error_of (tk_items t)) ∧ broken_off t p g = Ret ((), g'))).
Proof.
  unfold run_task.
  pose proof (pump_complete accepts (tk_should_write t) (tk_items t) pump_start) as Hc.
  destruct (pump _ _ _ _) as [p complete]. simpl in Hc. subst complete.
  intros Hr. prog_inv. split; [done|]. destruct a.
  case_bool_decide as He; [by left|right]. split; [|done].
  destruct (error_of _); [by eexists|done].
Qed.
End TaskFacts.

(** Prove that a program leaves alone a part of the state. *)
Ltac frame :=
  repeat first
    [ apply moves_ret; apply _ | apply moves_lifted; apply _
    | apply moves_bind; try apply _; [|intros ?]
    | apply moves_returning; intros ?; unfold same, read_instant;
      solve [repeat case_match; simpl; eauto]
    | eapply (moves_within _ _ _ _ (λ _ _, True)); [done|intros; unfold same; solve [eauto]]
    | case_match ].

Section Frames.
Context `{HttpTypes} `{SerdeJson} `{Codecs} `{CounterStore C} `{LogStore L}
  `{KvStore K} `{Chrono} {U : Type}.
Abbreviation G := (Gateway C L K U).

Context {T : Type} (f : G → T).

(** Each primitive leaves alone what does not depend on the part it changes. *)
Lemma elapsed_since_same started :
  (∀ g n r, f (put_net g n r) = f g) → moves (same f) (elapsed_since started).
Proof. intros Hf. unfold elapsed_since, instant_now. frame. Qed.
Lemma on_counter_same {A} (op : C → A * C) :
  (∀ g m, f (put_budgets g m) = f g) → moves (same f) (on_counter op).
Proof.
  intros Hf. unfold on_counter. apply moves_returning. intros g. case_match. apply Hf.
Qed.
Lemma wall_ms_same :
  (∀ g m, f (put_budgets g m) = f g) → moves (same f) wall_ms.
Proof.
  intros Hf. unfold wall_ms. eapply (moves_within _ _ _ _ (λ _ _, True)); [done|].
  intros; apply Hf.
Qed.
Lemma submit_log_same r :
  (∀ g l, f (put_logs g l) = f g) → (∀ g r, f (note_submitted g r) = f g) →
  moves (same f) (submit_log r).
Proof.
  intros Hl Hn. unfold submit_log. apply moves_bind; try apply _; [|intros _].
  - eapply (moves_within _ _ _ _ (λ _ _, True)); [done|]. intros; apply Hl.
  - apply moves_returning. intros g. apply Hn.
Qed.
Lemma write_back_same (t : StreamTask) p :
  (∀ g m, f (put_budgets g m) = f g) → (∀ g k, f (put_kv g k) = f g) →
  moves (same f) (write_back t p).
Proof.
  intros Hb Hk. unfold write_back. case_match; [|frame].
  apply moves_bind; try apply _; [by apply wall_ms_same|]. intros now. frame.
Qed.
Lemma charge_request_same (t : StreamTask) usage :
  (∀ g m, f (put_budgets g m) = f g) → moves (same f) (charge_request t usage).
Proof. intros Hb. unfold charge_request, load. frame. Qed.
End Frames.

(** The wall clock is read through the budget manager; its counter store is not
    touched. *)
Section Counter.
Context `{HttpTypes} `{Codecs} `{CounterStore C} `{KvStore K} {L U : Type}.

Definition counter_of (g : Gateway C L K U) : C := counter (gw_budgets g).
(** The thresholds noted and announced. *)
Definition notices (m : BudgetManager C) :
    gset (string * Z * Z) * list ThresholdCrossed * list WebhookPost :=
  (notified m, crossed m, posts m).

Lemma wall_ms_part {T} (f : BudgetManager C → T) :
  moves (same f) utc_now → moves (same (λ g : Gateway C L K U, f (gw_budgets g))) wall_ms.
Proof. intros Hf. unfold wall_ms. eapply (moves_within _ _ _ _ (same f)); done. Qed.
Lemma write_back_part {T} (f : BudgetManager C → T) (t : StreamTask) p :
  moves (same f) utc_now →
  moves (same (λ g : Gateway C L K U, f (gw_budgets g))) (write_back t p).
Proof.
  intros Hf. unfold write_back. case_match; [|frame].
  apply moves_bind; try apply _; [by apply wall_ms_part|]. intros now. frame.
Qed.
Lemma write_back_counter (t : StreamTask) p : moves (same counter_of) (write_back t p).
Proof. apply (write_back_part counter). by apply moves_returning. Qed.
Lemma write_back_notices (t : StreamTask) p :
  moves (same (λ g : Gateway C L K U, notices (gw_budgets g))) (write_back t p).
Proof. apply write_back_part. by apply moves_returning. Qed.
End Counter.

Section TaskSpecs.
Context `{HttpTypes} `{SerdeJson} `{Codecs} `{CounterStore C} `{LogStore L}
  `{KvStore K} `{Chrono} {U : Type}.
Abbreviation G := (Gateway C L K U).

Lemma submit_log_Ret r (g : G) u g' :
  submit_log r g = Ret (u, g') → gw_submitted g' = gw_submitted g ++ [r].
Proof.
  unfold submit_log. intros Hr. prog_inv. apply within_Ret in Hrun as (l & _ & ->).
  apply returning_Ret in Hr. by injection Hr as _ <-.
Qed.

(** The cost of a request: that of its usage, when it succeeded and its model is
    priced. *)
Definition request_cost (catalog : PricingCatalog) (t : StreamTask)
    (usage : Tokens.TokenUsage) : option f64 :=
  if is_success (tk_status t) then
    model ← model (tk_log t);
    bd_cost_usd <$> compute_cost catalog (tk_provider t) model (pricing_usage usage)
  else None.

Lemma charge_request_Ret t usage (g : G) cost g' :
  charge_request t usage g = Ret (cost, g') →
  cost = request_cost (gw_pricing g) t usage ∧
  match cost with
  | Some c => record_cost (gw_config g) (tk_project_id t) (tk_key_id t) c (gw_budgets g) =
              Ret ((), gw_budgets g')
  | None => gw_budgets g' = gw_budgets g
  end.
Proof.
  unfold charge_request, request_cost. intros Hr.
  destruct (is_success _); [|by prog_inv]. destruct (model _) as [m|]; [|by prog_inv].
  prog_inv. apply returning_Ret in Hrun as [= <- <-]. simpl.
  destruct (compute_cost _ _ _ _) as [bd|]; [|by prog_inv].
  prog_inv. apply returning_Ret in Hrun as [= <- <-].
  apply within_Ret in Hrun0 as (m' & Hm & ->). by destruct a0.
Qed.

(** The bytes captured for the log, and whether there were more. *)
Definition body_of (t : StreamTask) : bytes := concat (chunks_of (tk_items t)).
Definition logged_part (t : StreamTask) : bytes := take MAX_LOG_BODY_BYTES (body_of t).

Lemma task_captured accepts (t : StreamTask) :
  let p := (pump accepts (tk_should_write t) (tk_items t) pump_start).1 in
  (captured p).1 = logged_part t ∧
  (captured p).2 = (MAX_LOG_BODY_BYTES <? length (body_of t))%nat.
Proof.
  cbv zeta. rewrite pump_captured. unfold pump_start at 1 2.
  cbn [captured]. rewrite capture_stream. unfold clipped, logged_part, body_of.
  cbn [fst snd]. split; exact eq_refl.
Qed.

(** What a stored blob decides of the cache. *)
Definition cache_put (t : StreamTask) (payload : CachedResponse) (k k' : K) : Prop :=
  match encode payload, tk_cache_ttl t, tk_cache_key t with
  | Ok blob, Some ttl, Some key => ∃ r, kv_put key blob ttl k = Ret (r, k')
  | _, _, _ => k' = k
  end.

Lemma write_back_Ret t p (g : G) u g' :
  write_back t p g = Ret (u, g') →
  if tk_should_write t && negb (cache_oversize p)
  then ∃ now, cache_put t (cache_payload t p now) (gw_kv g) (gw_kv g')
  else gw_kv g' = gw_kv g.
Proof.
  unfold write_back, cache_put. intros Hr. case_match; [|by prog_inv].
  prog_inv. exists a. apply (wall_ms_same gw_kv) in Hrun as Hk; [|done].
  unfold same in Hk. rewrite <- Hk.
  destruct (encode _) as [blob|]; [|by prog_inv].
  destruct (tk_cache_ttl t); [|by prog_inv]. destruct (tk_cache_key t); [|by prog_inv].
  prog_inv. apply within_Ret in Hrun0 as (k & Hput & ->). by exists a0.
Qed.

Lemma finished_Ret t p (g : G) g' :
  finished t p g = Ret ((), g') →
  let usage := extract_token_usage (captured p).1 in
  let cost := request_cost (gw_pricing g) t usage in
  ∃ g1 m elapsed,
    write_back t p g = Ret ((), g1) ∧ gw_kv g' = gw_kv g1 ∧
    m = set_counter (gw_budgets g1)
          (reconcile_tokens (tk_permit t) (default 0 (total_tokens usage))
             (counter (gw_budgets g1))) ∧
    match cost with
    | Some c => record_cost (gw_config g) (tk_project_id t) (tk_key_id t) c m =
                Ret ((), gw_budgets g')
    | None => gw_budgets g' = m
    end ∧
    gw_submitted g' = gw_submitted g ++ [final_log t p usage cost elapsed].
Proof.
  unfold finished. intros Hr. prog_inv. destruct a.
  pose proof Hrun as Hw.
  pose proof (write_back_same gw_pricing t p ltac:(done) ltac:(done) _ _ _ Hw) as Hpr.
  pose proof (write_back_same gw_config t p ltac:(done) ltac:(done) _ _ _ Hw) as Hcf.
  pose proof (write_back_same gw_submitted t p ltac:(done) ltac:(done) _ _ _ Hw) as Hsub.
  apply returning_Ret in Hrun0 as [= <- <-].
  destruct (charge_request_Ret _ _ _ _ _ Hrun1) as [-> Hcharge].
  pose proof (charge_request_same gw_kv t _ ltac:(done) _ _ _ Hrun1) as Hkv1.
  pose proof (charge_request_same gw_submitted t _ ltac:(done) _ _ _ Hrun1) as Hsub1.
  pose proof (elapsed_since_same gw_kv _ ltac:(done) _ _ _ Hrun2) as Hkv2.
  pose proof (elapsed_since_same gw_budgets _ ltac:(done) _ _ _ Hrun2) as Hb2.
  pose proof (elapsed_since_same gw_submitted _ ltac:(done) _ _ _ Hrun2) as Hsub2.
  pose proof (submit_log_same gw_kv _ ltac:(done) ltac:(done) _ _ _ Hr) as Hkv3.
  pose proof (submit_log_same gw_budgets _ ltac:(done) ltac:(done) _ _ _ Hr) as Hb3.
  apply submit_log_Ret in Hr. unfold same in *. simpl in *.
  rewrite Hpr, Hcf in Hcharge. rewrite Hpr in Hr.
  eexists s, (set_counter (gw_budgets s) _), _. split; [exact Hw|]. split; [by rewrite Hkv3, Hkv2, Hkv1|].
  split; [reflexivity|]. rewrite Hb3, Hb2. split; [exact Hcharge|].
  by rewrite Hr, Hsub2, Hsub1, Hsub.
Qed.

Lemma finished_stores accepts t (g : G) g' :
  finished t (pump accepts (tk_should_write t) (tk_items t) pump_start).1 g = Ret ((), g') →
  if tk_should_write t && (blen (body_of t) <=? MAX_CACHEABLE_BODY_BYTES)
  then ∃ now,
    cache_put t {| cached_status := tk_status t;
                   cached_headers := header_texts (tk_headers t);
                   chunks := Build_CachedChunk <$> chunks_of (tk_items t);
                   finished_at_ms := now; served_by := Some (tk_provider t) |}
      (gw_kv g) (gw_kv g')
  else gw_kv g' = gw_kv g.
Proof.
  intros Hf. apply finished_Ret in Hf as (g1 & m & el & Hw & -> & _).
  apply write_back_Ret in Hw. destruct (tk_should_write t); simpl in *; [|done].
  pose proof (pump_kept accepts (tk_items t) pump_start [] ltac:(by left)) as Hk.
  fold (body_of t) in Hk. unfold cache_payload in Hw. unfold body_of.
  destruct Hk as [(Ho & Hch & _ & Hle)|(Ho & Hlt)]; rewrite Ho in Hw; simpl in *.
  - rewrite Hch in Hw. by rewrite (proj2 (Z.leb_le _ _)).
  - by rewrite (proj2 (Z.leb_gt _ _)).
Qed.

Lemma broken_off_Ret t p (g : G) g' :
  broken_off t p g = Ret ((), g') →
  ∃ elapsed,
    gw_kv g' = gw_kv g ∧
    gw_budgets g' =
      set_counter (gw_budgets g) (drop_permit (tk_permit t) (counter (gw_budgets g))) ∧
    gw_submitted g' = gw_submitted g ++
      [set_response_body (captured_text p) (response_log t p "upstream_error" elapsed)].
Proof.
  unfold broken_off. intros Hr. prog_inv.
  pose proof (elapsed_since_same gw_kv _ ltac:(done) _ _ _ Hrun) as Hkv1.
  pose proof (elapsed_since_same gw_budgets _ ltac:(done) _ _ _ Hrun) as Hb1.
  pose proof (elapsed_since_same gw_submitted _ ltac:(done) _ _ _ Hrun) as Hsub1.
  pose proof (submit_log_same gw_kv _ ltac:(done) ltac:(done) _ _ _ Hrun0) as Hkv2.
  pose proof (submit_log_same gw_budgets _ ltac:(done) ltac:(done) _ _ _ Hrun0) as Hb2.
  apply submit_log_Ret in Hrun0. apply returning_Ret in Hr as [= <-].
  unfold same in *. simpl in *. exists a.
  by rewrite Hkv2, Hkv1, Hb2, Hb1, Hrun0, Hsub1.
Qed.
End TaskSpecs.

(** The fields of the records. *)
Section Records.
Context `{HttpTypes} `{SerdeJson}.

Lemma final_log_fields (t : StreamTask) p usage cost el body more :
  (captured p).1 = body → (captured p).2 = more →
  let r := final_log t p usage cost el in
  id r = default (id (tk_log t)) (extract_response_id body) ∧
  http_status r = Some (tk_status t) ∧
  response_body r = captured_body_to_string body more ∧
  status r = (if is_success (tk_status t) then "success" else "upstream_error") ∧
  prompt_tokens r = usage_prompt usage ∧ completion_tokens r = usage_completion usage ∧
  cached_tokens r = usage_cached usage ∧
  Models.total_tokens r = Tokens.total_tokens usage ∧
  cost_usd r = cost ∧ would_have_cost_usd r = cost.
Proof.
  intros Hc Hm. unfold final_log, response_log, captured_text, adopt_id.
  rewrite Hc, Hm. simpl.
  by destruct (extract_response_id _).
Qed.

Lemma broken_log_fields (t : StreamTask) p el body more :
  (captured p).1 = body → (captured p).2 = more →
  let r := set_response_body (captured_text p) (response_log t p "upstream_error" el) in
  id r = default (id (tk_log t)) (extract_response_id body) ∧
  http_status r = Some (tk_status t) ∧
  response_body r = captured_body_to_string body more ∧
  status r = "upstream_error" ∧ cost_usd r = cost_usd (tk_log t) ∧
  prompt_tokens r = prompt_tokens (tk_log t) ∧
  completion_tokens r = completion_tokens (tk_log t).
Proof.
  intros Hc Hm. unfold response_log, captured_text, adopt_id. rewrite Hc, Hm. simpl.
  by destruct (extract_response_id _).
Qed.
End Records.

(** * Properties *)

Section Properties.
Context `{HttpTypes} `{SerdeJson} `{Codecs} `{CounterStore C} `{LogStore L}
  `{KvStore K} `{Chrono} {U : Type}.
Abbreviation G := (Gateway C L K U).

(** C22: The client receives what the upstream sent: the channel is given a
    prefix of the upstream's items, chunk for chunk and in order, the whole of
    them (with the error the stream broke with) for a client that stays; and
    whether the client stays has no influence on the log, the cache, the rate
    limits or the budgets. *)
Theorem streaming_transparent accepts (t : StreamTask) (g : G) out g' :
  run_task accepts t g = Ret (out, g') →
  out `prefix_of` delivered (tk_items t) ∧
  ((∀ n, accepts n = true) → out = delivered (tk_items t)) ∧
  ∀ accepts', ∃ out', run_task accepts' t g = Ret (out', g').
Proof.
  intros Hr. apply run_task_Ret in Hr as Hi. destruct Hi as (-> & Hend).
  split; [|split].
  - apply (pump_prefix accepts (tk_should_write t) (tk_items t) pump_start).
  - intros Ha. by rewrite pump_all.
  - intros b. unfold run_task in *.
    pose proof (pump_complete accepts (tk_should_write t) (tk_items t) pump_start) as Hc.
    pose proof (pump_complete b (tk_should_write t) (tk_items t) pump_start) as Hc'.
    pose proof (pump_alike accepts b (tk_should_write t) (tk_items t) pump_start pump_start
      ltac:(done)) as Hl.
    destruct (pump accepts _ _ _) as [p c], (pump b _ _ _) as [q c']. simpl in *. subst c c'.
    destruct (task_alike t p q g Hl) as [Hf Hb]. exists (sent q).
    unfold prog_bind in *. case_bool_decide; rewrite <- ?Hf, <- ?Hb;
      [destruct (finished _ _ _) as [[[] ?]|]|destruct (broken_off _ _ _) as [[[] ?]|]];
      try done; unfold prog_ret in *; by simplify_eq.
Qed.

(** A response is logged and billed as it was served: exactly one record is
    written, under the upstream's own response id if it has one, with the
    upstream's status and the first 64 KiB of the body (marked when there was
    more); if the stream ended well it carries the reported token counts and
    exactly the cost the calculator gives them (none unless the status is a
    success and the model is priced), and if the stream broke off it is an
    [upstream_error] with no new counts or costs. *)
Theorem stream_logged accepts (t : StreamTask) (g : G) out g' :
  run_task accepts t g = Ret (out, g') →
  let body := logged_part t in
  let usage := extract_token_usage body in
  ∃ r, gw_submitted g' = gw_submitted g ++ [r] ∧
    id r = default (id (tk_log t)) (extract_response_id body) ∧
    http_status r = Some (tk_status t) ∧
    response_body r =
      captured_body_to_string body (MAX_LOG_BODY_BYTES <? length (body_of t))%nat ∧
    match error_of (tk_items t) with
    | None =>
        status r = (if is_success (tk_status t) then "success" else "upstream_error") ∧
        prompt_tokens r = usage_prompt usage ∧ completion_tokens r = usage_completion usage ∧
        cached_tokens r = usage_cached usage ∧
        Models.total_tokens r = Tokens.total_tokens usage ∧
        cost_usd r = request_cost (gw_pricing g) t usage ∧
        would_have_cost_usd r = request_cost (gw_pricing g) t usage
    | Some _ =>
        status r = "upstream_error" ∧ cost_usd r = cost_usd (tk_log t) ∧
        prompt_tokens r = prompt_tokens (tk_log t) ∧
        completion_tokens r = completion_tokens (tk_log t)
    end.
Proof.
  intros Hr. cbv zeta. apply run_task_Ret in Hr as (_ & Hend).
  destruct (task_captured accepts t) as [Hc Hmore].
  destruct Hend as [[He Hf]|[[e He] Hb]]; rewrite He.
  - apply finished_Ret in Hf as (g1 & m & el & _ & _ & _ & _ & Hs).
    rewrite Hc in Hs. eexists. split; [exact Hs|].
    exact (final_log_fields t _ _ _ el _ _ Hc Hmore).
  - apply broken_off_Ret in Hb as (el & _ & _ & Hs).
    eexists. split; [exact Hs|]. exact (broken_log_fields t _ el _ _ Hc Hmore).
Qed.

(** C29: The accounts of a response are settled when its stream ends, according to how
    it ends. A stream that ends without an error: the permit is reconciled with the
    token total reported in the first 64 KiB of the body, the part kept for the
    log (zero if none is reported there), the cost of the tokens reported there is recorded on
    the budgets of the request's key and project, if the status is a success and
    the model priced, and nothing else happens to either. A stream the upstream breaks off: the slots
    of the permit are given back, the tokens taken for it stay taken, and nothing is
    charged, whatever was reported. *)
Theorem stream_settled accepts (t : StreamTask) (g : G) out g' :
  run_task accepts t g = Ret (out, g') →
  let usage := extract_token_usage (logged_part t) in
  match error_of (tk_items t) with
  | None =>
      ∃ m, counter m = reconcile_tokens (tk_permit t) (default 0 (Tokens.total_tokens usage))
                         (counter (gw_budgets g)) ∧
        notices m = notices (gw_budgets g) ∧
        match request_cost (gw_pricing g) t usage with
        | Some cost =>
            record_cost (gw_config g) (tk_project_id t) (tk_key_id t) cost m =
            Ret ((), gw_budgets g')
        | None => gw_budgets g' = m
        end
  | Some _ =>
      gw_budgets g' =
        set_counter (gw_budgets g) (drop_permit (tk_permit t) (counter (gw_budgets g)))
  end.
Proof.
  intros Hr usage. apply run_task_Ret in Hr as (_ & [[He Hf]|[[e He] Hd]]); rewrite He.
  2: { by apply broken_off_Ret in Hd as (el & _ & Hd & _). }
  destruct (task_captured accepts t) as [Hc Hmore].
  set (p := (pump _ _ _ _).1) in *. clearbody p.
  apply finished_Ret in Hf as (g1 & m & el & Hw & _ & Hm & Hb & _).
  rewrite Hc in Hm, Hb. pose proof (write_back_counter t p _ _ _ Hw) as Hk.
  pose proof (write_back_notices t p _ _ _ Hw) as Hn. unfold same, counter_of in Hk, Hn.
  exists m. split; [by rewrite Hm, Hk|]. split; [by rewrite Hm|exact Hb].
Qed.

(** C30: What the cache is given: a response is stored exactly when the request
    may write the cache, its stream ended without an error and its body is at
    most 20 MB, and then under the request's key and time to live, with the
    upstream's status, textual headers, every chunk and the provider that served
    it; in every other case the cache store is not touched. *)
Theorem cache_written_exactly accepts (t : StreamTask) (g : G) out g' :
  run_task accepts t g = Ret (out, g') →
  if tk_should_write t && bool_decide (error_of (tk_items t) = None) &&
     (blen (body_of t) <=? MAX_CACHEABLE_BODY_BYTES)
  then ∃ now,
    cache_put t {| cached_status := tk_status t;
                   cached_headers := header_texts (tk_headers t);
                   chunks := Build_CachedChunk <$> chunks_of (tk_items t);
                   finished_at_ms := now; served_by := Some (tk_provider t) |}
      (gw_kv g) (gw_kv g')
  else gw_kv g' = gw_kv g.
Proof.
  intros Hr. apply run_task_Ret in Hr as (_ & [[He Hf]|[[e He] Hb]]); rewrite He.
  - rewrite bool_decide_true, andb_true_r by done. by eapply finished_stores.
  - rewrite bool_decide_false, andb_false_r by done.
    by apply broken_off_Ret in Hb as (el & -> & _).
Qed.

(** A stream the upstream breaks off is never reconciled: its slots are
    given back, but the tokens pre-deducted for it stay charged, whatever it
    reported before. *)
Theorem broken_stream_keeps_tokens `{!CounterLaws C} accepts (t : StreamTask) (g : G) out g' :
  run_task accepts t g = Ret (out, g') → is_Some (error_of (tk_items t)) →
  counter (gw_budgets g') = drop_permit (tk_permit t) (counter (gw_budgets g)) ∧
  ∀ k w, charged (counter (gw_budgets g')) k w = charged (counter (gw_budgets g)) k w.
Proof.
  intros Hr [e He]. apply run_task_Ret in Hr as (_ & [[He' _]|[_ Hb]]); [congruence|].
  apply broken_off_Ret in Hb as (el & _ & Hd & _). rewrite Hd. split; [done|].
  intros k w. apply release_all_charged.
Qed.
End Properties.
