(* ===== verification/AdminLogs.v ===== *)
(** Reading the request logs, costs, budgets and configuration through the Admin API:
    gateway-api/src/routes/admin/logs.rs, cost.rs, budgets.rs, routes_cfg.rs and
    gateway-api/src/routes/health.rs.  The handlers run behind [admin_only] (Auth). *)
From Stdlib Require Import ZArith Lia Bool Ascii String SpecFloat.
From stdpp Require Import prelude gmap strings list.
From S2P Require Import Prelude Text Decimal Chars F64 Json Serde Errors Models Config Stores Budget.
Open Scope Z_scope.

(** * JSON of a row *)

(** [#[derive(Serialize)] struct RequestLogRow]; [request_body] is skipped. *)
Definition row_fields (r : RequestLogRow) : list (string * Value) :=
  [("id", VString (row_id r)); ("project_id", VString (row_project_id r));
   ("gateway_key_id", json_opt VString (row_gateway_key_id r));
   ("namespace", json_opt VString (row_namespace r));
   ("model", json_opt VString (row_model r));
   ("endpoint", json_opt VString (row_endpoint r));
   ("request_ts", json_i64 (row_request_ts r));
   ("duration_ms", json_opt json_i64 (row_duration_ms r));
   ("status", VString (row_status r));
   ("http_status", json_opt json_i64 (row_http_status r));
   ("cached", VBool (row_cached r)); ("retry_count", json_i64 (row_retry_count r));
   ("prompt_tokens", json_opt json_i64 (row_prompt_tokens r));
   ("completion_tokens", json_opt json_i64 (row_completion_tokens r));
   ("cost_usd", json_opt json_f64 (row_cost_usd r))]%string.

(** * Previews *)

Definition PREVIEW_HEAD_CHARS : nat := 24.
Definition PREVIEW_TAIL_CHARS : nat := 24.
Definition PREVIEW_MAX_CHARS : nat := 400.

(** U+2026 *)
Definition ellipsis : string := bstr [226; 128; 166]%N.

Definition normalize_ws (s : string) : string := String.concat " " (split_whitespace s).

(** The slices are in range: there are more than [head + tail + 1] characters. *)
Definition clip_middle (s : string) (head tail : nat) : string :=
  let cs := chars s in
  if (length cs <=? head + tail + 1)%nat then s
  else (collect (take head cs) +:+ ellipsis +:+ collect (drop (length cs - tail) cs))%string.

(** The texts of an array of blocks, joined by blanks. *)
Fixpoint joined_texts (parts : list Value) (out : string) : string :=
  match parts with
  | [] => out
  | p :: rest =>
      match get p "text" ≫= as_str with
      | Some t =>
          joined_texts rest
            (if str_is_empty out then out +:+ t else out +:+ " " +:+ t)%string
      | None => joined_texts rest out
      end
  end.

Definition content_text (v : Value) : option string :=
  match v with
  | VString s => Some s
  | VArray parts => opt_filter (λ out, negb (str_is_empty out)) (Some (joined_texts parts ""))
  | _ => None
  end.

(** What a message adds to the sample. *)
Definition message_sample (m : Value) (text out : string) : string :=
  let role := default "?"%string (get m "role" ≫= as_str) in
  ((if str_is_empty out then out else out +:+ " | ") +:+ role +:+ ": " +:+
   clip_middle (normalize_ws text) PREVIEW_HEAD_CHARS PREVIEW_TAIL_CHARS)%string.

(** The loop over the messages; it stops when the sample is long enough. *)
Fixpoint sample_messages (msgs : list Value) (out : string) : string :=
  match msgs with
  | [] => out
  | m :: rest =>
      match get m "content" ≫= content_text with
      | None => sample_messages rest out
      | Some text =>
          let out := message_sample m text out in
          if (PREVIEW_MAX_CHARS <=? length (chars out))%nat then out
          else sample_messages rest out
      end
  end.

Section Handlers.
Context `{SerdeJson}.

Definition request_preview (body : string) : option string :=
  let msgs := v ← from_slice (str_bytes body); ms ← get v "messages"; as_array ms in
  let out := match msgs with Some ms => sample_messages ms "" | None => ""%string end in
  let out := if str_is_empty out then clip_middle (normalize_ws body) 60 60 else out in
  let out := if (PREVIEW_MAX_CHARS <? length (chars out))%nat
             then (collect (take PREVIEW_MAX_CHARS (chars out)) +:+ ellipsis)%string
             else out in
  if str_is_empty out then None else Some out.

(** An item of the list: the row, and a preview of its body if it has one. *)
Definition log_item (r : RequestLogRow) : Value :=
  let v := object_of (row_fields r) in
  VObject (match row_request_body r ≫= request_preview with
           | Some p => map_insert v "request_preview" (VString p)
           | None => v
           end).

(** * Handlers *)

Record ListLogsQuery : Type := {
  ll_project_id : option string;
  ll_gateway_key_id : option string;
  ll_namespace : option string;
  ll_model : option string;
  ll_status : option string;
  ll_from : option Z;
  ll_to : option Z;
  ll_limit : option Z;
  ll_cursor : option string
}.

Record LogsResponse : Type := {
  lr_items : list Value;
  lr_next_cursor : option string
}.

Definition log_query (default_project_id : string) (q : ListLogsQuery) : LogQuery :=
  {| q_project_id := or_else (ll_project_id q) (Some default_project_id);
     q_gateway_key_id := ll_gateway_key_id q; q_namespace := ll_namespace q;
     q_model := ll_model q; q_status := ll_status q; q_from_ts := ll_from q;
     q_to_ts := ll_to q; q_limit := default 50 (ll_limit q); q_cursor := ll_cursor q |}.

Definition list_logs `{LogStore L} (default_project_id : string) (q : ListLogsQuery) (l : L) :
    result LogsResponse ApiError :=
  let? page := map_err AStorage (query l (log_query default_project_id q)) in
  Ok {| lr_items := log_item <$> items page; lr_next_cursor := next_cursor page |}.

(** The record is answered as it is. *)
Definition get_log `{LogStore L} (i : string) (l : L) : result RequestLogRecord ApiError :=
  let? detail := map_err AStorage (get_by_id l i) in
  ok_or detail (AGateway NotFound).
End Handlers.

(** cost.rs *)
Record CostQuery : Type := {
  cq_project_id : option string;
  cq_from : option Z;
  cq_to : option Z;
  cq_group_by : option string
}.

Definition dimension (s : string) : option AggregateDimension :=
  let s := to_ascii_lowercase (trim s) in
  if String.eqb s "namespace" then Some Namespace
  else if String.eqb s "model" then Some Model
  else if String.eqb s "day" then Some Day
  else if String.eqb s "hour" then Some Hour
  else if String.eqb s "gateway_key" || String.eqb s "key" then Some GatewayKey
  else None.

Definition comma_sign : ascii := ","%char.

Definition cost_query (default_project_id : string) (q : CostQuery) : AggregateQuery :=
  {| aq_project_id := or_else (cq_project_id q) (Some default_project_id);
     aq_from_ts := cq_from q; aq_to_ts := cq_to q;
     aq_group_by := omap dimension (split comma_sign (default "namespace,model"%string (cq_group_by q))) |}.

Definition aggregate_cost `{LogStore L} (default_project_id : string) (q : CostQuery) (l : L) :
    result AggregateResult ApiError :=
  map_err AStorage (aggregate l (cost_query default_project_id q)).

(** budgets.rs *)
Definition admin_list_budgets `{CounterStore C} `{Chrono} (config : AppConfig)
    (project_id : option string) : prog (BudgetManager C) (list BudgetUsage) :=
  current_usage config project_id.

(** routes_cfg.rs: the configuration, as it is. *)
Definition get_routes (config : AppConfig) : result AppConfig ApiError := Ok config.

(** health.rs *)
Definition readyz `{MetadataStore M} (m : M) : Z * list (string * Value) :=
  match list_projects m with
  | Ok _ => (200, [("status", VString "ready")]%string)
  | Err e => (503, [("error", VString (storage_error_to_string e));
                    ("status", VString "not_ready")]%string)
  end.
Definition healthz : Z * list (string * Value) := (200, [("status", VString "ok")]%string).

(** * Bounds *)

Lemma clip_middle_length s head tail :
  (length (chars (clip_middle s head tail)) ≤ head + tail + 1)%nat.
Proof.
  unfold clip_middle. destruct (Nat.leb_spec (length (chars s)) (head + tail + 1)); [done|].
  pose proof (length_chars_app (collect (take head (chars s)))
    (ellipsis +:+ collect (drop (length (chars s) - tail) (chars s)))%string) as H1.
  pose proof (length_chars_app ellipsis
    (collect (drop (length (chars s) - tail) (chars s)))) as H2.
  pose proof (length_chars_take head s). pose proof (length_chars_drop (length (chars s) - tail) s).
  change (length (chars ellipsis)) with 1%nat in H2. lia.
Qed.

Lemma request_preview_bounded `{SerdeJson} body p :
  request_preview body = Some p →
  p ≠ ""%string ∧ (length (chars p) ≤ PREVIEW_MAX_CHARS + 1)%nat.
Proof.
  unfold request_preview.
  set (out := if str_is_empty _ then clip_middle _ _ _ else _). clearbody out.
  destruct (Nat.ltb_spec PREVIEW_MAX_CHARS (length (chars out))) as [Hlt|Hle].
  - set (cut := (collect _ +:+ ellipsis)%string). destruct (str_is_empty cut) eqn:He; [done|].
    intros [= <-]. split; [by intros Hz; rewrite Hz in He|].
    pose proof (length_chars_app (collect (take PREVIEW_MAX_CHARS (chars out))) ellipsis) as Ha.
    pose proof (length_chars_take PREVIEW_MAX_CHARS out).
    change (length (chars ellipsis)) with 1%nat in Ha. fold cut in Ha. lia.
  - destruct (str_is_empty out) eqn:He; [done|]. intros [= <-].
    split; [by intros ->|]. lia.
Qed.

(** An item of the log list never carries the request body: only a preview of at
    most 401 characters, and only when there is something to show. *)
Theorem log_item_bounded `{SerdeJson} r :
  ∃ m, log_item r = VObject m ∧ map_get m "request_body" = None ∧
    match map_get m "request_preview" with
    | None => row_request_body r ≫= request_preview = None
    | Some v => ∃ p, v = VString p ∧ row_request_body r ≫= request_preview = Some p ∧
        p ≠ ""%string ∧ (length (chars p) ≤ 401)%nat
    end.
Proof.
  unfold log_item. destruct (row_request_body r ≫= request_preview) as [p|] eqn:Hp.
  - eexists. split; [done|]. rewrite !map_get_insert. split.
    + by apply object_absent, (bool_decide_unpack _).
    + destruct (String.eqb_spec "request_preview" "request_preview") as [_|Hne]; [|done].
      exists p. split; [done|]. split; [done|].
      destruct (row_request_body r) as [body|]; [|done]. by apply (request_preview_bounded body).
  - eexists. split; [done|]. split.
    + by apply object_absent, (bool_decide_unpack _).
    + by rewrite object_absent by by apply (bool_decide_unpack _).
Qed.
