(* ===== verification/ConfigSerde.v ===== *)
(** The configuration as a document: what the [Deserialize] and [Serialize] that
    gateway-core/src/config.rs derives read and write.

    [de_app_config] makes a configuration of a parsed document, [json_app_config] is the
    document /admin/routes answers.  The theorems: what is read fits its fields' widths,
    what is written reads back, and what an omitted section means. *)
From Stdlib Require Import ZArith Lia Bool Ascii String SpecFloat.
From stdpp Require Import prelude gmap strings list.
From S2P Require Import Prelude Text F64 Json Serde Errors Stores Security Seeding AdminLogs.
From S2P Require Import Config.
Open Scope Z_scope.

(** * The defaults of omitted sections *)

(** [#[derive(Default)]]: the zero of each field, whatever its serde default. *)
Definition derived_admin : AdminConfig := {| root_token := ""; password_login := false |}.
Definition derived_route_match : RouteMatch :=
  {| match_namespace := None; model_prefix := None |}.
Definition derived_route_cache : RouteCacheConfig :=
  {| enabled := false; ttl := 0; allow_nondeterministic := false |}.

(** * Reading *)

Section Decoding.
Context `{Deserializer Doc}.

(** [Option<String>] with [#[serde(default)]] *)
Definition optional_str (name : string) : list (string * Doc) → option (option string) :=
  field_or name None (de_option de_str).

Definition de_server (n : Doc) : option ServerConfig :=
  fs ← de_struct ["bind"; "request_timeout_ms"; "default_project_id"]%string n;
  b ← field_or "bind" (bind default_server) de_str fs;
  t ← field_or "request_timeout_ms" (request_timeout_ms default_server) de_u64 fs;
  p ← field_or "default_project_id" (default_project_id default_server) de_str fs;
  Some {| bind := b; request_timeout_ms := t; default_project_id := p |}.

Definition de_sqlite (n : Doc) : option SqliteConfig :=
  fs ← de_struct ["path"; "max_size_mb"; "log_retention_days"]%string n;
  p ← field_or "path" (sqlite_path default_sqlite) de_str fs;
  s ← field_or "max_size_mb" (max_size_mb default_sqlite) de_u64 fs;
  d ← field_or "log_retention_days" (log_retention_days default_sqlite) de_u32 fs;
  Some {| sqlite_path := p; max_size_mb := s; log_retention_days := d |}.

Definition de_postgres (n : Doc) : option PostgresConfig :=
  fs ← de_struct ["url"; "max_connections"]%string n;
  u ← field "url" de_str fs;
  m ← field_or "max_connections" default_pg_max_connections de_u32 fs;
  Some {| pg_url := u; max_connections := m |}.

Definition de_redis (n : Doc) : option RedisConfig :=
  fs ← de_struct ["url"]%string n;
  u ← field "url" de_str fs;
  Some {| redis_url := u |}.

Definition de_cache (n : Doc) : option CacheConfig :=
  fs ← de_struct ["l1_memory_mb"; "l2_max_size_mb"]%string n;
  a ← field_or "l1_memory_mb" (l1_memory_mb default_cache_config) de_u64 fs;
  b ← field_or "l2_max_size_mb" (l2_max_size_mb default_cache_config) de_u64 fs;
  Some {| l1_memory_mb := a; l2_max_size_mb := b |}.

(** Tagged by [profile]; the variants' names in lower case. *)
Definition de_storage (n : Doc) : option StorageConfig :=
  '(tag, content) ← de_tagged "profile" n;
  profile ← de_str tag;
  if String.eqb profile "lite" then
    fs ← pick ["sqlite"; "cache"]%string content;
    s ← field_or "sqlite" default_sqlite de_sqlite fs;
    c ← field_or "cache" default_cache_config de_cache fs;
    Some (Lite s c)
  else if String.eqb profile "standard" then
    fs ← pick ["postgres"; "redis"; "cache"]%string content;
    p ← field "postgres" de_postgres fs;
    r ← field "redis" de_redis fs;
    c ← field_or "cache" default_cache_config de_cache fs;
    Some (Standard p r c)
  else if String.eqb profile "memory" then
    fs ← pick ["cache"]%string content;
    c ← field_or "cache" default_cache_config de_cache fs;
    Some (Memory c)
  else None.

Definition de_admin (n : Doc) : option AdminConfig :=
  fs ← de_struct ["root_token"; "password_login"]%string n;
  r ← field_or "root_token" default_root_token de_str fs;
  p ← field_or "password_login" false de_bool fs;
  Some {| root_token := r; password_login := p |}.

Definition de_provider (n : Doc) : option ProviderConfig :=
  fs ← de_struct ["kind"; "base_url"; "credential"; "headers"]%string n;
  k ← optional_str "kind" fs;
  u ← field "base_url" de_str fs;
  c ← field "credential" de_str fs;
  h ← field_or "headers" ∅ (de_hash_map de_str) fs;
  Some {| kind := k; base_url := u; credential := c; headers := h |}.

Definition de_route_match (n : Doc) : option RouteMatch :=
  fs ← de_struct ["namespace"; "model_prefix"]%string n;
  ns ← optional_str "namespace" fs;
  p ← optional_str "model_prefix" fs;
  Some {| match_namespace := ns; model_prefix := p |}.

Definition de_route_target (n : Doc) : option RouteTarget :=
  fs ← de_struct ["provider"; "model"; "trigger"]%string n;
  p ← field "provider" de_str fs;
  m ← optional_str "model" fs;
  t ← field_or "trigger" [] (de_vec de_str) fs;
  Some {| provider := p; target_model := m; trigger := t |}.

Definition de_route_cache (n : Doc) : option RouteCacheConfig :=
  fs ← de_struct ["enabled"; "ttl"; "allow_nondeterministic"]%string n;
  e ← field_or "enabled" false de_bool fs;
  t ← field_or "ttl" default_cache_ttl de_u64 fs;
  a ← field_or "allow_nondeterministic" false de_bool fs;
  Some {| enabled := e; ttl := t; allow_nondeterministic := a |}.

Definition de_route_retry (n : Doc) : option RouteRetryConfig :=
  fs ← de_struct ["max_attempts"; "initial_backoff_ms"]%string n;
  m ← field_or "max_attempts" (max_attempts default_retry) de_u32 fs;
  b ← field_or "initial_backoff_ms" (initial_backoff_ms default_retry) de_u64 fs;
  Some {| max_attempts := m; initial_backoff_ms := b |}.

Definition de_route (n : Doc) : option RouteConfig :=
  fs ← de_struct ["match"; "primary"; "cache"; "retry"; "fallbacks"]%string n;
  m ← field_or "match" derived_route_match de_route_match fs;
  p ← field "primary" de_route_target fs;
  c ← field_or "cache" derived_route_cache de_route_cache fs;
  r ← field_or "retry" default_retry de_route_retry fs;
  f ← field_or "fallbacks" [] (de_vec de_route_target) fs;
  Some {| match_ := m; primary := p; cache := c; retry := r; fallbacks := f |}.

Definition de_limit_target (n : Doc) : option LimitTarget :=
  fs ← de_struct ["type"; "id"; "key"]%string n;
  k ← field "type" de_str fs;
  i ← optional_str "id" fs;
  key ← optional_str "key" fs;
  Some {| limit_kind := k; limit_id := i; limit_key := key |}.

Definition de_limit (n : Doc) : option LimitConfig :=
  fs ← de_struct ["target"; "rpm"; "tpm"; "concurrency"]%string n;
  t ← field "target" de_limit_target fs;
  r ← field_or "rpm" None (de_option de_u64) fs;
  p ← field_or "tpm" None (de_option de_u64) fs;
  c ← field_or "concurrency" None (de_option de_u32) fs;
  Some {| limit_target := t; rpm := r; tpm := p; conc := c |}.

Definition de_budget_target (n : Doc) : option BudgetTarget :=
  fs ← de_struct ["project_id"; "gateway_key_id"]%string n;
  p ← optional_str "project_id" fs;
  k ← optional_str "gateway_key_id" fs;
  Some {| target_project_id := p; target_gateway_key_id := k |}.

Definition de_threshold (n : Doc) : option BudgetThreshold :=
  fs ← de_struct ["at"; "action"; "webhook"]%string n;
  a ← field "at" de_f64 fs;
  act ← field "action" de_str fs;
  w ← optional_str "webhook" fs;
  Some {| at_ := a; action := act; webhook := w |}.

Definition de_budget (n : Doc) : option BudgetConfig :=
  fs ← de_struct ["name"; "target"; "period"; "amount_usd"; "thresholds"]%string n;
  nm ← field "name" de_str fs;
  t ← field "target" de_budget_target fs;
  p ← field "period" de_str fs;
  a ← field "amount_usd" de_f64 fs;
  th ← field_or "thresholds" [] (de_vec de_threshold) fs;
  Some {| budget_name := nm; budget_target := t; period := p; amount_usd := a;
          thresholds := th |}.

Definition de_tracing (n : Doc) : option TracingConfig :=
  fs ← de_struct ["enabled"; "format"; "otlp_endpoint"]%string n;
  e ← field_or "enabled" true de_bool fs;
  f ← field_or "format" (tracing_format (obs_tracing default_observability)) de_str fs;
  o ← optional_str "otlp_endpoint" fs;
  Some {| tracing_enabled := e; tracing_format := f; otlp_endpoint := o |}.

Definition de_observability (n : Doc) : option ObservabilityConfig :=
  fs ← de_struct ["metrics"; "tracing"]%string n;
  m ← field_or "metrics" true de_bool fs;
  t ← field_or "tracing" (obs_tracing default_observability) de_tracing fs;
  Some {| obs_metrics := m; obs_tracing := t |}.

Definition de_gateway_key (n : Doc) : option GatewayKeyConfig :=
  fs ← de_struct ["id"; "name"; "project_id"; "secret"; "scopes"]%string n;
  i ← field "id" de_str fs;
  nm ← field "name" de_str fs;
  p ← optional_str "project_id" fs;
  s ← field "secret" de_str fs;
  sc ← field_or "scopes" [] (de_vec de_str) fs;
  Some {| gk_id := i; gk_name := nm; gk_project_id := p; gk_secret := s; gk_scopes := sc |}.

Definition app_fields : list string :=
  ["server"; "storage"; "admin"; "providers"; "routes"; "limits"; "budgets"; "observability";
   "gateway_keys"]%string.

Definition de_app_config (n : Doc) : option AppConfig :=
  fs ← de_struct app_fields n;
  sv ← field_or "server" default_server de_server fs;
  st ← field "storage" de_storage fs;
  ad ← field_or "admin" derived_admin de_admin fs;
  pr ← field_or "providers" ∅ (de_hash_map de_provider) fs;
  rs ← field_or "routes" [] (de_vec de_route) fs;
  ls ← field_or "limits" [] (de_vec de_limit) fs;
  bs ← field_or "budgets" [] (de_vec de_budget) fs;
  ob ← field_or "observability" default_observability de_observability fs;
  ks ← field_or "gateway_keys" [] (de_vec de_gateway_key) fs;
  Some {| server := sv; storage := st; admin := ad; providers := pr; routes := rs;
          limits := ls; budget_configs := bs; observability := ob; gateway_keys := ks |}.

(** [serde_yaml::from_str::<AppConfig>]: the parser makes a document of the text or says why
    it cannot, and words the refusal of a document that is not a configuration. *)
Definition config_from_str (parse : string → result Doc string) (refusal : Doc → string)
    (text : string) : result AppConfig string :=
  let? doc := parse text in ok_or (de_app_config doc) (refusal doc).
End Decoding.

(** * Writing *)

Section Encoding.
Local Open Scope string_scope.

Definition json_server (c : ServerConfig) : Value :=
  json_struct [("bind", VString (bind c)); ("request_timeout_ms", json_u64 (request_timeout_ms c));
               ("default_project_id", VString (default_project_id c))].
Definition json_sqlite (c : SqliteConfig) : Value :=
  json_struct [("path", VString (sqlite_path c)); ("max_size_mb", json_u64 (max_size_mb c));
               ("log_retention_days", json_u64 (log_retention_days c))].
Definition json_postgres (c : PostgresConfig) : Value :=
  json_struct [("url", VString (pg_url c)); ("max_connections", json_u64 (max_connections c))].
Definition json_redis (c : RedisConfig) : Value := json_struct [("url", VString (redis_url c))].
Definition json_cache (c : CacheConfig) : Value :=
  json_struct [("l1_memory_mb", json_u64 (l1_memory_mb c));
               ("l2_max_size_mb", json_u64 (l2_max_size_mb c))].
Definition storage_fields (s : StorageConfig) : list (string * Value) :=
  match s with
  | Lite q c => [("sqlite", json_sqlite q); ("cache", json_cache c)]
  | Standard p r c =>
      [("postgres", json_postgres p); ("redis", json_redis r); ("cache", json_cache c)]
  | Memory c => [("cache", json_cache c)]
  end.
Definition json_storage (s : StorageConfig) : Value :=
  json_struct (("profile", VString (profile_name s)) :: storage_fields s).
Definition json_admin_config (c : AdminConfig) : Value :=
  json_struct [("root_token", VString (root_token c)); ("password_login", VBool (password_login c))].
Definition json_provider (p : ProviderConfig) : Value :=
  json_struct [("kind", json_opt VString (kind p)); ("base_url", VString (base_url p));
               ("credential", VString (credential p)); ("headers", json_map VString (headers p))].
Definition json_route_match (m : RouteMatch) : Value :=
  json_struct [("namespace", json_opt VString (match_namespace m));
               ("model_prefix", json_opt VString (model_prefix m))].
Definition json_route_target (t : RouteTarget) : Value :=
  json_struct [("provider", VString (provider t)); ("model", json_opt VString (target_model t));
               ("trigger", json_vec VString (trigger t))].
Definition json_route_cache (c : RouteCacheConfig) : Value :=
  json_struct [("enabled", VBool (enabled c)); ("ttl", json_u64 (ttl c));
               ("allow_nondeterministic", VBool (allow_nondeterministic c))].
Definition json_route_retry (r : RouteRetryConfig) : Value :=
  json_struct [("max_attempts", json_u64 (max_attempts r));
               ("initial_backoff_ms", json_u64 (initial_backoff_ms r))].
Definition json_route (r : RouteConfig) : Value :=
  json_struct [("match", json_route_match (match_ r)); ("primary", json_route_target (primary r));
               ("cache", json_route_cache (cache r)); ("retry", json_route_retry (retry r));
               ("fallbacks", json_vec json_route_target (fallbacks r))].
Definition json_limit_target (t : LimitTarget) : Value :=
  json_struct [("type", VString (limit_kind t)); ("id", json_opt VString (limit_id t));
               ("key", json_opt VString (limit_key t))].
Definition json_limit (l : LimitConfig) : Value :=
  json_struct [("target", json_limit_target (limit_target l)); ("rpm", json_opt json_u64 (rpm l));
               ("tpm", json_opt json_u64 (tpm l)); ("concurrency", json_opt json_u64 (conc l))].
Definition json_budget_target (t : BudgetTarget) : Value :=
  json_struct [("project_id", json_opt VString (target_project_id t));
               ("gateway_key_id", json_opt VString (target_gateway_key_id t))].
Definition json_threshold (t : BudgetThreshold) : Value :=
  json_struct [("at", json_f64 (at_ t)); ("action", VString (action t));
               ("webhook", json_opt VString (webhook t))].
Definition json_budget (b : BudgetConfig) : Value :=
  json_struct [("name", VString (budget_name b)); ("target", json_budget_target (budget_target b));
               ("period", VString (period b)); ("amount_usd", json_f64 (amount_usd b));
               ("thresholds", json_vec json_threshold (thresholds b))].
Definition json_tracing (t : TracingConfig) : Value :=
  json_struct [("enabled", VBool (tracing_enabled t)); ("format", VString (tracing_format t));
               ("otlp_endpoint", json_opt VString (otlp_endpoint t))].
Definition json_observability (o : ObservabilityConfig) : Value :=
  json_struct [("metrics", VBool (obs_metrics o)); ("tracing", json_tracing (obs_tracing o))].
Definition json_gateway_key (k : GatewayKeyConfig) : Value :=
  json_struct [("id", VString (gk_id k)); ("name", VString (gk_name k));
               ("project_id", json_opt VString (gk_project_id k));
               ("secret", VString (gk_secret k)); ("scopes", json_vec VString (gk_scopes k))].
Definition json_app_config (c : AppConfig) : Value :=
  json_struct [("server", json_server (server c)); ("storage", json_storage (storage c));
               ("admin", json_admin_config (admin c));
               ("providers", json_map json_provider (providers c));
               ("routes", json_vec json_route (routes c));
               ("limits", json_vec json_limit (limits c));
               ("budgets", json_vec json_budget (budget_configs c));
               ("observability", json_observability (observability c));
               ("gateway_keys", json_vec json_gateway_key (gateway_keys c))].
End Encoding.

(** * The widths of the fields *)

Definition server_fits (c : ServerConfig) : Prop := u64_ok (request_timeout_ms c).
Definition sqlite_fits (c : SqliteConfig) : Prop :=
  u64_ok (max_size_mb c) ∧ u32_ok (log_retention_days c).
Definition postgres_fits (c : PostgresConfig) : Prop := u32_ok (max_connections c).
Definition cache_fits (c : CacheConfig) : Prop :=
  u64_ok (l1_memory_mb c) ∧ u64_ok (l2_max_size_mb c).
Definition storage_fits (s : StorageConfig) : Prop :=
  match s with
  | Lite q c => sqlite_fits q ∧ cache_fits c
  | Standard p _ c => postgres_fits p ∧ cache_fits c
  | Memory c => cache_fits c
  end.
Definition route_cache_fits (c : RouteCacheConfig) : Prop := u64_ok (ttl c).
Definition route_retry_fits (r : RouteRetryConfig) : Prop :=
  u32_ok (max_attempts r) ∧ u64_ok (initial_backoff_ms r).
Definition route_fits (r : RouteConfig) : Prop :=
  route_cache_fits (cache r) ∧ route_retry_fits (retry r).
Definition limit_fits (l : LimitConfig) : Prop :=
  from_option u64_ok True (rpm l) ∧ from_option u64_ok True (tpm l) ∧
  from_option u32_ok True (conc l).

Record config_fits (c : AppConfig) : Prop := {
  cf_server : server_fits (server c);
  cf_storage : storage_fits (storage c);
  cf_routes : Forall route_fits (routes c);
  cf_limits : Forall limit_fits (limits c)
}.

(** JSON has no infinity: an amount that is one is written [null]. *)
Definition threshold_finite (t : BudgetThreshold) : Prop := finite_ok (at_ t).
Definition budget_finite (b : BudgetConfig) : Prop :=
  finite_ok (amount_usd b) ∧ Forall threshold_finite (thresholds b).

(** * What is written reads back *)

#[export] Instance round_trip_server : RoundTrip server_fits json_server de_server.
Proof. intros [b t p] Hf. unfold de_server, json_server. read_struct. Qed.
#[export] Instance round_trip_sqlite : RoundTrip sqlite_fits json_sqlite de_sqlite.
Proof. intros [p s d] [Hs Hd]. unfold de_sqlite, json_sqlite. read_struct. Qed.
#[export] Instance round_trip_postgres : RoundTrip postgres_fits json_postgres de_postgres.
Proof. intros [u m] Hf. unfold de_postgres, json_postgres. read_struct. Qed.
#[export] Instance round_trip_redis : RoundTrip any json_redis de_redis.
Proof. intros [u] _. unfold de_redis, json_redis. read_struct. Qed.
#[export] Instance round_trip_cache : RoundTrip cache_fits json_cache de_cache.
Proof. intros [a b] [Ha Hb]. unfold de_cache, json_cache. read_struct. Qed.
#[export] Instance round_trip_admin : RoundTrip any json_admin_config de_admin.
Proof. intros [r p] _. unfold de_admin, json_admin_config. read_struct. Qed.
#[export] Instance round_trip_provider : RoundTrip any json_provider de_provider.
Proof. intros [k u c h] _. unfold de_provider, json_provider, optional_str. read_struct. Qed.
#[export] Instance round_trip_route_match : RoundTrip any json_route_match de_route_match.
Proof. intros [n p] _. unfold de_route_match, json_route_match, optional_str. read_struct. Qed.
#[export] Instance round_trip_route_target : RoundTrip any json_route_target de_route_target.
Proof. intros [p m t] _. unfold de_route_target, json_route_target, optional_str. read_struct. Qed.
#[export] Instance round_trip_route_cache :
  RoundTrip route_cache_fits json_route_cache de_route_cache.
Proof. intros [e t a] Hf. unfold de_route_cache, json_route_cache. read_struct. Qed.
#[export] Instance round_trip_route_retry :
  RoundTrip route_retry_fits json_route_retry de_route_retry.
Proof. intros [m b] [Hm Hb]. unfold de_route_retry, json_route_retry. read_struct. Qed.
#[export] Instance round_trip_route : RoundTrip route_fits json_route de_route.
Proof. intros [m p c r f] [Hc Hr]. unfold de_route, json_route. read_struct. Qed.
#[export] Instance round_trip_limit_target : RoundTrip any json_limit_target de_limit_target.
Proof. intros [k i x] _. unfold de_limit_target, json_limit_target, optional_str. read_struct. Qed.
#[export] Instance round_trip_limit : RoundTrip limit_fits json_limit de_limit.
Proof. intros [t r p c] (Hr & Hp & Hc). unfold de_limit, json_limit. read_struct. Qed.
#[export] Instance round_trip_budget_target : RoundTrip any json_budget_target de_budget_target.
Proof. intros [p k] _. unfold de_budget_target, json_budget_target, optional_str. read_struct. Qed.
#[export] Instance round_trip_threshold : RoundTrip threshold_finite json_threshold de_threshold.
Proof. intros [a x w] Hf. unfold de_threshold, json_threshold, optional_str. read_struct. Qed.
#[export] Instance round_trip_budget : RoundTrip budget_finite json_budget de_budget.
Proof. intros [n t p a th] [Ha Ht]. unfold de_budget, json_budget. read_struct. Qed.
#[export] Instance round_trip_tracing : RoundTrip any json_tracing de_tracing.
Proof. intros [e f o] _. unfold de_tracing, json_tracing, optional_str. read_struct. Qed.
#[export] Instance round_trip_observability :
  RoundTrip any json_observability de_observability.
Proof. intros [m t] _. unfold de_observability, json_observability. read_struct. Qed.
#[export] Instance round_trip_gateway_key : RoundTrip any json_gateway_key de_gateway_key.
Proof. intros [i n p s c] _. unfold de_gateway_key, json_gateway_key, optional_str. read_struct. Qed.

(** The tag is found wherever the object has it, and the rest is the variant's. *)
Lemma storage_tagged s :
  de_tagged "profile" (json_storage s) =
    Some (VString (profile_name s), inl (object_of (storage_fields s))).
Proof. by destruct s. Qed.

#[export] Instance round_trip_storage : RoundTrip storage_fits json_storage de_storage.
Proof.
  intros s Hs. unfold de_storage. rewrite storage_tagged. cbn [mbind option_bind de_str
    json_deserializer as_str].
  destruct s as [q c|p r c|c]; cbn [profile_name storage_fields storage_fits] in *; cbn [String.eqb Ascii.eqb Bool.eqb];
    read_struct.
Qed.

#[export] Instance round_trip_app_config :
  RoundTrip (λ c, config_fits c ∧ Forall budget_finite (budget_configs c))
    json_app_config de_app_config.
Proof.
  intros [sv st ad pr rs ls bs ob ks] [[Hsv Hst Hrs Hls] Hbs]. cbn in Hsv, Hst, Hrs, Hls, Hbs.
  unfold de_app_config, json_app_config, app_fields. read_struct.
Qed.

(** * What is read fits *)

Section Widths.
Context `{DeserializerLaws Doc}.

Lemma de_u64_ok (n : Doc) z : de_u64 n = Some z → u64_ok z.
Proof. apply de_u64_range. Qed.
Lemma de_u32_ok (n : Doc) z : de_u32 n = Some z → u32_ok z.
Proof. apply de_u32_range. Qed.

(** The fields of a decoded struct; then each by the guarantee of its decoder. *)
Ltac decoded Hd :=
  repeat (apply bind_Some in Hd as (? & ? & Hd)); injection Hd as <-.
Ltac width :=
  match goal with
  | Hf : field_or _ _ _ _ = Some ?a |- ?P ?a =>
      refine (field_or_Some P _ _ _ _ _ _ _ Hf);
      [ first [ by split; vm_compute | by constructor | exact I ] | ]
  | Hf : field _ _ _ = Some ?a |- ?P ?a => refine (field_Some P _ _ _ _ _ Hf)
  end.

Lemma de_server_fits (n : Doc) c : de_server n = Some c → server_fits c.
Proof. unfold de_server, server_fits. intros Hd. decoded Hd. simpl. width. apply de_u64_ok. Qed.

Lemma de_sqlite_fits (n : Doc) c : de_sqlite n = Some c → sqlite_fits c.
Proof.
  unfold de_sqlite, sqlite_fits. intros Hd. decoded Hd. simpl.
  split; width; [apply de_u64_ok|apply de_u32_ok].
Qed.

Lemma de_postgres_fits (n : Doc) c : de_postgres n = Some c → postgres_fits c.
Proof.
  unfold de_postgres, postgres_fits. intros Hd. decoded Hd. simpl. width. apply de_u32_ok.
Qed.

Lemma de_cache_fits (n : Doc) c : de_cache n = Some c → cache_fits c.
Proof.
  unfold de_cache, cache_fits. intros Hd. decoded Hd. simpl. split; width; apply de_u64_ok.
Qed.

Lemma default_cache_fits : cache_fits default_cache_config.
Proof. done. Qed.
Lemma default_sqlite_fits : sqlite_fits default_sqlite.
Proof. done. Qed.

Lemma de_storage_fits (n : Doc) s : de_storage n = Some s → storage_fits s.
Proof.
  unfold de_storage. intros ([tag content] & _ & (p & _ & Hd)%bind_Some)%bind_Some.
  repeat (destruct (String.eqb p _)); [..|done]; decoded Hd; simpl.
  - split; [eapply field_or_Some; [exact default_sqlite_fits|apply de_sqlite_fits|done]|].
    eapply field_or_Some; [exact default_cache_fits|apply de_cache_fits|done].
  - split; [eapply field_Some; [apply de_postgres_fits|done]|].
    eapply field_or_Some; [exact default_cache_fits|apply de_cache_fits|done].
  - eapply field_or_Some; [exact default_cache_fits|apply de_cache_fits|done].
Qed.

Lemma de_route_cache_fits (n : Doc) c : de_route_cache n = Some c → route_cache_fits c.
Proof.
  unfold de_route_cache, route_cache_fits. intros Hd. decoded Hd. simpl. width. apply de_u64_ok.
Qed.

Lemma de_route_retry_fits (n : Doc) r : de_route_retry n = Some r → route_retry_fits r.
Proof.
  unfold de_route_retry, route_retry_fits. intros Hd. decoded Hd. simpl.
  split; width; [apply de_u32_ok|apply de_u64_ok].
Qed.

Lemma de_route_fits (n : Doc) r : de_route n = Some r → route_fits r.
Proof.
  unfold de_route, route_fits. intros Hd. decoded Hd. simpl.
  split; width; [apply de_route_cache_fits|apply de_route_retry_fits].
Qed.

Lemma de_limit_fits (n : Doc) l : de_limit n = Some l → limit_fits l.
Proof.
  unfold de_limit, limit_fits. intros Hd. decoded Hd. simpl.
  split_and!; width; intros m o; apply de_option_Some; [apply de_u64_ok..|apply de_u32_ok].
Qed.

(** Every number of a configuration that was read is of its type. *)
Lemma de_app_config_fits (n : Doc) c : de_app_config n = Some c → config_fits c.
Proof.
  unfold de_app_config. intros Hd. decoded Hd. split; simpl.
  - width. apply de_server_fits.
  - width. apply de_storage_fits.
  - width. intros m l. apply de_vec_Forall, de_route_fits.
  - width. intros m l. apply de_vec_Forall, de_limit_fits.
Qed.
End Widths.

(** * The configuration in force *)

Section InForce.
Context `{HashOrder} `{DeserializerLaws Doc}.
Context (parse : string → result Doc string) (refusal : Doc → string).

(** A text that loads is a document that decodes to a valid configuration. *)
Lemma load_decoded path file cfg :
  load_from_path (config_from_str parse refusal) path file = Ok cfg →
  ∃ text doc, file = Ok text ∧ parse text = Ok doc ∧ de_app_config doc = Some cfg ∧
    valid_config cfg.
Proof.
  intros Hl. pose proof (load_valid _ _ _ _ Hl) as Hv. revert Hl.
  unfold load_from_path, load_from_str, config_from_str.
  destruct file as [text|e]; [|done]. cbn [map_err].
  destruct (parse text) as [doc|e] eqn:Hp; [|done].
  destruct (de_app_config doc) as [c|] eqn:Hd; [|done]. cbn [ok_or map_err].
  destruct (validate c) as [[]|e]; [|done]. intros [= <-]. by exists text, doc.
Qed.

(** C15: a configuration file that loads gives a configuration whose providers, routes and
    keys are valid and whose every number is in the range of its type; and when its amounts
    are finite, the document /admin/routes answers reads back, by the same derived decoder,
    to exactly the configuration that was loaded: no section, default, key secret or
    credential is lost or altered on the way. *)
Theorem config_served path file cfg :
  load_from_path (config_from_str parse refusal) path file = Ok cfg →
  valid_config cfg ∧ config_fits cfg ∧
  (Forall budget_finite (budget_configs cfg) →
   ∃ shown, result_map json_app_config (get_routes cfg) = Ok shown ∧
     de_app_config shown = Some cfg).
Proof.
  intros Hl. destruct (load_decoded _ _ _ Hl) as (text & doc & _ & _ & Hd & Hv).
  pose proof (de_app_config_fits doc cfg Hd) as Hf. split_and!; [done|done|].
  intros Hb. exists (json_app_config cfg). split; [done|].
  by apply (round_trip (dec := de_app_config) cfg).
Qed.

(** C10: what omitting [root_token] means.  In a file with an [admin] section that does not
    name it, the root token is the environment's GATEWAY_ROOT_TOKEN; in a file without an
    [admin] section there is none, whatever the environment holds: the section's default is
    not the default of its field. *)
Theorem root_token_omitted env path text doc kvs cfg :
  parse text = Ok doc → de_map doc = Some kvs →
  load_from_path (config_from_str parse refusal) path (Ok text) = Ok cfg →
  match map_get kvs "admin" with
  | None => read_admin_token env cfg = Ok None
  | Some section => ∀ ks, de_map section = Some ks → "root_token"%string ∉ ks.*1 →
      read_admin_token env cfg =
        Ok (opt_filter (λ v, negb (str_is_empty v)) (env "GATEWAY_ROOT_TOKEN"%string))
  end.
Proof.
  intros Hp Hm Hl. destruct (load_decoded _ _ _ Hl) as (text' & doc' & [= <-] & Hp' & Hd & _).
  rewrite Hp in Hp'. injection Hp' as <-.
  unfold de_app_config in Hd. apply bind_Some in Hd as (fs & Hfs & Hd).
  assert (field_or "admin" derived_admin de_admin fs = Some (admin cfg)) as Ha.
  { repeat (apply bind_Some in Hd as (? & ? & Hd)). injection Hd as <-. done. }
  unfold field_or in Ha.
  rewrite (de_struct_get _ _ _ _ "admin" Hm Hfs) in Ha by by apply (bool_decide_unpack _).
  unfold read_admin_token. destruct (map_get kvs "admin") as [section|].
  - intros ks Hk Habs. unfold de_admin in Ha. apply bind_Some in Ha as (gs & Hgs & Ha).
    apply bind_Some in Ha as (token & Ht & Ha). apply bind_Some in Ha as (? & _ & Ha).
    injection Ha as <-. cbn [root_token]. unfold field_or in Ht.
    unfold de_struct, entries_of in Hgs. rewrite Hk in Hgs.
    rewrite (pick_absent _ _ _ _ Hgs Habs) in Ht. by injection Ht as <-.
  - by injection Ha as <-.
Qed.
End InForce.

(** * The configuration the tests of the repository run with *)

Section Shipped.
Local Open Scope string_scope.
#[local] Existing Instance tree_order.

(** config/test.memory.yaml, as a document; [with_admin] says whether its [admin] section
    is there, [amount] is that of a budget of its own. *)
Definition memory_yaml (admin_section : option Value) (budget : list Value) : Value :=
  VObject ([("server", VObject [("bind", VString "127.0.0.1:8080");
                                ("default_project_id", VString "default")]);
            ("storage", VObject [("profile", VString "memory")])] ++
           match admin_section with Some v => [("admin", v)] | None => [] end ++
           [("providers", VObject [("openai", VObject
               [("base_url", VString "http://127.0.0.1:18181");
                ("credential", VString "env://OPENAI_API_KEY")])]);
            ("routes", VArray [VObject
               [("match", VObject [("namespace", VString "openai")]);
                ("primary", VObject [("provider", VString "openai")]);
                ("cache", VObject [("enabled", VBool true); ("ttl", VNumber (PosInt 60))]);
                ("retry", VObject [("max_attempts", VNumber (PosInt 1));
                                   ("initial_backoff_ms", VNumber (PosInt 100))])]]);
            ("limits", VArray []); ("budgets", VArray budget)]).

Definition one_budget : Value :=
  VObject [("name", VString "monthly"); ("target", VObject []); ("period", VString "monthly");
           ("amount_usd", VNumber (PosInt 100));
           ("thresholds", VArray [VObject [("at", VNumber (PosInt 1)); ("action", VString "block")]])].

Definition load_memory (admin_section : option Value) : result AppConfig GatewayError :=
  load_from_path
    (config_from_str (λ _, Ok (memory_yaml admin_section [one_budget])) (λ _, "refused"))
    "memory.yaml" (Ok "").

(** A retry of a route and the defaults of what the file leaves out. *)
Lemma load_memory_example :
  (λ c, (request_timeout_ms (server c), storage c, retry <$> routes c, root_token (admin c),
         amount_usd <$> budget_configs c, gateway_keys c)) <$>
    match load_memory (Some (VObject [])) with Ok c => Some c | Err _ => None end =
  Some (600000, Memory default_cache_config, [{| max_attempts := 1; initial_backoff_ms := 100 |}],
        default_root_token, [f64_of_Z 100], []).
Proof. vm_compute. reflexivity. Qed.

Lemma config_served_witness :
  ∃ cfg, load_memory None = Ok cfg ∧
    ∃ shown, result_map json_app_config (get_routes cfg) = Ok shown ∧
      de_app_config shown = Some cfg.
Proof.
  destruct (load_memory None) as [cfg|e] eqn:Hl.
  2: { assert (match load_memory None with Ok _ => true | Err _ => false end = true) as Hz
         by (vm_compute; reflexivity). rewrite Hl in Hz. discriminate. }
  exists cfg. split; [reflexivity|].
  destruct (config_served _ _ _ _ _ Hl) as (_ & _ & Hs). apply Hs.
  assert (match load_memory None with
          | Ok c => forallb (λ b, is_finite (amount_usd b) &&
                      forallb (λ t, is_finite (at_ t)) (thresholds b)) (budget_configs c)
          | Err _ => true
          end = true) as Hz by (vm_compute; reflexivity).
  rewrite Hl in Hz. apply Forall_forall. intros b Hb. apply list_elem_of_In in Hb.
  rewrite forallb_forall in Hz. apply Hz in Hb. apply andb_true_iff in Hb as [H1 H2].
  split; [exact H1|]. apply Forall_forall. intros t Ht%list_elem_of_In.
  rewrite forallb_forall in H2. by apply H2.
Defined.

Lemma root_token_omitted_witness :
  ∃ cfg cfg', load_memory None = Ok cfg ∧ load_memory (Some (VObject [])) = Ok cfg' ∧
    read_admin_token (λ _, Some "secret") cfg = Ok None ∧
    read_admin_token (λ _, Some "secret") cfg' = Ok (Some "secret").
Proof.
  destruct (load_memory None) as [cfg|e] eqn:Hl.
  2: { assert (match load_memory None with Ok _ => true | Err _ => false end = true) as Hz
         by (vm_compute; reflexivity). rewrite Hl in Hz. discriminate. }
  destruct (load_memory (Some (VObject []))) as [cfg'|e] eqn:Hl'.
  2: { assert (match load_memory (Some (VObject [])) with Ok _ => true | Err _ => false end = true)
         as Hz by (vm_compute; reflexivity). rewrite Hl' in Hz. discriminate. }
  exists cfg, cfg'. split_and!; [reflexivity|reflexivity| |].
  - exact (root_token_omitted _ _ (λ _, Some "secret") "memory.yaml" ""
             (memory_yaml None [one_budget]) _ cfg eq_refl eq_refl Hl).
  - exact (root_token_omitted _ _ (λ _, Some "secret") "memory.yaml" ""
             (memory_yaml (Some (VObject [])) [one_budget]) _ cfg' eq_refl eq_refl Hl' [] eq_refl (not_elem_of_nil _)).
Defined.
End Shipped.
