(* ===== verification/AdminPricing.v ===== *)
(** Prices through the Admin API: gateway-api/src/routes/admin/pricing.rs.  The
    effective catalog is the base catalog overlaid with the stored overrides. *)
From Stdlib Require Import ZArith Lia Bool Ascii String SpecFloat.
From stdpp Require Import prelude gmap strings list sorting.
From S2P Require Import Prelude Text F64 Json Errors Models Stores Pricing MemoryMeta MemoryLog Sql SqliteMeta PostgresMeta.
Open Scope Z_scope.

Definition row_to_entry (r : PricingRow) : PricingEntry :=
  {| pe_provider := pr_provider r; pe_model := pr_model r;
     input_per_1k := pr_input_per_1k r; output_per_1k := pr_output_per_1k r;
     cached_input_per_1k := pr_cached_input_per_1k r |}.

Definition merged_catalog (base : PricingCatalog) (rows : list PricingRow) : PricingCatalog :=
  with_overrides base (row_to_entry <$> rows).

(** The part of [AppState] the handlers use: the metadata store, the base catalog and
    the effective one (an [ArcSwap]). *)
Record PricingState (M : Type) : Type := {
  ps_metadata : M;
  ps_base : PricingCatalog;
  ps_effective : PricingCatalog
}.
Arguments ps_metadata {M} _.
Arguments ps_base {M} _.
Arguments ps_effective {M} _.

Record PricingItem : Type := {
  pi_provider : string;
  pi_model : string;
  pi_input_per_1k : f64;
  pi_output_per_1k : f64;
  pi_cached_input_per_1k : option f64;
  pi_source : string
}.

Record UpsertPricingBody : Type := {
  up_provider : string;
  up_model : string;
  up_input_per_1k : f64;
  up_output_per_1k : f64;
  up_cached_input_per_1k : option f64
}.

(** [v.is_finite() && v >= 0.0] *)
Definition valid_price (v : f64) : bool := is_finite v && f64_leb f64_zero v.

Definition item_le (a b : PricingItem) : Prop :=
  pair_le (pi_provider a, pi_model a) (pi_provider b, pi_model b).
#[export] Instance item_le_dec : RelDecision item_le.
Proof. intros a b. unfold item_le. apply _. Defined.

Section Handlers.
Context `{HashOrder} `{MetadataStore M}.

Definition set_metadata (s : PricingState M) (m : M) : PricingState M :=
  {| ps_metadata := m; ps_base := ps_base s; ps_effective := ps_effective s |}.

Definition refresh_pricing (s : PricingState M) : result unit ApiError * PricingState M :=
  match list_pricing (ps_metadata s) with
  | Err e => (Err (AStorage e), s)
  | Ok rows =>
      (Ok (), {| ps_metadata := ps_metadata s; ps_base := ps_base s;
                 ps_effective := merged_catalog (ps_base s) rows |})
  end.

Definition pricing_item (overrides : list PricingRow) (merged : PricingCatalog)
    (e : PricingEntry) : PricingItem :=
  {| pi_provider := pe_provider e; pi_model := pe_model e;
     pi_input_per_1k := input_per_1k e; pi_output_per_1k := output_per_1k e;
     pi_cached_input_per_1k := cached_input_per_1k e;
     pi_source :=
       if existsb (λ r, String.eqb (pr_provider r) (pe_provider e) &&
                        String.eqb (pr_model r) (pe_model e)) overrides
       then "override" else source merged (pe_provider e) (pe_model e) |}.

(** [sort_by] is stable. *)
Definition admin_list_pricing (s : PricingState M) : result (list PricingItem) ApiError :=
  let? overrides := map_err AStorage (list_pricing (ps_metadata s)) in
  let merged := merged_catalog (ps_base s) overrides in
  Ok (merge_sort item_le (pricing_item overrides merged <$> catalog_entries merged)).

(** A write, then the new effective catalog. *)
Definition write_pricing (w : store_result unit * M) (s : PricingState M) :
    result unit ApiError * PricingState M :=
  match w with
  | (Err e, m) => (Err (AStorage e), set_metadata s m)
  | (Ok _, m) => refresh_pricing (set_metadata s m)
  end.

Definition pricing_row (provider model_ : string) (body : UpsertPricingBody) : PricingRow :=
  {| pr_provider := provider; pr_model := model_;
     pr_input_per_1k := up_input_per_1k body; pr_output_per_1k := up_output_per_1k body;
     pr_cached_input_per_1k := up_cached_input_per_1k body |}.

Definition valid_body (body : UpsertPricingBody) : bool :=
  valid_price (up_input_per_1k body) && valid_price (up_output_per_1k body) &&
  match up_cached_input_per_1k body with Some v => valid_price v | None => true end.

Definition admin_upsert_pricing (body : UpsertPricingBody) (s : PricingState M) :
    result unit ApiError * PricingState M :=
  let provider := trim (up_provider body) in
  let model_ := trim (up_model body) in
  if str_is_empty provider || str_is_empty model_ then
    (Err (ABadRequest "provider and model are required"), s)
  else if negb (valid_body body) then
    (Err (ABadRequest "prices must be non-negative numbers"), s)
  else write_pricing (upsert_pricing (ps_metadata s) (pricing_row provider model_ body)) s.

Definition admin_delete_pricing (provider model_ : string) (s : PricingState M) :
    result unit ApiError * PricingState M :=
  write_pricing (delete_pricing (ps_metadata s) provider model_) s.
End Handlers.

(** ** Recomputing *)

Record Recomputed : Type := {
  rc_updated_rows : Z;
  rc_models_matched : Z;
  rc_models_without_price : list string
}.

Section Recompute.
Context `{LogStore L}.

(** One pair of provider and model; counters are [u64] and [u32]. *)
Definition recompute_one (catalog : PricingCatalog) (from to : option Z)
    (key : string * string) (acc : Recomputed) (l : L) : result Recomputed ApiError * L :=
  match catalog_lookup catalog key.1 key.2 with
  | None =>
      (Ok {| rc_updated_rows := rc_updated_rows acc;
             rc_models_matched := rc_models_matched acc;
             rc_models_without_price :=
               rc_models_without_price acc ++ [key.1 +:+ "/" +:+ key.2]%string |}, l)
  | Some e =>
      let cached_rate := default (input_per_1k e) (cached_input_per_1k e) in
      match recompute_costs l key.1 key.2 (input_per_1k e) cached_rate (output_per_1k e)
              from to with
      | (Err e, l) => (Err (AStorage e), l)
      | (Ok n, l) =>
          (Ok {| rc_updated_rows := as_u64 (rc_updated_rows acc + n);
                 rc_models_matched := as_u32 (rc_models_matched acc + 1);
                 rc_models_without_price := rc_models_without_price acc |}, l)
      end
  end.

Fixpoint recompute_keys (catalog : PricingCatalog) (from to : option Z)
    (keys : list (string * string)) (acc : Recomputed) (l : L) :
    result Recomputed ApiError * L :=
  match keys with
  | [] => (Ok acc, l)
  | k :: rest =>
      match recompute_one catalog from to k acc l with
      | (Err e, l) => (Err e, l)
      | (Ok acc, l) => recompute_keys catalog from to rest acc l
      end
  end.

Definition admin_recompute_costs (catalog : PricingCatalog) (from to : option Z) (l : L) :
    result Recomputed ApiError * L :=
  match flush l with
  | (Err e, l) => (Err (AStorage e), l)
  | (Ok _, l) =>
      match distinct_cost_keys l from to with
      | Err e => (Err (AStorage e), l)
      | Ok keys =>
          recompute_keys catalog from to keys
            {| rc_updated_rows := 0; rc_models_matched := 0; rc_models_without_price := [] |} l
      end
  end.
End Recompute.

(** * What the handlers rely on *)

(** The overrides are one row per provider and model. *)
Class PricingLaws (M : Type) `{MetadataStore M} : Type := {
  price_of : M → string → string → option PricingRow;
  prices_wf : M → Prop;
  list_pricing_spec m rows :
    prices_wf m → list_pricing m = Ok rows →
    NoDup ((λ r, (pr_provider r, pr_model r)) <$> rows) ∧
    ∀ p mo r, (r ∈ rows ∧ pr_provider r = p ∧ pr_model r = mo) ↔ price_of m p mo = Some r;
  upsert_pricing_spec m p m' :
    prices_wf m → real_or_null (pr_cached_input_per_1k p) = pr_cached_input_per_1k p →
    upsert_pricing m p = (Ok (), m') →
    prices_wf m' ∧ ∀ pr mo, price_of m' pr mo =
      if String.eqb pr (pr_provider p) && String.eqb mo (pr_model p) then Some p
      else price_of m pr mo;
  delete_pricing_spec m p mo m' :
    prices_wf m → delete_pricing m p mo = (Ok (), m') →
    prices_wf m' ∧ ∀ pr mo', price_of m' pr mo' =
      if String.eqb pr p && String.eqb mo' mo then None else price_of m pr mo'
}.

#[export] Instance memory_pricing_laws `{HashOrder} : PricingLaws MemMeta.
Proof.
  refine {| price_of m p mo := pricing m !! (p, mo);
            prices_wf m := ∀ p mo r, pricing m !! (p, mo) = Some r →
              pr_provider r = p ∧ pr_model r = mo |}.
  - intros m rows Hwf [= <-]. split.
    + unfold hash_values. rewrite <- list_fmap_compose.
      rewrite (list_fmap_ext _ fst (hash_iter (pricing m))); [apply NoDup_hash_iter|].
      intros i [[p mo] r] Hi. apply list_elem_of_lookup_2, elem_of_hash_iter in Hi.
      simpl. by destruct (Hwf p mo r Hi) as [-> ->].
    + intros p mo r. rewrite elem_of_hash_values. split.
      * intros ([[p' mo'] Hr] & <- & <-). by destruct (Hwf _ _ _ Hr) as [-> ->].
      * intros Hr. destruct (Hwf _ _ _ Hr) as [<- <-]. split; [by eexists|done].
  - intros m p m' Hwf _ [= <-]. simpl. split.
    + intros p' mo r. rewrite lookup_insert_Some. intros [[[= <- <-] <-]|[_ Hr]]; [done|].
      by apply Hwf.
    + intros pr mo. destruct (String.eqb_spec pr (pr_provider p)) as [->|Hne]; simpl.
      * destruct (String.eqb_spec mo (pr_model p)) as [->|Hne].
        -- by rewrite lookup_insert_eq.
        -- rewrite lookup_insert_ne; congruence.
      * rewrite lookup_insert_ne; congruence.
  - intros m p mo m' Hwf [= <-]. simpl. split.
    + intros p' mo' r [_ Hr]%lookup_delete_Some. by apply Hwf.
    + intros pr mo'. destruct (String.eqb_spec pr p) as [->|Hne]; simpl.
      * destruct (String.eqb_spec mo' mo) as [->|Hne].
        -- by rewrite lookup_delete_eq.
        -- rewrite lookup_delete_ne; congruence.
      * rewrite lookup_delete_ne; congruence.
Defined.

(** The pricing table with the override of a pair set. *)
Definition price_rows_wf (t : gmap (string * string * Z) PricingRow) : Prop :=
  ∀ p mo e r, t !! (p, mo, e) = Some r → e = 0 ∧ pr_provider r = p ∧ pr_model r = mo.

Lemma price_rows_upsert (t : gmap (string * string * Z) PricingRow) p :
  price_rows_wf t →
  let t' := insert_or (pr_provider p, pr_model p, 0) p (λ _ new, new) t in
  price_rows_wf t' ∧ ∀ pr mo, t' !! (pr, mo, 0) =
    if String.eqb pr (pr_provider p) && String.eqb mo (pr_model p) then Some p
    else t !! (pr, mo, 0).
Proof.
  intros Hwf t'. subst t'. rewrite insert_or_insert.
  replace (match t !! _ with Some _ => p | None => p end) with p by by case_match.
  split.
  - intros p' mo e r. rewrite lookup_insert_Some. intros [[[= <- <- <-] <-]|[_ Hr]]; [done|].
    by apply Hwf.
  - intros pr mo. destruct (String.eqb_spec pr (pr_provider p)) as [->|Hne]; simpl.
    + destruct (String.eqb_spec mo (pr_model p)) as [->|Hne].
      * by rewrite lookup_insert_eq.
      * rewrite lookup_insert_ne; congruence.
    + rewrite lookup_insert_ne; congruence.
Qed.

#[export] Instance sqlite_pricing_laws `{HashOrder} `{SerdeJson} `{SqlEngine} :
    PricingLaws SqlDb.
Proof.
  refine {| price_of d p mo := t_pricing d !! (p, mo, 0);
            prices_wf d := price_rows_wf (t_pricing d) |}.
  - intros d rows Hwf Hr. apply reading_Ok in Hr as ->. unfold scan. split.
    + unfold hash_values. rewrite <- list_fmap_compose.
      rewrite (list_fmap_ext _ (fst ∘ fst) (hash_iter (t_pricing d))).
      * rewrite list_fmap_compose. apply NoDup_fmap_2_strong; [|apply NoDup_hash_iter].
        intros [[p mo] e] [[p' mo'] e'] Hk Hk' [= -> ->]. f_equal.
        apply list_elem_of_fmap in Hk as ([k r] & Heq & Hk%elem_of_hash_iter).
        apply list_elem_of_fmap in Hk' as ([k' r'] & Heq' & Hk'%elem_of_hash_iter).
        simpl in Heq, Heq'. subst k k'.
        destruct (Hwf _ _ _ _ Hk) as [-> _]. by destruct (Hwf _ _ _ _ Hk') as [-> _].
      * intros i [[[p mo] e] r] Hi. apply list_elem_of_lookup_2, elem_of_hash_iter in Hi.
        simpl. by destruct (Hwf p mo e r Hi) as (_ & -> & ->).
    + intros p mo r. rewrite elem_of_hash_values. split.
      * intros ([[[p' mo'] e] Hr] & <- & <-). by destruct (Hwf _ _ _ _ Hr) as (-> & -> & ->).
      * intros Hr. destruct (Hwf _ _ _ _ Hr) as (_ & <- & <-). split; [by eexists|done].
  - intros d p d' Hwf Hn Hs. apply statement_Ok in Hs. unfold upsert_price in Hs.
    do 2 (destruct (real_not_null _); [|done]). injection Hs as <-.
    assert (Hp : priced_row p = p) by (unfold priced_row; rewrite Hn; by destruct p).
    cbn [t_pricing set_t_pricing]. rewrite Hp. by apply price_rows_upsert.
  - intros d p mo d' Hwf Hs. apply statement_Ok in Hs. injection Hs as <-. simpl. split.
    + intros p' mo' e r [Hr _]%map_lookup_filter_Some. by apply Hwf.
    + intros pr mo'. apply option_eq. intros r. rewrite map_lookup_filter_Some. simpl.
      split.
      * intros [Hr Hne]. destruct (Hwf _ _ _ _ Hr) as (_ & <- & <-). by rewrite Hne.
      * intros Hr. destruct (String.eqb pr p && String.eqb mo' mo) eqn:Hk; [done|].
        split; [done|]. by destruct (Hwf _ _ _ _ Hr) as (_ & -> & ->).
Defined.

#[export] Instance postgres_pricing_laws `{HashOrder} `{SerdeJson} `{SqlEngine} :
    PricingLaws PgDb.
Proof.
  refine {| price_of d := price_of (pg_tables d); prices_wf d := prices_wf (pg_tables d) |}.
  - intros d. exact (list_pricing_spec (M:=SqlDb) (pg_tables d)).
  - intros d p d' Hwf _ Hs%on_tables_inv. apply statement_Ok in Hs. injection Hs as Hs.
    cbn [price_of prices_wf sqlite_pricing_laws]. rewrite <- Hs. by apply price_rows_upsert.
  - intros d p mo d' Hwf Hs%on_tables_inv.
    exact (delete_pricing_spec (M:=SqlDb) (pg_tables d) p mo _ Hwf Hs).
Defined.

(** * The effective catalog *)

Section Facts.
Context `{HashOrder} `{PricingLaws M}.

(** The effective catalog: the stored override of a pair, else what the base says; the
    fetched prices are those of the base. *)
Definition in_force (s : PricingState M) : Prop :=
  (∀ p mo, by_key (ps_effective s) !! (p, mo) =
     match price_of (ps_metadata s) p mo with
     | Some r => Some (row_to_entry r)
     | None => by_key (ps_base s) !! (p, mo)
     end) ∧
  ∃ keys, ps_effective s = set_by_key (ps_base s) keys.

Lemma merged_lookup base rows p mo :
  NoDup ((λ r, (pr_provider r, pr_model r)) <$> rows) →
  by_key (merged_catalog base rows) !! (p, mo) =
  match List.find (λ r, bool_decide ((pr_provider r, pr_model r) = (p, mo))) rows with
  | Some r => Some (row_to_entry r)
  | None => by_key base !! (p, mo)
  end.
Proof.
  unfold merged_catalog. cbn [with_overrides set_by_key by_key].
  unfold insert_entries. generalize (by_key base) as m.
  induction rows as [|r rows IH]; intros m Hnd; [done|]. cbn in Hnd.
  apply NoDup_cons in Hnd as [Hr Hnd]. cbn [fmap list_fmap foldl List.find].
  rewrite IH by done. unfold pe_key. cbn [pe_provider pe_model row_to_entry].
  case_bool_decide as Hk.
  - destruct (List.find _ rows) as [r'|] eqn:Hf.
    + apply List.find_some in Hf as [Hin%list_elem_of_In Hf%bool_decide_eq_true].
      destruct Hr. rewrite Hk, <- Hf. by apply (list_elem_of_fmap_2 (λ r, (pr_provider r, pr_model r))).
    + rewrite Hk. by rewrite lookup_insert_eq.
  - by rewrite lookup_insert_ne.
Qed.

Lemma refresh_in_force s s' :
  prices_wf (ps_metadata s) → refresh_pricing s = (Ok (), s') →
  in_force s' ∧ ps_metadata s' = ps_metadata s ∧ ps_base s' = ps_base s.
Proof.
  intros Hwf. unfold refresh_pricing.
  destruct (list_pricing (ps_metadata s)) as [rows|e] eqn:Hl; [|done]. intros [= <-].
  destruct (list_pricing_spec _ _ Hwf Hl) as [Hnd Hrows]. split; [|done].
  split; [|by eexists]. intros p mo. cbn [ps_effective ps_metadata ps_base].
  rewrite merged_lookup by done.
  destruct (List.find _ rows) as [r|] eqn:Hf.
  - apply List.find_some in Hf as [Hin%list_elem_of_In [= Hp Hm]%bool_decide_eq_true].
    by rewrite (proj1 (Hrows p mo r) (conj Hin (conj Hp Hm))).
  - destruct (price_of (ps_metadata s) p mo) as [r|] eqn:Hr; [|done].
    apply Hrows in Hr as (Hin%list_elem_of_In & <- & <-).
    by apply (List.find_none _ _ Hf), bool_decide_eq_false in Hin.
Qed.

Lemma write_in_force w s s' :
  write_pricing w s = (Ok (), s') → (w.1 = Ok () → prices_wf w.2) →
  w.1 = Ok () ∧ in_force s' ∧ ps_metadata s' = w.2 ∧ ps_base s' = ps_base s.
Proof.
  unfold write_pricing. destruct w as [[[]|e] m]; [|done]. intros Hr Hwf.
  split; [done|]. apply refresh_in_force in Hr; [exact Hr|by apply Hwf].
Qed.

Lemma valid_price_not_nan v : valid_price v = true → is_nan v = false.
Proof. by destruct v. Qed.

Lemma upsert_accepted body s s' :
  admin_upsert_pricing body s = (Ok (), s') → prices_wf (ps_metadata s) →
  valid_body body = true ∧ in_force s' ∧ prices_wf (ps_metadata s') ∧
  ps_base s' = ps_base s ∧
  ∀ p mo, price_of (ps_metadata s') p mo =
    if String.eqb p (trim (up_provider body)) && String.eqb mo (trim (up_model body))
    then Some (pricing_row (trim (up_provider body)) (trim (up_model body)) body)
    else price_of (ps_metadata s) p mo.
Proof.
  unfold admin_upsert_pricing. destruct (_ || _); [done|].
  destruct (valid_body body) eqn:Hv; [|done]. cbn [negb]. intros Hw Hwf.
  set (row := pricing_row _ _ body) in *.
  assert (Hn : real_or_null (pr_cached_input_per_1k row) = pr_cached_input_per_1k row).
  { unfold valid_body in Hv. apply andb_true_iff in Hv as [_ Hv]. simpl.
    destruct (up_cached_input_per_1k body) as [v|]; [|done]. simpl.
    by rewrite (valid_price_not_nan v Hv). }
  destruct (upsert_pricing (ps_metadata s) row) as [r m] eqn:Hu.
  apply write_in_force in Hw as (Hr & Hf & Hm & Hb).
  - simpl in Hr, Hm. subst r. destruct (upsert_pricing_spec _ _ _ Hwf Hn Hu) as [Hwf' Hp].
    rewrite Hm. by split_and!.
  - simpl. intros ->. by destruct (upsert_pricing_spec _ _ _ Hwf Hn Hu).
Qed.

Lemma pair_eqb (p p' mo mo' : string) :
  bool_decide ((p', mo') = (p, mo)) = String.eqb p' p && String.eqb mo' mo.
Proof.
  apply eq_bool_prop_intro. rewrite bool_decide_spec, Is_true_true, andb_true_iff, !String.eqb_eq.
  naive_solver.
Qed.

(** The effective catalog once one more override is stored. *)
Lemma in_force_set s s' p mo row :
  in_force s → in_force s' → ps_base s' = ps_base s →
  (∀ p' mo', price_of (ps_metadata s') p' mo' =
     if String.eqb p' p && String.eqb mo' mo then Some row
     else price_of (ps_metadata s) p' mo') →
  by_key (ps_effective s') = <[(p, mo) := row_to_entry row]> (by_key (ps_effective s)) ∧
  ∀ keys, ps_effective s = set_by_key (ps_base s) keys →
    ps_effective s' = set_by_key (ps_base s) (<[(p, mo) := row_to_entry row]> keys).
Proof.
  intros [Hl _] [Hl' [keys' Hs']] Hb Hp.
  assert (Hk : by_key (ps_effective s') = <[(p, mo) := row_to_entry row]> (by_key (ps_effective s))).
  { apply map_eq. intros [p' mo']. rewrite Hl', Hp, Hb, <- pair_eqb. case_bool_decide as Heq.
    - by rewrite Heq, lookup_insert_eq.
    - by rewrite lookup_insert_ne, Hl. }
  split; [done|]. intros keys Hs. rewrite Hs' in Hk |- *. rewrite Hs in Hk. cbn in Hk.
  by rewrite Hk, Hb.
Qed.

Lemma delete_accepted p mo s s' :
  admin_delete_pricing p mo s = (Ok (), s') → prices_wf (ps_metadata s) →
  in_force s' ∧ prices_wf (ps_metadata s') ∧ ps_base s' = ps_base s ∧
  ∀ pr mo', price_of (ps_metadata s') pr mo' =
    if String.eqb pr p && String.eqb mo' mo then None else price_of (ps_metadata s) pr mo'.
Proof.
  unfold admin_delete_pricing. intros Hw Hwf.
  destruct (delete_pricing (ps_metadata s) p mo) as [r m] eqn:Hu.
  apply write_in_force in Hw as (Hr & Hf & Hm & Hb).
  - simpl in Hr, Hm. subst r. destruct (delete_pricing_spec _ _ _ _ Hwf Hu) as [Hwf' Hp].
    rewrite Hm. by split_and!.
  - simpl. intros ->. by destruct (delete_pricing_spec _ _ _ _ Hwf Hu).
Qed.
End Facts.

(** ** Sequences of accepted requests *)

Section Accepted.
Context `{HashOrder} `{PricingLaws M}.

Inductive accepted : relation (PricingState M) :=
| accepted_upsert body s s' : admin_upsert_pricing body s = (Ok (), s') → accepted s s'
| accepted_delete p mo s s' : admin_delete_pricing p mo s = (Ok (), s') → accepted s s'.

(** Every stored override is a price a cost may be computed from. *)
Definition overrides_ok (s : PricingState M) : Prop :=
  prices_wf (ps_metadata s) ∧
  ∀ p mo r, price_of (ps_metadata s) p mo = Some r → entry_ok (row_to_entry r).

Lemma valid_price_rate_ok v : valid_price v = true → rate_ok v.
Proof.
  unfold valid_price, rate_ok. rewrite andb_true_iff, <- ge0_leb. tauto.
Qed.

Lemma valid_body_entry_ok p mo body :
  valid_body body = true → entry_ok (row_to_entry (pricing_row p mo body)).
Proof.
  unfold valid_body. rewrite !andb_true_iff. intros [[Hi Ho] Hc].
  split_and!; simpl; [by apply valid_price_rate_ok..|].
  intros x Hx. rewrite Hx in Hc. by apply valid_price_rate_ok.
Qed.

Lemma accepted_ok s s' :
  accepted s s' → overrides_ok s → overrides_ok s' ∧ in_force s' ∧ ps_base s' = ps_base s.
Proof.
  intros [body x x' Ha|p mo x x' Ha] [Hwf Hok].
  - destruct (upsert_accepted _ _ _ Ha Hwf) as (Hv & Hf & Hwf' & Hb & Hp).
    split; [|done]. split; [done|]. intros p mo r. rewrite Hp. case_match; [|by apply Hok].
    intros [= <-]. by apply valid_body_entry_ok.
  - destruct (delete_accepted _ _ _ _ Ha Hwf) as (Hf & Hwf' & Hb & Hp).
    split; [|done]. split; [done|]. intros p' mo' r. rewrite Hp. case_match; [done|by apply Hok].
Qed.
End Accepted.

(** C33: Prices set through the Admin API stay well-formed: after any sequence of accepted
    requests every stored override is a finite, non-negative price, and the catalog
    requests are billed with is exactly the base catalog overlaid with the overrides. *)
Theorem admin_prices_well_formed `{HashOrder} `{PricingLaws M} (s s' : PricingState M) :
  tc accepted s s' → overrides_ok s →
  overrides_ok s' ∧ in_force s' ∧ ps_base s' = ps_base s.
Proof.
  induction 1 as [s s' Ha|s s1 s' Ha _ IH]; intros Hok; [by apply accepted_ok|].
  destruct (accepted_ok _ _ Ha Hok) as (Hok1 & _ & <-). by apply IH.
Qed.

(** C25: An accepted price takes effect at once, where it should: a lookup of the (trimmed)
    provider and model finds exactly the given rates; any other lookup answers as before,
    unless it falls back on that pair (the model less its date, the model of any provider,
    the names of a fetched entry), when it may find the new rates; every other stored price
    is as before.  Deleting it brings the base price of the pair back and, when it had
    replaced no other override, every lookup to what it was. *)
Theorem admin_price_takes_effect `{HashOrder} `{PricingLaws M} body (s s1 s2 : PricingState M) :
  prices_wf (ps_metadata s) → in_force s →
  admin_upsert_pricing body s = (Ok (), s1) →
  admin_delete_pricing (trim (up_provider body)) (trim (up_model body)) s1 = (Ok (), s2) →
  let p := trim (up_provider body) in
  let mo := trim (up_model body) in
  let new := {| pe_provider := p; pe_model := mo; input_per_1k := up_input_per_1k body;
                output_per_1k := up_output_per_1k body;
                cached_input_per_1k := up_cached_input_per_1k body |} in
  catalog_lookup (ps_effective s1) p mo = Some new ∧
  (∀ p' mo', catalog_lookup (ps_effective s1) p' mo' = catalog_lookup (ps_effective s) p' mo' ∨
     (catalog_lookup (ps_effective s1) p' mo' = Some new ∧
      (p, mo) ∈ consulted (ps_base s) p' mo')) ∧
  (∀ k, k ≠ (p, mo) → by_key (ps_effective s1) !! k = by_key (ps_effective s) !! k ∧
     by_key (ps_effective s2) !! k = by_key (ps_effective s) !! k) ∧
  by_key (ps_effective s2) !! (p, mo) = by_key (ps_base s) !! (p, mo) ∧
  (price_of (ps_metadata s) p mo = None →
   ∀ p' mo', catalog_lookup (ps_effective s2) p' mo' = catalog_lookup (ps_effective s) p' mo').
Proof.
  intros Hwf Hin Hu Hd p mo new.
  destruct (upsert_accepted _ _ _ Hu Hwf) as (_ & Hin1 & Hwf1 & Hb1 & Hp1).
  destruct (delete_accepted _ _ _ _ Hd Hwf1) as (Hin2 & _ & Hb2 & Hp2).
  fold p mo in Hp1, Hp2.
  pose proof (in_force_set s s1 p mo _ Hin Hin1 Hb1 Hp1) as [Hk1 Hset].
  assert (Hk2 : ∀ k, by_key (ps_effective s2) !! k =
    if decide (k = (p, mo)) then by_key (ps_base s) !! k else by_key (ps_effective s1) !! k).
  { intros [p' mo']. rewrite (proj1 Hin2), (proj1 Hin1), Hp2, Hb2, Hb1, <- pair_eqb.
    case_decide; [by case_bool_decide|]. by case_bool_decide. }
  split_and!.
  - rewrite catalog_lookup_consulted. cbn [consulted app first_price].
    by rewrite Hk1, lookup_insert_eq.
  - intros p' mo'. destruct Hin as [_ [keys Hs]]. rewrite (Hset keys Hs), Hs. apply lookup_set_price.
  - intros k Hk. rewrite Hk2, Hk1, decide_False by done. by rewrite lookup_insert_ne.
  - by rewrite Hk2, decide_True.
  - intros Hno. destruct Hin as [Hl [keys Hs]], Hin2 as [Hl2 [keys2 Hs2]].
    assert (Heq : ps_effective s2 = ps_effective s); [|by rewrite Heq].
    rewrite Hs, Hs2, Hb2, Hb1. f_equal. apply map_eq. intros k.
    change keys2 with (by_key (set_by_key (ps_base s2) keys2)).
    change keys with (by_key (set_by_key (ps_base s) keys)). rewrite <- Hs2, <- Hs, Hk2, Hk1.
    case_decide as Hk; [|by rewrite lookup_insert_ne]. subst k. by rewrite Hl, Hno.
Qed.

(** What a recomputation leaves out: the pairs without a price. *)
Definition unpriced (catalog : PricingCatalog) (keys : list (string * string)) : list string :=
  (λ k, k.1 +:+ "/" +:+ k.2)%string <$>
    List.filter (λ k, match catalog_lookup catalog k.1 k.2 with None => true | _ => false end) keys.

Lemma recompute_keys_report `{LogStore L} catalog from to keys acc (l : L) r l' :
  recompute_keys catalog from to keys acc l = (Ok r, l') →
  rc_models_without_price r = rc_models_without_price acc ++ unpriced catalog keys ∧
  rc_models_matched r =
    foldl (λ n _, as_u32 (n + 1)) (rc_models_matched acc)
      (List.filter (λ k, match catalog_lookup catalog k.1 k.2 with None => false | _ => true end) keys).
Proof.
  revert acc l. induction keys as [|k keys IH]; intros acc l; cbn [recompute_keys].
  { intros [= <- _]. cbn. by rewrite app_nil_r. }
  unfold recompute_one, unpriced. cbn [List.filter].
  destruct (catalog_lookup catalog k.1 k.2) as [e|].
  - destruct (recompute_costs _ _ _ _ _ _ _ _) as [[n|e'] l1]; [|done]. apply IH.
  - intros (Hw & Hm)%IH. cbn [rc_models_without_price rc_models_matched] in *. split; [|done].
    rewrite Hw. cbn [fmap list_fmap]. by rewrite <- app_assoc.
Qed.

Section Example.
#[local] Existing Instance tree_order.

Definition new_price : UpsertPricingBody :=
  {| up_provider := " openai "; up_model := "gpt-4o-mini"; up_input_per_1k := f64_of_Z 1;
     up_output_per_1k := f64_of_Z 2; up_cached_input_per_1k := None |}.

Definition priced_state : PricingState MemMeta :=
  {| ps_metadata := meta_new (λ _, 7); ps_base := sample_catalog;
     ps_effective := sample_catalog |}.

Lemma priced_in_force : in_force priced_state.
Proof.
  split; [|by exists (by_key sample_catalog)].
  intros p mo. cbn [price_of memory_pricing_laws ps_metadata priced_state].
  change (pricing (meta_new (λ _, 7)) !! (p, mo)) with ((∅ : gmap (string * string) PricingRow) !! (p, mo)).
  by rewrite lookup_empty.
Qed.

Definition price_set : PricingState MemMeta := (admin_upsert_pricing new_price priced_state).2.
Definition price_unset : PricingState MemMeta :=
  (admin_delete_pricing "openai" "gpt-4o-mini" price_set).2.

Lemma empty_overrides : overrides_ok priced_state.
Proof.
  split.
  - intros p mo r Hr. change ((∅ : gmap (string * string) PricingRow) !! (p, mo) = Some r) in Hr.
    by rewrite lookup_empty in Hr.
  - intros p mo r Hr. change ((∅ : gmap (string * string) PricingRow) !! (p, mo) = Some r) in Hr.
    by rewrite lookup_empty in Hr.
Qed.

Lemma admin_prices_well_formed_witness : overrides_ok price_unset ∧ in_force price_unset.
Proof.
  destruct (admin_prices_well_formed priced_state price_unset) as (Hok & Hf & _).
  - eapply tc_l; [|apply tc_once].
    + apply (accepted_upsert new_price). reflexivity.
    + apply (accepted_delete "openai" "gpt-4o-mini"). reflexivity.
  - apply empty_overrides.
  - by split.
Defined.

(** A dated model finds the new price too; once deleted, the base price again. *)
Lemma admin_price_takes_effect_witness :
  catalog_lookup (ps_effective price_set) "openai" "gpt-4o-mini" =
    Some {| pe_provider := "openai"; pe_model := "gpt-4o-mini"; input_per_1k := f64_of_Z 1;
            output_per_1k := f64_of_Z 2; cached_input_per_1k := None |} ∧
  catalog_lookup (ps_effective price_unset) "openai" "gpt-4o-mini-20250101" =
    Some (sample_price "openai" "gpt-4o-mini").
Proof.
  destruct (admin_price_takes_effect new_price priced_state price_set price_unset)
    as (Hset & _ & _ & _ & Hback);
    [exact (proj1 empty_overrides)|exact priced_in_force|vm_compute; reflexivity..|].
  split; [exact Hset|].
  rewrite (Hback eq_refl "openai"%string "gpt-4o-mini-20250101"%string).
  vm_compute. reflexivity.
Defined.
End Example.
