(* ===== verification/SqliteRecompute.v ===== *)
(** Recomputing costs through the Admin API on the SQLite log store: the handler of
    AdminPricing composed with the statements of SqliteLog.  Every row is repriced once,
    with the rates of its own provider and model. *)
From Stdlib Require Import ZArith Lia Bool Ascii String SpecFloat.
From stdpp Require Import prelude gmap strings list sorting.
From S2P Require Import Prelude Text Decimal F64 Json Errors Models Stores Pricing MemoryLog Sql Codec SqlLog SqliteLog SqliteLogCorrect AdminPricing.
Open Scope Z_scope.

(** * Counting rows *)

Section Count.
Context {K V : Type} `{Countable K}.

Definition count_where (p : V → bool) (t : gmap K V) : Z :=
  Z.of_nat (size (filter (λ kv, p kv.2 = true) t)).

Lemma count_where_insert p i v (t : gmap K V) :
  t !! i = None → count_where p (<[i := v]> t) = (if p v then 1 else 0) + count_where p t.
Proof.
  intros Hi. unfold count_where. rewrite map_filter_insert. simpl.
  destruct (p v).
  - rewrite decide_True by done. rewrite map_size_insert_None; [lia|].
    apply map_lookup_filter_None. by left.
  - rewrite decide_False by done. rewrite delete_id; [lia|done].
Qed.

Lemma count_where_empty p : count_where p (∅ : gmap K V) = 0.
Proof. unfold count_where. by rewrite map_filter_empty, map_size_empty. Qed.

Lemma count_where_none p (t : gmap K V) : (∀ v, p v = false) → count_where p t = 0.
Proof.
  intros Hp. induction t as [|i v t Hi IH] using map_ind; [apply count_where_empty|].
  by rewrite count_where_insert, Hp, IH.
Qed.

Lemma count_where_or p q r (t : gmap K V) :
  (∀ v, r v = p v || q v) → (∀ v, p v && q v = false) →
  count_where r t = count_where p t + count_where q t.
Proof.
  intros Hr Hd. induction t as [|i v t Hi IH] using map_ind; [by rewrite !count_where_empty|].
  rewrite !count_where_insert, IH, Hr by done. specialize (Hd v).
  destruct (p v), (q v); simpl in *; try done; lia.
Qed.

Lemma count_where_ext p q (t : gmap K V) :
  (∀ i v, t !! i = Some v → p v = q v) → count_where p t = count_where q t.
Proof.
  intros He. unfold count_where. do 2 f_equal. apply map_filter_ext.
  intros i v Hv. simpl. by rewrite (He i v Hv).
Qed.

Lemma count_where_fmap p (f : V → V) (t : gmap K V) :
  (∀ v, p (f v) = p v) → count_where p (f <$> t) = count_where p t.
Proof.
  intros Hf. induction t as [|i v t Hi IH] using map_ind; [by rewrite fmap_empty|].
  rewrite fmap_insert, !count_where_insert, IH, Hf; [done|done|]. by rewrite lookup_fmap, Hi.
Qed.
End Count.

(** * What a recomputation does to a row *)

Section Recompute.
Context `{HashOrder} `{SerdeJson} `{SqlEngine} `{LogEngine}.
Context (catalog : PricingCatalog) (from to : option Z).

(** The price of the pair a row is billed under, when the row counts. *)
Definition row_price (c : LogColumns) : option PricingEntry :=
  if billable from to c then k ← billed_under c; catalog_lookup catalog k.1 k.2 else None.

(** The costs of a row at the rates of a price. *)
Definition at_rates (e : PricingEntry) (c : LogColumns) : LogColumns :=
  set_column_costs
    (new_cost (sqlite_uncached c) (input_per_1k e)
       (default (input_per_1k e) (cached_input_per_1k e)) (output_per_1k e) c) c.

Definition repriced (c : LogColumns) : LogColumns :=
  match row_price c with Some e => at_rates e c | None => c end.

Definition has_price (c : LogColumns) : bool :=
  match row_price c with Some _ => true | None => false end.

(** The same for the rows of some of the pairs. *)
Definition among (ks : list (string * string)) (c : LogColumns) : bool :=
  match billed_under c with Some k => bool_decide (k ∈ ks) | None => false end.
Definition repriced_in (ks : list (string * string)) (c : LogColumns) : LogColumns :=
  if among ks c then repriced c else c.

(** Costs decide nothing of all this. *)
Lemma set_costs_same cost c :
  billed_under (set_column_costs cost c) = billed_under c ∧
  row_price (set_column_costs cost c) = row_price c.
Proof. by split. Qed.

Lemma repriced_same c : billed_under (repriced c) = billed_under c ∧ row_price (repriced c) = row_price c.
Proof. unfold repriced. destruct (row_price c) eqn:Hc; [|by rewrite Hc]. split; [done|by rewrite <- Hc]. Qed.

Lemma repriced_in_same ks c :
  billed_under (repriced_in ks c) = billed_under c ∧ row_price (repriced_in ks c) = row_price c.
Proof. unfold repriced_in. destruct (among ks c); [apply repriced_same|done]. Qed.

Lemma recomputed_iff p m c :
  recomputed p m from to c = true ↔ billable from to c = true ∧ billed_under c = Some (p, m).
Proof.
  unfold recomputed, billed_under, opt_is. rewrite !andb_true_iff.
  destruct (billed_provider c) as [p'|], (model (lc_record c)) as [m'|]; simpl;
    rewrite ?String.eqb_eq; split; try naive_solver.
Qed.

(** ** One pair, and all of them *)

Lemma update_costs_table p m e (t : gmap string LogColumns) :
  catalog_lookup catalog p m = Some e →
  sqlite_update_costs p m (input_per_1k e) (default (input_per_1k e) (cached_input_per_1k e))
    (output_per_1k e) from to t =
  (count_where (λ c, among [(p, m)] c && has_price c) t, repriced_in [(p, m)] <$> t).
Proof.
  intros He.
  assert (Hhit : ∀ c, recomputed p m from to c = among [(p, m)] c && has_price c).
  { intros c. apply eq_bool_prop_intro. rewrite !Is_true_true, recomputed_iff, andb_true_iff.
    unfold among, has_price, row_price. destruct (billed_under c) as [k|]; [|naive_solver].
    rewrite bool_decide_eq_true, list_elem_of_singleton. simpl. split.
    - intros [-> [= ->]]. simpl. by rewrite He.
    - intros [-> Hp]. destruct (billable from to c); done. }
  unfold sqlite_update_costs. f_equal.
  - unfold count_where. do 2 f_equal. apply map_filter_ext. intros i c _. simpl. by rewrite Hhit.
  - apply map_fmap_ext. intros i c _. rewrite Hhit. unfold repriced_in, repriced, has_price.
    destruct (among [(p, m)] c) eqn:Ha; [|done]. simpl.
    destruct (row_price c) as [e'|] eqn:Hp; [|done].
    unfold row_price in Hp. destruct (billable from to c); [|done].
    unfold among in Ha. destruct (billed_under c) as [k|]; [|done].
    apply bool_decide_eq_true, list_elem_of_singleton in Ha as ->. simpl in Hp.
    rewrite He in Hp. by injection Hp as <-.
Qed.

(** Nothing but the table changes. *)
Definition same_worker (l l' : SqlLogStore) : Prop :=
  channel l' = channel l ∧ buf l' = buf l ∧ worker_alive l' = worker_alive l.

Lemma recompute_one_spec k acc l :
  quiet l → as_u64 (rc_updated_rows acc) = rc_updated_rows acc →
  ∃ acc' l', recompute_one catalog from to k acc l = (Ok acc', l') ∧
    quiet l' ∧ same_worker l l' ∧ log_table l' = repriced_in [k] <$> log_table l ∧
    rc_updated_rows acc' =
      as_u64 (rc_updated_rows acc +
              count_where (λ c, among [k] c && has_price c) (log_table l)).
Proof.
  intros Hq Hu. destruct k as [p m]. unfold recompute_one. cbn [fst snd].
  destruct (catalog_lookup catalog p m) as [e|] eqn:He.
  - cbn [recompute_costs sqlite_log]. unfold sqlite_recompute_costs, log_execute.
    rewrite Hq, (update_costs_table _ _ _ _ He). cbn [map_err].
    do 2 eexists. split; [done|]. split_and!; [intros n; apply Hq|done|done|].
    done.
  - assert (Hno : ∀ c, among [(p, m)] c = true → row_price c = None).
    { intros c Ha. unfold among in Ha. unfold row_price. destruct (billable from to c); [|done].
      destruct (billed_under c) as [k|]; [|done].
      apply bool_decide_eq_true, list_elem_of_singleton in Ha as ->. exact He. }
    do 2 eexists. split; [done|]. split_and!; [done|done| |].
    + symmetry. rewrite <- (map_fmap_id (log_table l)) at 2. apply map_fmap_ext.
      intros i c _. unfold repriced_in, repriced.
      destruct (among [(p, m)] c) eqn:Ha; [by rewrite Hno|done].
    + cbn [rc_updated_rows]. rewrite count_where_none, Z.add_0_r; [by rewrite Hu|].
      intros c. unfold has_price. destruct (among [(p, m)] c) eqn:Ha; [by rewrite Hno|done].
Qed.

Lemma among_cons k ks c : among (k :: ks) c = among [k] c || among ks c.
Proof.
  unfold among. destruct (billed_under c) as [k'|]; [|done].
  apply eq_bool_prop_intro. rewrite orb_True, !bool_decide_spec. set_solver.
Qed.

Lemma among_disjoint k ks c : k ∉ ks → among [k] c && among ks c = false.
Proof.
  intros Hk. unfold among. destruct (billed_under c) as [k'|]; [|done].
  apply not_true_iff_false. rewrite andb_true_iff, !bool_decide_eq_true, list_elem_of_singleton.
  naive_solver.
Qed.

Lemma repriced_in_cons k ks c : k ∉ ks →
  repriced_in ks (repriced_in [k] c) = repriced_in (k :: ks) c.
Proof.
  intros Hk. pose proof (among_disjoint k ks c Hk) as Hd.
  assert (Ha : among ks (repriced_in [k] c) = among ks c).
  { unfold among. by rewrite (proj1 (repriced_in_same [k] c)). }
  unfold repriced_in at 1. rewrite Ha. unfold repriced_in. rewrite (among_cons k ks c).
  destruct (among [k] c), (among ks c); done.
Qed.

Lemma recompute_keys_spec ks acc l :
  quiet l → as_u64 (rc_updated_rows acc) = rc_updated_rows acc → NoDup ks →
  ∃ acc' l', recompute_keys catalog from to ks acc l = (Ok acc', l') ∧
    quiet l' ∧ same_worker l l' ∧ log_table l' = repriced_in ks <$> log_table l ∧
    rc_updated_rows acc' =
      as_u64 (rc_updated_rows acc +
              count_where (λ c, among ks c && has_price c) (log_table l)).
Proof.
  intros Hq Hu Hnd. revert acc l Hq Hu. induction Hnd as [|k ks Hk Hnd IH]; intros acc l Hq Hu.
  { do 2 eexists. split; [done|]. split_and!; [done|done| |].
    - symmetry. rewrite <- (map_fmap_id (log_table l)) at 2. apply map_fmap_ext.
      intros i c _. unfold repriced_in, among. by destruct (billed_under c).
    - rewrite count_where_none, Z.add_0_r; [by rewrite Hu|].
      intros c. unfold among. by destruct (billed_under c). }
  destruct (recompute_one_spec k acc l Hq Hu) as (acc1 & l1 & Hr1 & Hq1 & (Hc1 & Hb1 & Ha1) & Ht1 & Hn1).
  destruct (IH acc1 l1 Hq1 ltac:(rewrite Hn1; apply as_u64_idem)) as (acc2 & l2 & Hr2 & Hq2 & (Hc2 & Hb2 & Ha2) & Ht2 & Hn2).
  exists acc2, l2. cbn [recompute_keys]. rewrite Hr1. split; [done|].
  split_and!; [done|unfold same_worker; by rewrite Hc2, Hb2, Ha2| |].
  - rewrite Ht2, Ht1, <- map_fmap_compose. apply map_fmap_ext. intros i c _.
    by apply repriced_in_cons.
  - rewrite Hn2, Hn1, as_u64_add_l, Ht1. f_equal.
    rewrite count_where_fmap.
    + rewrite (count_where_or (λ c, among [k] c && has_price c) (λ c, among ks c && has_price c)
        (λ c, among (k :: ks) c && has_price c)).
      * lia.
      * intros c. rewrite (among_cons k ks c). by destruct (among [k] c), (among ks c), (has_price c).
      * intros c. pose proof (among_disjoint k ks c Hk).
        by destruct (among [k] c), (among ks c), (has_price c).
    + intros c. unfold has_price, among. by destruct (repriced_in_same [k] c) as [-> ->].
Qed.

(** ** The keys of the sweep *)

Lemma elem_of_cost_keys (t : gmap string LogColumns) k :
  k ∈ select_cost_keys from to t ↔
  ∃ i c, t !! i = Some c ∧ billable from to c = true ∧ billed_under c = Some k.
Proof.
  unfold select_cost_keys. rewrite elem_of_remove_dups, list_elem_of_omap.
  unfold select_where, scan. split.
  - intros (c & Hc & Hk). apply list_elem_of_In, filter_In in Hc as [Hc Hb].
    apply list_elem_of_In, elem_of_hash_values in Hc as [i Hi]. eauto.
  - intros (i & c & Hi & Hb & Hk). exists c. split; [|done].
    apply list_elem_of_In, filter_In. split; [|done]. apply list_elem_of_In, elem_of_hash_values. eauto.
Qed.

Lemma repriced_all (t : gmap string LogColumns) i c :
  t !! i = Some c → repriced_in (select_cost_keys from to t) c = repriced c ∧
    among (select_cost_keys from to t) c && has_price c = has_price c.
Proof.
  intros Hi. unfold repriced_in, among, repriced, has_price, row_price.
  destruct (billed_under c) as [k|] eqn:Hk.
  - destruct (billable from to c) eqn:Hb; [|by case_bool_decide].
    rewrite bool_decide_eq_true_2; [done|]. apply elem_of_cost_keys. eauto.
  - by destruct (billable from to c).
Qed.
(** The whole handler, in terms of the statements. *)
Lemma recompute_repriced rs l l0 :
  idle l → quiet l → fresh rs (log_table l) → serving rs l l0 →
  ∃ report l',
    admin_recompute_costs catalog from to l0 = (Ok report, l') ∧
    log_table l' = repriced <$> stored rs (log_table l) ∧
    rc_updated_rows report = as_u64 (count_where has_price (log_table l')) ∧
    ∀ s, s ∈ rc_models_without_price report ↔
      ∃ i c k, log_table l' !! i = Some c ∧ billable from to c = true ∧
        billed_under c = Some k ∧ catalog_lookup catalog k.1 k.2 = None ∧
        s = (k.1 +:+ "/" +:+ k.2)%string.
Proof.
  intros Hi Hq Hf Hsv. destruct (serving_stores rs l l0 Hi Hq Hf Hsv) as (l1 & Hl1 & Ht1 & _ & Hq1).
  unfold admin_recompute_costs. cbn [flush sqlite_log]. rewrite Hl1.
  cbn [distinct_cost_keys sqlite_log]. unfold sqlite_distinct_cost_keys, log_fetch.
  rewrite (Hq1 0%nat). cbn [map_err].
  destruct (recompute_keys_spec (select_cost_keys from to (log_table l1))
    {| rc_updated_rows := 0; rc_models_matched := 0; rc_models_without_price := [] |} l1 Hq1
    eq_refl ltac:(apply NoDup_remove_dups)) as (report & l2 & Hr & _ & _ & Ht2 & Hu).
  exists report, l2. split; [exact Hr|].
  assert (Ht : log_table l2 = repriced <$> log_table l1).
  { rewrite Ht2. apply map_fmap_ext. intros i c Hc. by apply repriced_all with i. }
  split_and!; [by rewrite Ht, Ht1| |].
  - rewrite Hu, Ht. cbn [rc_updated_rows]. rewrite Z.add_0_l. f_equal.
    rewrite count_where_fmap; [|intros c; unfold has_price; by rewrite (proj2 (repriced_same c))].
    apply count_where_ext. intros i c Hc. by apply repriced_all with i.
  - intros s. destruct (recompute_keys_report _ _ _ _ _ _ _ _ Hr) as [-> _]. simpl.
    rewrite Ht. clear. unfold unpriced. split.
    + intros ([p m] & -> & Hk)%list_elem_of_fmap. apply list_elem_of_In, filter_In in Hk as [Hk Hno].
      apply list_elem_of_In, elem_of_cost_keys in Hk as (i & c & Hc & Hb & Hp).
      exists i, (repriced c), (p, m). rewrite lookup_fmap, Hc. simpl in *.
      destruct (catalog_lookup catalog p m) eqn:He; [done|].
      split_and!; [done| |by rewrite (proj1 (repriced_same c))|done|done].
      unfold repriced. by destruct (row_price c).
    + intros (i & c' & k & Hc & Hb & Hp & Hno & ->). rewrite lookup_fmap in Hc.
      destruct (log_table l1 !! i) as [c|] eqn:Hi'; [|done]. injection Hc as <-.
      rewrite (proj1 (repriced_same c)) in Hp.
      apply list_elem_of_fmap. exists k. split; [done|].
      apply list_elem_of_In, filter_In. rewrite Hno. split; [|done].
      apply list_elem_of_In, elem_of_cost_keys. exists i, c. split_and!; [done| |done].
      revert Hb. unfold repriced. by destruct (row_price c).
Qed.

(** ** What the administrator is promised, without the statements *)

(** What tokens cost at the rates of a price, per thousand and to six decimals. *)
Definition tariff (e : PricingEntry) (prompt cached completion : Z) : f64 :=
  let cached_rate := match cached_input_per_1k e with Some x => x | None => input_per_1k e end in
  let worth n rate := f64_mul (f64_of_Z n) rate in
  round_6 (f64_div
    (f64_add (f64_add (worth (Z.max (prompt - cached) 0) (input_per_1k e))
                (worth cached cached_rate))
       (worth completion (output_per_1k e)))
    (f64_of_Z 1000)).

(** The provider that answered: the fallback if one did, else the last one tried, else the
    namespace. *)
Definition answered_by (c : LogColumns) : option string :=
  match fallback_used (lc_record c) with
  | Some p => Some p
  | None =>
      match lc_metadata c ≫= json_last_provider with
      | Some p => Some p
      | None => namespace (lc_record c)
      end
  end.

(** A record of the window that reports tokens. *)
Definition in_scope (c : LogColumns) : bool :=
  let r := lc_record c in
  (bool_decide (is_Some (prompt_tokens r)) || bool_decide (is_Some (completion_tokens r))) &&
  match from with Some t => t <=? request_ts r | None => true end &&
  match to with Some t => request_ts r <=? t | None => true end.

(** The current price of a record's own provider and model. *)
Definition price_due (c : LogColumns) : option PricingEntry :=
  if in_scope c then
    match answered_by c, model (lc_record c) with
    | Some p, Some m => catalog_lookup catalog p m
    | _, _ => None
    end
  else None.

(** The record with its price: a cached answer costs nothing, but would have. *)
Definition priced_at (e : PricingEntry) (c : LogColumns) : LogColumns :=
  let r := lc_record c in
  let x := real_column (Some (tariff e (default 0 (prompt_tokens r))
    (default 0 (cached_tokens r)) (default 0 (completion_tokens r)))) in
  {| lc_record := set_costs r (if cached r then Some f64_zero else x) x;
     lc_metadata := lc_metadata c |}.
Definition priced (c : LogColumns) : LogColumns :=
  match price_due c with Some e => priced_at e c | None => c end.

(** Token counts whose difference is a 64-bit integer, and rates that are numbers. *)
Definition counts_fit (c : LogColumns) : Prop :=
  in_i64 (default 0 (prompt_tokens (lc_record c)) - default 0 (cached_tokens (lc_record c))).
Definition numeric_rates : Prop := ∀ p m e, catalog_lookup catalog p m = Some e →
  is_nan (input_per_1k e) = false ∧ is_nan (output_per_1k e) = false ∧
  ∀ x, cached_input_per_1k e = Some x → is_nan x = false.

Lemma billable_in_scope c : billable from to c = in_scope c.
Proof.
  unfold billable, in_scope, has_tokens, in_window, holds_or_absent. cbv zeta.
  destruct (prompt_tokens _), (completion_tokens _), from, to; cbn;
    by rewrite ?andb_true_r, ?andb_true_l.
Qed.

Lemma answered_by_billed c : billed_provider c = answered_by c.
Proof.
  unfold answered_by, billed_provider, or_else. destruct (fallback_used _); [done|].
  by destruct (lc_metadata c ≫= json_last_provider).
Qed.

Lemma price_due_row c : row_price c = price_due c.
Proof.
  unfold price_due, row_price, billed_under. rewrite billable_in_scope, answered_by_billed.
  destruct (in_scope c); [|done]. by destruct (answered_by c), (model (lc_record c)).
Qed.

Lemma priced_at_rates c e p m :
  counts_fit c → numeric_rates → catalog_lookup catalog p m = Some e →
  at_rates e c = priced_at e c.
Proof.
  intros [Hl Hh] Hnum (Hi & Ho & Hc)%Hnum. unfold at_rates, priced_at, set_column_costs.
  assert (Hd : is_nan (default (input_per_1k e) (cached_input_per_1k e)) = false).
  { destruct (cached_input_per_1k e); [by apply Hc|done]. }
  unfold new_cost. rewrite Hi, Ho, Hd, andb_false_r.
  unfold rated, tariff, sqlite_uncached.
  rewrite (proj2 (Z.leb_le _ _) Hl), (proj2 (Z.leb_le _ _) Hh). cbn [andb].
  by destruct (cached_input_per_1k e).
Qed.

Lemma priced_repriced c : counts_fit c → numeric_rates → repriced c = priced c.
Proof.
  intros Hfit Hnum. unfold repriced, priced. rewrite price_due_row.
  destruct (price_due c) as [e|] eqn:He; [|done]. unfold price_due in He.
  destruct (in_scope c), (answered_by c), (model (lc_record c)); try done.
  by eapply priced_at_rates.
Qed.

(** Repricing leaves alone what decides the price. *)
Lemma priced_kept c :
  in_scope (repriced c) = in_scope c ∧ answered_by (repriced c) = answered_by c ∧
  model (lc_record (repriced c)) = model (lc_record c).
Proof. unfold repriced. by destruct (row_price c). Qed.
End Recompute.


(** * A concrete sweep *)

Section Example.
#[local] Existing Instance tree_order.
#[local] Existing Instance codec.
#[local] Existing Instance log_sql_engine.
#[local] Existing Instance plain_functions.

Lemma sample_rates : numeric_rates sample_catalog.
Proof.
  intros p m e He.
  assert (Hk : ∃ k, by_key sample_catalog !! k = Some e).
  { unfold catalog_lookup, lookup_openrouter, or_else in He.
    assert (Ho : openrouter_entry sample_catalog m = None) by done. rewrite Ho in He.
    repeat case_match; simplify_eq; try (eexists; eassumption).
    destruct (strip_date m) as [m'|]; [by exists (p, m')|done]. }
  destruct Hk as [k Hk]. set (e0 := sample_price "openai" "gpt-4o-mini").
  change ((<[pe_key e0 := e0]> ∅ : gmap (string * string) PricingEntry) !! k = Some e) in Hk.
  apply lookup_insert_Some in Hk as [[_ <-]|[_ Hk]]; [|by rewrite lookup_empty in Hk].
  split_and!; [vm_compute; reflexivity..|]. intros x [= <-]. vm_compute. reflexivity.
Qed.

Lemma three_fit : map_Forall (λ _ c, counts_fit c) (stored three_records ∅).
Proof.
  unfold stored, three_records. cbn [foldl].
  repeat (apply map_Forall_insert_2; [split; vm_compute; congruence|]). apply map_Forall_empty.
Qed.

End Example.
