(* ===== verification/AdminApi.v ===== *)
(** The Admin API as a whole: the routes that build_router of gateway-api/src/server.rs
    nests under /admin, each with the extractor its handler asks for, over the handlers of
    Auth, AdminLogs and AdminPricing.  A request is the decoded call of a handler: what
    its query or body must hold is in AdminBodies, and how a path is matched and a document
    parsed is the framework's (Server). *)
From Stdlib Require Import ZArith Lia Bool Ascii String SpecFloat.
From stdpp Require Import prelude gmap strings list.
From S2P Require Import Prelude Text F64 Json Codec Errors Models HttpTypes Stores Pricing MemoryCounter MemoryMeta MemoryLog Config Budget Sql SqliteMeta PostgresMeta Security Auth AdminLogs AdminPricing.
Open Scope Z_scope.

(** * Requests and routes *)

Inductive AdminRequest : Type :=
| ReqLogin (req : LoginRequest)
| ReqMe
| ReqCreateAdmin (username password : string)
| ReqListAdmins
| ReqCreateKey (req : CreateKeyRequest)
| ReqListKeys (project_id : option string)
| ReqRevokeKey (key : string)
| ReqListLogs (q : ListLogsQuery)
| ReqGetLog (log : string)
| ReqGetRoutes
| ReqCost (q : CostQuery)
| ReqListPricing
| ReqUpsertPricing (body : UpsertPricingBody)
| ReqRecompute (from to : option Z)
| ReqDeletePricing (provider model : string)
| ReqListBudgets (project_id : option string).

(** The method and the pattern a request is routed by. *)
Definition admin_route (r : AdminRequest) : string * string :=
  match r with
  | ReqLogin _ => ("POST", "/admin/auth/login")
  | ReqMe => ("GET", "/admin/auth/me")
  | ReqCreateAdmin _ _ => ("POST", "/admin/admins")
  | ReqListAdmins => ("GET", "/admin/admins")
  | ReqCreateKey _ => ("POST", "/admin/keys")
  | ReqListKeys _ => ("GET", "/admin/keys")
  | ReqRevokeKey _ => ("DELETE", "/admin/keys/:id")
  | ReqListLogs _ => ("GET", "/admin/logs")
  | ReqGetLog _ => ("GET", "/admin/logs/:id")
  | ReqGetRoutes => ("GET", "/admin/routes")
  | ReqCost _ => ("GET", "/admin/cost")
  | ReqListPricing => ("GET", "/admin/pricing")
  | ReqUpsertPricing _ => ("PUT", "/admin/pricing")
  | ReqRecompute _ _ => ("POST", "/admin/pricing/recompute")
  | ReqDeletePricing _ _ => ("DELETE", "/admin/pricing/:provider/:model")
  | ReqListBudgets _ => ("GET", "/admin/budgets")
  end%string.

Inductive AdminAnswer : Type :=
| AnsLogin (r : LoginResponse)
| AnsMe (r : string * option string * option string)
| AnsAdmin (r : string * string)
| AnsAdmins (r : list (string * string * Z * option Z))
| AnsKey (r : CreateKeyResponse)
| AnsKeys (r : list KeySummary)
| AnsRevoked (r : Value)
| AnsLogs (r : LogsResponse)
| AnsLog (r : RequestLogRecord)
| AnsConfig (r : AppConfig)
| AnsCost (r : AggregateResult)
| AnsPricing (r : list PricingItem)
| AnsOk
| AnsRecomputed (r : Recomputed)
| AnsBudgets (r : list BudgetUsage).

(** What a handler draws: identifiers, random characters, salts and clock readings. *)
Record Draws : Type := {
  d_uuid : string;
  d_random : list ascii;
  d_salt : string;
  d_auth_s : Z;
  d_now_ms : Z;
  d_now_s : Z;
  d_now_s' : Z
}.

(** The part of the shared state the Admin API works on. *)
Record AdminState (M L C : Type) : Type := {
  adm_prices : PricingState M;
  adm_logs : L;
  adm_budgets : BudgetManager C;
  adm_config : AppConfig
}.
Arguments adm_prices {M L C} _.
Arguments adm_logs {M L C} _.
Arguments adm_budgets {M L C} _.
Arguments adm_config {M L C} _.

(** * Handling *)

Section Api.
Context `{HashOrder} `{HttpTypes} `{Crypto} `{SerdeJson} `{Chrono}.
Context `{MetadataStore M} `{LogStore L} `{CounterStore C}.
Context (app : AuthState).

Notation state := (AdminState M L C).

Definition adm_metadata (s : state) : M := ps_metadata (adm_prices s).
Definition with_prices (s : state) (p : PricingState M) : state :=
  {| adm_prices := p; adm_logs := adm_logs s; adm_budgets := adm_budgets s;
     adm_config := adm_config s |}.
Definition with_logs (s : state) (l : L) : state :=
  {| adm_prices := adm_prices s; adm_logs := l; adm_budgets := adm_budgets s;
     adm_config := adm_config s |}.
Definition with_budgets (s : state) (b : BudgetManager C) : state :=
  {| adm_prices := adm_prices s; adm_logs := adm_logs s; adm_budgets := b;
     adm_config := adm_config s |}.

(** Handlers of the metadata store, of the prices, and those that only read. *)
Definition on_metadata {A} (f : A → AdminAnswer) (h : M → result A ApiError * M) :
    prog state (result AdminAnswer ApiError) := λ s,
  let '(r, m) := h (adm_metadata s) in
  Ret (result_map f r, with_prices s (set_metadata (adm_prices s) m)).
Definition on_prices (h : PricingState M → result unit ApiError * PricingState M) :
    prog state (result AdminAnswer ApiError) := λ s,
  let '(r, p) := h (adm_prices s) in Ret (result_map (λ _, AnsOk) r, with_prices s p).
Definition answering {A} (f : A → AdminAnswer) (h : state → result A ApiError) :
    prog state (result AdminAnswer ApiError) := λ s, Ret (result_map f (h s), s).

Definition handle_as (p : AdminPrincipal) (d : Draws) (r : AdminRequest) :
    prog state (result AdminAnswer ApiError) :=
  match r with
  | ReqLogin req =>
      on_metadata AnsLogin (login app (d_now_ms d) (d_now_s d) (d_now_s' d) req)
  | ReqMe => answering AnsMe (λ _, Ok (me p))
  | ReqCreateAdmin username password =>
      on_metadata AnsAdmin (create_admin (d_uuid d) (d_salt d) username password)
  | ReqListAdmins => on_metadata AnsAdmins list_admins
  | ReqCreateKey req => on_metadata AnsKey (admin_create_key app (d_uuid d) (d_random d) req)
  | ReqListKeys project_id => on_metadata AnsKeys (admin_list_keys app project_id)
  | ReqRevokeKey key => on_metadata AnsRevoked (admin_revoke_key key)
  | ReqListLogs q => answering AnsLogs (λ s, list_logs (default_project app) q (adm_logs s))
  | ReqGetLog log => answering AnsLog (λ s, get_log log (adm_logs s))
  | ReqGetRoutes => answering AnsConfig (λ s, get_routes (adm_config s))
  | ReqCost q => answering AnsCost (λ s, aggregate_cost (default_project app) q (adm_logs s))
  | ReqListPricing => answering AnsPricing (λ s, admin_list_pricing (adm_prices s))
  | ReqUpsertPricing body => on_prices (admin_upsert_pricing body)
  | ReqRecompute from to => λ s,
      let '(r, l) := admin_recompute_costs (ps_effective (adm_prices s)) from to (adm_logs s) in
      Ret (result_map AnsRecomputed r, with_logs s l)
  | ReqDeletePricing provider model => on_prices (admin_delete_pricing provider model)
  | ReqListBudgets project_id => λ s,
      match admin_list_budgets (adm_config s) project_id (adm_budgets s) with
      | Ret (items, b) => Ret (Ok (AnsBudgets items), with_budgets s b)
      | Panic => Panic
      end
  end.

(** Every handler but [login] asks for a principal first. *)
Definition is_login (r : AdminRequest) : bool :=
  match r with ReqLogin _ => true | _ => false end.

Definition admin_api (d : Draws) (headers : HeaderMap) (r : AdminRequest) :
    prog state (result AdminAnswer ApiError) := λ s,
  if is_login r then handle_as Root d r s
  else
    match admin_principal app (d_auth_s d) headers with
    | Ok p => handle_as p d r s
    | Err e => Ret (Err e, s)
    end.

(** ** Sequences of requests *)

Record Call : Type := { c_draws : Draws; c_headers : HeaderMap; c_request : AdminRequest }.

Fixpoint admin_session (calls : list Call) (s : state) : outcome state :=
  match calls with
  | [] => Ret s
  | c :: rest =>
      match admin_api (c_draws c) (c_headers c) (c_request c) s with
      | Ret (_, s) => admin_session rest s
      | Panic => Panic
      end
  end.

(** Whether a call carries a valid administrator's token. *)
Definition authorized (c : Call) : bool :=
  is_ok (admin_principal app (d_auth_s (c_draws c)) (c_headers c)).
End Api.

(** * What the handlers rely on *)

(** The keys are those before. *)
Definition same_keys `{KeyLaws M} (m m' : M) : Prop :=
  keys_of m' = keys_of m ∧ (keys_wf m → keys_wf m').

#[export] Instance same_keys_preorder `{KeyLaws M} : PreOrder (same_keys (M:=M)).
Proof.
  split; [done|]. intros m1 m2 m3 [H12 W12] [H23 W23]. split; [congruence|auto].
Qed.

(** Operations on prices and users leave the keys alone, and so does a failed one on
    keys. *)
Class KeyFrame (M : Type) `{KeyLaws M} : Prop := {
  frame_upsert_pricing m p : same_keys m (upsert_pricing m p).2;
  frame_delete_pricing m p mo : same_keys m (delete_pricing m p mo).2;
  frame_create_admin m u : same_keys m (create_admin_user m u).2;
  frame_touch_admin m i ts : same_keys m (touch_admin_last_login m i ts).2;
  frame_create_key m k e m' : create_key m k = (Err e, m') → same_keys m m';
  frame_revoke_key m i e m' : revoke_key m i = (Err e, m') → same_keys m m'
}.

#[export] Instance memory_key_frame `{HashOrder} : KeyFrame MemMeta.
Proof.
  constructor; intros; try done.
  - cbn [create_admin_user memory_metadata]. unfold mem_create_admin_user. simpl.
    by destruct (existsb _ _).
  - cbn [touch_admin_last_login memory_metadata]. unfold mem_touch_admin_last_login.
    by destruct (admins m !! i).
  - revert H0. cbn [revoke_key memory_metadata]. unfold mem_revoke_key.
    destruct (keys m !! i) as [k|]; simpl; [by destruct (now_ms m)|by intros [= _ <-]].
Qed.

Lemma statement_keys `{HashOrder} `{SerdeLaws} `{SqlEngine} {A}
    (f : SqlDb → result (A * SqlDb) DbError) d :
  (∀ d a d', f d = Ok (a, d') → t_keys d' = t_keys d) → same_keys d (statement f d).2.
Proof.
  intros Hf. destruct (statement f d) as [[a|e] d'] eqn:Hs; simpl.
  - apply statement_Ok, Hf in Hs. simpl in Hs. unfold same_keys. simpl. by rewrite Hs.
  - by apply statement_Err in Hs as ->.
Qed.

#[export] Instance sqlite_key_frame `{HashOrder} `{SerdeLaws} `{SqlEngine} : KeyFrame SqlDb.
Proof.
  constructor.
  - intros d p. apply statement_keys. intros d1 [] d2. simpl. unfold upsert_price.
    do 2 (destruct (real_not_null _); [|done]). by intros [= <-].
  - intros d p mo. apply statement_keys. intros d1 [] d2. unfold delete_price.
    destruct (delete_where _ _) as [n t]. by intros [= <-].
  - intros d u. cbn [create_admin_user sqlite_metadata]. unfold sqlite_create_admin_user, db_bind.
    cbn. unfold execute. cbn. destruct (db_faults d 0%nat) as [e|]; [done|].
    unfold insert_admin. destruct (guard_err _ _) as [[]|e]; [|done]. cbn.
    by destruct (insert_new _ _ _).
  - intros d i ts. cbn [touch_admin_last_login sqlite_metadata].
    unfold sqlite_touch_admin_last_login, db_bind.
    match goal with |- context [statement ?f d] => pose proof (statement_keys f d) as Hs end.
    destruct (statement _ d) as [[n|e] d']; apply Hs; intros d1 n1 d2;
      destruct (update_at _ _ _) as [n2 t2]; by intros [= _ <-].
  - intros d k e d'. cbn [create_key sqlite_metadata]. intros Hk.
    apply db_bind_inv in Hk as [(e' & [=] & _)|(t & d1 & [= <- <-] & Hk)].
    apply db_bind_inv in Hk as [(e' & Hs & _)|([] & d2 & _ & [=])].
    by apply statement_Err in Hs as ->.
  - intros d i e d'. cbn [revoke_key sqlite_metadata]. intros Hk.
    apply db_bind_inv in Hk as [(e' & [=] & _)|(t & d1 & [= <- <-] & Hk)].
    apply db_bind_inv in Hk as [(e' & Hs & _)|(n & d2 & Hs & Hk)];
      [by apply statement_Err in Hs as ->|].
    apply statement_Ok, update_key_Ok in Hs as [(-> & _ & ->)|(r & -> & _ & _)]; [|done].
    by injection Hk as _ <-.
Qed.

Lemma on_tables_keys `{HashOrder} `{SerdeLaws} `{SqlEngine} {A} (w : db A) d :
  same_keys (pg_tables d) (w (pg_tables d)).2 → same_keys d (on_tables w d).2.
Proof. unfold on_tables. by destruct (w (pg_tables d)). Qed.

#[export] Instance postgres_key_frame `{HashOrder} `{SerdeLaws} `{SqlEngine} : KeyFrame PgDb.
Proof.
  constructor.
  - intros d p. apply on_tables_keys, statement_keys. by intros d1 [] d2 [= <-].
  - intros d p mo. apply on_tables_keys. exact (frame_delete_pricing (M:=SqlDb) (pg_tables d) p mo).
  - intros d u. apply on_tables_keys. exact (frame_create_admin (M:=SqlDb) (pg_tables d) u).
  - intros d i ts. apply on_tables_keys. exact (frame_touch_admin (M:=SqlDb) (pg_tables d) i ts).
  - intros d k e d' Hk%on_tables_inv. exact (frame_create_key (M:=SqlDb) _ _ _ _ Hk).
  - intros d i e d' Hk%on_tables_inv. exact (frame_revoke_key (M:=SqlDb) _ _ _ _ Hk).
Qed.

(** * What a request does to the keys *)

Section Keys.
Context `{HashOrder} `{HttpTypes} `{Crypto} `{SerdeJson} `{Chrono}.
Context `{KeyFrame M} `{LogStore L} `{CounterStore C}.
Context (app : AuthState).

Notation state := (AdminState M L C).

(** The config rows are those before, and the others stay an administrator's. *)
Definition config_kept (m m' : M) : Prop :=
  (∀ i row, key_origin row = KEY_ORIGIN_CONFIG →
     keys_of m' !! i = Some row ↔ keys_of m !! i = Some row) ∧
  (keys_wf m → keys_wf m').

#[export] Instance config_kept_preorder : PreOrder config_kept.
Proof.
  split.
  - intros m. by split.
  - intros m1 m2 m3 [H12 W12] [H23 W23]. split; [|auto].
    intros i row Ho. rewrite (H23 i row Ho). by apply H12.
Qed.

Lemma same_config m m' : same_keys m m' → config_kept m m'.
Proof. intros [Hk Hwf]. split; [|done]. intros i row _. by rewrite Hk. Qed.

Lemma create_key_config uuid random req m :
  (∀ row, keys_of m !! uuid = Some row → key_origin row ≠ KEY_ORIGIN_CONFIG) →
  config_kept m (admin_create_key app uuid random req m).2.
Proof.
  intros Hnew. unfold admin_create_key. destruct (key_env_parse _) as [env|]; [|done].
  destruct (create_key m _) as [[row|e] m'] eqn:Hc; cbn [snd];
    [|by apply same_config, (frame_create_key _ _ _ _ Hc)].
  apply create_key_spec in Hc as (_ & _ & _ & _ & Ho & _ & Hk & Hwf). simpl in Ho, Hk.
  split; [|done]. intros i r Hr. rewrite Hk, lookup_insert_Some. split.
  - intros [[_ <-]|[_ Hi]]; [|done]. by rewrite Hr in Ho.
  - intros Hi. right. split; [|done]. intros ->. by destruct (Hnew r Hi).
Qed.

Lemma revoke_key_config i m : config_kept m (admin_revoke_key i m).2.
Proof.
  unfold admin_revoke_key. destruct (get_key m i) as [old|e] eqn:Hg; [|done].
  apply get_key_spec in Hg. destruct (config_managed old) eqn:Hm; [done|].
  destruct (revoke_key m i) as [[[]|e] m'] eqn:Hr; cbn [snd];
    [|by apply same_config, (frame_revoke_key _ _ _ _ Hr)].
  apply revoke_key_spec in Hr as [(row & ts & Hrow & Hk) Hwf].
  rewrite Hrow in Hg. subst old. simpl in Hm. apply String.eqb_neq in Hm.
  split; [|done]. intros j r Ho. rewrite Hk, lookup_insert_Some. split.
  - intros [[_ <-]|[_ Hj]]; [|done]. by destruct Hm.
  - intros Hj. right. split; [|done]. intros ->. congruence.
Qed.

Lemma login_keys now_ms now_s now_s' req m :
  same_keys m (login app now_ms now_s now_s' req m).2.
Proof.
  unfold login. destruct (find_admin_user m _) as [[user|]|e]; [|done|done].
  destruct (verify_password _ _) as [[]|e]; [|done|done].
  destruct (issue _ _ _ _ _) as [token|e]; apply frame_touch_admin.
Qed.

Lemma create_admin_keys uuid salt username password m :
  same_keys m (create_admin uuid salt username password m).2.
Proof.
  unfold create_admin. destruct (str_is_empty _ || _); [done|].
  destruct (hash_password _ _) as [phc|e]; [|done].
  match goal with |- context [create_admin_user m ?u] =>
    pose proof (frame_create_admin m u) as Hf; destruct (create_admin_user m u) as [[a|e] m'] end;
  exact Hf.
Qed.

Lemma write_pricing_metadata w (s : PricingState M) :
  ps_metadata (write_pricing w s).2 = w.2.
Proof.
  unfold write_pricing, refresh_pricing. destruct w as [[[]|e] m]; [|done]. simpl.
  by destruct (list_pricing m).
Qed.

Lemma upsert_pricing_keys body (s : PricingState M) :
  same_keys (ps_metadata s) (ps_metadata (admin_upsert_pricing body s).2).
Proof.
  unfold admin_upsert_pricing. destruct (str_is_empty _ || _); [done|].
  destruct (negb _); [done|]. rewrite write_pricing_metadata. apply frame_upsert_pricing.
Qed.

(** ** One request *)

Lemma on_metadata_inv {A} (f : A → AdminAnswer) h (s : state) r s' :
  on_metadata f h s = Ret (r, s') → adm_metadata s' = (h (adm_metadata s)).2.
Proof. unfold on_metadata. destruct (h _) as [x m]. by intros [= <- <-]. Qed.

Lemma on_prices_inv h (s : state) r s' :
  on_prices h s = Ret (r, s') → adm_prices s' = (h (adm_prices s)).2.
Proof. unfold on_prices. destruct (h _) as [x m]. by intros [= <- <-]. Qed.

Lemma handle_as_config p d q (s : state) r s' :
  handle_as app p d q s = Ret (r, s') →
  (∀ row, keys_of (adm_metadata s) !! d_uuid d = Some row → key_origin row ≠ KEY_ORIGIN_CONFIG) →
  config_kept (adm_metadata s) (adm_metadata s').
Proof.
  intros Hh Hnew. destruct q; cbn [handle_as] in Hh;
    try (apply on_metadata_inv in Hh as ->); try (injection Hh as <- <-; done).
  - apply same_config, login_keys.
  - apply same_config, create_admin_keys.
  - by apply same_config; unfold list_admins; destruct (list_admin_users _).
  - by apply create_key_config.
  - by apply same_config; unfold admin_list_keys; destruct (list_keys _ _).
  - apply revoke_key_config.
  - apply on_prices_inv in Hh. unfold adm_metadata. rewrite Hh.
    apply same_config, upsert_pricing_keys.
  - destruct (admin_recompute_costs _ _ _ _) as [x l]. by injection Hh as <- <-.
  - apply on_prices_inv in Hh. unfold adm_metadata. rewrite Hh. unfold admin_delete_pricing.
    rewrite write_pricing_metadata. apply same_config, frame_delete_pricing.
  - destruct (admin_list_budgets _ _ _) as [[x b]|]; [|done]. by injection Hh as <- <-.
Qed.

Lemma admin_api_config d headers q (s : state) r s' :
  admin_api app d headers q s = Ret (r, s') →
  (∀ row, keys_of (adm_metadata s) !! d_uuid d = Some row → key_origin row ≠ KEY_ORIGIN_CONFIG) →
  config_kept (adm_metadata s) (adm_metadata s').
Proof.
  unfold admin_api. destruct (is_login q); [apply handle_as_config|].
  destruct (admin_principal _ _ _) as [p|e]; [apply handle_as_config|].
  by intros [= <- <-].
Qed.

(** What a request without a token leaves alone. *)
Definition untouched (s s' : state) : Prop :=
  same_keys (adm_metadata s) (adm_metadata s') ∧
  ps_effective (adm_prices s') = ps_effective (adm_prices s) ∧
  adm_logs s' = adm_logs s ∧ adm_budgets s' = adm_budgets s ∧ adm_config s' = adm_config s.

#[export] Instance untouched_preorder : PreOrder untouched.
Proof.
  split.
  - intros s. by split_and!.
  - intros s1 s2 s3 (Hk & He & Hl & Hb & Hc) (Hk' & He' & Hl' & Hb' & Hc').
    split; [by etrans|]. by rewrite He', Hl', Hb', Hc'.
Qed.

(** All that a request without a token can do to the stored metadata: the login of an
    administrator whose password it gives is noted. *)
Definition login_noted (m m' : M) : Prop :=
  ∃ username password user now,
    find_admin_user m username = Ok (Some user) ∧
    verify_password password (admin_password_hash user) = Ok true ∧
    m' = (touch_admin_last_login m (admin_id user) now).2.

Lemma login_notes now_ms now_s now_s' req m :
  rtc login_noted m (login app now_ms now_s now_s' req m).2.
Proof.
  unfold login. destruct (find_admin_user m _) as [[user|]|e] eqn:Hf; [|done|done].
  destruct (verify_password _ _) as [[]|e] eqn:Hv; [|done|done]. apply rtc_once.
  exists (login_username req), (login_password req), user, now_ms.
  by destruct (issue _ _ _ _ _).
Qed.

Lemma login_noted_keys m m' : rtc login_noted m m' → same_keys m m'.
Proof.
  induction 1 as [m|m1 m2 m3 (u & pw & user & now & _ & _ & ->) _ IH]; [done|].
  etrans; [|exact IH]. apply frame_touch_admin.
Qed.

Lemma unauthorized_notes c (s : state) r s' :
  authorized app c = false →
  admin_api app (c_draws c) (c_headers c) (c_request c) s = Ret (r, s') →
  rtc login_noted (adm_metadata s) (adm_metadata s').
Proof.
  unfold authorized, admin_api. intros Ha.
  destruct (admin_principal _ _ _) as [p|e]; [done|].
  destruct (c_request c); cbn [is_login]; try (by intros [= <- <-]).
  cbn [handle_as]. unfold on_metadata.
  pose proof (login_notes (d_now_ms (c_draws c)) (d_now_s (c_draws c)) (d_now_s' (c_draws c)) req
    (adm_metadata s)) as Hk.
  destruct (login _ _ _ _ _ _) as [x m]. by intros [= <- <-].
Qed.

Lemma unauthorized_untouched c (s : state) r s' :
  authorized app c = false →
  admin_api app (c_draws c) (c_headers c) (c_request c) s = Ret (r, s') → untouched s s'.
Proof.
  unfold authorized, admin_api. intros Ha.
  destruct (admin_principal _ _ _) as [p|e]; [done|].
  destruct (c_request c); cbn [is_login]; try (by intros [= <- <-]).
  cbn [handle_as]. unfold on_metadata.
  pose proof (login_keys (d_now_ms (c_draws c)) (d_now_s (c_draws c)) (d_now_s' (c_draws c)) req
    (adm_metadata s)) as Hk.
  destruct (login _ _ _ _ _ _) as [x m]. intros [= <- <-]. by split_and!.
Qed.
End Keys.

(** C11: The Admin API never touches what the configuration declares, and nothing without a
    token: through any sequence of requests to any of its routes the config-managed keys
    stay exactly as they are; and when none of the requests carries a valid
    administrator's token, neither keys, prices, logs nor budgets change. *)
Theorem admin_api_guarded `{HashOrder} `{HttpTypes} `{Crypto} `{SerdeJson} `{Chrono}
    `{KeyFrame M} `{LogStore L} `{CounterStore C} app calls (s s' : AdminState M L C) :
  admin_session app calls s = Ret s' →
  (∀ c row, c ∈ calls → keys_of (adm_metadata s) !! d_uuid (c_draws c) = Some row →
     key_origin row ≠ KEY_ORIGIN_CONFIG) →
  (∀ i row, key_origin row = KEY_ORIGIN_CONFIG →
     keys_of (adm_metadata s') !! i = Some row ↔ keys_of (adm_metadata s) !! i = Some row) ∧
  (Forall (λ c, authorized app c = false) calls →
     keys_of (adm_metadata s') = keys_of (adm_metadata s) ∧
     ps_effective (adm_prices s') = ps_effective (adm_prices s) ∧
     adm_logs s' = adm_logs s ∧ adm_budgets s' = adm_budgets s).
Proof.
  intros Hs Hnew.
  cut (config_kept (adm_metadata s) (adm_metadata s') ∧
       (Forall (λ c, authorized app c = false) calls → untouched s s')).
  { intros [[Hc _] Hu]. split; [done|]. intros Ha. by destruct (Hu Ha) as ([Hk _] & He & Hl & Hb & _). }
  revert s Hs Hnew. induction calls as [|c calls IH]; intros s; cbn [admin_session].
  { intros [= <-] _. by split. }
  destruct (admin_api _ _ _ _ _) as [[r s1]|] eqn:Hr; [|done]. intros Hs Hnew.
  assert (Hc : config_kept (adm_metadata s) (adm_metadata s1)).
  { eapply admin_api_config; [done|]. intros row. by apply Hnew; left. }
  destruct (IH s1 Hs) as [Hc' Hu'].
  { intros c' row Hin Hrow Ho. apply (Hnew c' row); [by right|by apply (proj1 Hc)|done]. }
  split; [by etrans|]. intros [Ha Hall]%Forall_cons.
  etrans; [by eapply unauthorized_untouched|by apply Hu'].
Qed.

(** * A concrete session: the root token makes a key and sets a price; without it a config
    key cannot be revoked, and with it neither. *)

Section Example.
#[local] Existing Instance tree_order.
#[local] Existing Instance plain_http.
#[local] Existing Instance toy_crypto.
#[local] Existing Instance codec.
#[local] Existing Instance plain_calendar.

Definition api_start : AdminState MemMeta MemoryLogStore MemoryCounterStore :=
  {| adm_prices := {| ps_metadata := seeded_meta; ps_base := sample_catalog;
                      ps_effective := sample_catalog |};
     adm_logs := {| log_records := []; capacity := 5 |};
     adm_budgets := fresh_manager; adm_config := sample_budget_config |}.

Definition sample_draws : Draws :=
  {| d_uuid := "id-1"; d_random := sample_random; d_salt := "salt"; d_auth_s := 5;
     d_now_ms := 5000; d_now_s := 5; d_now_s' := 5 |}.

Definition root_call (r : AdminRequest) : Call :=
  {| c_draws := sample_draws; c_headers := bearer "root"; c_request := r |}.
Definition bare_call (r : AdminRequest) : Call :=
  {| c_draws := sample_draws; c_headers := []; c_request := r |}.

Definition sample_session : list Call :=
  [bare_call (ReqRevokeKey "cfg"); root_call (ReqCreateKey sample_create);
   root_call (ReqUpsertPricing new_price); root_call (ReqRevokeKey "cfg")].

Lemma admin_api_guarded_witness :
  ∃ s', admin_session sample_app sample_session api_start = Ret s' ∧
    keys_of (adm_metadata s') !! "cfg"%string = Some seeded_row.
Proof.
  destruct (admin_session sample_app sample_session api_start) as [s'|] eqn:Hs;
    [|vm_compute in Hs; discriminate Hs].
  exists s'. split; [reflexivity|].
  destruct (admin_api_guarded sample_app sample_session api_start s' Hs) as [Hc _].
  - intros c row Hin Hrow. exfalso.
    assert (Hu : d_uuid (c_draws c) = "id-1"%string).
    { unfold sample_session in Hin. rewrite !elem_of_cons in Hin.
      by destruct Hin as [->|[->|[->|[->|Hin]]]]; [..|apply not_elem_of_nil in Hin]. }
    rewrite Hu in Hrow. discriminate Hrow.
  - apply (Hc "cfg"%string seeded_row); [reflexivity|]. apply lookup_singleton_eq.
Defined.
End Example.
