(* ===== verification/AdminBodies.v ===== *)
(** The requests and answers of the Admin API as documents: the [Deserialize] and
    [Serialize] that gateway-api/src/routes/admin/*.rs and budget.rs, and
    gateway-storage/src/models.rs for the rows answered as they are, derive. *)
From Stdlib Require Import ZArith Lia Bool Ascii String SpecFloat.
From stdpp Require Import prelude gmap strings list.
From S2P Require Import Prelude Text F64 Json Serde Models Config Budget Auth AdminLogs.
From S2P Require Import ConfigSerde AdminPricing AdminApi.
Open Scope Z_scope.

(** * Requests *)

Section Requests.
Context `{Deserializer Doc}.
Local Open Scope string_scope.

Definition optional_i64 (name : string) : list (string * Doc) → option (option Z) :=
  field_or name None (de_option de_i64).

Definition de_login_request (n : Doc) : option LoginRequest :=
  fs ← de_struct ["username"; "password"] n;
  u ← field "username" de_str fs;
  p ← field "password" de_str fs;
  Some {| login_username := u; login_password := p |}.

(** The user name and the password. *)
Definition de_create_admin_request (n : Doc) : option (string * string) :=
  fs ← de_struct ["username"; "password"] n;
  u ← field "username" de_str fs;
  p ← field "password" de_str fs;
  Some (u, p).

Definition default_env : string := "live".

Definition de_create_key_request (n : Doc) : option CreateKeyRequest :=
  fs ← de_struct ["name"; "env"; "project_id"; "scopes"; "expires_at"] n;
  nm ← field "name" de_str fs;
  e ← field_or "env" default_env de_str fs;
  p ← optional_str "project_id" fs;
  s ← field_or "scopes" [] (de_vec de_str) fs;
  x ← optional_i64 "expires_at" fs;
  Some {| ck_name := nm; ck_env := e; ck_project_id := p; ck_scopes := s; ck_expires_at := x |}.

(** [ListKeysQuery] and [BudgetsQuery]: the project. *)
Definition de_list_keys_query (n : Doc) : option (option string) :=
  fs ← de_struct ["project_id"] n; optional_str "project_id" fs.
Definition de_budgets_query (n : Doc) : option (option string) :=
  fs ← de_struct ["project_id"] n; optional_str "project_id" fs.

Definition de_list_logs_query (n : Doc) : option ListLogsQuery :=
  fs ← de_struct ["project_id"; "gateway_key_id"; "namespace"; "model"; "status"; "from"; "to";
                  "limit"; "cursor"] n;
  p ← optional_str "project_id" fs;
  k ← optional_str "gateway_key_id" fs;
  ns ← optional_str "namespace" fs;
  m ← optional_str "model" fs;
  s ← optional_str "status" fs;
  f ← optional_i64 "from" fs;
  t ← optional_i64 "to" fs;
  l ← field_or "limit" None (de_option de_u32) fs;
  c ← optional_str "cursor" fs;
  Some {| ll_project_id := p; ll_gateway_key_id := k; ll_namespace := ns; ll_model := m;
          ll_status := s; ll_from := f; ll_to := t; ll_limit := l; ll_cursor := c |}.

Definition de_cost_query (n : Doc) : option CostQuery :=
  fs ← de_struct ["project_id"; "from"; "to"; "group_by"] n;
  p ← optional_str "project_id" fs;
  f ← optional_i64 "from" fs;
  t ← optional_i64 "to" fs;
  g ← optional_str "group_by" fs;
  Some {| cq_project_id := p; cq_from := f; cq_to := t; cq_group_by := g |}.

Definition de_upsert_pricing_body (n : Doc) : option UpsertPricingBody :=
  fs ← de_struct ["provider"; "model"; "input_per_1k"; "output_per_1k"; "cached_input_per_1k"] n;
  p ← field "provider" de_str fs;
  m ← field "model" de_str fs;
  i ← field "input_per_1k" de_f64 fs;
  o ← field "output_per_1k" de_f64 fs;
  c ← field_or "cached_input_per_1k" None (de_option de_f64) fs;
  Some {| up_provider := p; up_model := m; up_input_per_1k := i; up_output_per_1k := o;
          up_cached_input_per_1k := c |}.

(** [RecomputeBody]: the two bounds. *)
Definition de_recompute_body (n : Doc) : option (option Z * option Z) :=
  fs ← de_struct ["from"; "to"] n;
  f ← optional_i64 "from" fs;
  t ← optional_i64 "to" fs;
  Some (f, t).
Definition default_recompute_body : option Z * option Z := (None, None).
End Requests.

(** * Answers *)

Section Answers.
Local Open Scope string_scope.

Definition json_login_response (r : LoginResponse) : Value :=
  json_struct [("token", VString (login_token r)); ("username", VString (login_as r));
               ("expires_at", json_i64 (login_expires_at r))].
Definition json_me_response (r : string * option string * option string) : Value :=
  let '(principal, username, i) := r in
  json_struct [("principal", VString principal); ("username", json_opt VString username);
               ("id", json_opt VString i)].
Definition json_create_admin_response (r : string * string) : Value :=
  json_struct [("id", VString r.1); ("username", VString r.2)].
Definition json_admin_user_summary (r : string * string * Z * option Z) : Value :=
  let '(i, username, created_at, last_login_at) := r in
  json_struct [("id", VString i); ("username", VString username);
               ("created_at", json_i64 created_at);
               ("last_login_at", json_opt json_i64 last_login_at)].
Definition json_create_key_response (r : CreateKeyResponse) : Value :=
  json_struct [("id", VString (ckr_id r)); ("name", VString (ckr_name r));
               ("prefix", VString (ckr_prefix r)); ("last4", VString (ckr_last4 r));
               ("secret", VString (ckr_secret r)); ("created_at", json_i64 (ckr_created_at r))].
Definition json_key_summary (k : KeySummary) : Value :=
  json_struct [("id", VString (ks_id k)); ("project_id", VString (ks_project_id k));
               ("name", VString (ks_name k)); ("prefix", VString (ks_prefix k));
               ("last4", VString (ks_last4 k)); ("status", VString (ks_status k));
               ("created_at", json_i64 (ks_created_at k));
               ("last_used_at", json_opt json_i64 (ks_last_used_at k));
               ("expires_at", json_opt json_i64 (ks_expires_at k));
               ("origin", VString (ks_origin k))].
Definition json_logs_response (r : LogsResponse) : Value :=
  json_struct [("items", VArray (lr_items r)); ("next_cursor", json_opt VString (lr_next_cursor r))].

Definition json_log_record (r : RequestLogRecord) : Value :=
  json_struct [("id", VString (id r)); ("project_id", VString (project_id r));
               ("gateway_key_id", json_opt VString (gateway_key_id r));
               ("namespace", json_opt VString (namespace r)); ("model", json_opt VString (model r));
               ("endpoint", json_opt VString (endpoint r)); ("request_ts", json_i64 (request_ts r));
               ("duration_ms", json_opt json_i64 (duration_ms r));
               ("upstream_ms", json_opt json_i64 (upstream_ms r));
               ("ttfb_ms", json_opt json_i64 (ttfb_ms r)); ("status", VString (status r));
               ("http_status", json_opt json_i64 (http_status r)); ("cached", VBool (cached r));
               ("retry_count", json_i64 (retry_count r));
               ("fallback_used", json_opt VString (fallback_used r));
               ("prompt_tokens", json_opt json_i64 (prompt_tokens r));
               ("completion_tokens", json_opt json_i64 (completion_tokens r));
               ("cached_tokens", json_opt json_i64 (cached_tokens r));
               ("total_tokens", json_opt json_i64 (total_tokens r));
               ("cost_usd", json_opt json_f64 (cost_usd r));
               ("would_have_cost_usd", json_opt json_f64 (would_have_cost_usd r));
               ("metadata", json_opt (λ v, v) (metadata r));
               ("client_ip", json_opt VString (client_ip r));
               ("user_agent", json_opt VString (user_agent r));
               ("error_message", json_opt VString (error_message r));
               ("request_body", json_opt VString (request_body r));
               ("response_body", json_opt VString (response_body r))].

Definition json_aggregate_group (g : AggregateGroup) : Value :=
  json_struct [("key", ag_key g); ("requests", json_i64 (ag_requests g));
               ("prompt_tokens", json_i64 (ag_prompt_tokens g));
               ("completion_tokens", json_i64 (ag_completion_tokens g));
               ("cost_usd", json_f64 (ag_cost_usd g));
               ("cached_savings_usd", json_f64 (ag_cached_savings_usd g))].
Definition json_aggregate_result (r : AggregateResult) : Value :=
  json_struct [("groups", json_vec json_aggregate_group (groups r));
               ("total_cost_usd", json_f64 (total_cost_usd r))].
Definition json_pricing_item (i : PricingItem) : Value :=
  json_struct [("provider", VString (pi_provider i)); ("model", VString (pi_model i));
               ("input_per_1k", json_f64 (pi_input_per_1k i));
               ("output_per_1k", json_f64 (pi_output_per_1k i));
               ("cached_input_per_1k", json_opt json_f64 (pi_cached_input_per_1k i));
               ("source", VString (pi_source i))].
Definition json_budget_usage (u : BudgetUsage) : Value :=
  json_struct [("budget_id", VString (bu_budget_id u)); ("name", VString (bu_name u));
               ("period", VString (bu_period u)); ("period_start", json_i64 (bu_period_start u));
               ("amount_usd", json_f64 (bu_amount_usd u)); ("used_usd", json_f64 (bu_used_usd u));
               ("pct", json_f64 (bu_pct u)); ("blocked", VBool (bu_blocked u))].

(** [json!({ "ok": true })], and the report of a recomputation. *)
Definition json_ok : Value := json_struct [("ok", VBool true)].
Definition json_recomputed (r : Recomputed) : Value :=
  json_struct [("updated_rows", json_u64 (rc_updated_rows r));
               ("models_matched", json_u64 (rc_models_matched r));
               ("models_without_price", json_vec VString (rc_models_without_price r))].

(** The body of an [ApiError]. *)
Definition json_error (code message : string) : Value :=
  json_struct [("error", json_struct [("code", VString code); ("message", VString message)])].

(** The body of the answer of a handler that succeeded. *)
Definition json_answer (a : AdminAnswer) : Value :=
  match a with
  | AnsLogin r => json_login_response r
  | AnsMe r => json_me_response r
  | AnsAdmin r => json_create_admin_response r
  | AnsAdmins r => json_vec json_admin_user_summary r
  | AnsKey r => json_create_key_response r
  | AnsKeys r => json_vec json_key_summary r
  | AnsRevoked r => r
  | AnsLogs r => json_logs_response r
  | AnsLog r => json_log_record r
  | AnsConfig r => json_app_config r
  | AnsCost r => json_aggregate_result r
  | AnsPricing r => json_vec json_pricing_item r
  | AnsOk => json_ok
  | AnsRecomputed r => json_recomputed r
  | AnsBudgets r => json_vec json_budget_usage r
  end.
End Answers.
