(* ===== verification/Revocation.v ===== *)
(** What becomes of a revoked key: the rows of administrators' keys under every operation
    that requests, administrators and reloads perform on the metadata store, successful or
    not; gateway-storage/src/*/metadata.rs, seed_keys.rs, routes/admin/keys.rs. *)
From Stdlib Require Import ZArith Lia Bool Ascii String SpecFloat.
From stdpp Require Import prelude gmap strings list.
From S2P Require Import Prelude Text F64 Json Codec Errors Models HttpTypes Stores Pricing MemoryCounter MemoryMeta Sql SqliteMeta PostgresMeta Security Auth AdminLogs AdminPricing AdminApi Config Budget Seeding.
Open Scope Z_scope.

(** * What the rows rely on, beyond the key laws *)

(** A failed touch or prune changes nothing, and a seeding that meets an administrator's
    key leaves every row alone. *)
Class AdminRows (M : Type) `{KeyLaws M} : Prop := {
  rows_touch_err m i ts e m' : touch_key_last_used m i ts = (Err e, m') → same_keys m m';
  rows_prune_err m p keep e m' :
    prune_seeded_keys_not_in m p keep = (Err e, m') → same_keys m m';
  rows_upsert_admin m k r m' old :
    upsert_seeded_key m k = (r, m') → keys_of m !! nk_id k = Some old →
    key_origin old ≠ KEY_ORIGIN_CONFIG → same_keys m m'
}.

#[export] Instance memory_admin_rows `{HashOrder} : AdminRows MemMeta.
Proof.
  constructor.
  - intros m i ts e m'. cbn [touch_key_last_used memory_metadata].
    unfold mem_touch_key_last_used. by destruct (keys m !! i).
  - done.
  - intros m k r m' old Hu Hold Ho. revert Hu. cbn [upsert_seeded_key memory_metadata].
    unfold mem_upsert_seeded_key, admin_managed. simpl in Hold. rewrite Hold.
    apply String.eqb_neq in Ho. rewrite Ho. by intros [= _ <-].
Qed.

Lemma seeding_admin_row `{HashOrder} `{SerdeLaws} `{SqlEngine} k r (d d' : SqlDb) rec :
  sqlite_upsert_seeded_key k d = (r, d') → t_keys d !! nk_id k = Some rec →
  kc_origin rec ≠ KEY_ORIGIN_CONFIG → t_keys d' = t_keys d.
Proof.
  unfold sqlite_upsert_seeded_key, query_with. intros Hu Hrec Ho.
  apply db_bind_inv in Hu as [(e & Hs & ->)|(ex & d1 & Hs & Hk)].
  { by apply statement_Err in Hs as ->. }
  apply statement_Ok in Hs as [= <- <-]. cbn [t_keys next_faults] in Hk. rewrite Hrec in Hk.
  cbn [fmap option_fmap option_map] in Hk. apply String.eqb_neq in Ho. rewrite Ho in Hk.
  by injection Hk as <- <-.
Qed.

#[export] Instance sqlite_admin_rows `{HashOrder} `{SerdeLaws} `{SqlEngine} : AdminRows SqlDb.
Proof.
  constructor.
  - intros d i ts e d' Ht.
    apply db_bind_inv in Ht as [(e' & Hs & _)|(n & d1 & _ & [=])].
    by apply statement_Err in Hs as ->.
  - intros d p keep e d' Hs. by apply statement_Err in Hs as ->.
  - intros d k r d' old Hu Hold Ho. simpl in Hold. apply lookup_fmap_Some in Hold as (rec & <- & Hrec).
    pose proof (seeding_admin_row k r d d' rec Hu Hrec Ho) as Hks.
    unfold same_keys. simpl. by rewrite Hks.
Qed.

#[export] Instance postgres_admin_rows `{HashOrder} `{SerdeLaws} `{SqlEngine} : AdminRows PgDb.
Proof.
  constructor.
  - intros d i ts e d' Ht%on_tables_inv. exact (rows_touch_err (M:=SqlDb) _ _ _ _ _ Ht).
  - intros d p keep e d' Hp%on_tables_inv. exact (rows_prune_err (M:=SqlDb) _ _ _ _ _ Hp).
  - intros d k r d' old Hu%on_tables_inv Hold Ho.
    exact (rows_upsert_admin (M:=SqlDb) _ _ _ _ _ Hu Hold Ho).
Qed.

(** * Barred keys *)

Section Barred.
Context `{HashOrder} `{HttpTypes} `{Crypto} `{SerdeJson} `{Chrono}.
Context `{KeyFrame M, !AdminRows M} `{LogStore L} `{CounterStore C}.
Context (i : string).

(** An administrator's key that is not active. *)
Definition barred (m : M) : Prop :=
  ∃ row, keys_of m !! i = Some row ∧ key_origin row ≠ KEY_ORIGIN_CONFIG ∧
         key_status row ≠ "active"%string.

(** A move that keeps the table well-formed and the key barred. *)
Definition bar_kept (m m' : M) : Prop := keys_wf m → keys_wf m' ∧ (barred m → barred m').

#[export] Instance bar_kept_preorder : PreOrder bar_kept.
Proof.
  split; [by intros m Hwf|]. intros m1 m2 m3 H12 H23 Hwf.
  destruct (H12 Hwf) as [Hwf2 Hb2]. destruct (H23 Hwf2) as [Hwf3 Hb3]. auto.
Qed.

Lemma same_keys_barred m m' : same_keys m m' → bar_kept m m'.
Proof. intros [Hk Hw] Hwf. unfold barred. rewrite Hk. auto. Qed.

Lemma other_key_barred m m' k row :
  keys_of m' = <[k := row]> (keys_of m) → (keys_wf m → keys_wf m') → k ≠ i → bar_kept m m'.
Proof.
  intros Hk Hw Hne Hwf. split; [auto|]. unfold barred. rewrite Hk.
  by rewrite lookup_insert_ne.
Qed.

Lemma touch_barred t m : bar_kept m (record_last_used t m).
Proof.
  unfold record_last_used. destruct (touch_key_last_used m t.1 t.2) as [[[]|e] m'] eqn:Ht; simpl.
  2: { by eapply same_keys_barred, rows_touch_err. }
  apply touch_key_spec in Ht as [Hk Hw].
  destruct (keys_of m !! t.1) as [row|] eqn:Hrow; [|by apply same_keys_barred].
  intros Hwf. split; [auto|]. intros (r & Hr & Ho & Hs). unfold barred. rewrite Hk.
  destruct (decide (t.1 = i)) as [Heq|Hne].
  - rewrite Heq, lookup_insert_eq in *. eexists. split; [done|].
    rewrite Hrow in Hr. by injection Hr as <-.
  - exists r. by rewrite lookup_insert_ne.
Qed.

Lemma upsert_seeded_barred k r m m' : upsert_seeded_key m k = (r, m') → bar_kept m m'.
Proof.
  intros Hu. destruct (decide (nk_id k = i)) as [Hi|Hne].
  - intros Hwf. split.
    + destruct r as [row|e].
      * by apply upsert_seeded_key_ok in Hu as (_ & _ & _ & _ & _ & _ & _ & _ & Hw); auto.
      * by apply upsert_seeded_key_err in Hu as [_ Hw]; auto.
    + intros (row & Hrow & Ho & Hs). rewrite <- Hi in Hrow.
      destruct (rows_upsert_admin _ _ _ _ _ Hu Hrow Ho) as [Hk _].
      exists row. by rewrite Hk, <- Hi.
  - destruct r as [row|e].
    + apply upsert_seeded_key_ok in Hu as (_ & _ & _ & _ & _ & _ & _ & Hk & Hw).
      by eapply other_key_barred.
    + apply upsert_seeded_key_err in Hu as [Hk Hw]. intros Hwf. split; [auto|].
      unfold barred. by rewrite Hk.
Qed.

Lemma prune_barred p keep r m m' : prune_seeded_keys_not_in m p keep = (r, m') → bar_kept m m'.
Proof.
  destruct r as [n|e]; [|by intros Hp; eapply same_keys_barred, rows_prune_err].
  intros [Hk Hw]%prune_spec Hwf. split; [auto|]. intros (row & Hrow & Ho & Hs).
  exists row. rewrite (Hk Hwf), map_lookup_filter_Some. split_and!; try done.
  by intros (_ & Hc & _).
Qed.

(** ** Seeding *)

Context (env : string → option string) (master : bytes) (default_project_id : string).

Lemma upsert_all_barred rs m : bar_kept m (upsert_all master default_project_id rs m).2.
Proof.
  revert m. induction rs as [|r rs IH]; intros m; simpl; [done|].
  destruct (upsert_seeded_key m _) as [[row|e] m1] eqn:Hu; apply upsert_seeded_barred in Hu;
    [|exact Hu]. etrans; [exact Hu|apply IH].
Qed.

Lemma prune_all_barred l m : bar_kept m (prune_all l m).2.
Proof.
  revert m. induction l as [|[p ids] l IH]; intros m; simpl; [done|].
  destruct (prune_seeded_keys_not_in m p ids) as [[n|e] m1] eqn:Hp; apply prune_barred in Hp;
    [|exact Hp]. etrans; [exact Hp|apply IH].
Qed.

Lemma seed_apply_barred keys m : bar_kept m (seed_apply env master default_project_id keys m).2.
Proof.
  unfold seed_apply. destruct (prepare _ _ _ _ _) as [[by_project rs]|e]; [|done].
  pose proof (upsert_all_barred rs m) as Hu.
  destruct (upsert_all _ _ rs m) as [[[]|e] m1]; [|exact Hu].
  pose proof (prune_all_barred (hash_iter by_project) m1) as Hp.
  destruct (prune_all _ m1) as [[[]|e] m2]; (etrans; [exact Hu|]); [|exact Hp].
  etrans; [exact Hp|]. unfold prune_default. simpl in *. case_match; [done|].
  destruct (prune_seeded_keys_not_in m2 _ _) as [[n|e] m3] eqn:Hd; by apply prune_barred in Hd.
Qed.

Lemma reload_barred loaded (s : AppConfig * M) :
  bar_kept s.2 (try_reload env master default_project_id loaded s).2.
Proof. destruct loaded as [new|e]; [apply seed_apply_barred|done]. Qed.

(** ** The Admin API *)

Context (app : AuthState).
Notation state := (AdminState M L C).

Lemma create_key_barred uuid random req m :
  uuid ≠ i → bar_kept m (admin_create_key app uuid random req m).2.
Proof.
  intros Hne. unfold admin_create_key. destruct (key_env_parse _) as [ke|]; [|done].
  destruct (create_key m _) as [[row|e] m'] eqn:Hc; cbn [snd];
    [|by apply same_keys_barred, (frame_create_key _ _ _ _ Hc)].
  apply create_key_spec in Hc as (_ & _ & _ & _ & _ & _ & Hk & Hw). simpl in Hk.
  by eapply other_key_barred.
Qed.

Lemma revoke_key_barred k m : bar_kept m (admin_revoke_key k m).2.
Proof.
  unfold admin_revoke_key. destruct (get_key m k) as [old|e]; [|done].
  destruct (config_managed old); [done|].
  destruct (revoke_key m k) as [[[]|e] m'] eqn:Hr; cbn [snd];
    [|by apply same_keys_barred, (frame_revoke_key _ _ _ _ Hr)].
  apply revoke_key_spec in Hr as [(row & ts & Hrow & Hk) Hw].
  destruct (decide (k = i)) as [->|Hne]; [|by eapply other_key_barred].
  intros Hwf. split; [auto|]. intros (r & Hr & Ho & Hs). rewrite Hrow in Hr. injection Hr as <-.
  exists (revoked_row row ts). by rewrite Hk, lookup_insert_eq.
Qed.

Lemma admin_api_barred d headers q (s : state) r s' :
  admin_api app d headers q s = Ret (r, s') → d_uuid d ≠ i →
  bar_kept (adm_metadata s) (adm_metadata s').
Proof.
  intros Hr Hne. cut (∀ p, handle_as app p d q s = Ret (r, s') →
    bar_kept (adm_metadata s) (adm_metadata s')).
  { intros Hh. unfold admin_api in Hr. destruct (is_login q); [by eapply Hh|].
    destruct (admin_principal _ _ _) as [p|e]; [by eapply Hh|]. by injection Hr as <- <-. }
  intros p Hh. destruct q; cbn [handle_as] in Hh;
    try (apply on_metadata_inv in Hh as ->); try (injection Hh as <- <-; done).
  - apply same_keys_barred, login_keys.
  - apply same_keys_barred, create_admin_keys.
  - by apply same_keys_barred; unfold list_admins; destruct (list_admin_users _).
  - by apply create_key_barred.
  - by apply same_keys_barred; unfold admin_list_keys; destruct (list_keys _ _).
  - apply revoke_key_barred.
  - apply on_prices_inv in Hh. unfold adm_metadata. rewrite Hh.
    apply same_keys_barred, upsert_pricing_keys.
  - destruct (admin_recompute_costs _ _ _ _) as [x l]. by injection Hh as <- <-.
  - apply on_prices_inv in Hh. unfold adm_metadata. rewrite Hh. unfold admin_delete_pricing.
    rewrite write_pricing_metadata. apply same_keys_barred, frame_delete_pricing.
  - destruct (admin_list_budgets _ _ _) as [[x b]|]; [|done]. by injection Hh as <- <-.
Qed.

(** A revocation the Admin API confirmed bars the key. *)
Lemma revocation_bars m v m' :
  admin_revoke_key i m = (Ok v, m') → barred m' ∧ (keys_wf m → keys_wf m').
Proof.
  unfold admin_revoke_key. destruct (get_key m i) as [old|e] eqn:Hg; [|done].
  apply get_key_spec in Hg. destruct (config_managed old) eqn:Hm; [done|].
  destruct (revoke_key m i) as [[[]|e] m1] eqn:Hr; [|done]. intros [= _ <-].
  apply revoke_key_spec in Hr as [(row & ts & Hrow & Hk) Hw]. split; [|done].
  exists (revoked_row row ts). rewrite Hk, lookup_insert_eq. split; [done|].
  rewrite Hrow in Hg. subst old. simpl in Hm. by apply String.eqb_neq in Hm.
Qed.

(** Nobody gets in as a barred key. *)
Lemma barred_refused m now headers p touch :
  keys_wf m → barred m → gateway_principal app m now headers = Ok (p, touch) →
  principal_key_id p ≠ i.
Proof.
  intros Hwf (row & Hrow & _ & Hs) Hp Hi.
  destruct (gateway_principal_Ok app m now headers p touch Hp) as (token & r & j & _ & _ & Hj & _ & Hu & _ & ->).
  simpl in Hi. pose proof (keys_wf_id _ Hwf _ _ Hj) as <-. rewrite Hi, Hrow in Hj.
  injection Hj as ->. unfold row_usable in Hu. apply andb_true_iff in Hu as [Ha _].
  by apply String.eqb_eq in Ha.
Qed.
End Barred.
