(* ===== verification/PriceFrames.v ===== *)
(** Which operations of the metadata stores leave the pricing overrides alone, and creating a
    project the keys: what the whole-system statements on prices rest on.
    gateway-storage/src/{memory/mod,sqlite/metadata,postgres/metadata}.rs. *)
From Stdlib Require Import ZArith Lia Bool Ascii String SpecFloat.
From stdpp Require Import prelude gmap strings list.
From S2P Require Import Prelude Text F64 Json Codec Errors Models HttpTypes Stores Pricing.
From S2P Require Import MemoryMeta Sql SqliteMeta PostgresMeta Security Auth AdminPricing AdminApi.
Open Scope Z_scope.

(** * Database programs that leave a view of the tables alone *)

Section Keeps.
Context `{HashOrder} `{SerdeJson} `{SqlEngine} {T : Type} (f : SqlDb → T).
Context (f_faults : ∀ d, f (next_faults d) = f d) (f_clock : ∀ d, f (db_now_ms d).2 = f d).

Definition db_keeps {A} (m : db A) : Prop := ∀ d, f (m d).2 = f d.

Lemma keeps_ret {A} (a : A) : db_keeps (db_ret a).
Proof. done. Qed.
Lemma keeps_fail {A} e : db_keeps (db_fail (A:=A) e).
Proof. done. Qed.
Lemma keeps_bind {A B} (m : db A) (k : A → db B) :
  db_keeps m → (∀ a, db_keeps (k a)) → db_keeps (db_bind m k).
Proof.
  intros Hm Hk d. unfold db_bind. specialize (Hm d). destruct (m d) as [[a|e] d1]; [|exact Hm].
  rewrite Hk. exact Hm.
Qed.
Lemma keeps_clock : db_keeps db_clock.
Proof. intros d. unfold db_clock. rewrite <- (f_clock d). by destruct (db_now_ms d). Qed.
Lemma keeps_execute {A} (g : SqlDb → result (A * SqlDb) DbError) :
  (∀ d a d', g d = Ok (a, d') → f d' = f d) → db_keeps (execute g).
Proof.
  intros Hg d. unfold execute. destruct (db_faults d 0%nat); [apply f_faults|].
  destruct (g (next_faults d)) as [[a d']|e] eqn:He; [|apply f_faults].
  simpl. rewrite (Hg _ _ _ He). apply f_faults.
Qed.
Lemma keeps_statement {A} (g : SqlDb → result (A * SqlDb) DbError) :
  (∀ d a d', g d = Ok (a, d') → f d' = f d) → db_keeps (statement g).
Proof.
  intros Hg. apply keeps_bind; [by apply keeps_execute|]. by intros [a|e].
Qed.
End Keeps.

(** * Prices *)

(** The overrides are those before. *)
Definition same_prices `{PricingLaws M} (m m' : M) : Prop :=
  (∀ p mo, price_of m' p mo = price_of m p mo) ∧ (prices_wf m → prices_wf m').

#[export] Instance same_prices_preorder `{PricingLaws M} : PreOrder (same_prices (M:=M)).
Proof.
  split; [done|]. intros m1 m2 m3 [H12 W12] [H23 W23]. split; [|auto].
  intros p mo. by rewrite H23.
Qed.

(** Only the two pricing operations touch the overrides. *)
Class PriceFrame (M : Type) `{PricingLaws M} : Prop := {
  prices_create_project m p : same_prices m (create_project m p).2;
  prices_create_key m k : same_prices m (create_key m k).2;
  prices_revoke_key m i : same_prices m (revoke_key m i).2;
  prices_touch_key m i ts : same_prices m (touch_key_last_used m i ts).2;
  prices_upsert_seeded m k : same_prices m (upsert_seeded_key m k).2;
  prices_prune m p ids : same_prices m (prune_seeded_keys_not_in m p ids).2;
  prices_create_admin m u : same_prices m (create_admin_user m u).2;
  prices_touch_admin m i ts : same_prices m (touch_admin_last_login m i ts).2
}.

Lemma memory_same_prices `{HashOrder} (m m' : MemMeta) :
  pricing m' = pricing m → same_prices m m'.
Proof. intros Hp. unfold same_prices. simpl. by rewrite Hp. Qed.

#[export] Instance memory_price_frame `{HashOrder} : PriceFrame MemMeta.
Proof.
  constructor; intros; apply memory_same_prices; try done; simpl.
  - unfold mem_revoke_key. by destruct (keys m !! i).
  - unfold mem_touch_key_last_used. by destruct (keys m !! i).
  - unfold mem_upsert_seeded_key, created_at_or_now. case_match; [done|].
    by destruct (keys m !! nk_id k).
  - unfold mem_create_admin_user. simpl. by case_match.
  - unfold mem_touch_admin_last_login. by destruct (admins m !! i).
Qed.

(** Statements that write another table. *)
Ltac other_table :=
  let H := fresh in
  intros ??? H; unfold insert_project, insert_key, upsert_key, update_key, fetch_one, insert_admin,
    insert_new, references_project in H; simpl in H;
  repeat (case_match; simpl in H; try discriminate H); by simplify_eq.

Section Sql.
Context `{HashOrder} `{SerdeLaws} `{SqlEngine}.

Lemma sql_same_prices {A} (m : db A) d : db_keeps t_pricing m → same_prices d (m d).2.
Proof.
  intros Hm. unfold same_prices. specialize (Hm d). cbn in *. by rewrite Hm.
Qed.

Abbreviation keeps m := (db_keeps t_pricing m).

Ltac keeping := repeat first
  [ apply keeps_ret | apply keeps_fail | by apply keeps_clock
  | case_match
  | apply keeps_bind; [|intros ?]
  | apply keeps_statement; [done|other_table] | apply keeps_execute; [done|other_table] ].

Lemma create_project_keeps p : keeps (sqlite_create_project p).
Proof. unfold sqlite_create_project. keeping. Qed.
Lemma create_key_keeps k : keeps (sqlite_create_key k).
Proof. unfold sqlite_create_key. keeping. Qed.
Lemma revoke_key_keeps i : keeps (sqlite_revoke_key i).
Proof. unfold sqlite_revoke_key. keeping. Qed.
Lemma touch_key_keeps i ts : keeps (sqlite_touch_key_last_used i ts).
Proof. unfold sqlite_touch_key_last_used. keeping. Qed.
Lemma upsert_seeded_keeps k : keeps (sqlite_upsert_seeded_key k).
Proof.
  unfold sqlite_upsert_seeded_key, query_with. keeping; by intros d.
Qed.
Lemma prune_keeps p ids : keeps (sqlite_prune_seeded_keys_not_in p ids).
Proof. unfold sqlite_prune_seeded_keys_not_in. keeping. Qed.
Lemma create_admin_keeps u : keeps (sqlite_create_admin_user u).
Proof. unfold sqlite_create_admin_user. keeping. Qed.
Lemma touch_admin_keeps i ts : keeps (sqlite_touch_admin_last_login i ts).
Proof. unfold sqlite_touch_admin_last_login. keeping. Qed.

#[export] Instance sqlite_price_frame : PriceFrame SqlDb.
Proof.
  constructor.
  - intros d p. exact (sql_same_prices _ _ (create_project_keeps p)).
  - intros d k. exact (sql_same_prices _ _ (create_key_keeps k)).
  - intros d i. exact (sql_same_prices _ _ (revoke_key_keeps i)).
  - intros d i ts. exact (sql_same_prices _ _ (touch_key_keeps i ts)).
  - intros d k. exact (sql_same_prices _ _ (upsert_seeded_keeps k)).
  - intros d p ids. exact (sql_same_prices _ _ (prune_keeps p ids)).
  - intros d u. exact (sql_same_prices _ _ (create_admin_keeps u)).
  - intros d i ts. exact (sql_same_prices _ _ (touch_admin_keeps i ts)).
Qed.

Lemma on_tables_prices {A} (w : db A) d :
  same_prices (pg_tables d) (w (pg_tables d)).2 → same_prices d (on_tables w d).2.
Proof. unfold on_tables. by destruct (w (pg_tables d)). Qed.

#[export] Instance postgres_price_frame : PriceFrame PgDb.
Proof.
  constructor.
  - intros d p. exact (on_tables_prices _ _ (sql_same_prices _ _ (create_project_keeps p))).
  - intros d k. exact (on_tables_prices _ _ (sql_same_prices _ _ (create_key_keeps k))).
  - intros d i. exact (on_tables_prices _ _ (sql_same_prices _ _ (revoke_key_keeps i))).
  - intros d i ts. exact (on_tables_prices _ _ (sql_same_prices _ _ (touch_key_keeps i ts))).
  - intros d k. exact (on_tables_prices _ _ (sql_same_prices _ _ (upsert_seeded_keeps k))).
  - intros d p ids. exact (on_tables_prices _ _ (sql_same_prices _ _ (prune_keeps p ids))).
  - intros d u. exact (on_tables_prices _ _ (sql_same_prices _ _ (create_admin_keeps u))).
  - intros d i ts. exact (on_tables_prices _ _ (sql_same_prices _ _ (touch_admin_keeps i ts))).
Qed.
End Sql.

(** * Projects and keys *)

(** Creating a project leaves the keys alone. *)
Class ProjectFrame (M : Type) `{KeyLaws M} : Prop := {
  keys_create_project m p : same_keys m (create_project m p).2
}.

#[export] Instance memory_project_frame `{HashOrder} : ProjectFrame MemMeta.
Proof. constructor. intros m p. by unfold same_keys. Qed.

Lemma create_project_keys `{HashOrder} `{SerdeLaws} `{SqlEngine} p :
  db_keeps t_keys (sqlite_create_project p).
Proof.
  unfold sqlite_create_project. apply keeps_bind; [by apply keeps_clock|]. intros t.
  apply keeps_bind; [|intros u; apply keeps_ret]. apply keeps_statement; [done|other_table].
Qed.

#[export] Instance sqlite_project_frame `{HashOrder} `{SerdeLaws} `{SqlEngine} :
    ProjectFrame SqlDb.
Proof. constructor. intros d p. unfold same_keys. simpl. by rewrite create_project_keys. Qed.

#[export] Instance postgres_project_frame `{HashOrder} `{SerdeLaws} `{SqlEngine} :
    ProjectFrame PgDb.
Proof.
  constructor. intros d p. apply on_tables_keys. exact (keys_create_project (M:=SqlDb) _ p).
Qed.
