(* ===== verification/Startup.v ===== *)
(** Start-up: which stores a storage profile gets, and the prices requests are billed
    with first; gateway-bin/src/main.rs.  Opening a database, connecting to a server,
    reading a file and fetching prices are parameters (their results). *)
From Stdlib Require Import ZArith Lia Bool Ascii String SpecFloat.
From stdpp Require Import prelude gmap strings list.
From S2P Require Import Prelude Text F64 Errors Models Config Stores Pricing MemoryMeta AdminPricing.
Open Scope Z_scope.

(** * Stores *)

Inductive Backend : Type := InMemory | InSqlite | InPostgres | InRedis.

Record StoreBundle : Type := {
  sb_metadata : Backend;
  sb_logs : Backend;
  sb_kv : Backend;
  sb_counter : Backend
}.

(** [open_sqlite], [open_postgres] and [connect_redis] are the outcomes of the attempts. *)
Definition build_stores (open_sqlite open_postgres connect_redis : result unit string)
    (config : AppConfig) : result StoreBundle string :=
  match storage config with
  | Lite _ _ =>
      let? _ := open_sqlite in
      Ok {| sb_metadata := InSqlite; sb_logs := InSqlite; sb_kv := InSqlite;
            sb_counter := InMemory |}
  | Standard _ _ _ =>
      let? _ := open_postgres in
      let? _ := connect_redis in
      Ok {| sb_metadata := InPostgres; sb_logs := InPostgres; sb_kv := InRedis;
            sb_counter := InRedis |}
  | Memory _ =>
      Ok {| sb_metadata := InMemory; sb_logs := InMemory; sb_kv := InMemory;
            sb_counter := InMemory |}
  end.

Fixpoint contains_str (p s : string) : bool :=
  starts_with s p || match s with EmptyString => false | String _ r => contains_str p r end.

(** [canonical] is the canonical path, when there is one. *)
Definition is_likely_networked (canonical : option string) : bool :=
  match canonical with
  | Some path =>
      let s := to_ascii_lowercase path in contains_str "/nfs/" s || contains_str "/smb/" s
  | None => false
  end.

(** * Prices *)

(** The fetched prices, or none when fetching failed, under those of the file. *)
Definition base_prices (remote : result PricingCatalog GatewayError)
    (file_entries : list PricingEntry) : PricingCatalog :=
  with_overrides (match remote with Ok c => c | Err _ => empty_catalog end) file_entries.

Definition boot_prices `{HashOrder} `{MetadataStore M} (remote : result PricingCatalog GatewayError)
    (file : PricingCatalog) (m : M) : result (PricingState M) string :=
  let base := base_prices remote (catalog_entries file) in
  match list_pricing m with
  | Err e => Err ("failed to load pricing overrides: " +:+ storage_error_to_string e)%string
  | Ok overrides =>
      Ok {| ps_metadata := m; ps_base := base; ps_effective := merged_catalog base overrides |}
  end.

(** What is billed from the start is what the administrators' handlers maintain. *)
Lemma boot_in_force `{HashOrder} `{PricingLaws M} remote file (m : M) s :
  prices_wf m → boot_prices remote file m = Ok s → in_force s ∧ ps_metadata s = m.
Proof.
  intros Hwf. unfold boot_prices. destruct (list_pricing m) as [rows|e] eqn:Hl; [|done].
  intros [= <-]. split; [|done].
  set (base := base_prices _ _).
  destruct (refresh_in_force {| ps_metadata := m; ps_base := base; ps_effective := base |}
    {| ps_metadata := m; ps_base := base; ps_effective := merged_catalog base rows |}) as [Hf _];
    [done|unfold refresh_pricing; simpl; by rewrite Hl|exact Hf].
Qed.
