(* ===== verification/Proxy.v ===== *)
(** The proxy endpoint: gateway-api/src/routes/proxy.rs.

    [proxy_inner] is the composition of its phases (admission, routing, cache
    lookup, replay, forwarding) in the order of the code, every early return
    included; what it leaves running is a [StreamTask] (Streaming).  The request
    id (uuid), the collected body and the peer's address are arguments. *)
From Stdlib Require Import ZArith Lia Bool Ascii String SpecFloat.
From stdpp Require Import prelude gmap strings list.
From S2P Require Import Prelude Text F64 Json Errors Models Config Stores HttpTypes.
From S2P Require Import Retry Engine Executor Fingerprint Cache Tokens Pricing LogBody.
From S2P Require Import RateLimit Budget Auth Logging Streaming.
Open Scope Z_scope.

(** * Routing *)

Definition route_matches (route : RouteConfig) (url_namespace : string)
    (model : option string) : bool :=
  match match_namespace (match_ route) with
  | None => false
  | Some expected_ns =>
      if negb (String.eqb expected_ns url_namespace) then false
      else
        match model_prefix (match_ route) with
        | None => true
        | Some prefix =>
            match model with Some m => starts_with m prefix | None => false end
        end
  end.

Definition find_route (config : AppConfig) (url_namespace : string)
    (model : option string) : option RouteConfig :=
  List.find (λ r, route_matches r url_namespace model) (routes config).

Definition extract_model (body : option Value) : option string :=
  (body ≫= λ b, get b "model") ≫= as_str.

(** * Cache eligibility *)

Definition cache_key_needed (policy : option CachePolicy) (body_is_cacheable : bool) :
    bool :=
  body_is_cacheable &&
  match policy with
  | Some p => negb (bool_decide (directive p = CBypass))
  | None => false
  end.

(** * Requests and replies *)

Section Messages.
Context `{HttpTypes}.

Record Request : Type := {
  rq_namespace : string;
  rq_tail : string;
  rq_remote_ip : string;
  rq_headers : HeaderMap;
  rq_method : string;
  (** the collected body, or why it could not be read *)
  rq_body : result bytes string
}.

(** A replayed body, the channel of a streaming task, or the JSON of an error. *)
Inductive ReplyBody : Type :=
| Replayed (cs : list bytes)
| Streamed
| ErrorBody (code message : string)
| EmptyBody.

Record Reply : Type := {
  reply_status : Z;
  reply_headers : HeaderMap;
  reply_body : ReplyBody
}.

(** The first entry of [X-Forwarded-For], [X-Real-IP], or the peer. *)
Definition extract_client_ip (headers : HeaderMap) (remote_ip : string) : option string :=
  let nonempty := opt_filter (λ s, negb (str_is_empty s)) in
  let forwarded :=
    nonempty (trim <$> (hm_get_str headers "x-forwarded-for" ≫= λ v, head (split comma v))) in
  let real := nonempty (trim <$> hm_get_str headers "x-real-ip") in
  or_else forwarded (or_else real (Some remote_ip)).

Definition read_body (body : result bytes string) : result bytes ApiError :=
  map_err (λ e, ABadRequest ("failed to read body: " +:+ e)%string) body.

(** [&key[..48]] may panic. *)
Definition insert_cache_headers (headers : HeaderMap) (status : CacheStatus)
    (key : option string) (age_s : option Z) : outcome HeaderMap :=
  let m := insert_str headers "x-gateway-cache-status" (as_header status) in
  let with_key :=
    match key with
    | Some k =>
        match slice_to k (String.length k `min` 48) with
        | Ret s => Ret (insert_str m "x-gateway-cache-key" s)
        | Panic => Panic
        end
    | None => Ret m
    end in
  match with_key with
  | Ret m =>
      Ret (match age_s with
           | Some age => insert_str m "x-gateway-cache-age" (dec_of age)
           | None => m
           end)
  | Panic => Panic
  end.

(** [builder.header(k, v)] on text; one that does not convert spoils the
    builder. *)
Definition add_text_header (m : option HeaderMap) (kv : string * string) :
    option HeaderMap :=
  m ← m; name ← hn_try_from kv.1; val ← hv_from_str kv.2; Some (hm_append m name val).

Definition framing_header (k : string) : bool :=
  eq_ignore_ascii_case k "content-length" || eq_ignore_ascii_case k "transfer-encoding".

(** The rebuilt response before the gateway's own headers. *)
Definition cached_reply (cached : CachedResponse) : Reply :=
  let kept := List.filter (λ kv, negb (framing_header kv.1)) (cached_headers cached) in
  let status :=
    if (100 <=? cached_status cached) && (cached_status cached <=? 999)
    then cached_status cached else 200 in
  match foldl add_text_header (Some hm_empty) kept with
  | Some m => {| reply_status := status; reply_headers := m;
                 reply_body := Replayed (data <$> chunks cached) |}
  | None => {| reply_status := 200; reply_headers := hm_empty; reply_body := EmptyBody |}
  end.

Definition with_headers (r : Reply) (m : HeaderMap) : Reply :=
  {| reply_status := reply_status r; reply_headers := m; reply_body := reply_body r |}.

(** [build_cached_response] at [now]. *)
Definition build_cached_response (cached : CachedResponse) (cache_status : CacheStatus)
    (cache_key : string) (now : Z) : outcome Reply :=
  let r := cached_reply cached in
  let age := as_i64 (now - finished_at_ms cached) in
  match insert_cache_headers (reply_headers r) cache_status (Some cache_key)
          (Some (Z.max 0 age / 1000)) with
  | Ret m => Ret (with_headers r m)
  | Panic => Panic
  end.

(** [Response::builder().status(..)] with every upstream header. *)
Definition copied_headers (headers : HeaderMap) : HeaderMap :=
  foldl (λ m kv, hm_append m kv.1 kv.2) hm_empty (hm_iter headers).
End Messages.

(** * The handler *)

Section Handler.
Context `{HashOrder} `{HttpTypes} `{SerdeJson} `{Codecs} `{CounterStore C} `{LogStore L}
  `{KvStore K} `{Chrono} {U : Type}.
Context (send : U → OutgoingRequest → result IncomingResponse SendError * U)
  (engine : gmap string ResolvedProvider)
  (json_pieces : Value → list bytes) (blake3_hex : bytes → string)
  (debug_body : option string → string).
Abbreviation M := (prog (Gateway C L K U)).

(** What the request is, once read: [request_json] is parsed once. *)
Record Parsed : Type := {
  pa_body : bytes;
  pa_json : option Value;
  pa_path : string;
  pa_model : option string
}.

Definition parse_request (rq : Request) (body : bytes) : Parsed :=
  let json := from_slice body in
  {| pa_body := body; pa_json := json;
     pa_path := ("/" +:+ trim_start_matches slash (rq_tail rq))%string;
     pa_model := extract_model json |}.

(** The log record before any decision. *)
Definition start_log (request_id : string) (who : GatewayKeyPrincipal) (rq : Request)
    (pa : Parsed) : M RequestLogRecord :=
  let! now := wall_ms in
  let r := log_builder_new request_id (principal_project_id who)
    (Some (rq_namespace rq)) (Some (pa_path pa)) now in
  let r := set_gateway_key (Some (principal_key_id who)) r in
  let r := set_request_body (request_body_for_log json_pieces (pa_body pa) (pa_json pa)) r in
  let r := set_model (pa_model pa) r in
  prog_ret (set_client (extract_client_ip (rq_headers rq) (rq_remote_ip rq))
    (hm_get_str (rq_headers rq) "user-agent") r).

(** The log record of a request answered by the gateway itself. *)
Definition submit_refusal (started : Z) (status : string) (http : Z)
    (error : option string) (r : RequestLogRecord) : M unit :=
  let! elapsed := elapsed_since started in
  let r := set_timing elapsed 0 0 (set_status status (Some http) r) in
  submit_log (match error with Some e => set_error e r | None => r end).

(** Budgets, then limits: the permit, or the refusal (logged). *)
Definition admission (config : AppConfig) (started : Z) (who : GatewayKeyPrincipal)
    (log : RequestLogRecord) : M (result RatePermit ApiError) :=
  let project := principal_project_id who in
  let key := principal_key_id who in
  let! current := load gw_config in
  let! blocked := within gw_budgets put_budgets (check_block current project key) in
  if (blocked : bool) then
    let! _ := submit_refusal started "gateway_error" 429 (Some "budget_exceeded") log in
    prog_ret (Err (AGateway RateLimited))
  else
    let! permit := on_counter (check_limits (limits config) key project) in
    match permit with
    | Ok p => prog_ret (Ok p)
    | Err e =>
        let! _ := submit_refusal started "rate_limited" 429 None log in
        prog_ret (Err e)
    end.

(** The cache policy of the request, whether its body may be cached, and its
    key. *)
Record CachePlan : Type := {
  plan_policy : option CachePolicy;
  plan_cacheable : bool;
  plan_key : option string
}.

Definition plan_cache (route : RouteConfig) (rq : Request) (pa : Parsed) : CachePlan :=
  let policy := from_headers (rq_headers rq) (enabled (cache route)) (ttl (cache route))
    (allow_nondeterministic (cache route)) in
  let cacheable :=
    match policy with Some p => body_is_cacheable p (pa_json pa) | None => false end in
  let key :=
    if cache_key_needed policy cacheable then
      p ← policy;
      let fp := fingerprint blake3_hex
        {| fp_namespace := rq_namespace rq; fp_endpoint := pa_path pa;
           fp_body := pa_body pa; fp_json_body := pa_json pa;
           fp_cache_scope := cache_scope p |} in
      Some ("resp:" +:+ rq_namespace rq +:+ ":" +:+ fp)%string
    else None in
  {| plan_policy := policy; plan_cacheable := cacheable; plan_key := key |}.

(** [kv.get(key)], read back. *)
Definition lookup_key (key : string) : M (CacheStatus * option CachedResponse) :=
  let! r := within gw_kv put_kv (returning (λ k, kv_get k key)) in
  match r with
  | Ok (Some blob) =>
      match decode blob with
      | Ok cached => prog_ret (Hit, Some cached)
      | Err _ => prog_ret (Miss, None)
      end
  | Ok None | Err _ => prog_ret (Miss, None)
  end.

(** The lookup, unless bypassed or refreshed; [expect] panics without a key. *)
Definition cache_lookup (plan : CachePlan) : M (CacheStatus * option CachedResponse) :=
  match plan_policy plan with
  | None => prog_ret (Disabled, None)
  | Some p =>
      if negb (plan_cacheable plan) then prog_ret (Disabled, None)
      else
        match directive p with
        | CBypass => prog_ret (Bypass, None)
        | CRefresh => prog_ret (Refresh, None)
        | CDefault | OnlyIfCached =>
            let! key := lifted (match plan_key plan with
                                | Some key => Ret key | None => Panic end) in
            lookup_key key
        end
  end.

(** [json!([{ "provider": p, "outcome": "cache_hit" }])] *)
Definition cache_hit_attempts (p : string) : Value :=
  VArray [VObject [("outcome", VString "cache_hit"); ("provider", VString p)]].

(** The log record of a replayed response. *)
Definition replay_log (catalog : PricingCatalog) (route : RouteConfig)
    (cached : CachedResponse) (preview : option string) (elapsed : Z)
    (r : RequestLogRecord) : RequestLogRecord :=
  let r := set_timing elapsed 0 0 (set_status "success" (Some (cached_status cached)) r) in
  let r := set_cached true (set_response_body preview r) in
  let usage := extract_token_usage (concat (data <$> chunks cached)) in
  let r := set_token_usage (usage_prompt usage) (usage_completion usage)
    (usage_cached usage) (total_tokens usage) r in
  let provider := default (provider (primary route)) (served_by cached) in
  let would_have :=
    model ← model r;
    bd_cost_usd <$> compute_cost catalog provider model (pricing_usage usage) in
  let r := set_cost (Some f64_zero) would_have r in
  match served_by cached with
  | Some p => merge_metadata "attempts" (cache_hit_attempts p) r
  | None => r
  end.

(** The permit is dropped on return, without reconciling. *)
Definition drop_slots (permit : RatePermit) : M unit :=
  on_counter (λ c, ((), drop_permit permit c)).

Definition replay (started : Z) (route : RouteConfig) (cached : CachedResponse)
    (cache_status : CacheStatus) (key : option string) (log : RequestLogRecord) :
    M Reply :=
  let! elapsed := elapsed_since started in
  let! preview := lifted (cached_body_preview cached) in
  let! catalog := load gw_pricing in
  let! _ := submit_log (replay_log catalog route cached preview elapsed log) in
  let! key := lifted (match key with Some k => Ret k | None => Panic end) in
  let! now := wall_ms in
  lifted (build_cached_response cached cache_status key now).

(** [serde_json::to_value(&result.attempts)] *)
Definition opt_value {A} (f : A → Value) (o : option A) : Value :=
  match o with Some a => f a | None => VNull end.
Definition trace_value (t : AttemptTrace) : Value :=
  VObject [("duration_ms", VNumber (PosInt (trace_duration_ms t)));
    ("model", opt_value VString (trace_model t));
    ("outcome", VString (trace_outcome t));
    ("provider", VString (trace_provider t));
    ("status", opt_value (λ s, VNumber (PosInt s)) (trace_status t))].
Definition attempts_value (ts : list AttemptTrace) : Value :=
  VArray (trace_value <$> ts).

(** The chain's trace in the log. *)
Definition chain_log (result : ChainResult) (r : RequestLogRecord) : RequestLogRecord :=
  let attempts := cr_attempts result in
  let r := merge_metadata "attempts" (attempts_value attempts) r in
  let r := set_retry (as_i32 (sat_sub (blen attempts) 1)) r in
  match cr_fallback_used result with
  | Some fb => set_fallback (Some fb) r
  | None => r
  end.

Definition request_template (rq : Request) (pa : Parsed) : ForwardRequest :=
  {| fr_provider := rq_namespace rq; fr_path := pa_path pa; fr_query := None;
     fr_method := rq_method rq; fr_headers := rq_headers rq;
     fr_body := match pa_body pa with [] => None | b => Some b end |}.

Definition forward_chain (route : RouteConfig) (rq : Request) (pa : Parsed) :
    M ChainResult :=
  returning (λ g,
    let '(result, es) := execute_chain send engine (from_route route)
      (request_template rq pa) (gw_net g) (gw_rng g) in
    (result, put_net g (es_net es) (es_rng es))).

(** The task that will stream [response] to the client. *)
Definition stream_task (started : Z) (who : GatewayKeyPrincipal) (route : RouteConfig)
    (plan : CachePlan) (cache_status : CacheStatus) (permit : RatePermit)
    (log : RequestLogRecord) (fallback_used : option string)
    (response : ForwardResponse) : StreamTask :=
  {| tk_items := resp_body response; tk_log := log; tk_started := started;
     tk_permit := permit; tk_status := resp_status response;
     tk_headers := resp_headers response;
     tk_upstream_ms := as_i64 (resp_upstream_ms response);
     tk_ttfb_ms := as_i64 (resp_ttfb_ms response);
     tk_provider := default (provider (primary route)) fallback_used;
     tk_project_id := principal_project_id who; tk_key_id := principal_key_id who;
     tk_should_write :=
       bool_decide (cache_status = Miss ∨ cache_status = Refresh) &&
       is_success (resp_status response) && plan_cacheable plan &&
       bool_decide (is_Some (plan_policy plan));
     tk_cache_ttl := policy_ttl <$> plan_policy plan; tk_cache_key := plan_key plan |}.

(** From the end of the lookup without a hit: forward and start streaming. *)
Definition forward_phase (started : Z) (who : GatewayKeyPrincipal) (rq : Request)
    (pa : Parsed) (route : RouteConfig) (plan : CachePlan) (cache_status : CacheStatus)
    (permit : RatePermit) (log : RequestLogRecord) :
    M (result (Reply * option StreamTask) ApiError) :=
  let! forward_started := instant_now in
  let! result := forward_chain route rq pa in
  let! forward_ms := elapsed_since forward_started in
  let log := chain_log result log in
  match cr_response result with
  | Err e =>
      let! elapsed := elapsed_since started in
      let log := set_status (classification e) (Some (as_i32 (status_code e))) log in
      let log := set_timing elapsed forward_ms 0 log in
      let! _ := submit_log (set_error (gateway_error_to_string debug_body e) log) in
      let! _ := drop_slots permit in
      prog_ret (Err (AGateway e))
  | Ok response =>
      let task := stream_task started who route plan cache_status permit log
        (cr_fallback_used result) response in
      let! headers := lifted (insert_cache_headers (copied_headers (resp_headers response))
        cache_status (plan_key plan) None) in
      prog_ret (Ok ({| reply_status := resp_status response; reply_headers := headers;
                       reply_body := Streamed |}, Some task))
  end.

(** From the permit to the answer: routing, cache, upstream. *)
Definition serve (config : AppConfig) (started : Z) (who : GatewayKeyPrincipal)
    (rq : Request) (pa : Parsed) (permit : RatePermit) (log : RequestLogRecord) :
    M (result (Reply * option StreamTask) ApiError) :=
  match find_route config (rq_namespace rq) (pa_model pa) with
  | None =>
      let! _ := submit_refusal started "gateway_error" 404
        (Some ("no route for namespace '" +:+ rq_namespace rq +:+ "'")%string) log in
      let! _ := drop_slots permit in
      prog_ret (Err (AGateway (NoRoute (rq_namespace rq))))
  | Some route =>
      let plan := plan_cache route rq pa in
      let! (cache_status, found) := cache_lookup plan in
      match found with
      | Some cached =>
          let! r := replay started route cached cache_status (plan_key plan) log in
          let! _ := drop_slots permit in
          prog_ret (Ok (r, None))
      | None =>
          if bool_decide (directive <$> plan_policy plan = Some OnlyIfCached) then
            let! _ := submit_refusal started "gateway_error" 504
              (Some "cache miss with X-Gateway-Cache: only") log in
            let! _ := drop_slots permit in
            prog_ret (Err (AGateway UpstreamTimeout))
          else forward_phase started who rq pa route plan cache_status permit log
      end
  end.

Definition proxy_inner (request_id : string) (who : GatewayKeyPrincipal) (rq : Request) :
    M (result (Reply * option StreamTask) ApiError) :=
  let! started := instant_now in
  let! config := load gw_config in
  match read_body (rq_body rq) with
  | Err e => prog_ret (Err e)
  | Ok body =>
      let pa := parse_request rq body in
      let! log := start_log request_id who rq pa in
      let! admitted := admission config started who log in
      match admitted with
      | Err e => prog_ret (Err e)
      | Ok permit => serve config started who rq pa permit log
      end
  end.

(** [ApiError::into_response]; axum's [Json] sets the content type. *)
Definition error_reply (e : ApiError) : Reply :=
  let '(status, code, message) := into_response debug_body e in
  {| reply_status := status;
     reply_headers := insert_str hm_empty "content-type" "application/json";
     reply_body := ErrorBody code message |}.

(** [proxy_handler]: the reply, and the task left running. *)
Definition proxy_handler (request_id : string) (who : GatewayKeyPrincipal) (rq : Request) :
    M (Reply * option StreamTask) :=
  let! r := proxy_inner request_id who rq in
  let '(reply, task) :=
    match r with Ok (reply, task) => (reply, task) | Err e => (error_reply e, None) end in
  prog_ret (with_headers reply
    (insert_str (reply_headers reply) "x-gateway-request-id" request_id), task).
End Handler.
