(* ===== verification/ProxyCorrect.v ===== *)
(** What the proxy endpoint guarantees: one log record per request, slots given
    back, nothing sent upstream without admission, transparent replies, replays
    of exactly what was stored. *)
From Stdlib Require Import ZArith Lia Bool Ascii String SpecFloat.
From stdpp Require Import prelude gmap strings list relations.
From S2P Require Import Prelude Text F64 Json Errors Models Config Stores HttpTypes.
From S2P Require Import MemoryCounter MemoryLog MemoryKv.
From S2P Require Import Retry Engine Executor Fingerprint Cache Tokens Pricing LogBody.
From S2P Require Import RateLimit Budget Auth Logging Streaming Proxy.
Open Scope Z_scope.

(** * The shared counter store *)

Section Slots.
Context `{CounterStore C} `{Chrono} {L K U : Type}.
Context (costs : f64 → Prop) (limits : list LimitConfig) (hs : list ConcurrencyPermit).

(** The counter store moves by single operations, [hs] being held. *)
Definition counter_steps : relation C := λ c c', rtc (store_step costs limits) (c, hs) (c', hs).

#[local] Instance counter_steps_preorder : PreOrder counter_steps.
Proof. split; [intros c; apply rtc_refl|intros c1 c2 c3; unfold counter_steps; by etransitivity]. Qed.

Definition manager_steps : relation (BudgetManager C) :=
  λ m m', counter_steps (counter m) (counter m').
#[local] Instance manager_steps_preorder : PreOrder manager_steps.
Proof. split; [intros m; apply rtc_refl|intros m1 m2 m3; unfold manager_steps, counter_steps; by etransitivity]. Qed.

Lemma current_period_steps b : moves manager_steps (current_period b).
Proof.
  unfold current_period, utc_now. apply moves_bind; try apply _.
  - apply moves_returning. intros m. apply rtc_refl.
  - intros t. apply moves_lifted. apply _.
Qed.

Lemma read_used_steps b p : moves manager_steps (read_used b p).
Proof.
  apply moves_returning. intros m. unfold manager_steps, counter_steps.
  pose proof (step_read costs limits (counter m) hs (budget_name b) p) as Hs.
  destruct (read_budget _ _ _) as [r c']. by apply rtc_once.
Qed.

Lemma incr_used_steps b p c : costs c → moves manager_steps (incr_used b p c).
Proof.
  intros Hc. apply moves_returning. intros m. unfold manager_steps, counter_steps.
  pose proof (step_budget costs limits (counter m) hs (budget_name b) p c Hc) as Hs.
  destruct (incr_budget _ _ _ _) as [r c']. by apply rtc_once.
Qed.

Lemma check_block_steps cfg pi ki : moves manager_steps (check_block cfg pi ki).
Proof.
  unfold check_block. induction (matching_budgets cfg pi ki) as [|b bs IH]; simpl.
  - apply moves_ret. apply _.
  - apply moves_bind; try apply _; [apply current_period_steps|]. intros p.
    apply moves_bind; try apply _; [apply read_used_steps|]. intros used.
    case_match; [apply moves_ret; apply _|exact IH].
Qed.

Lemma cross_threshold_steps b p used pct t :
  moves manager_steps (cross_threshold b p used pct t).
Proof.
  unfold cross_threshold, notify, fire_threshold. case_match; [|apply moves_ret; apply _].
  apply moves_bind; try apply _; [apply moves_returning; intros m; apply rtc_refl|]. intros fresh.
  case_match; [apply moves_returning; intros m; apply rtc_refl|apply moves_ret; apply _].
Qed.

Lemma record_cost_steps cfg pi ki cost :
  (f64_leb cost f64_zero = false → costs cost) → moves manager_steps (record_cost cfg pi ki cost).
Proof.
  intros Hcost. unfold record_cost. case_match; [apply moves_ret; apply _|].
  apply moves_for; try apply _. intros b. unfold record_on.
  apply moves_bind; try apply _; [apply current_period_steps|]. intros p.
  apply moves_bind; try apply _; [by apply incr_used_steps, Hcost|]. intros used.
  apply moves_for; try apply _. intros t. apply cross_threshold_steps.
Qed.

Lemma current_usage_steps cfg project : moves manager_steps (current_usage cfg project).
Proof.
  unfold current_usage. induction (budget_configs cfg) as [|b bs IH]; simpl.
  - apply moves_ret. apply _.
  - case_match; [exact IH|]. apply moves_bind; try apply _; [apply current_period_steps|].
    intros p. apply moves_bind; try apply _; [apply read_used_steps|]. intros used.
    apply moves_bind; try apply _; [exact IH|]. intros items. apply moves_ret. apply _.
Qed.
End Slots.

(** * What each phase moves *)

Section Phases.
Context `{HashOrder} `{HttpTypes} `{SerdeJson} `{Codecs} `{CounterStore C} `{LogStore L}
  `{KvStore K} `{Chrono} {U : Type}.
Context (send : U → OutgoingRequest → result IncomingResponse SendError * U)
  (engine : gmap string ResolvedProvider)
  (json_pieces : Value → list bytes) (blake3_hex : bytes → string)
  (debug_body : option string → string).
Abbreviation G := (Gateway C L K U).

(** The parts of the state the phases are followed on. *)
Definition upstream_of (g : G) : U := upstream (gw_net g).
Definition world (g : G) : AppConfig * PricingCatalog * C * U :=
  (gw_config g, gw_pricing g, counter_of g, upstream_of g).
Definition seen (g : G) : (AppConfig * PricingCatalog * C * U) * list RequestLogRecord :=
  (world g, gw_submitted g).

Lemma same_seen g g' : same seen g g' → same world g g' ∧ gw_submitted g' = gw_submitted g.
Proof. intros Hs. split; [exact (f_equal fst Hs)|exact (f_equal snd Hs)]. Qed.
Lemma same_world g g' :
  same world g g' →
  gw_config g' = gw_config g ∧ gw_pricing g' = gw_pricing g ∧
  counter_of g' = counter_of g ∧ upstream_of g' = upstream_of g.
Proof. unfold same, world. intros Hw. by simplify_eq. Qed.

Lemma instant_now_seen : moves (same seen) instant_now.
Proof. by apply moves_returning. Qed.
Lemma elapsed_since_seen started : moves (same seen) (elapsed_since started).
Proof.
  apply moves_bind; try apply _; [apply instant_now_seen|]. intros t.
  apply moves_ret. apply _.
Qed.
Lemma wall_ms_seen : moves (same seen) wall_ms.
Proof.
  unfold wall_ms. eapply (moves_within _ _ _ _ (same counter)); [by apply moves_returning|].
  intros g m Hm. unfold same, seen, world, counter_of in *. simpl. by rewrite Hm.
Qed.
Lemma submit_log_world r : moves (same world) (submit_log r).
Proof. by apply submit_log_same. Qed.
Lemma load_seen {A} (f : G → A) : moves (same seen) (load f).
Proof. by apply moves_returning. Qed.

Lemma lookup_key_seen key : moves (same seen) (lookup_key key).
Proof. unfold lookup_key. frame. Qed.
Lemma cache_lookup_seen plan : moves (same seen) (cache_lookup plan).
Proof.
  unfold cache_lookup. repeat case_match; try (apply moves_ret; apply _);
    (apply moves_bind; try apply _; [apply moves_lifted; apply _|]); intros k;
    apply lookup_key_seen.
Qed.

(** A record about this request, whatever became of it. *)
Definition attributed (who : GatewayKeyPrincipal) (rq : Request) (pa : Parsed)
    (r : RequestLogRecord) : Prop :=
  project_id r = principal_project_id who ∧
  gateway_key_id r = Some (principal_key_id who) ∧
  namespace r = Some (rq_namespace rq) ∧ endpoint r = Some (pa_path pa) ∧
  model r = pa_model pa ∧
  request_body r = request_body_for_log json_pieces (pa_body pa) (pa_json pa) ∧
  client_ip r = extract_client_ip (rq_headers rq) (rq_remote_ip rq).

Lemma start_log_Ret request_id who rq pa (g : G) r g' :
  start_log json_pieces request_id who rq pa g = Ret (r, g') →
  attributed who rq pa r ∧ id r = request_id ∧ cost_usd r = None ∧ same seen g g'.
Proof.
  unfold start_log. intros Hr. prog_inv. apply wall_ms_seen in Hrun. done.
Qed.

Lemma submit_refusal_Ret started st http err log (g : G) u g' :
  submit_refusal started st http err log g = Ret (u, g') →
  same world g g' ∧ ∃ r, gw_submitted g' = gw_submitted g ++ [r] ∧
    http_status r = Some http ∧
    ∀ who rq pa, attributed who rq pa log → attributed who rq pa r.
Proof.
  unfold submit_refusal. intros Hr. prog_inv. apply elapsed_since_seen in Hrun.
  apply same_seen in Hrun as [Hw Hs].
  pose proof (submit_log_world _ _ _ _ Hr) as Hw'. apply submit_log_Ret in Hr.
  split; [by etransitivity|]. rewrite Hr, Hs.
  eexists. split; [done|]. by destruct err.
Qed.

Lemma drop_slots_Ret permit (g : G) u g' :
  drop_slots permit g = Ret (u, g') →
  counter_of g' = drop_permit permit (counter_of g) ∧
  upstream_of g' = upstream_of g ∧ gw_submitted g' = gw_submitted g.
Proof. intros Hr. apply returning_Ret in Hr as [= <- <-]. done. Qed.

(** [g'] has one more record than [g], about whatever [log] is about. *)
Definition one_more (log : RequestLogRecord) (g g' : G) : Prop :=
  ∃ r, gw_submitted g' = gw_submitted g ++ [r] ∧
    ∀ who rq pa, attributed who rq pa log → attributed who rq pa r.

Lemma admit_Ret config started who log (g : G) r g' :
  admission config started who log g = Ret (r, g') →
  upstream_of g' = upstream_of g ∧
  ∃ blocked m,
    check_block (gw_config g) (principal_project_id who) (principal_key_id who)
      (gw_budgets g) = Ret (blocked, m) ∧
  if (blocked : bool)
  then r = Err (AGateway RateLimited) ∧ counter_of g' = counter m ∧ one_more log g g'
  else check_limits (limits config) (principal_key_id who) (principal_project_id who)
         (counter m) = (r, counter_of g') ∧
       match r with
       | Ok _ => gw_submitted g' = gw_submitted g
       | Err _ => one_more log g g'
       end.
Proof.
  unfold admission. intros Hr. prog_inv. apply returning_Ret in Hrun as [= <- <-].
  apply within_Ret in Hrun0 as (m & Hm & ->). destruct a0.
  - prog_inv. destruct (submit_refusal_Ret _ _ _ _ _ _ _ _ Hrun) as (Hw & rec & Hs & _ & Ha).
    apply same_world in Hw as (_ & _ & Hc & Hu). split; [exact Hu|].
    exists true, m. split; [exact Hm|]. split; [done|]. split; [exact Hc|].
    exists rec. by split.
  - prog_inv. apply returning_Ret in Hrun. simpl in Hrun.
    destruct (check_limits _ _ _ _) as [res c] eqn:Hl. injection Hrun as <- <-.
    destruct res as [p|e]; prog_inv.
    + split; [done|]. exists false, m. by split.
    + destruct (submit_refusal_Ret _ _ _ _ _ _ _ _ Hrun) as (Hw & rec & Hs & _ & Ha).
      apply same_world in Hw as (_ & _ & Hc & Hu). split; [exact Hu|].
      exists false, m. split; [exact Hm|]. split; [by rewrite Hc|]. exists rec. by split.
Qed.

Lemma forward_chain_Ret route rq pa (g : G) result g' :
  forward_chain send engine route rq pa g = Ret (result, g') →
  counter_of g' = counter_of g ∧ gw_submitted g' = gw_submitted g.
Proof.
  intros Hr. apply returning_Ret in Hr. simpl in Hr.
  destruct (execute_chain _ _ _ _ _ _) as [res es]. by injection Hr as _ <-.
Qed.

Lemma chain_log_attributed result log who rq pa :
  attributed who rq pa log → attributed who rq pa (chain_log result log).
Proof. unfold chain_log. by destruct (cr_fallback_used result). Qed.

Lemma forward_phase_Ret started who rq pa route plan cs permit log (g : G) res g' :
  forward_phase send engine debug_body started who rq pa route plan cs permit log g =
    Ret (res, g') →
  match res with
  | Err _ => counter_of g' = drop_permit permit (counter_of g) ∧ one_more log g g'
  | Ok (_, None) => False
  | Ok (reply, Some t) =>
      counter_of g' = counter_of g ∧ gw_submitted g' = gw_submitted g ∧
      reply_status reply = tk_status t ∧ reply_body reply = Streamed ∧
      insert_cache_headers (copied_headers (tk_headers t)) cs (plan_key plan) None =
        Ret (reply_headers reply) ∧
      ∃ result response (g1 g2 : G),
        t = stream_task started who route plan cs permit (chain_log result log)
              (cr_fallback_used result) response ∧
        forward_chain send engine route rq pa g1 = Ret (result, g2) ∧
        cr_response result = Ok response
  end.
Proof.
  unfold forward_phase. intros Hr. prog_inv.
  apply instant_now_seen, same_seen in Hrun as [Hw0 Hs0].
  apply same_world in Hw0 as (_ & _ & Hc0 & _).
  rename Hrun0 into Hforward. apply forward_chain_Ret in Hforward as Hch.
  destruct Hch as [Hc1 Hs1].
  apply elapsed_since_seen, same_seen in Hrun1 as [Hw2 Hs2].
  apply same_world in Hw2 as (_ & _ & Hc2 & _).
  destruct (cr_response a0) as [response|e] eqn:Hresp; prog_inv.
  - rewrite Hc2, Hc1, Hs2, Hs1. do 5 (split; [done|]). by eexists _, _, _, _.
  - apply elapsed_since_seen, same_seen in Hrun as [Hw3 Hs3].
    apply same_world in Hw3 as (_ & _ & Hc3 & _).
    apply submit_log_world in Hrun0 as Hw4. apply same_world in Hw4 as (_ & _ & Hc4 & _).
    apply submit_log_Ret in Hrun0. apply drop_slots_Ret in Hrun1 as (Hc5 & _ & Hs5).
    split; [by rewrite Hc5, Hc4, Hc3, Hc2, Hc1, Hc0|].
    eexists. split; [by rewrite Hs5, Hrun0, Hs3, Hs2, Hs1, Hs0|].
    intros w q p Ha. by apply (chain_log_attributed a0) in Ha.
Qed.

Lemma cache_lookup_found plan (g : G) cs cached g' :
  cache_lookup plan g = Ret ((cs, Some cached), g') →
  cs = Hit ∧ ∃ key blob k, plan_key plan = Some key ∧
    kv_get (gw_kv g) key = (Ok (Some blob), k) ∧ decode blob = Ok cached.
Proof.
  unfold cache_lookup. intros Hr.
  destruct (plan_policy plan) as [p|]; [|by prog_inv].
  destruct (plan_cacheable plan); simpl in Hr; [|by prog_inv].
  assert (Hl : ∃ key, plan_key plan = Some key ∧ lookup_key key g = Ret ((cs, Some cached), g')).
  { destruct (directive p); prog_inv; simplify_eq;
      (destruct (plan_key plan) as [key|]; [|done]); simplify_eq; by exists a. }
  destruct Hl as (key & Hkey & Hl). unfold lookup_key in Hl. prog_inv.
  apply within_Ret in Hrun as (k & Hk & ->). apply returning_Ret in Hk.
  destruct a as [[blob|]|e]; [|by prog_inv|by prog_inv].
  destruct (decode blob) as [c|] eqn:Hd; [|by prog_inv]. prog_inv. simplify_eq.
  split; [done|]. by exists key, blob, k.
Qed.

Lemma replay_Ret started route cached cs key log (g : G) reply g' :
  replay started route cached cs key log g = Ret (reply, g') →
  same world g g' ∧ one_more log g g' ∧
  ∃ k now, key = Some k ∧ build_cached_response cached cs k now = Ret reply.
Proof.
  unfold replay. intros Hr. prog_inv.
  apply elapsed_since_seen, same_seen in Hrun as [Hw0 Hs0].
  apply load_seen, same_seen in Hrun1 as [Hw1 Hs1].
  apply submit_log_world in Hrun2 as Hw2. apply submit_log_Ret in Hrun2.
  apply wall_ms_seen, same_seen in Hrun4 as [Hw3 Hs3].
  repeat match goal with H : lifted _ _ = Ret _ |- _ => apply lifted_Ret in H as [? <-] end.
  split; [by repeat (etransitivity; [eassumption|])|]. split.
  - eexists. split; [by rewrite Hs3, Hrun2, Hs1, Hs0|].
    intros w q p Ha. unfold replay_log. by destruct (served_by cached).
  - destruct key as [k|]; [|done]. simplify_eq. by eexists _, _.
Qed.

Lemma serve_Ret config started who rq pa permit log (g : G) res g' :
  serve send engine blake3_hex debug_body config started who rq pa permit log g =
    Ret (res, g') →
  match res with
  | Ok (reply, Some t) =>
      counter_of g' = counter_of g ∧ gw_submitted g' = gw_submitted g ∧
      reply_status reply = tk_status t ∧ reply_body reply = Streamed ∧
      ∃ route cs result response (g1 g2 : G),
        find_route config (rq_namespace rq) (pa_model pa) = Some route ∧
        insert_cache_headers (copied_headers (tk_headers t)) cs
          (plan_key (plan_cache blake3_hex route rq pa)) None = Ret (reply_headers reply) ∧
        t = stream_task started who route (plan_cache blake3_hex route rq pa) cs permit
              (chain_log result log) (cr_fallback_used result) response ∧
        forward_chain send engine route rq pa g1 = Ret (result, g2) ∧
        cr_response result = Ok response
  | _ => counter_of g' = drop_permit permit (counter_of g) ∧ one_more log g g'
  end.
Proof.
  unfold serve. intros Hr.
  assert (Hrefused : ∀ st http err (g1 g2 g3 : G) u v,
    same seen g g1 → submit_refusal started st http err log g1 = Ret (u, g2) →
    drop_slots permit g2 = Ret (v, g3) →
    counter_of g3 = drop_permit permit (counter_of g) ∧ one_more log g g3).
  { intros st http err g1 g2 g3 u v [Hw1 Hs1]%same_seen Hrun Hd.
    apply same_world in Hw1 as (_ & _ & Hc1 & _).
    destruct (submit_refusal_Ret _ _ _ _ _ _ _ _ Hrun) as (Hw & rec & Hs & _ & Ha).
    apply same_world in Hw as (_ & _ & Hc & _). apply drop_slots_Ret in Hd as (Hc3 & _ & Hs3).
    split; [by rewrite Hc3, Hc, Hc1|]. exists rec. split; [by rewrite Hs3, Hs, Hs1|done]. }
  destruct (find_route _ _ _) as [route|] eqn:Hroute.
  2: { prog_inv. by eapply Hrefused. }
  set (plan := plan_cache blake3_hex route rq pa) in *. prog_inv. destruct a as [cs found].
  apply cache_lookup_seen in Hrun as Hseen. destruct found as [cached|].
  - prog_inv. apply same_seen in Hseen as [Hw1 Hs1].
    apply replay_Ret in Hrun0 as (Hw2 & (rec & Hs2 & Ha) & _).
    apply same_world in Hw1 as (_ & _ & Hc1 & _), Hw2 as (_ & _ & Hc2 & _).
    apply drop_slots_Ret in Hrun1 as (Hc3 & _ & Hs3).
    split; [by rewrite Hc3, Hc2, Hc1|]. exists rec. split; [by rewrite Hs3, Hs2, Hs1|done].
  - case_bool_decide; [prog_inv; by eapply Hrefused|].
    apply forward_phase_Ret in Hr. apply same_seen in Hseen as [Hw1 Hs1].
    apply same_world in Hw1 as (_ & _ & Hc1 & _).
    destruct res as [[reply [t|]]|e]; [|done|].
    + destruct Hr as (Hc & Hs & Hst & Hb & Hh & result & response & h1 & h2 & Ht).
      rewrite Hc, Hs, Hc1, Hs1. do 4 (split; [done|]).
      by exists route, cs, result, response, h1, h2.
    + destruct Hr as (Hc & rec & Hs & Ha). split; [by rewrite Hc, Hc1|].
      exists rec. split; [by rewrite Hs, Hs1|done].
Qed.

(** Only forwarding reaches the upstream. *)
Lemma serve_upstream config started who rq pa permit log (g : G) res g' :
  serve send engine blake3_hex debug_body config started who rq pa permit log g =
    Ret (res, g') →
  upstream_of g' = upstream_of g ∨
  ∃ route cs g1, find_route config (rq_namespace rq) (pa_model pa) = Some route ∧
    cache_lookup (plan_cache blake3_hex route rq pa) g = Ret ((cs, None), g1) ∧
    directive <$> plan_policy (plan_cache blake3_hex route rq pa) ≠ Some OnlyIfCached.
Proof.
  unfold serve. intros Hr.
  destruct (find_route _ _ _) as [route|] eqn:Hroute; [|left].
  2: { prog_inv. apply submit_refusal_Ret in Hrun as (Hw & _).
       apply same_world in Hw as (_ & _ & _ & Hu).
       apply drop_slots_Ret in Hrun0 as (_ & Hu' & _). by rewrite Hu', Hu. }
  prog_inv. destruct a as [cs [cached|]].
  - left. prog_inv. apply cache_lookup_seen, same_seen in Hrun as [Hw1 _].
    apply replay_Ret in Hrun0 as (Hw2 & _).
    apply same_world in Hw1 as (_ & _ & _ & Hu1), Hw2 as (_ & _ & _ & Hu2).
    apply drop_slots_Ret in Hrun1 as (_ & Hu3 & _). by rewrite Hu3, Hu2, Hu1.
  - case_bool_decide as Hd; [left|right; by eexists _, _, _].
    apply cache_lookup_seen, same_seen in Hrun as [Hw1 _]. prog_inv.
    apply submit_refusal_Ret in Hrun as (Hw & _).
    apply same_world in Hw as (_ & _ & _ & Hu), Hw1 as (_ & _ & _ & Hu1).
    apply drop_slots_Ret in Hrun0 as (_ & Hu' & _). by rewrite Hu', Hu, Hu1.
Qed.

(** How a request whose body was read goes: admission, then service. *)
Lemma proxy_inner_Ret request_id who rq body (g : G) res g' :
  proxy_inner send engine json_pieces blake3_hex debug_body request_id who rq g =
    Ret (res, g') →
  rq_body rq = Ok body →
  let pa := parse_request rq body in
  ∃ started log g1 r g2,
    same seen g g1 ∧
    attributed who rq pa log ∧ id log = request_id ∧ cost_usd log = None ∧
    admission (gw_config g) started who log g1 = Ret (r, g2) ∧
    match r with
    | Err e => res = Err e ∧ g' = g2
    | Ok permit =>
        serve send engine blake3_hex debug_body (gw_config g) started who rq pa permit log
          g2 = Ret (res, g')
    end.
Proof.
  unfold proxy_inner. intros Hr Hb. rewrite Hb in Hr. simpl in Hr. prog_inv.
  apply instant_now_seen in Hrun. apply returning_Ret in Hrun0 as [= <- <-].
  apply start_log_Ret in Hrun1 as (Ha & Hid & Hcost & Hs).
  apply same_seen in Hrun as Hw. destruct Hw as [Hw _].
  apply same_world in Hw as (Hcf & _). rewrite Hcf in *.
  exists a, a1, s1, a2, s2. split; [by etransitivity|]. do 4 (split; [done|]).
  destruct a2; [done|]. by prog_inv.
Qed.

Lemma proxy_handler_Ret request_id who rq (g : G) reply task g' :
  proxy_handler send engine json_pieces blake3_hex debug_body request_id who rq g =
    Ret ((reply, task), g') →
  ∃ res,
    proxy_inner send engine json_pieces blake3_hex debug_body request_id who rq g =
      Ret (res, g') ∧
    ∃ r, (res = Ok (r, task) ∨ ∃ e, res = Err e ∧ task = None ∧ r = error_reply debug_body e) ∧
      reply = with_headers r (insert_str (reply_headers r) "x-gateway-request-id" request_id).
Proof.
  unfold proxy_handler. intros Hr. prog_inv. exists a.
  destruct a as [[r t]|e].
  - prog_inv. simplify_eq. split; [done|]. exists r. split; [by left|done].
  - prog_inv. simplify_eq. split; [done|]. eexists. split; [right; by exists e|done].
Qed.

Lemma unread_body request_id who rq e (g : G) res g' :
  proxy_inner send engine json_pieces blake3_hex debug_body request_id who rq g =
    Ret (res, g') →
  rq_body rq = Err e →
  same seen g g' ∧ ∃ e', res = Err e'.
Proof.
  unfold proxy_inner. intros Hr Hb. rewrite Hb in Hr. simpl in Hr. prog_inv.
  apply instant_now_seen in Hrun. apply load_seen in Hrun0.
  split; [by etransitivity|]. by eexists.
Qed.

Lemma task_one_record accepts (t : StreamTask) (g : G) out g' :
  run_task accepts t g = Ret (out, g') →
  ∃ r, gw_submitted g' = gw_submitted g ++ [r] ∧
    ∀ who rq pa, attributed who rq pa (tk_log t) → attributed who rq pa r.
Proof.
  intros Hr. apply run_task_Ret in Hr as (_ & [[_ Hf]|[_ Hb]]).
  - apply finished_Ret in Hf as (g1 & m & el & _ & _ & _ & _ & Hs).
    eexists. split; [exact Hs|]. intros who rq pa Ha. unfold final_log, response_log, adopt_id.
    by destruct (extract_response_id _).
  - apply broken_off_Ret in Hb as (el & _ & _ & Hs).
    eexists. split; [exact Hs|]. intros who rq pa Ha. unfold response_log, adopt_id.
    by destruct (extract_response_id _).
Qed.

(** The same, with the record written out. *)
Lemma replay_record started route cached cs key log (g : G) reply g' :
  replay started route cached cs key log g = Ret (reply, g') →
  ∃ preview elapsed, same world g g' ∧
    gw_submitted g' =
      gw_submitted g ++ [replay_log (gw_pricing g) route cached preview elapsed log] ∧
    ∃ k now, key = Some k ∧ build_cached_response cached cs k now = Ret reply.
Proof.
  intros Hr. pose proof Hr as (Hw & _ & Hk)%replay_Ret. revert Hr.
  unfold replay. intros Hr. prog_inv.
  apply elapsed_since_seen, same_seen in Hrun as [Hw0 Hs0].
  apply same_world in Hw0 as (_ & Hpr & _).
  apply returning_Ret in Hrun1 as [= <- <-]. apply submit_log_Ret in Hrun2.
  apply wall_ms_seen, same_seen in Hrun4 as [_ Hs3].
  exists a0, a. split; [done|]. split; [|done]. rewrite Hs3, Hrun2, Hs0, Hpr.
  reflexivity.
Qed.

Lemma cache_lookup_hit plan p key blob k cached (g : G) r g' :
  plan_policy plan = Some p → plan_cacheable plan = true →
  directive p = CDefault ∨ directive p = OnlyIfCached → plan_key plan = Some key →
  kv_get (gw_kv g) key = (Ok (Some blob), k) → decode blob = Ok cached →
  cache_lookup plan g = Ret (r, g') → r = (Hit, Some cached).
Proof.
  intros Hp Hc Hd Hkey Hget Hdec. unfold cache_lookup. rewrite Hp, Hc, Hkey. simpl.
  assert (Hl : ∀ r g', lookup_key key g = Ret (r, g') → r = (Hit, Some cached)).
  { intros r' g1 Hl. unfold lookup_key in Hl. prog_inv.
    apply within_Ret in Hrun as (k' & Hk & ->). apply returning_Ret in Hk.
    rewrite Hget in Hk. injection Hk as <- <-. rewrite Hdec in Hl. by prog_inv. }
  destruct Hd as [-> | ->]; apply Hl.
Qed.

Lemma plan_key_cacheable route rq pa key :
  plan_key (plan_cache blake3_hex route rq pa) = Some key →
  plan_cacheable (plan_cache blake3_hex route rq pa) = true.
Proof.
  unfold plan_cache. simpl. unfold cache_key_needed.
  destruct (match from_headers _ _ _ _ with Some p => _ | None => _ end); [done|].
  done.
Qed.

Lemma admit_slots costs config started who log (g : G) r g' hs :
  admission config started who log g = Ret (r, g') →
  rtc (store_step costs (limits config)) (counter_of g, hs) (counter_of g', hs ++ permits_of r).
Proof.
  intros Ha. destruct (admit_Ret _ _ _ _ _ _ _ Ha) as (_ & blocked & m & Hb & Hcase).
  apply (check_block_steps costs (limits config) hs) in Hb. etransitivity; [exact Hb|].
  destruct blocked.
  - destruct Hcase as (-> & -> & _). simpl. by rewrite app_nil_r.
  - destruct Hcase as [Hl _].
    pose proof (check_loop_steps costs (limits config) (limits config) (principal_key_id who)
      (principal_project_id who) no_permit (counter m) hs (reflexivity _)) as Hs.
    unfold check_limits in Hl. rewrite Hl in Hs. simpl in Hs. by rewrite app_nil_r in Hs.
Qed.

Lemma task_slots (costs : f64 → Prop) limits accepts (t : StreamTask) (g : G) out g' hs :
  (∀ r c, r ∈ gw_submitted g' → cost_usd r = Some c → f64_leb c f64_zero = false → costs c) →
  run_task accepts t g = Ret (out, g') →
  rtc (store_step costs limits) (counter_of g, hs ++ concurrency_permits (tk_permit t))
    (counter_of g', hs).
Proof.
  intros Hcosts Hr. apply run_task_Ret in Hr as (_ & [[_ Hf]|[_ Hb]]).
  - apply finished_Ret in Hf as (g1 & m & el & Hw & _ & Hm & Hcost & Hsub).
    apply write_back_counter in Hw. unfold same, counter_of in *. rewrite Hw in Hm.
    transitivity (counter m, hs).
    + rewrite Hm. unfold reconcile_tokens, drop_permit.
      etransitivity; [apply reconcile_one_steps|]. apply release_all_steps.
    + destruct (request_cost _ _ _) eqn:Hrc; [|by rewrite Hcost].
      apply (record_cost_steps costs limits hs) in Hcost; [done|].
      eapply Hcosts; [rewrite Hsub; apply elem_of_app; right; by left|reflexivity].
  - apply broken_off_Ret in Hb as (el & _ & Hd & _). unfold counter_of. rewrite Hd.
    apply release_all_steps.
Qed.
(** What a request leaves in the log, and what its task will. *)
Lemma handler_records request_id who rq body (g : G) reply task g' :
  proxy_handler send engine json_pieces blake3_hex debug_body request_id who rq g =
    Ret ((reply, task), g') →
  rq_body rq = Ok body →
  match task with
  | None => ∃ r, gw_submitted g' = gw_submitted g ++ [r] ∧
                 attributed who rq (parse_request rq body) r
  | Some t => gw_submitted g' = gw_submitted g ∧
              attributed who rq (parse_request rq body) (tk_log t)
  end.
Proof.
  intros (res & Hi & r & Hres & _)%proxy_handler_Ret Hb.
  destruct (proxy_inner_Ret _ _ _ _ _ _ _ Hi Hb)
    as (st & log & g1 & a & g2 & [_ Hs1]%same_seen & Ha & _ & _ & Hadm & Hrest).
  destruct (admit_Ret _ _ _ _ _ _ _ Hadm) as (_ & blocked & m & _ & Hcase).
  assert (Hone : ∀ g3, one_more log g1 g3 →
    ∃ r, gw_submitted g3 = gw_submitted g ++ [r] ∧
      attributed who rq (parse_request rq body) r).
  { intros g3 (rec & Hs & Hat). exists rec. rewrite Hs, Hs1. eauto. }
  destruct a as [permit|e].
  2: { destruct Hrest as [-> ->]. destruct Hres as [Hr|(e' & _ & -> & _)]; [done|].
       apply Hone. destruct blocked; [apply Hcase|apply Hcase]. }
  destruct blocked; [by destruct Hcase as [? _]|]. destruct Hcase as [_ Hs2].
  assert (Hone2 : ∀ g3, one_more log g2 g3 → one_more log g1 g3).
  { intros g3 (rec & Hs & Hat). exists rec. by rewrite Hs, Hs2. }
  apply serve_Ret in Hrest.
  destruct Hres as [->|(e & -> & -> & _)]; [|by apply Hone, Hone2, Hrest].
  destruct task as [t|]; [|by apply Hone, Hone2, Hrest].
  destruct Hrest
    as (_ & Hs & _ & _ & route & cs & result & response & h1 & h2 & _ & _ & Ht & _).
  split; [by rewrite Hs, Hs2, Hs1|]. rewrite Ht. by apply chain_log_attributed.
Qed.

Lemma handler_unread request_id who rq e (g : G) reply task g' :
  proxy_handler send engine json_pieces blake3_hex debug_body request_id who rq g =
    Ret ((reply, task), g') →
  rq_body rq = Err e → task = None ∧ same seen g g'.
Proof.
  intros (res & Hi & r & Hres & _)%proxy_handler_Ret Hb.
  destruct (unread_body _ _ _ _ _ _ _ Hi Hb) as [Hs [e' ->]].
  by destruct Hres as [Hr|(? & ? & -> & _)].
Qed.

(** The slots a request leaves taken are those of its task. *)
Lemma handler_slots costs request_id who rq (g : G) reply task g' hs :
  proxy_handler send engine json_pieces blake3_hex debug_body request_id who rq g =
    Ret ((reply, task), g') →
  rtc (store_step costs (limits (gw_config g))) (counter_of g, hs)
    (counter_of g', hs ++
       match task with Some t => concurrency_permits (tk_permit t) | None => [] end).
Proof.
  intros (res & Hi & r & Hres & _)%proxy_handler_Ret.
  destruct (rq_body rq) as [body|e] eqn:Hb.
  2: { destruct (unread_body _ _ _ _ _ _ _ Hi Hb) as [Hs [e' ->]].
       apply same_seen in Hs as [(_ & _ & -> & _)%same_world _].
       destruct Hres as [Hr|(? & ? & -> & _)]; [done|]. by rewrite app_nil_r. }
  destruct (proxy_inner_Ret _ _ _ _ _ _ _ Hi Hb)
    as (st & log & g1 & a & g2 & Hs1 & _ & _ & _ & Hadm & Hrest).
  apply same_seen in Hs1 as [(Hcf & _ & Hc1 & _)%same_world _].
  pose proof (admit_slots costs _ _ _ _ _ _ _ hs Hadm) as Hsteps. rewrite Hc1 in Hsteps.
  destruct a as [permit|e].
  2: { destruct Hrest as [-> ->]. destruct Hres as [Hr|(e' & _ & -> & _)]; [done|exact Hsteps]. }
  etransitivity; [exact Hsteps|].
  apply serve_Ret in Hrest.
  destruct Hres as [->|(e & -> & -> & _)]; [destruct task as [t|]|].
  - destruct Hrest
      as (-> & _ & _ & _ & route & cs & result & response & h1 & h2 & _ & _ & -> & _). done.
  - rewrite app_nil_r, (proj1 Hrest). apply release_all_steps.
  - rewrite app_nil_r, (proj1 Hrest). apply release_all_steps.
Qed.
End Phases.

(** * Reply headers *)

(** The names the gateway adds. *)
Definition gateway_header (k : string) : bool :=
  existsb (String.eqb k)
    ["x-gateway-cache-status"; "x-gateway-cache-key"; "x-gateway-cache-age";
     "x-gateway-request-id"].

Section Headers.
Context `{HttpLaws}.

Lemma get_all_copied m k : hm_get_all (copied_headers m) k = hm_get_all m k.
Proof.
  pose proof (get_all_foldl_append (λ _, false) (hm_iter m) hm_empty k) as Hc.
  simpl in Hc. unfold copied_headers. by rewrite Hc, get_all_empty, get_all_iter.
Qed.

Lemma get_all_insert_gateway m k s k' :
  gateway_header k = true → gateway_header k' = false →
  hm_get_all (insert_str m k s) k' = hm_get_all m k'.
Proof.
  intros Hk Hk'. rewrite get_all_insert_str.
  destruct (String.eqb_spec k' k) as [->|]; [congruence|]. by case_match.
Qed.

Lemma insert_cache_headers_get m status key age m' k :
  insert_cache_headers m status key age = Ret m' → gateway_header k = false →
  hm_get_all m' k = hm_get_all m k.
Proof.
  unfold insert_cache_headers. intros Hi Hk. repeat case_match; simplify_eq;
    by rewrite !get_all_insert_gateway.
Qed.
End Headers.

(** * Replays *)

(** What the cache is given for a task (see [cache_written_exactly]). *)
Definition stored_response `{HttpTypes} (t : StreamTask) (now : Z) : CachedResponse :=
  {| cached_status := tk_status t; cached_headers := header_texts (tk_headers t);
     chunks := Build_CachedChunk <$> chunks_of (tk_items t); finished_at_ms := now;
     served_by := Some (tk_provider t) |}.

(** The values of a header that are text. *)
Definition text_values `{HttpTypes} (m : HeaderMap) (k : string) : list HeaderValue :=
  filter (λ v, is_Some (hv_to_str v)) (hm_get_all m k).

Lemma unwrapped_chunks (cs : list bytes) : data <$> (Build_CachedChunk <$> cs) = cs.
Proof. induction cs as [|c cs IH]; [done|]. rewrite !fmap_cons, IH. done. Qed.

Lemma stored_body `{HttpTypes} (t : StreamTask) now :
  concat (data <$> chunks (stored_response t now)) = body_of t.
Proof. cbn [stored_response chunks]. by rewrite unwrapped_chunks. Qed.

Section Replay.
Context `{HttpLaws}.

Lemma add_text_headers (l : list (string * HeaderValue)) m :
  (∀ name v, (name, v) ∈ l → hn_try_from name = Some name) →
  ∃ m', foldl add_text_header (Some m)
          (List.filter (λ kv, negb (framing_header kv.1))
             (omap (λ kv, v ← hv_to_str kv.2; Some (kv.1, v)) l)) = Some m' ∧
    ∀ k, framing_header k = false →
      hm_get_all m' k =
        hm_get_all m k ++ filter (λ v, is_Some (hv_to_str v)) (filter (λ kv, kv.1 = k) l).*2.
Proof.
  revert m. induction l as [|[name v] l IH]; intros m Hn; simpl.
  { exists m. split; [done|]. intros k _. by rewrite app_nil_r. }
  assert (Hl : ∀ name v, (name, v) ∈ l → hn_try_from name = Some name).
  { intros n w Hin. eapply Hn. by right. }
  destruct (hv_to_str v) as [s|] eqn:Hs; simpl.
  2: { destruct (IH m Hl) as (m' & Hf & Hk). exists m'. split; [exact Hf|].
       intros k Hfr. rewrite (Hk k Hfr). f_equal. rewrite filter_cons.
       case_decide; [|done]. simpl. rewrite filter_cons_False; [done|].
       rewrite Hs. by intros [? [=]]. }
  destruct (framing_header name) eqn:Hfn; simpl.
  { destruct (IH m Hl) as (m' & Hf & Hk). exists m'. split; [exact Hf|].
    intros k Hfr. rewrite (Hk k Hfr). f_equal. rewrite (filter_cons_False _ (name, v)); [done|].
    simpl. intros ->. congruence. }
  rewrite (Hn name v ltac:(by left)), (to_str_from_str _ _ Hs). simpl.
  destruct (IH (hm_append m name v) Hl) as (m' & Hf & Hk). exists m'. split; [exact Hf|].
  intros k Hfr. rewrite (Hk k Hfr), get_all_append, <- app_assoc. f_equal.
  rewrite filter_cons. simpl. destruct (String.eqb_spec k name) as [->|Hne].
  - rewrite decide_True by done. simpl. rewrite filter_cons_True; [done|]. by exists s.
  - by rewrite decide_False by congruence.
Qed.

Lemma stored_reply (t : StreamTask) now m :
  is_success (tk_status t) = true →
  foldl add_text_header (Some hm_empty)
    (List.filter (λ kv, negb (framing_header kv.1)) (header_texts (tk_headers t))) = Some m →
  cached_reply (stored_response t now) =
    {| reply_status := tk_status t; reply_headers := m;
       reply_body := Replayed (chunks_of (tk_items t)) |}.
Proof.
  intros Hok Hf. unfold cached_reply, stored_response.
  cbn [cached_headers cached_status chunks]. rewrite Hf, unwrapped_chunks.
  unfold is_success in Hok. apply andb_prop in Hok as [H1%Z.leb_le H2%Z.ltb_lt].
  by rewrite !(proj2 (Z.leb_le _ _)) by lia.
Qed.

Lemma build_cached_stored (t : StreamTask) now cs key now' reply :
  is_success (tk_status t) = true →
  (∀ name v, (name, v) ∈ hm_iter (tk_headers t) → hn_try_from name = Some name) →
  build_cached_response (stored_response t now) cs key now' = Ret reply →
  reply_status reply = tk_status t ∧
  reply_body reply = Replayed (chunks_of (tk_items t)) ∧
  ∀ name, gateway_header name = false → framing_header name = false →
    hm_get_all (reply_headers reply) name = text_values (tk_headers t) name.
Proof.
  intros Hok Hn Hb. unfold build_cached_response in Hb.
  destruct (insert_cache_headers _ _ _ _) as [m|] eqn:Hi; [|done]. injection Hb as <-.
  destruct (add_text_headers (hm_iter (tk_headers t)) hm_empty Hn) as (m' & Hf & Hk).
  rewrite (stored_reply _ _ _ Hok Hf) in Hi |- *. split; [done|]. split; [done|].
  intros name Hg Hfr. cbn [with_headers reply_headers] in *.
  rewrite (insert_cache_headers_get _ _ _ _ _ _ Hi Hg), (Hk _ Hfr).
  by rewrite get_all_empty, <- get_all_iter.
Qed.
End Replay.

(** * What no request changes *)

Section Frame.
Context `{HashOrder} `{HttpTypes} `{SerdeJson} `{Codecs} `{CounterStore C} `{LogStore L}
  `{KvStore K} `{Chrono} {U : Type}.
Context (send : U → OutgoingRequest → result IncomingResponse SendError * U)
  (engine : gmap string ResolvedProvider)
  (json_pieces : Value → list bytes) (blake3_hex : bytes → string)
  (debug_body : option string → string).
Abbreviation G := (Gateway C L K U).

(** A view of the state that neither counters, logs, cache nor network show up in. *)
Context {T : Type} (f : G → T).
Context (f_budgets : ∀ g m, f (put_budgets g m) = f g) (f_logs : ∀ g l, f (put_logs g l) = f g)
  (f_kv : ∀ g k, f (put_kv g k) = f g) (f_net : ∀ g n r, f (put_net g n r) = f g)
  (f_note : ∀ g r, f (note_submitted g r) = f g).

Lemma submit_refusal_same started st http e log :
  moves (same f) (submit_refusal started st http e log).
Proof.
  apply moves_bind; try apply _; [by apply elapsed_since_same|]. intros el.
  by apply submit_log_same.
Qed.

Lemma drop_slots_same permit : moves (same f) (drop_slots permit).
Proof. by apply on_counter_same. Qed.

Lemma admission_same config started who log : moves (same f) (admission config started who log).
Proof.
  unfold admission. apply moves_bind; try apply _; [by apply moves_returning|]. intros cfg.
  apply moves_bind; try apply _.
  { eapply (moves_within _ _ _ _ (λ _ _, True)); [done|]. intros; apply f_budgets. }
  intros blocked. destruct blocked.
  - apply moves_bind; try apply _; [apply submit_refusal_same|]. intros _. apply moves_ret, _.
  - apply moves_bind; try apply _; [by apply on_counter_same|]. intros [p|e].
    + apply moves_ret, _.
    + apply moves_bind; try apply _; [apply submit_refusal_same|]. intros _. apply moves_ret, _.
Qed.

Lemma start_log_same request_id who rq pa : moves (same f) (start_log json_pieces request_id who rq pa).
Proof.
  unfold start_log. apply moves_bind; try apply _; [by apply wall_ms_same|]. intros now. frame.
Qed.

Lemma cache_lookup_same plan : moves (same f) (cache_lookup plan).
Proof.
  assert (Hk : ∀ key, moves (same f) (lookup_key key)).
  { intros key. unfold lookup_key. apply moves_bind; try apply _; [|intros r; frame].
    eapply (moves_within _ _ _ _ (λ _ _, True)); [done|]. intros; apply f_kv. }
  unfold cache_lookup. frame; apply Hk.
Qed.

Lemma replay_same started route cached cs key log :
  moves (same f) (replay started route cached cs key log).
Proof.
  unfold replay, load. frame; try (by apply elapsed_since_same); try (by apply wall_ms_same);
    try (by apply submit_log_same).
Qed.

Lemma forward_phase_same started who rq pa route plan cs permit log :
  moves (same f)
    (forward_phase send engine debug_body started who rq pa route plan cs permit log).
Proof.
  unfold forward_phase. apply moves_bind; try apply _.
  { apply moves_returning. intros g. unfold read_instant. simpl. apply f_net. }
  intros t0. apply moves_bind; try apply _.
  { apply moves_returning. intros g. destruct (execute_chain _ _ _ _ _ _) as [r es].
    apply f_net. }
  intros result. apply moves_bind; try apply _; [by apply elapsed_since_same|]. intros ms.
  destruct (cr_response result) as [response|e].
  - apply moves_bind; try apply _; [apply moves_lifted, _|]. intros h. apply moves_ret, _.
  - apply moves_bind; try apply _; [by apply elapsed_since_same|]. intros el.
    apply moves_bind; try apply _; [by apply submit_log_same|]. intros _.
    apply moves_bind; try apply _; [apply drop_slots_same|]. intros _. apply moves_ret, _.
Qed.

Lemma handler_same request_id who rq :
  moves (same f)
    (proxy_handler send engine json_pieces blake3_hex debug_body request_id who rq).
Proof.
  unfold proxy_handler. apply moves_bind; try apply _; [|intros r; frame].
  unfold proxy_inner. apply moves_bind; try apply _.
  { apply moves_returning. intros g. unfold read_instant. simpl. apply f_net. }
  intros started. apply moves_bind; try apply _; [by apply moves_returning|]. intros config.
  destruct (read_body _) as [body|e]; [|apply moves_ret, _].
  apply moves_bind; try apply _; [apply start_log_same|]. intros log.
  apply moves_bind; try apply _; [apply admission_same|]. intros [permit|e];
    [|apply moves_ret, _].
  unfold serve. destruct (find_route _ _ _) as [route|].
  - apply moves_bind; try apply _; [apply cache_lookup_same|]. intros [cs [cached|]].
    + apply moves_bind; try apply _; [apply replay_same|]. intros reply.
      apply moves_bind; try apply _; [apply drop_slots_same|]. intros _. apply moves_ret, _.
    + case_match; [|apply forward_phase_same].
      apply moves_bind; try apply _; [apply submit_refusal_same|]. intros _.
      apply moves_bind; try apply _; [apply drop_slots_same|]. intros _. apply moves_ret, _.
  - apply moves_bind; try apply _; [apply submit_refusal_same|]. intros _.
    apply moves_bind; try apply _; [apply drop_slots_same|]. intros _. apply moves_ret, _.
Qed.

Lemma run_task_same accepts (t : StreamTask) : moves (same f) (run_task accepts t).
Proof.
  unfold run_task. destruct (pump _ _ _ _) as [p complete].
  apply moves_bind; try apply _; [|intros _; apply moves_ret, _]. destruct complete.
  - unfold finished. apply moves_bind; try apply _; [by apply write_back_same|]. intros _.
    apply moves_bind; try apply _; [by apply on_counter_same|]. intros _.
    apply moves_bind; try apply _; [by apply charge_request_same|]. intros cost.
    apply moves_bind; try apply _; [by apply elapsed_since_same|]. intros el.
    by apply submit_log_same.
  - unfold broken_off. apply moves_bind; try apply _; [by apply elapsed_since_same|]. intros el.
    apply moves_bind; try apply _; [by apply submit_log_same|]. intros _.
    by apply on_counter_same.
Qed.
End Frame.

(** * Properties *)

Section Properties.
Context `{HashOrder} `{HttpTypes} `{SerdeJson} `{Codecs} `{CounterStore C} `{LogStore L}
  `{KvStore K} `{Chrono} {U : Type}.
Context (send : U → OutgoingRequest → result IncomingResponse SendError * U)
  (engine : gmap string ResolvedProvider)
  (json_pieces : Value → list bytes) (blake3_hex : bytes → string)
  (debug_body : option string → string).
Abbreviation G := (Gateway C L K U).
Abbreviation handler := (proxy_handler send engine json_pieces blake3_hex debug_body).

(** Every request leaves exactly one log record, whichever way it goes: a
    request whose body was read is logged by the handler itself when it is
    refused, replayed or fails, and by its streaming task, and only by it, when
    the upstream answered; the record is always attributed to the request's key,
    project, namespace, endpoint, model and body.  A request whose body cannot
    be read leaves none. *)
Theorem one_record_per_request request_id who rq (g : G) reply task g' :
  handler request_id who rq g = Ret ((reply, task), g') →
  match rq_body rq with
  | Err _ => task = None ∧ gw_submitted g' = gw_submitted g
  | Ok body =>
      let about := attributed json_pieces who rq (parse_request rq body) in
      match task with
      | None => ∃ r, gw_submitted g' = gw_submitted g ++ [r] ∧ about r
      | Some t =>
          gw_submitted g' = gw_submitted g ∧
          ∀ accepts (g1 : G) out g2, run_task accepts t g1 = Ret (out, g2) →
            ∃ r, gw_submitted g2 = gw_submitted g1 ++ [r] ∧ about r
      end
  end.
Proof.
  intros Hh. destruct (rq_body rq) as [body|e] eqn:Hb.
  - pose proof (handler_records _ _ _ _ _ _ _ _ _ _ _ _ _ Hh Hb) as Hr. cbv zeta.
    destruct task as [t|]; [|exact Hr]. destruct Hr as [Hs Ha]. split; [done|].
    intros accepts g1 out g2 Hrun.
    destruct (task_one_record json_pieces _ _ _ _ _ Hrun) as (r & Hr & Hat). eauto.
  - destruct (handler_unread _ _ _ _ _ _ _ _ _ _ _ _ _ Hh Hb) as [-> [_ Hs]%same_seen].
    by split.
Qed.

(** A request gives back every slot it takes: as operations on the counter
    store, whatever permits [hs] other requests hold meanwhile, a request that
    is answered by the gateway itself ends holding nothing, one that is streamed
    leaves exactly the slots of its task's permit taken, and the end of the task,
    at whatever later state and however the stream ends, gives those back. *)
Theorem request_slots_returned request_id who rq (g : G) reply task g' hs :
  handler request_id who rq g = Ret ((reply, task), g') →
  let slots t := concurrency_permits (tk_permit t) in
  let steps := rtc (store_step (λ _, True) (limits (gw_config g))) in
  steps (counter_of g, hs)
    (counter_of g', hs ++ match task with Some t => slots t | None => [] end) ∧
  ∀ t accepts (g1 : G) out g2, task = Some t → run_task accepts t g1 = Ret (out, g2) →
    steps (counter_of g1, hs ++ slots t) (counter_of g2, hs).
Proof.
  intros Hh slots steps. split; [by eapply handler_slots|].
  intros t accepts g1 out g2 _ Hrun. by eapply task_slots.
Qed.

(** C17: Nothing is sent upstream on behalf of a request that is not let in: the
    upstream is only ever contacted for a request whose body was read, which no
    budget blocks, which passed every limit, whose namespace and model have a
    route, and which the cache neither answers nor is asked to answer alone. *)
Theorem upstream_needs_admission request_id who rq (g : G) reply task g' :
  handler request_id who rq g = Ret ((reply, task), g') →
  upstream_of g' = upstream_of g ∨
  ∃ body route permit (m m' : BudgetManager C) (g2 g3 : G) cs,
    let pa := parse_request rq body in
    let plan := plan_cache blake3_hex route rq pa in
    rq_body rq = Ok body ∧
    counter m = counter_of g ∧
    check_block (gw_config g) (principal_project_id who) (principal_key_id who) m =
      Ret (false, m') ∧
    check_limits (limits (gw_config g)) (principal_key_id who) (principal_project_id who)
      (counter m') = (Ok permit, counter_of g2) ∧
    find_route (gw_config g) (rq_namespace rq) (pa_model pa) = Some route ∧
    cache_lookup plan g2 = Ret ((cs, None), g3) ∧
    directive <$> plan_policy plan ≠ Some OnlyIfCached.
Proof.
  intros (res & Hi & _)%proxy_handler_Ret.
  destruct (rq_body rq) as [body|e] eqn:Hb.
  2: { left. destruct (unread_body _ _ _ _ _ _ _ _ _ _ _ _ Hi Hb) as [Hs _].
       by apply same_seen in Hs as [(_ & _ & _ & Hu)%same_world _]. }
  destruct (proxy_inner_Ret _ _ _ _ _ _ _ _ _ _ _ _ Hi Hb)
    as (st & log & g1 & a & g2 & Hs1 & _ & _ & _ & Hadm & Hrest).
  apply same_seen in Hs1 as [(Hcf & _ & Hc1 & Hu1)%same_world _].
  destruct (admit_Ret json_pieces _ _ _ _ _ _ _ Hadm) as (Hu2 & blocked & m & Hm & Hcase).
  destruct a as [permit|e]; [|left; destruct Hrest as [_ ->]; by rewrite Hu2].
  destruct blocked; [by destruct Hcase|]. destruct Hcase as [Hl _].
  apply serve_upstream with (json_pieces := json_pieces) in Hrest as [Hu3|(route & cs & g3 & Hroute & Hlook & Hd)].
  - left. by rewrite Hu3, Hu2.
  - right. exists body, route, permit, (gw_budgets g1), m, g2, g3, cs.
    rewrite Hcf in Hm. by repeat split.
Qed.

(** C31: A streamed reply is the upstream's: it has the status, the body and,
    under every name that is not one of the gateway's own four, exactly the header
    values of the response that running the provider chain of the request's route
    ended with (no [X-Provider] is attached, as the documents have it); and its task will
    account for the provider that served it. *)
Theorem reply_transparent `{!HttpLaws} request_id who rq (g : G) reply t g' :
  handler request_id who rq g = Ret ((reply, Some t), g') →
  ∃ body route n rng result es response,
    let pa := parse_request rq body in
    rq_body rq = Ok body ∧
    find_route (gw_config g) (rq_namespace rq) (pa_model pa) = Some route ∧
    execute_chain send engine (from_route route) (request_template rq pa) n rng =
      (result, es) ∧
    cr_response result = Ok response ∧
    reply_status reply = resp_status response ∧ reply_body reply = Streamed ∧
    (∀ k, gateway_header k = false →
       hm_get_all (reply_headers reply) k = hm_get_all (resp_headers response) k) ∧
    tk_status t = resp_status response ∧ tk_items t = resp_body response ∧
    tk_provider t = default (provider (primary route)) (cr_fallback_used result).
Proof.
  intros (res & Hi & r & Hres & ->)%proxy_handler_Ret.
  destruct Hres as [->|(e & _ & [=] & _)].
  destruct (rq_body rq) as [body|e] eqn:Hb.
  2: { by destruct (unread_body _ _ _ _ _ _ _ _ _ _ _ _ Hi Hb) as [_ [e' [=]]]. }
  destruct (proxy_inner_Ret _ _ _ _ _ _ _ _ _ _ _ _ Hi Hb)
    as (st & log & g1 & a & g2 & _ & _ & _ & _ & _ & Hrest).
  destruct a as [permit|e]; [|by destruct Hrest].
  apply serve_Ret with (json_pieces := json_pieces) in Hrest
    as (_ & _ & Hst & Hbody & route & cs & result & response & h1 & h2 & Hroute & Hh & Ht
        & Hf & Hresp).
  apply returning_Ret in Hf.
  destruct (execute_chain _ _ _ _ _ _) as [res es] eqn:Hex. injection Hf as -> <-.
  exists body, route, (gw_net h1), (gw_rng h1), result, es, response.
  do 4 (split; [done|]). rewrite Ht in Hst, Hh. split; [exact Hst|]. split; [exact Hbody|].
  split; [|by rewrite Ht]. intros k Hk. simpl.
  rewrite get_all_insert_gateway by done.
  by rewrite (insert_cache_headers_get _ _ _ _ _ k Hh Hk), get_all_copied.
Qed.

(** C27: A cache hit replays what the upstream said: when the cache holds, under
    the key of an admitted request that may read it, the response a streaming
    task stored, the client gets the stored status, every chunk of the stored
    body and the stored textual headers (framing headers aside; no [X-Provider] is
    attached, as the documents have it), the upstream is not contacted, and the record says [cached], free of charge, with the price
    of the reported usage at the provider that served it as the saving. *)
Theorem replay_is_stored `{!HttpLaws, !CodecLaws} (t : StreamTask) now blob config started
    who rq pa permit log (g : G) res g' route p key k :
  encode (stored_response t now) = Ok blob →
  is_success (tk_status t) = true →
  (∀ name v, (name, v) ∈ hm_iter (tk_headers t) → hn_try_from name = Some name) →
  find_route config (rq_namespace rq) (pa_model pa) = Some route →
  plan_policy (plan_cache blake3_hex route rq pa) = Some p →
  directive p = CDefault ∨ directive p = OnlyIfCached →
  plan_key (plan_cache blake3_hex route rq pa) = Some key →
  kv_get (gw_kv g) key = (Ok (Some blob), k) →
  serve send engine blake3_hex debug_body config started who rq pa permit log g =
    Ret (res, g') →
  upstream_of g' = upstream_of g ∧
  ∃ reply r,
    res = Ok (reply, None) ∧ reply_status reply = tk_status t ∧
    reply_body reply = Replayed (chunks_of (tk_items t)) ∧
    (∀ name, gateway_header name = false → framing_header name = false →
       hm_get_all (reply_headers reply) name = text_values (tk_headers t) name) ∧
    gw_submitted g' = gw_submitted g ++ [r] ∧ cached r = true ∧
    cost_usd r = Some f64_zero ∧
    would_have_cost_usd r =
      (model ← model log;
       bd_cost_usd <$> compute_cost (gw_pricing g) (tk_provider t) model
         (pricing_usage (extract_token_usage (body_of t)))).
Proof.
  intros Henc Hok Hnames Hroute Hp Hd Hkey Hget Hr.
  apply encode_decode in Henc. unfold serve in Hr. rewrite Hroute in Hr. prog_inv.
  assert (Ha : a = (Hit, Some (stored_response t now))).
  { eapply cache_lookup_hit; [exact Hp|by eapply plan_key_cacheable|exact Hd|exact Hkey
                              |exact Hget|exact Henc|exact Hrun]. }
  rewrite Ha in Hr. prog_inv.
  apply cache_lookup_seen, same_seen in Hrun as [Hw1 Hs1].
  apply same_world in Hw1 as (_ & Hpr1 & _ & Hu1).
  apply drop_slots_Ret in Hrun1 as (_ & Hu3 & Hs3).
  apply (replay_record json_pieces) in Hrun0 as (preview & el & Hw2 & Hs2 & k0 & now' & Hk0 & Hb).
  apply same_world in Hw2 as (_ & _ & _ & Hu2).
  split; [by rewrite Hu3, Hu2, Hu1|].
  destruct (build_cached_stored _ _ _ _ _ _ Hok Hnames Hb) as (Hst & Hbody & Hh).
  eexists _, _. split; [done|]. split; [done|]. split; [done|]. split; [exact Hh|].
  split; [rewrite Hs3, Hs2, Hs1; reflexivity|]. rewrite Hpr1. unfold replay_log. cbv zeta.
  rewrite stored_body. by split_and!.
Qed.
End Properties.
