(* ===== verification/System.v ===== *)
(** The gateway as a whole: every entry point over one shared [AppState]
    (gateway-api/src/state.rs), in whatever order they come.

    An event is a proxied request with its authentication (the extractor and handler of
    routes/proxy.rs), the end of a streaming task or of a last-use task that an earlier
    request left running, an Admin API call (server.rs), or a reload of the configuration
    file (reload.rs).  Handlers interleave at the tasks they spawn, each event being run to
    its end; that slots stay right when single operations on the counter store interleave is
    [RateLimit.concurrency_invariant]. *)
From Stdlib Require Import ZArith Lia Bool Ascii String SpecFloat.
From stdpp Require Import prelude gmap strings list relations.
From S2P Require Import Prelude Text F64 Json Errors Models Config Stores HttpTypes.
From S2P Require Import Engine Fingerprint Cache Tokens Pricing LogBody RateLimit Budget.
From S2P Require Import Security Auth Seeding AdminLogs AdminPricing AdminApi Revocation.
From S2P Require Import Logging Streaming Proxy ProxyCorrect.
Open Scope Z_scope.

(** * State and events *)

Section State.
Context `{HttpTypes}.

(** A request that was let in by its key. *)
Record Accepted : Type := { acc_who : GatewayKeyPrincipal; acc_request : Request }.

(** [AppState], with the tasks left running and, for the statements, the requests accepted
    so far.  What authentication reads ([AuthState]) and the proxy engine never change. *)
Record System (M C L K U : Type) : Type := {
  sys_metadata : M;
  sys_base : PricingCatalog;
  sys_gateway : Gateway C L K U;
  sys_streams : list StreamTask;
  sys_touches : list (string * Z);
  sys_accepted : list Accepted
}.

Inductive Event : Type :=
| Proxied (request_id : string) (now : Z) (rq : Request)
| StreamEnds (n : nat) (accepts : nat → bool)
| TouchEnds (n : nat)
| AdminCalls (c : Call)
| FileChanges (loaded : result AppConfig GatewayError).

(** What the event's client sees. *)
Inductive Observed : Type :=
| Answered (r : Reply)
| StreamedOut (out : stream)
| AdminAnswered (r : result AdminAnswer ApiError)
| Unseen.
End State.
Arguments sys_metadata {_ M C L K U} _.
Arguments sys_base {_ M C L K U} _.
Arguments sys_gateway {_ M C L K U} _.
Arguments sys_streams {_ M C L K U} _.
Arguments sys_touches {_ M C L K U} _.
Arguments sys_accepted {_ M C L K U} _.

(** * Steps *)

Section Steps.
Context `{HashOrder} `{HttpTypes} `{Crypto} `{SerdeJson} `{Codecs} `{CounterStore C}
  `{LogStore L} `{KvStore K} `{MetadataStore M} `{Chrono} {U : Type}.
Context (send : U → OutgoingRequest → result IncomingResponse SendError * U)
  (engine : gmap string ResolvedProvider)
  (json_pieces : Value → list bytes) (blake3_hex : bytes → string)
  (debug_body : option string → string).
Context (env : string → option string) (app : AuthState).
Abbreviation S := (System M C L K U).
Abbreviation G := (Gateway C L K U).

Definition put_gateway (s : S) (g : G) : S :=
  {| sys_metadata := sys_metadata s; sys_base := sys_base s; sys_gateway := g;
     sys_streams := sys_streams s; sys_touches := sys_touches s;
     sys_accepted := sys_accepted s |}.
Definition put_metadata (s : S) (m : M) : S :=
  {| sys_metadata := m; sys_base := sys_base s; sys_gateway := sys_gateway s;
     sys_streams := sys_streams s; sys_touches := sys_touches s;
     sys_accepted := sys_accepted s |}.
Definition put_streams (s : S) (ts : list StreamTask) : S :=
  {| sys_metadata := sys_metadata s; sys_base := sys_base s; sys_gateway := sys_gateway s;
     sys_streams := ts; sys_touches := sys_touches s; sys_accepted := sys_accepted s |}.
Definition put_touches (s : S) (ts : list (string * Z)) : S :=
  {| sys_metadata := sys_metadata s; sys_base := sys_base s; sys_gateway := sys_gateway s;
     sys_streams := sys_streams s; sys_touches := ts; sys_accepted := sys_accepted s |}.

Definition tasks_left (task : option StreamTask) : list StreamTask :=
  match task with Some t => [t] | None => [] end.

(** What a proxied request leaves: its task, the task that records the use of its key. *)
Definition served (s : S) (g : G) (task : option StreamTask) (touch : string * Z)
    (a : Accepted) : S :=
  {| sys_metadata := sys_metadata s; sys_base := sys_base s; sys_gateway := g;
     sys_streams := sys_streams s ++ tasks_left task; sys_touches := sys_touches s ++ [touch];
     sys_accepted := sys_accepted s ++ [a] |}.

(** The [GatewayKeyPrincipal] extractor, then [proxy_handler]. *)
Definition proxied (request_id : string) (now : Z) (rq : Request) : prog S Observed := λ s,
  match gateway_principal app (sys_metadata s) now (rq_headers rq) with
  | Err e => Ret (Answered (error_reply debug_body e), s)
  | Ok (who, touch) =>
      match proxy_handler send engine json_pieces blake3_hex debug_body request_id who rq
              (sys_gateway s) with
      | Panic => Panic
      | Ret ((reply, task), g) =>
          Ret (Answered reply,
               served s g task touch {| acc_who := who; acc_request := rq |})
      end
  end.

Definition stream_ends (n : nat) (accepts : nat → bool) : prog S Observed := λ s,
  match sys_streams s !! n with
  | None => Ret (Unseen, s)
  | Some t =>
      match run_task accepts t (sys_gateway s) with
      | Panic => Panic
      | Ret (out, g) =>
          Ret (StreamedOut out, put_streams (put_gateway s g) (delete n (sys_streams s)))
      end
  end.

Definition touch_ends (n : nat) : prog S Observed := λ s,
  match sys_touches s !! n with
  | None => Ret (Unseen, s)
  | Some t =>
      Ret (Unseen, put_touches (put_metadata s (record_last_used t (sys_metadata s)))
                     (delete n (sys_touches s)))
  end.

(** The part of the state the Admin API works on, and the rest kept. *)
Definition admin_view (s : S) : AdminState M L C :=
  let g := sys_gateway s in
  {| adm_prices := {| ps_metadata := sys_metadata s; ps_base := sys_base s;
                      ps_effective := gw_pricing g |};
     adm_logs := gw_logs g; adm_budgets := gw_budgets g; adm_config := gw_config g |}.

Definition put_pricing (g : G) (p : PricingCatalog) : G :=
  {| gw_config := gw_config g; gw_budgets := gw_budgets g; gw_logs := gw_logs g;
     gw_kv := gw_kv g; gw_pricing := p; gw_net := gw_net g; gw_rng := gw_rng g;
     gw_submitted := gw_submitted g |}.
Definition put_config (g : G) (c : AppConfig) : G :=
  {| gw_config := c; gw_budgets := gw_budgets g; gw_logs := gw_logs g;
     gw_kv := gw_kv g; gw_pricing := gw_pricing g; gw_net := gw_net g; gw_rng := gw_rng g;
     gw_submitted := gw_submitted g |}.

Definition put_admin (s : S) (a : AdminState M L C) : S :=
  put_metadata
    (put_gateway s
       (put_pricing (put_logs (put_budgets (sys_gateway s) (adm_budgets a)) (adm_logs a))
          (ps_effective (adm_prices a))))
    (adm_metadata a).

Definition admin_calls (c : Call) : prog S Observed := λ s,
  match admin_api app (c_draws c) (c_headers c) (c_request c) (admin_view s) with
  | Panic => Panic
  | Ret (r, a) => Ret (AdminAnswered r, put_admin s a)
  end.

Definition file_changes (loaded : result AppConfig GatewayError) : prog S Observed := λ s,
  let '(config, m) := try_reload env (master_key app) (default_project app) loaded
                        (gw_config (sys_gateway s), sys_metadata s) in
  Ret (Unseen, put_metadata (put_gateway s (put_config (sys_gateway s) config)) m).

Definition sys_step (e : Event) : prog S Observed :=
  match e with
  | Proxied request_id now rq => proxied request_id now rq
  | StreamEnds n accepts => stream_ends n accepts
  | TouchEnds n => touch_ends n
  | AdminCalls c => admin_calls c
  | FileChanges loaded => file_changes loaded
  end.

Fixpoint sys_run (es : list Event) : prog S (list Observed) :=
  match es with
  | [] => prog_ret []
  | e :: rest =>
      let! o := sys_step e in
      let! os := sys_run rest in
      prog_ret (o :: os)
  end.

(** An invariant of the steps is one of the runs. *)
Lemma sys_run_keeps (P : S → Prop) (ok : Event → Prop) es s os s' :
  (∀ e s o s', ok e → sys_step e s = Ret (o, s') → P s → P s') →
  sys_run es s = Ret (os, s') → Forall ok es → P s → P s'.
Proof.
  intros Hstep. revert s os. induction es as [|e es IH]; intros s os Hr Hok Hs.
  { by apply prog_ret_Ret in Hr as [_ <-]. }
  cbn [sys_run] in Hr. prog_inv. apply Forall_cons in Hok as [He Hok].
  eapply IH; [exact Hrun0|exact Hok|by eapply Hstep].
Qed.

(** One that depends on what the steps answer. *)
Lemma sys_run_answers (P : S → Prop) (ok : Observed → Prop) es s os s' :
  (∀ e s o s', ok o → sys_step e s = Ret (o, s') → P s → P s') →
  sys_run es s = Ret (os, s') → Forall ok os → P s → P s'.
Proof.
  intros Hstep. revert s os. induction es as [|e es IH]; intros s os Hr Hok Hs.
  { by apply prog_ret_Ret in Hr as [_ <-]. }
  cbn [sys_run] in Hr. prog_inv. apply Forall_cons in Hok as [He Hok].
  eapply IH; [exact Hrun0|exact Hok|by eapply Hstep].
Qed.

(** ** What a step does *)

Lemma proxied_Ret request_id now rq (s : S) o s' :
  proxied request_id now rq s = Ret (o, s') →
  (∃ e, gateway_principal app (sys_metadata s) now (rq_headers rq) = Err e ∧ s' = s ∧
        o = Answered (error_reply debug_body e)) ∨
  ∃ who touch reply task g,
    gateway_principal app (sys_metadata s) now (rq_headers rq) = Ok (who, touch) ∧
    proxy_handler send engine json_pieces blake3_hex debug_body request_id who rq
      (sys_gateway s) = Ret ((reply, task), g) ∧
    s' = served s g task touch {| acc_who := who; acc_request := rq |} ∧
    o = Answered reply.
Proof.
  unfold proxied. destruct (gateway_principal _ _ _ _) as [[who touch]|e] eqn:Hp.
  - destruct (proxy_handler _ _ _ _ _ _ _ _ _) as [[[reply task] g]|] eqn:Hh; [|done].
    intros [= <- <-]. right. by exists who, touch, reply, task, g.
  - intros [= <- <-]. left. by exists e.
Qed.

Lemma stream_ends_Ret n accepts (s : S) o s' :
  stream_ends n accepts s = Ret (o, s') →
  (sys_streams s !! n = None ∧ s' = s) ∨
  ∃ t out g, sys_streams s !! n = Some t ∧
    run_task accepts t (sys_gateway s) = Ret (out, g) ∧ o = StreamedOut out ∧
    s' = put_streams (put_gateway s g) (delete n (sys_streams s)).
Proof.
  unfold stream_ends. destruct (sys_streams s !! n) as [t|] eqn:Ht.
  - destruct (run_task _ _ _) as [[out g]|] eqn:Hr; [|done]. intros [= <- <-].
    right. by exists t, out, g.
  - intros [= <- <-]. by left.
Qed.

Lemma admin_calls_Ret c (s : S) o s' :
  admin_calls c s = Ret (o, s') →
  ∃ r a, admin_api app (c_draws c) (c_headers c) (c_request c) (admin_view s) = Ret (r, a) ∧
    o = AdminAnswered r ∧ s' = put_admin s a.
Proof.
  unfold admin_calls. destruct (admin_api _ _ _ _ _) as [[r a]|]; [|done].
  intros [= <- <-]. by exists r, a.
Qed.

Lemma touch_ends_Ret n (s : S) o s' :
  touch_ends n s = Ret (o, s') →
  s' = s ∨ ∃ t, sys_touches s !! n = Some t ∧
    s' = put_touches (put_metadata s (record_last_used t (sys_metadata s)))
           (delete n (sys_touches s)).
Proof.
  unfold touch_ends. destruct (sys_touches s !! n) as [t|]; intros [= <- <-]; [|by left].
  right. by exists t.
Qed.

Lemma file_changes_Ret loaded (s : S) o s' :
  file_changes loaded s = Ret (o, s') →
  let r := try_reload env (master_key app) (default_project app) loaded
             (gw_config (sys_gateway s), sys_metadata s) in
  s' = put_metadata (put_gateway s (put_config (sys_gateway s) r.1)) r.2.
Proof. unfold file_changes. destruct (try_reload _ _ _ _ _). by intros [= _ <-]. Qed.
End Steps.
