(* ===== verification/SystemCorrect.v ===== *)
(** What holds of the whole gateway, whatever order its events come in: the slots in use are
    those of the streams in flight, every accepted request is accounted for in the log,
    a revoked key never comes back, and callers without credentials change nothing. *)
From Stdlib Require Import ZArith Lia Bool Ascii String SpecFloat.
From stdpp Require Import prelude gmap strings list relations.
From S2P Require Import Prelude Text F64 Json Errors Models Config Stores HttpTypes.
From S2P Require Import Engine Fingerprint Cache Tokens Pricing LogBody RateLimit Budget.
From S2P Require Import Security Auth Seeding AdminLogs AdminPricing AdminApi Revocation.
From S2P Require Import Logging Streaming Proxy ProxyCorrect System.
Open Scope Z_scope.

Lemma delete_last_Permutation {A} (l : list A) n x :
  l !! n = Some x → l ≡ₚ delete n l ++ [x].
Proof. intros Hn. by rewrite (delete_Permutation l n x Hn) at 1; rewrite Permutation_cons_append. Qed.

Lemma app_same_nil {A} (l k : list A) : l = l ++ k → k = [].
Proof.
  destruct k as [|x k]; [done|]. intros Hl%(f_equal length).
  rewrite length_app in Hl. simpl in Hl. lia.
Qed.

Lemma Forall2_snoc {A B} (P : A → B → Prop) l k x y :
  Forall2 P l k → P x y → Forall2 P (l ++ [x]) (k ++ [y]).
Proof. intros Hl Hx. apply Forall2_app; [done|]. by constructor. Qed.

(** * Slots *)

Section Slots.
Context `{HashOrder} `{HttpTypes} `{Crypto} `{SerdeJson} `{Codecs} `{CounterLaws C}
  `{LogStore L} `{KvStore K} `{MetadataStore M} `{Chrono} {U : Type}.
Context (send : U → OutgoingRequest → result IncomingResponse SendError * U)
  (engine : gmap string ResolvedProvider)
  (json_pieces : Value → list bytes) (blake3_hex : bytes → string)
  (debug_body : option string → string).
Context (env : string → option string) (app : AuthState).
Abbreviation S := (System M C L K U).
Abbreviation step := (sys_step send engine json_pieces blake3_hex debug_body env app).

(** The permits of the streams in flight. *)
Definition slots_of (ts : list StreamTask) : list ConcurrencyPermit :=
  ts ≫= λ t, concurrency_permits (tk_permit t).
Definition sys_counter (s : S) : C := counter_of (sys_gateway s).

(** The slots in use are those of the streams in flight. *)
Definition slots_settled (s : S) : Prop :=
  tracks (λ _, 0) (sys_counter s, slots_of (sys_streams s)).

Lemma held_Permutation ps qs k : ps ≡ₚ qs → held ps k = held qs k.
Proof. intros Hp. unfold held. by rewrite Hp. Qed.

Lemma slots_of_tasks ts task :
  slots_of (ts ++ tasks_left task) =
  slots_of ts ++ match task with Some t => concurrency_permits (tk_permit t) | None => [] end.
Proof.
  unfold slots_of. rewrite bind_app. f_equal. destruct task as [t|]; simpl; [|done].
  by rewrite app_nil_r.
Qed.

Lemma slots_of_delete ts n t :
  ts !! n = Some t →
  slots_of ts ≡ₚ slots_of (delete n ts) ++ concurrency_permits (tk_permit t).
Proof.
  intros Hn. unfold slots_of. rewrite (delete_last_Permutation ts n t Hn) at 1.
  rewrite bind_app. simpl. by rewrite app_nil_r.
Qed.

Lemma admin_counter_steps costs c (s : AdminState M L C) r s' lims hs :
  admin_api app (c_draws c) (c_headers c) (c_request c) s = Ret (r, s') →
  rtc (store_step costs lims) (counter (adm_budgets s), hs) (counter (adm_budgets s'), hs).
Proof.
  intros Ha. cut (∀ p, handle_as app p (c_draws c) (c_request c) s = Ret (r, s') →
    manager_steps costs lims hs (adm_budgets s) (adm_budgets s')).
  { unfold admin_api in Ha. intros Hh. destruct (is_login _); [by eapply Hh|].
    destruct (admin_principal _ _ _); [by eapply Hh|]. by injection Ha as _ <-. }
  intros p Hh. destruct (c_request c); cbn [handle_as] in Hh;
    unfold on_metadata, on_prices, answering in Hh; repeat case_match; simplify_eq;
    try (apply rtc_refl).
  by eapply current_usage_steps.
Qed.

(** One step, as operations on the counter store under the limits in force. *)
Definition counter_move (costs : f64 → Prop) (s s' : S) : Prop :=
  ∃ hs ps ps', slots_of (sys_streams s) ≡ₚ hs ++ ps ∧
    slots_of (sys_streams s') ≡ₚ hs ++ ps' ∧
    rtc (store_step costs (limits (gw_config (sys_gateway s))))
      (sys_counter s, hs ++ ps) (sys_counter s', hs ++ ps').

Lemma step_counter (costs : f64 → Prop) e (s : S) o s' :
  (∀ r c, r ∈ gw_submitted (sys_gateway s') → cost_usd r = Some c →
     f64_leb c f64_zero = false → costs c) →
  step e s = Ret (o, s') → counter_move costs s s'.
Proof.
  intros Hcosts. unfold counter_move. destruct e as [id now rq|n accepts|n|c|loaded]; cbn [sys_step].
  - intros [(e & _ & -> & _)|(who & touch & reply & task & g & _ & Hh & -> & _)]%proxied_Ret.
    { exists [], (slots_of (sys_streams s)), (slots_of (sys_streams s)). by split_and!. }
    exists (slots_of (sys_streams s)), [],
      (match task with Some t => concurrency_permits (tk_permit t) | None => [] end).
    rewrite app_nil_r. split_and!; [done|by cbn [sys_streams served]; rewrite slots_of_tasks|].
    by eapply handler_slots.
  - intros [(_ & ->)|(t & out & g & Hn & Hr & _ & ->)]%stream_ends_Ret.
    { exists [], (slots_of (sys_streams s)), (slots_of (sys_streams s)). by split_and!. }
    exists (slots_of (delete n (sys_streams s))), (concurrency_permits (tk_permit t)), [].
    rewrite app_nil_r. split_and!; [by apply slots_of_delete|done|].
    by eapply task_slots.
  - intros Ht. apply touch_ends_Ret in Ht.
    exists (slots_of (sys_streams s)), [], []. rewrite !app_nil_r.
    by destruct Ht as [->|(t & _ & ->)]; split_and!.
  - intros (r & a & Ha & _ & ->)%admin_calls_Ret.
    exists (slots_of (sys_streams s)), [], []. rewrite !app_nil_r. split_and!; [done..|].
    exact (admin_counter_steps _ _ _ _ _ _ _ Ha).
  - intros ->%file_changes_Ret.
    exists (slots_of (sys_streams s)), [], []. rewrite !app_nil_r. by split_and!.
Qed.

Lemma tracks_Permutation base c ps qs : ps ≡ₚ qs → tracks base (c, ps) → tracks base (c, qs).
Proof. intros Hp Ht k. simpl. rewrite <- (held_Permutation _ _ _ Hp). apply (Ht k). Qed.

Lemma counter_move_settled costs s s' : counter_move costs s s' → slots_settled s → slots_settled s'.
Proof.
  intros (hs & ps & ps' & Hp & Hp' & Hs) Ht.
  eapply tracks_Permutation; [symmetry; exact Hp'|].
  eapply store_steps_tracks; [done|exact Hs|by eapply tracks_Permutation].
Qed.

Lemma counter_move_bounded costs s s' k max :
  counter_move costs s s' → slots_settled s →
  slot_max (limits (gw_config (sys_gateway s))) k max →
  live (sys_counter s) k ≤ max → live (sys_counter s') k ≤ max.
Proof.
  intros (hs & ps & ps' & Hp & _ & Hs) Ht Hm Hk.
  eapply (store_steps_bounded _ _ (λ _, 0) max k _ _ ltac:(done) Hm Hs); [|exact Hk].
  by eapply tracks_Permutation.
Qed.

(** The configuration is the one before, or a reloaded one. *)
Lemma step_config e (s : S) o s' :
  step e s = Ret (o, s') →
  gw_config (sys_gateway s') = gw_config (sys_gateway s) ∨
  e = FileChanges (Ok (gw_config (sys_gateway s'))).
Proof.
  destruct e as [id now rq|n accepts|n|c|loaded]; cbn [sys_step].
  - intros [(e & _ & -> & _)|(who & touch & reply & task & g & _ & Hh & -> & _)]%proxied_Ret;
      [by left|].
    left. by apply (handler_same _ _ _ _ _ gw_config) in Hh.
  - intros [(_ & ->)|(t & out & g & Hn & Hr & _ & ->)]%stream_ends_Ret; [by left|].
    left. by apply (run_task_same gw_config) in Hr.
  - intros Ht. apply touch_ends_Ret in Ht. left. by destruct Ht as [->|(t & _ & ->)].
  - intros (r & a & Ha & _ & ->)%admin_calls_Ret. by left.
  - intros ->%file_changes_Ret. destruct loaded as [new|e]; [by right|by left].
Qed.
End Slots.

(** The concurrency slots of the whole gateway never leak and never overflow.  From a
    start with nothing in flight, after any sequence of requests, stream ends, last-use
    tasks, Admin API calls and reloads, the slots in use are exactly those of the streams
    still in flight (none when there are none), and they never exceed what every
    configuration in force along the way allows for the slot. *)
Theorem slots_in_flight `{HashOrder} `{HttpTypes} `{Crypto} `{SerdeJson} `{Codecs}
    `{CounterLaws C} `{LogStore L} `{KvStore K} `{MetadataStore M} `{Chrono} {U : Type}
    send engine json_pieces blake3_hex debug_body env app es (s s' : System M C L K U) os :
  sys_run send engine json_pieces blake3_hex debug_body env app es s = Ret (os, s') →
  sys_streams s = [] → (∀ k, live (sys_counter s) k = 0) →
  ∀ k, live (sys_counter s') k = held (slots_of (sys_streams s')) k ∧
    (sys_streams s' = [] → live (sys_counter s') k = 0) ∧
    ∀ max, 0 ≤ max → slot_max (limits (gw_config (sys_gateway s))) k max →
      (∀ new, FileChanges (Ok new) ∈ es → slot_max (limits new) k max) →
      live (sys_counter s') k ≤ max.
Proof.
  intros Hr Hidle Hzero k.
  assert (Hs : slots_settled s) by (intros k'; unfold slots_settled; rewrite Hidle; apply Hzero).
  assert (Hs' : slots_settled s').
  { refine (sys_run_keeps _ _ _ _ _ _ _ slots_settled (λ _, True) es s os s' _ Hr _ Hs).
    - intros e s1 o s2 _ Hstep. by eapply counter_move_settled, (step_counter _ _ _ _ _ _ _ (λ _, True)).
    - by apply Forall_true. }
  pose proof (Hs' k) as Hk'. simpl in Hk'. rewrite Z.add_0_l in Hk'.
  split; [exact Hk'|]. split; [intros Hend; by rewrite Hk', Hend|]. clear Hk'.
  intros max Hmax Hm Hnew.
  set (P := λ s : System M C L K U, slots_settled s ∧ live (sys_counter s) k ≤ max ∧
    slot_max (limits (gw_config (sys_gateway s))) k max).
  refine (proj1 (proj2 (sys_run_keeps _ _ _ _ _ _ _ P (λ e, e ∈ es) es s os s' _ Hr _ _))).
  - intros e s1 o s2 He Hstep (Hs1 & Hk & Hm1). pose proof (step_counter _ _ _ _ _ _ _ (λ _, True) _ _ _ _ ltac:(done) Hstep) as Hc.
    split; [by eapply counter_move_settled|]. split; [by eapply counter_move_bounded|].
    destruct (step_config _ _ _ _ _ _ _ _ _ _ _ Hstep) as [-> | ->]; [done|by apply Hnew].
  - by apply Forall_forall.
  - split; [done|]. split; [by rewrite Hzero|done].
Qed.

(** * Records *)

Section Records.
Context `{HashOrder} `{HttpTypes} `{Crypto} `{SerdeJson} `{Codecs} `{CounterStore C}
  `{LogStore L} `{KvStore K} `{MetadataStore M} `{Chrono} {U : Type}.
Context (send : U → OutgoingRequest → result IncomingResponse SendError * U)
  (engine : gmap string ResolvedProvider)
  (json_pieces : Value → list bytes) (blake3_hex : bytes → string)
  (debug_body : option string → string).
Context (env : string → option string) (app : AuthState).
Abbreviation S := (System M C L K U).
Abbreviation step := (sys_step send engine json_pieces blake3_hex debug_body env app).

(** The accepted requests whose body was read: those that are to be logged. *)
Definition readable (a : Accepted) : bool := is_ok (rq_body (acc_request a)).

(** The record tells who asked what. *)
Definition about (a : Accepted) (r : RequestLogRecord) : Prop :=
  ∀ body, rq_body (acc_request a) = Ok body →
    attributed json_pieces (acc_who a) (acc_request a) (parse_request (acc_request a) body) r.

(** Each request is either logged since [g0] or has its stream in flight. *)
Definition accounted (g0 : Gateway C L K U) (s : S) : Prop :=
  ∃ recs logged pending,
    gw_submitted (sys_gateway s) = gw_submitted g0 ++ recs ∧
    List.filter readable (sys_accepted s) ≡ₚ logged ++ pending ∧
    Forall2 about logged recs ∧
    Forall2 (λ a t, about a (tk_log t)) pending (sys_streams s).

Lemma admin_calls_submitted c (s : S) o s' :
  admin_calls app c s = Ret (o, s') →
  gw_submitted (sys_gateway s') = gw_submitted (sys_gateway s) ∧
  sys_accepted s' = sys_accepted s ∧ sys_streams s' = sys_streams s.
Proof. by intros (r & a & _ & _ & ->)%admin_calls_Ret. Qed.

Lemma served_accounted g0 (s : S) request_id rq who touch reply task g :
  proxy_handler send engine json_pieces blake3_hex debug_body request_id who rq
    (sys_gateway s) = Ret ((reply, task), g) →
  accounted g0 s →
  accounted g0 (served s g task touch {| acc_who := who; acc_request := rq |}).
Proof.
  intros Hh (recs & logged & pending & Hs & Hp & Hl & Ht). set (a := {| acc_who := who |}).
  unfold accounted. cbn [served sys_gateway sys_accepted sys_streams].
  rewrite List.filter_app. cbn [List.filter]. unfold readable at 2. cbn [acc_request a].
  destruct (rq_body rq) as [body|e] eqn:Hb; cbn [is_ok].
  - pose proof (handler_records _ _ _ _ _ _ _ _ _ _ _ _ _ Hh Hb) as Hr.
    assert (Hab : ∀ r, attributed json_pieces who rq (parse_request rq body) r → about a r).
    { intros r Ha body' Hb'. simpl in *. rewrite Hb in Hb'. by injection Hb' as <-. }
    destruct task as [t|]; cbn [tasks_left].
    + destruct Hr as [-> Hat]. exists recs, logged, (pending ++ [a]). split; [done|].
      split; [by rewrite Hp, app_assoc|]. split; [done|].
      apply Forall2_snoc; [done|by apply Hab].
    + destruct Hr as (r & -> & Hat). exists (recs ++ [r]), (logged ++ [a]), pending.
      split; [by rewrite Hs, app_assoc|]. split.
      { rewrite Hp, <- !app_assoc. f_equiv. by rewrite Permutation_app_comm. }
      split; [|by rewrite app_nil_r]. apply Forall2_snoc; [done|by apply Hab].
  - destruct (handler_unread _ _ _ _ _ _ _ _ _ _ _ _ _ Hh Hb) as [-> [_ Hsub]%same_seen].
    exists recs, logged, pending. cbn [tasks_left]. rewrite !app_nil_r, Hsub. by split_and!.
Qed.

Lemma ended_accounted g0 (s : S) n t accepts out g :
  sys_streams s !! n = Some t → run_task accepts t (sys_gateway s) = Ret (out, g) →
  accounted g0 s →
  accounted g0 (put_streams (put_gateway s g) (delete n (sys_streams s))).
Proof.
  intros Hn Hr (recs & logged & pending & Hs & Hp & Hl & Ht).
  destruct (Forall2_lookup_r _ _ _ _ _ Ht Hn) as (a & Ha & Hab).
  unfold accounted. cbn [put_streams put_gateway sys_gateway sys_accepted sys_streams].
  destruct (task_one_record json_pieces _ _ _ _ _ Hr) as (r & Hsr & Hat).
  assert (Har : about a r) by (intros body Hb; by apply Hat, Hab).
  exists (recs ++ [r]), (logged ++ [a]), (delete n pending).
  split; [by rewrite Hsr, Hs, app_assoc|]. split.
  { rewrite Hp, <- app_assoc. f_equiv. simpl. by apply delete_Permutation. }
  split; [by apply Forall2_snoc|]. by apply Forall2_delete.
Qed.

Lemma step_accounted g0 e (s : S) o s' :
  step e s = Ret (o, s') → accounted g0 s → accounted g0 s'.
Proof.
  destruct e as [id now rq|n accepts|n|c|loaded]; cbn [sys_step].
  - intros [(e & _ & -> & _)|(who & touch & reply & task & g & _ & Hh & -> & _)]%proxied_Ret;
      [done|]. by eapply served_accounted.
  - intros [(_ & ->)|(t & out & g & Hn & Hr & _ & ->)]%stream_ends_Ret; [done|].
    by eapply ended_accounted.
  - intros Ht. apply touch_ends_Ret in Ht. by destruct Ht as [->|(t & _ & ->)].
  - intros Hc Ha. unfold accounted. by destruct (admin_calls_submitted _ _ _ _ Hc) as (-> & -> & ->).
  - by intros ->%file_changes_Ret.
Qed.
End Records.

(** Every request that was let in is accounted for, once.  From a start with nothing in
    flight, after any sequence of events, the records handed to the log since then belong
    one to one to accepted requests whose body was read (each telling the key, project,
    namespace, endpoint, model and body of its own request), and the accepted requests not
    yet logged are exactly those whose stream is still in flight; a request that was not let
    in leaves none. *)
Theorem requests_accounted `{HashOrder} `{HttpTypes} `{Crypto} `{SerdeJson} `{Codecs}
    `{CounterStore C} `{LogStore L} `{KvStore K} `{MetadataStore M} `{Chrono} {U : Type}
    send engine json_pieces blake3_hex debug_body env app es (s s' : System M C L K U) os :
  sys_run send engine json_pieces blake3_hex debug_body env app es s = Ret (os, s') →
  sys_streams s = [] → sys_accepted s = [] →
  ∃ recs logged pending,
    gw_submitted (sys_gateway s') = gw_submitted (sys_gateway s) ++ recs ∧
    List.filter readable (sys_accepted s') ≡ₚ logged ++ pending ∧
    Forall2 (about json_pieces) logged recs ∧
    Forall2 (λ a t, about json_pieces a (tk_log t)) pending (sys_streams s').
Proof.
  intros Hr Hstreams Hacc.
  refine (sys_run_keeps _ _ _ _ _ _ _ (accounted json_pieces (sys_gateway s)) (λ _, True)
    es s os s' _ Hr _ _).
  - intros e s1 o s2 _ Hstep. by eapply step_accounted.
  - by apply Forall_true.
  - exists [], [], []. rewrite Hacc, Hstreams, app_nil_r. by split_and!.
Qed.

(** * Access *)

Section Access.
Context `{HashOrder} `{HttpTypes} `{Crypto} `{SerdeJson} `{Codecs} `{CounterStore C}
  `{LogStore L} `{KvStore K} `{KeyFrame M, !AdminRows M} `{Chrono} {U : Type}.
Context (send : U → OutgoingRequest → result IncomingResponse SendError * U)
  (engine : gmap string ResolvedProvider)
  (json_pieces : Value → list bytes) (blake3_hex : bytes → string)
  (debug_body : option string → string).
Context (env : string → option string) (app : AuthState).
Abbreviation S := (System M C L K U).
Abbreviation step := (sys_step send engine json_pieces blake3_hex debug_body env app).

(** The event cannot give a new key the id [i]. *)
Definition other_ids (i : string) (e : Event) : Prop :=
  match e with AdminCalls c => d_uuid (c_draws c) ≠ i | _ => True end.

(** The key [i] is barred, and nobody has been let in with it since [s0]. *)
Definition kept_out (i : string) (s0 s : S) : Prop :=
  keys_wf (sys_metadata s) ∧ barred i (sys_metadata s) ∧
  ∃ accs, sys_accepted s = sys_accepted s0 ++ accs ∧
    Forall (λ a, principal_key_id (acc_who a) ≠ i) accs.

Lemma step_barred i e (s : S) o s' :
  other_ids i e → step e s = Ret (o, s') → bar_kept i (sys_metadata s) (sys_metadata s').
Proof.
  intros Hid. destruct e as [id now rq|n accepts|n|c|loaded]; cbn [sys_step].
  - by intros [(e & _ & -> & _)|(who & touch & reply & task & g & _ & _ & -> & _)]%proxied_Ret.
  - by intros [(_ & ->)|(t & out & g & _ & _ & _ & ->)]%stream_ends_Ret.
  - intros Ht. apply touch_ends_Ret in Ht as [->|(t & _ & ->)]; [done|apply touch_barred].
  - intros (r & a & Ha & _ & ->)%admin_calls_Ret. by eapply admin_api_barred in Ha.
  - intros ->%file_changes_Ret. apply (reload_barred i env _ _ _ (_, sys_metadata s)).
Qed.

(** Who is let in by a step. *)
Lemma step_accepted e (s : S) o s' :
  step e s = Ret (o, s') →
  sys_accepted s' = sys_accepted s ∨
  ∃ id now rq who touch, e = Proxied id now rq ∧
    gateway_principal app (sys_metadata s) now (rq_headers rq) = Ok (who, touch) ∧
    sys_accepted s' = sys_accepted s ++ [{| acc_who := who; acc_request := rq |}].
Proof.
  destruct e as [id now rq|n accepts|n|c|loaded]; cbn [sys_step].
  - intros [(e & _ & -> & _)|(who & touch & reply & task & g & Hp & _ & -> & _)]%proxied_Ret;
      [by left|right]. by exists id, now, rq, who, touch.
  - by intros [(_ & ->)|(t & out & g & _ & _ & _ & ->)]%stream_ends_Ret; left.
  - intros Ht. apply touch_ends_Ret in Ht. left. by destruct Ht as [->|(t & _ & ->)].
  - intros (r & a & _ & _ & ->)%admin_calls_Ret. by left.
  - intros ->%file_changes_Ret. by left.
Qed.

Lemma step_kept_out i s0 e (s : S) o s' :
  other_ids i e → step e s = Ret (o, s') → kept_out i s0 s → kept_out i s0 s'.
Proof.
  intros Hid Hstep (Hwf & Hb & accs & Hacc & Hf).
  destruct (step_barred _ _ _ _ _ Hid Hstep Hwf) as [Hwf' Hb'].
  split; [done|]. split; [by apply Hb'|].
  destruct (step_accepted _ _ _ _ Hstep) as [-> |(id & now & rq & who & touch & _ & Hp & ->)];
    [by exists accs|].
  eexists. rewrite Hacc, <- app_assoc. split; [done|]. apply Forall_app. split; [done|].
  apply Forall_singleton. eapply (barred_refused i app); [exact Hwf|exact Hb|exact Hp].
Qed.

(** ** Callers without credentials *)

(** No administrator's token, no reload. *)
Definition uncredentialed (e : Event) : Prop :=
  match e with
  | AdminCalls c => authorized app c = false
  | FileChanges _ => False
  | _ => True
  end.

(** Nothing has happened since [s0]. *)
Definition undisturbed (s0 s : S) : Prop :=
  sys_streams s = [] ∧ sys_touches s = [] ∧ sys_gateway s = sys_gateway s0 ∧
  same_keys (sys_metadata s0) (sys_metadata s).

Definition quiet (s0 s : S) : Prop :=
  ∃ accs, sys_accepted s = sys_accepted s0 ++ accs ∧ (accs = [] → undisturbed s0 s).

Lemma step_quiet s0 e (s : S) o s' :
  uncredentialed e → step e s = Ret (o, s') → quiet s0 s → quiet s0 s'.
Proof.
  intros He Hstep (accs & Hacc & Hq).
  destruct (step_accepted _ _ _ _ Hstep) as [Hacc'|(id & now & rq & who & touch & _ & _ & Hacc')].
  2: { eexists. rewrite Hacc', Hacc, <- app_assoc. split; [done|]. by destruct accs. }
  exists accs. rewrite Hacc'. split; [done|]. intros ->.
  destruct (Hq eq_refl) as (Hs & Ht & Hg & Hk).
  destruct e as [id now rq|n accepts|n|c|loaded]; cbn [sys_step] in Hstep; [..|done].
  - apply proxied_Ret in Hstep
      as [(e & _ & -> & _)|(who & touch & reply & task & g & _ & _ & -> & _)]; [by split_and!|].
    cbn [served sys_accepted] in Hacc'. symmetry in Hacc'. by apply app_same_nil in Hacc'.
  - apply stream_ends_Ret in Hstep as [(_ & ->)|(t & out & g & Hn & _)]; [by split_and!|].
    by rewrite Hs in Hn.
  - apply touch_ends_Ret in Hstep as [->|(t & Hn & _)]; [by split_and!|]. by rewrite Ht in Hn.
  - apply admin_calls_Ret in Hstep as (r & a & Ha & _ & ->).
    apply (unauthorized_untouched app c) in Ha as (Hk' & He' & Hl' & Hb' & _); [|done].
    split_and!; [done..| |by etrans]. rewrite <- Hg.
    unfold put_admin, put_pricing, put_logs, put_budgets. cbn in *.
    rewrite He', Hl', Hb'. by destruct (sys_gateway s).
Qed.
End Access.

(** C2: Revocation is final.  Once the Admin API has answered that a key is revoked, no
    request is ever let in with that key again, whatever requests, stream ends, last-use
    tasks, Admin API calls and reloads of whatever configuration files follow, as long as
    no new key is given the same id. *)
Theorem revoked_stays_out `{HashOrder} `{HttpTypes} `{Crypto} `{SerdeJson} `{Codecs}
    `{CounterStore C} `{LogStore L} `{KvStore K} `{KeyFrame M, !AdminRows M} `{Chrono}
    {U : Type} send engine json_pieces blake3_hex debug_body env app i c v es
    (s s' : System M C L K U) os :
  c_request c = ReqRevokeKey i →
  sys_run send engine json_pieces blake3_hex debug_body env app (AdminCalls c :: es) s =
    Ret (AdminAnswered (Ok v) :: os, s') →
  keys_wf (sys_metadata s) → Forall (other_ids i) es →
  ∃ accs, sys_accepted s' = sys_accepted s ++ accs ∧
    Forall (λ a, principal_key_id (acc_who a) ≠ i) accs.
Proof.
  intros Hc Hr Hwf Hids. cbn [sys_run sys_step] in Hr. prog_inv.
  injection Hr as -> ->. apply admin_calls_Ret in Hrun as (r & a & Ha & [= <-] & ->).
  refine (proj2 (proj2 (sys_run_keeps _ _ _ _ _ _ _ (kept_out i s) (other_ids i) es _ _ _ _
    Hrun0 Hids _))).
  - intros e x1 o x2 He Hstep. by eapply step_kept_out.
  - unfold admin_api in Ha. rewrite Hc in Ha. cbn [is_login] in Ha.
    destruct (admin_principal _ _ _) as [p|e]; [|by injection Ha].
    cbn [handle_as] in Ha. unfold on_metadata in Ha.
    destruct (admin_revoke_key i _) as [[x|e] m] eqn:Hk; [|done]. injection Ha as _ <-.
    destruct (revocation_bars i _ _ _ Hk) as [Hb Hw]. split; [by apply Hw|].
    split; [exact Hb|]. exists []. by rewrite app_nil_r.
Qed.

(** Callers without credentials change nothing: when in a sequence of events no request
    is let in by a key, no Admin API call carries a valid administrator's token and the
    configuration file stays, then, with nothing in flight at the start, the upstream is
    never contacted, and the configuration, counters, budgets, logs, cache, prices and keys
    are at the end what they were. *)
Theorem strangers_change_nothing `{HashOrder} `{HttpTypes} `{Crypto} `{SerdeJson} `{Codecs}
    `{CounterStore C} `{LogStore L} `{KvStore K} `{KeyFrame M, !AdminRows M} `{Chrono}
    {U : Type} send engine json_pieces blake3_hex debug_body env app es
    (s s' : System M C L K U) os :
  sys_run send engine json_pieces blake3_hex debug_body env app es s = Ret (os, s') →
  Forall (uncredentialed app) es → sys_accepted s' = sys_accepted s →
  sys_streams s = [] → sys_touches s = [] →
  sys_gateway s' = sys_gateway s ∧ keys_of (sys_metadata s') = keys_of (sys_metadata s).
Proof.
  intros Hr Hes Hacc Hs Ht.
  destruct (sys_run_keeps _ _ _ _ _ _ _ (quiet s) (uncredentialed app) es s os s'
    ltac:(intros e s1 o s2 He Hstep; by eapply step_quiet) Hr Hes) as (accs & Hacc' & Hq).
  - exists []. rewrite app_nil_r. split; [done|]. by intros _; split_and!.
  - rewrite Hacc in Hacc'. destruct Hq as (_ & _ & -> & Hk & _); [|done].
    by apply app_same_nil in Hacc'.
Qed.
