(* ===== verification/SystemBudgets.v ===== *)
(** A blocked budget over the life of the gateway: once the spending of a period has reached
    a [block] threshold, no request the budget applies to goes upstream until the period
    ends, whatever requests, stream ends, Admin API calls and reloads come in between. *)
From Stdlib Require Import ZArith Lia Bool Ascii String SpecFloat.
From stdpp Require Import prelude gmap strings list relations.
From S2P Require Import Prelude Text F64 F64Order Json Errors Models Config Stores HttpTypes.
From S2P Require Import Engine Fingerprint Cache Tokens Pricing LogBody RateLimit Budget.
From S2P Require Import BudgetBlocks Security Auth Seeding AdminLogs AdminPricing AdminApi.
From S2P Require Import Logging Streaming Proxy ProxyCorrect System SystemCorrect.
Open Scope Z_scope.

Section Blocked.
Context `{HashOrder} `{HttpTypes} `{Crypto} `{SerdeJson} `{Codecs} `{!CounterStore C,
  !CounterLaws C, !BudgetLaws C, !SpendingFrame C} `{LogStore L} `{KvStore K}
  `{MetadataStore M} `{ChronoLaws} {U : Type}.
Context (send : U → OutgoingRequest → result IncomingResponse SendError * U)
  (engine : gmap string ResolvedProvider)
  (json_pieces : Value → list bytes) (blake3_hex : bytes → string)
  (debug_body : option string → string).
Context (env : string → option string) (app : AuthState).
Abbreviation G := (Gateway C L K U).
Abbreviation S := (System M C L K U).
Abbreviation step := (sys_step send engine json_pieces blake3_hex debug_body env app).
Abbreviation run := (sys_run send engine json_pieces blake3_hex debug_body env app).

(** ** The spending grows *)

(** Every cost in the log is an amount: a non-negative number. *)
Definition costs_ok (s : S) : Prop :=
  ∀ r c, r ∈ gw_submitted (sys_gateway s) → cost_usd r = Some c → amount_ok c.

Lemma step_submitted e (s : S) o s' :
  step e s = Ret (o, s') →
  ∃ recs, gw_submitted (sys_gateway s') = gw_submitted (sys_gateway s) ++ recs.
Proof.
  assert (Hnone : ∀ l : list RequestLogRecord, ∃ recs, l = l ++ recs)
    by (intros l; exists []; by rewrite app_nil_r).
  destruct e as [id now rq|n accepts|n|c|loaded]; cbn [sys_step].
  - intros [(e & _ & -> & _)|(who & touch & reply & task & g & _ & Hh & -> & _)]%proxied_Ret;
      [apply Hnone|]. cbn [served sys_gateway].
    destruct (rq_body rq) as [body|e] eqn:Hb.
    + pose proof (handler_records _ _ _ _ _ _ _ _ _ _ _ _ _ Hh Hb) as Hr.
      destruct task; [destruct Hr as [-> _]; apply Hnone|].
      destruct Hr as (r & -> & _). by exists [r].
    + destruct (handler_unread _ _ _ _ _ _ _ _ _ _ _ _ _ Hh Hb) as [_ [_ ->]%same_seen].
      apply Hnone.
  - intros [(_ & ->)|(t & out & g & _ & Hr & _ & ->)]%stream_ends_Ret; [apply Hnone|].
    destruct (task_one_record json_pieces _ _ _ _ _ Hr) as (r & Hs & _). by exists [r].
  - intros Ht. apply touch_ends_Ret in Ht. destruct Ht as [->|(t & _ & ->)]; apply Hnone.
  - intros (r & a & _ & _ & ->)%admin_calls_Ret. apply Hnone.
  - intros ->%file_changes_Ret. apply Hnone.
Qed.

Lemma step_costs_ok e (s : S) o s' : step e s = Ret (o, s') → costs_ok s' → costs_ok s.
Proof.
  intros (recs & Hs)%step_submitted Hc r c Hr. apply (Hc r). rewrite Hs.
  apply elem_of_app. by left.
Qed.

Lemma step_grown e (s : S) o s' :
  step e s = Ret (o, s') → costs_ok s' → spent_ok (sys_counter s) →
  grown (sys_counter s) (sys_counter s').
Proof.
  intros Hs Hc Hok.
  destruct (step_counter _ _ _ _ _ _ _ amount_ok _ _ _ _ (λ r c Hr Hrc _, Hc r c Hr Hrc) Hs)
    as (hs & ps & ps' & _ & _ & Hsteps).
  by apply store_steps_grown in Hsteps.
Qed.

Lemma run_costs_ok es (s : S) os s' : run es s = Ret (os, s') → costs_ok s' → costs_ok s.
Proof.
  revert s os. induction es as [|e es IH]; intros s os Hr Hc; cbn [sys_run] in Hr; prog_inv; [done|].
  eapply step_costs_ok; [exact Hrun|]. by eapply IH.
Qed.

Lemma run_grown es (s : S) os s' :
  run es s = Ret (os, s') → costs_ok s' → spent_ok (sys_counter s) →
  grown (sys_counter s) (sys_counter s').
Proof.
  revert s os. induction es as [|e es IH]; intros s os Hr Hc Hok; cbn [sys_run] in Hr; prog_inv.
  { by apply grown_same. }
  pose proof (step_grown _ _ _ _ Hrun (run_costs_ok _ _ _ _ Hrun0 Hc) Hok) as Hg.
  eapply grown_trans; [done|exact Hg|]. eapply IH; [exact Hrun0|exact Hc|apply Hg].
Qed.

(** ** A blocked request *)

Lemma start_log_budgets request_id who rq pa (g : G) log g' :
  start_log json_pieces request_id who rq pa g = Ret (log, g') →
  counter_of g' = counter_of g ∧ gw_config g' = gw_config g ∧ upstream_of g' = upstream_of g ∧
  ∀ p b, in_period p b (gw_budgets g) → in_period p b (gw_budgets g').
Proof.
  unfold start_log, wall_ms. intros Hr. prog_inv.
  apply within_Ret in Hrun as (m & Hm & ->). apply returning_Ret in Hm. injection Hm as _ <-.
  split_and!; [done..|]. intros p b Hp n. apply (Hp (Datatypes.S n)).
Qed.

Lemma handler_blocked request_id who rq body (g : G) reply task g' p b :
  proxy_handler send engine json_pieces blake3_hex debug_body request_id who rq g =
    Ret ((reply, task), g') →
  rq_body rq = Ok body →
  b ∈ budget_configs (gw_config g) →
  budget_matches (principal_project_id who) (principal_key_id who) b = true →
  in_period p b (gw_budgets g) → blocked_at p (counter_of g) b = true →
  reply_status reply = 429 ∧ task = None ∧ upstream_of g' = upstream_of g.
Proof.
  intros (res & Hi & r & Hres & ->)%proxy_handler_Ret Hb Hin Hmatch Hp Hbl.
  unfold proxy_inner in Hi. rewrite Hb in Hi. simpl in Hi. prog_inv.
  apply returning_Ret in Hrun as [= <- <-]. apply returning_Ret in Hrun0 as [= <- <-].
  apply start_log_budgets in Hrun1 as (Hc1 & Hcf1 & Hu1 & Hp1).
  destruct (admit_Ret json_pieces _ _ _ _ _ _ _ Hrun2) as (Hu2 & blocked & m & Hm & Hcase).
  destruct (check_block_blocked p b (gw_config s1) (principal_project_id who)
    (principal_key_id who) (gw_budgets s1)) as (m' & Hm').
  - by rewrite Hcf1.
  - done.
  - by apply Hp1.
  - unfold counter_of in Hc1, Hbl. by rewrite Hc1.
  - rewrite Hm' in Hm. injection Hm as <- <-. destruct Hcase as (-> & _).
    prog_inv. destruct Hres as [|(e & [= <-] & -> & ->)]; [done|].
    split; [done|]. split; [done|]. by rewrite Hu2, Hu1.
Qed.
End Blocked.

(** C3: A blocked budget stays blocked.  Once what was spent in a period has reached a
    [block] threshold of a budget, whatever requests, stream ends, last-use tasks, Admin API
    calls and reloads follow, in any order: as long as the costs logged are non-negative
    numbers, the budget is still configured and its period has not ended, every request
    with a readable body whose key the budget applies to is answered 429, leaves nothing
    running, and is not sent upstream.  The counter store must not fail ([BudgetLaws]).  The
    code departs from the documents twice here: they have a blocked request answered 402,
    and a budget without a target count no traffic, where [matching_budgets] applies it to
    every request. *)
Theorem blocked_stays_blocked `{HashOrder} `{HttpTypes} `{Crypto} `{SerdeJson} `{Codecs}
    `{!CounterStore C, !CounterLaws C, !BudgetLaws C, !SpendingFrame C} `{LogStore L}
    `{KvStore K} `{MetadataStore M} `{ChronoLaws} {U : Type} send engine json_pieces blake3_hex
    debug_body env app p b es request_id now rq body who touch
    (s s' s'' : System M C L K U) os o :
  sys_run send engine json_pieces blake3_hex debug_body env app es s = Ret (os, s') →
  sys_step send engine json_pieces blake3_hex debug_body env app
    (Proxied request_id now rq) s' = Ret (o, s'') →
  spent_ok (sys_counter s) → costs_ok s' →
  budget_ok b → blocked_at p (sys_counter s) b = true →
  b ∈ budget_configs (gw_config (sys_gateway s')) →
  in_period p b (gw_budgets (sys_gateway s')) →
  gateway_principal app (sys_metadata s') now (rq_headers rq) = Ok (who, touch) →
  budget_matches (principal_project_id who) (principal_key_id who) b = true →
  rq_body rq = Ok body →
  ∃ reply, o = Answered reply ∧ reply_status reply = 429 ∧
    sys_streams s'' = sys_streams s' ∧
    upstream_of (sys_gateway s'') = upstream_of (sys_gateway s').
Proof.
  intros Hr Hs Hok Hc Hb Hbl Hin Hp Hwho Hmatch Hbody.
  pose proof (run_grown _ _ _ _ _ _ _ _ _ _ _ Hr Hc Hok) as Hg.
  apply proxied_Ret in Hs as [(e & He & _)|(who' & touch' & reply & task & g & Hw & Hh & -> & ->)].
  { by rewrite Hwho in He. }
  rewrite Hwho in Hw. injection Hw as <- <-.
  pose proof (blocked_grown p _ _ b Hb Hok Hg Hbl) as Hbl'.
  eapply handler_blocked in Hh as (Hst & -> & Hu);
    [|exact Hbody|exact Hin|exact Hmatch|exact Hp|exact Hbl'].
  exists reply. split_and!; [done|done| |done]. cbn. by rewrite app_nil_r.
Qed.
