(* ===== verification/SystemPrices.v ===== *)
(** The prices the whole gateway bills with: through every event they stay the fetched and
    configured ones overlaid with what administrators have stored. *)
From Stdlib Require Import ZArith Lia Bool Ascii String SpecFloat.
From stdpp Require Import prelude gmap strings list relations.
From S2P Require Import Prelude Text F64 Json Errors Models Config Stores HttpTypes.
From S2P Require Import Engine Fingerprint Cache Tokens Pricing LogBody RateLimit Budget.
From S2P Require Import Security Auth Seeding AdminLogs AdminPricing AdminApi PriceFrames.
From S2P Require Import Logging Streaming Proxy ProxyCorrect System.
Open Scope Z_scope.

Section Prices.
Context `{HashOrder} `{HttpTypes} `{Crypto} `{SerdeJson} `{Codecs} `{CounterStore C}
  `{LogStore L} `{KvStore K} `{PriceFrame M} `{Chrono} {U : Type}.
Context (send : U → OutgoingRequest → result IncomingResponse SendError * U)
  (engine : gmap string ResolvedProvider)
  (json_pieces : Value → list bytes) (blake3_hex : bytes → string)
  (debug_body : option string → string).
Context (env : string → option string) (app : AuthState).
Abbreviation S := (System M C L K U).
Abbreviation step := (sys_step send engine json_pieces blake3_hex debug_body env app).

(** ** The metadata store *)

Lemma upsert_all_prices master project rs (m : M) :
  same_prices m (upsert_all master project rs m).2.
Proof.
  revert m. induction rs as [|r rs IH]; intros m; simpl; [done|].
  pose proof (prices_upsert_seeded m (seeded_key master project r)) as Hu.
  destruct (upsert_seeded_key m _) as [[row|e] m1]; [|exact Hu]. etrans; [exact Hu|apply IH].
Qed.

Lemma prune_all_prices l (m : M) : same_prices m (prune_all l m).2.
Proof.
  revert m. induction l as [|[p ids] l IH]; intros m; simpl; [done|].
  pose proof (prices_prune m p ids) as Hp.
  destruct (prune_seeded_keys_not_in m p ids) as [[n|e] m1]; [|exact Hp].
  etrans; [exact Hp|apply IH].
Qed.

Lemma seed_apply_prices master project keys (m : M) :
  same_prices m (seed_apply env master project keys m).2.
Proof.
  unfold seed_apply. destruct (prepare _ _ _ _ _) as [[by_project rs]|e]; [|done].
  pose proof (upsert_all_prices master project rs m) as Hu.
  destruct (upsert_all _ _ rs m) as [[[]|e] m1]; [|exact Hu].
  pose proof (prune_all_prices (hash_iter by_project) m1) as Hp.
  destruct (prune_all _ m1) as [[[]|e] m2]; (etrans; [exact Hu|]); [|exact Hp].
  etrans; [exact Hp|]. unfold prune_default. case_match; [done|].
  pose proof (prices_prune m2 project []) as Hd.
  by destruct (prune_seeded_keys_not_in m2 _ _) as [[n|e] m3].
Qed.

Lemma reload_prices master project loaded (s : AppConfig * M) :
  same_prices s.2 (try_reload env master project loaded s).2.
Proof. destruct loaded as [new|e]; [apply seed_apply_prices|done]. Qed.

(** ** The prices in force *)

Definition sys_prices (s : S) : PricingState M := adm_prices (admin_view s).
Definition priced (s : S) : Prop := prices_wf (sys_metadata s) ∧ in_force (sys_prices s).

Lemma in_force_same (p p' : PricingState M) :
  same_prices (ps_metadata p) (ps_metadata p') → ps_base p' = ps_base p →
  ps_effective p' = ps_effective p → in_force p → in_force p'.
Proof.
  intros [Hs _] Hb He [Hf Hk]. split; [|by rewrite Hb, He].
  intros pr mo. by rewrite He, Hs, Hb.
Qed.

Lemma priced_same s s' :
  same_prices (sys_metadata s) (sys_metadata s') → sys_base s' = sys_base s →
  gw_pricing (sys_gateway s') = gw_pricing (sys_gateway s) → priced s → priced s'.
Proof.
  intros Hs Hb Hp [Hw Hf]. split; [by apply Hs|].
  exact (in_force_same (sys_prices s) (sys_prices s') Hs Hb Hp Hf).
Qed.

(** ** The Admin API *)

Abbreviation state := (AdminState M L C).

(** What keeps the prices of the Admin API's state in force. *)
Definition price_move (s s' : state) : Prop :=
  prices_wf (adm_metadata s) ∧ in_force (adm_prices s) →
  prices_wf (adm_metadata s') ∧ in_force (adm_prices s') ∧
  ps_base (adm_prices s') = ps_base (adm_prices s).

Lemma price_move_refl s : price_move s s.
Proof. by intros [Hw Hf]. Qed.

Lemma on_metadata_prices {A} (f : A → AdminAnswer) h s r s' :
  (∀ m, same_prices m (h m).2) → on_metadata f h s = Ret (r, s') → price_move s s'.
Proof.
  intros Hh Hr [Hw Hf]. unfold on_metadata in Hr. specialize (Hh (adm_metadata s)).
  destruct (h (adm_metadata s)) as [x m]. injection Hr as _ <-.
  split; [by apply Hh|]. split; [|done].
  by apply (in_force_same (adm_prices s)).
Qed.

Lemma write_pricing_Err w (s : PricingState M) e s' :
  write_pricing w s = (Err e, s') → ∃ err, e = AStorage err.
Proof.
  unfold write_pricing, refresh_pricing. destruct w as [[u|err] m]; [|intros [= <- _]; by exists err].
  cbn. destruct (list_pricing m) as [rows|err]; [done|]. intros [= <- _]. by exists err.
Qed.

Lemma on_prices_upsert body s r s' :
  on_prices (admin_upsert_pricing body) s = Ret (r, s') → (∀ err, r ≠ Err (AStorage err)) →
  price_move s s'.
Proof.
  unfold on_prices. destruct (admin_upsert_pricing body _) as [x p] eqn:Hu. intros [= <- <-] Hno.
  intros [Hw Hf]. destruct x as [[]|e].
  - destruct (upsert_accepted _ _ _ Hu Hw) as (_ & Hf' & Hw' & Hb & _). by split_and!.
  - unfold admin_upsert_pricing in Hu. destruct (_ || _); [by injection Hu as _ <-|].
    destruct (negb _); [by injection Hu as _ <-|].
    apply write_pricing_Err in Hu as [err ->]. by destruct (Hno err).
Qed.

Lemma on_prices_delete p mo s r s' :
  on_prices (admin_delete_pricing p mo) s = Ret (r, s') → (∀ err, r ≠ Err (AStorage err)) →
  price_move s s'.
Proof.
  unfold on_prices. destruct (admin_delete_pricing p mo _) as [x q] eqn:Hu. intros [= <- <-] Hno.
  intros [Hw Hf]. destruct x as [[]|e].
  - destruct (delete_accepted _ _ _ _ Hu Hw) as (Hf' & Hw' & Hb & _). by split_and!.
  - unfold admin_delete_pricing in Hu. apply write_pricing_Err in Hu as [err ->].
    by destruct (Hno err).
Qed.

Lemma login_prices now_ms now_s now_s' req (m : M) :
  same_prices m (login app now_ms now_s now_s' req m).2.
Proof.
  unfold login. destruct (find_admin_user m _) as [[user|]|e]; [|done|done].
  destruct (verify_password _ _) as [[]|e]; [|done|done].
  destruct (issue _ _ _ _ _) as [token|e]; apply prices_touch_admin.
Qed.

Lemma create_admin_prices uuid salt username password (m : M) :
  same_prices m (create_admin uuid salt username password m).2.
Proof.
  unfold create_admin. destruct (str_is_empty _ || _); [done|].
  destruct (hash_password _ _) as [phc|e]; [|done].
  match goal with |- context [create_admin_user m ?u] =>
    pose proof (prices_create_admin m u) as Hf; destruct (create_admin_user m u) as [[a|e] m'] end;
  exact Hf.
Qed.

Lemma create_key_prices uuid random req (m : M) :
  same_prices m (admin_create_key app uuid random req m).2.
Proof.
  unfold admin_create_key. destruct (key_env_parse _) as [ke|]; [|done].
  match goal with |- context [create_key m ?k] =>
    pose proof (prices_create_key m k) as Hf; destruct (create_key m k) as [[row|e] m'] end;
  exact Hf.
Qed.

Lemma revoke_key_prices i (m : M) : same_prices m (admin_revoke_key i m).2.
Proof.
  unfold admin_revoke_key. destruct (get_key m i) as [old|e]; [|done].
  destruct (config_managed old); [done|].
  pose proof (prices_revoke_key m i) as Hf. by destruct (revoke_key m i) as [[[]|e] m'].
Qed.

Lemma admin_api_prices d headers q s r s' :
  admin_api app d headers q s = Ret (r, s') → (∀ err, r ≠ Err (AStorage err)) → price_move s s'.
Proof.
  intros Hr Hno. cut (∀ p, handle_as app p d q s = Ret (r, s') → price_move s s').
  { intros Hh. unfold admin_api in Hr. destruct (is_login q); [by eapply Hh|].
    destruct (admin_principal _ _ _) as [p|e]; [by eapply Hh|].
    injection Hr as <- <-. apply price_move_refl. }
  intros p Hh. destruct q; cbn [handle_as] in Hh;
    try (injection Hh as <- <-; apply price_move_refl).
  - eapply on_metadata_prices; [|exact Hh]. apply login_prices.
  - eapply on_metadata_prices; [|exact Hh]. apply create_admin_prices.
  - eapply on_metadata_prices; [|exact Hh]. intros m. unfold list_admins.
    by destruct (list_admin_users _).
  - eapply on_metadata_prices; [|exact Hh]. apply create_key_prices.
  - eapply on_metadata_prices; [|exact Hh]. intros m. unfold admin_list_keys.
    by destruct (list_keys _ _).
  - eapply on_metadata_prices; [|exact Hh]. apply revoke_key_prices.
  - by eapply on_prices_upsert.
  - destruct (admin_recompute_costs _ _ _ _) as [x l]. injection Hh as _ <-. by intros [Hw Hf].
  - by eapply on_prices_delete.
  - destruct (admin_list_budgets _ _ _) as [[x b]|]; [|done]. injection Hh as _ <-. by intros [Hw Hf].
Qed.

(** ** Every step *)

(** The Admin API did not answer with a failure of the store. *)
Definition stored (o : Observed) : Prop := ∀ err, o ≠ AdminAnswered (Err (AStorage err)).

Lemma step_priced base e (s : S) o s' :
  stored o → step e s = Ret (o, s') → priced s ∧ sys_base s = base → priced s' ∧ sys_base s' = base.
Proof.
  intros Ho Hstep [Hp Hb]. destruct e as [id now rq|n accepts|n|c|loaded]; cbn [sys_step] in Hstep.
  - apply proxied_Ret in Hstep
      as [(e & _ & -> & _)|(who & touch & reply & task & g & _ & Hh & -> & _)]; [done|].
    apply (handler_same _ _ _ _ _ gw_pricing) in Hh; try done.
    split; [by apply (priced_same s)|done].
  - apply stream_ends_Ret in Hstep as [(_ & ->)|(t & out & g & Hn & Hr & _ & ->)]; [done|].
    apply (run_task_same gw_pricing) in Hr; try done. split; [by apply (priced_same s)|done].
  - apply touch_ends_Ret in Hstep as [->|(t & _ & ->)]; [done|]. split; [|done].
    apply (priced_same s); [|done..]. apply prices_touch_key.
  - apply admin_calls_Ret in Hstep as (r & a & Ha & -> & ->).
    apply admin_api_prices in Ha; [|intros err ->; by destruct (Ho err)].
    destruct (Ha Hp) as (Hw' & Hf' & Hb'). split; [|done].
    split; [exact Hw'|]. apply (in_force_same (adm_prices a)); [done|by rewrite Hb'|done|done].
  - apply file_changes_Ret in Hstep as ->. split; [|done].
    apply (priced_same s); [|done..].
    apply (reload_prices _ _ _ (gw_config (sys_gateway s), sys_metadata s)).
Qed.
End Prices.

