(* ===== verification/Liveness.v ===== *)
(** Every request is answered and every stream ends: the handler and the task of
    Proxy and Streaming never panic, apart from what the named hypotheses
    exclude (a cache key or a cached body cut inside a character, a log or cache
    store that panics). *)
From Stdlib Require Import ZArith Lia Bool Ascii String SpecFloat.
From stdpp Require Import prelude gmap strings list relations.
From S2P Require Import Prelude Text F64 Json Errors Models Config Stores HttpTypes.
From S2P Require Import Engine Executor Fingerprint Cache Tokens Pricing LogBody RateLimit.
From S2P Require Import Budget Auth Logging Streaming Proxy ProxyCorrect.
Open Scope Z_scope.

(** * ASCII text can be cut anywhere *)

Fixpoint ascii_text (s : string) : bool :=
  match s with
  | EmptyString => true
  | String a r => (ascii_val a <? 128) && ascii_text r
  end.

Lemma ascii_text_append s t : ascii_text (s +:+ t) = ascii_text s && ascii_text t.
Proof. induction s as [|a s IH]; [done|].
  change (String a s +:+ t) with (String a (s +:+ t)). cbn [ascii_text].
  by rewrite IH, andb_assoc. Qed.

Lemma ascii_not_cont a : ascii_val a < 128 → is_cont a = false.
Proof. destruct a as [[] [] [] [] [] [] [] []]; vm_compute; congruence. Qed.

Lemma ascii_text_get s n a : ascii_text s = true → String.get n s = Some a → is_cont a = false.
Proof.
  revert n. induction s as [|b s IH]; intros n; [by destruct n|]. simpl.
  intros [Hb Hs]%andb_true_iff. destruct n; [|by apply IH].
  intros [= <-]. apply ascii_not_cont. by apply Z.ltb_lt.
Qed.

Lemma get_in_range s n : (n < String.length s)%nat → ∃ a, String.get n s = Some a.
Proof.
  revert n. induction s as [|b s IH]; intros n Hn; simpl in *; [lia|].
  destruct n; [by eexists|]. apply IH. lia.
Qed.

Lemma slice_ascii s n :
  ascii_text s = true → (n ≤ String.length s)%nat → ∃ t, slice_to s n = Ret t.
Proof.
  intros Hs Hn. unfold slice_to. enough (is_char_boundary s n = true) as -> by by eexists.
  unfold is_char_boundary. destruct (Nat.eqb_spec n (String.length s)) as [->|Hne].
  { by rewrite orb_true_r. }
  destruct (get_in_range s n ltac:(lia)) as [a Ha]. rewrite Ha.
  by rewrite (ascii_text_get s n a Hs Ha), orb_true_r.
Qed.

(** * The parts *)

Section Parts.
Context `{HttpTypes} `{SerdeJson} `{Codecs} `{CounterStore C} `{LogStore L} `{KvStore K}
  `{ChronoLaws} {U : Type}.
Abbreviation G := (Gateway C L K U).
(** The log stores that take every record. *)
Context (log_ok : L → Prop) (append_ok : ∀ r, total log_ok (append r)).

Definition logging (g : G) : Prop := log_ok (gw_logs g).
Abbreviation live m := (total logging m).

Lemma instant_now_total : live instant_now.
Proof. apply total_returning. intros g Hg. by destruct (read_instant _). Qed.
Lemma elapsed_since_total started : live (elapsed_since started).
Proof. apply total_bind; [apply instant_now_total|auto with gateway]. Qed.
Lemma load_total {A} (f : G → A) : live (load f).
Proof. by apply total_returning. Qed.

Lemma submit_log_total r : live (submit_log r).
Proof.
  apply total_bind; [|by intros u; apply total_returning].
  apply total_within with (Q := log_ok); [|done|done]. unfold submit.
  apply total_bind; auto with gateway.
Qed.

(** The budget manager never panics. *)
Abbreviation always := (λ _ : BudgetManager C, True).
Lemma on_budgets_total {A} (m : prog (BudgetManager C) A) :
  total always m → live (within gw_budgets put_budgets m).
Proof. intros Hm. by apply total_within with (Q := always). Qed.

Lemma wall_ms_total : live wall_ms.
Proof. apply on_budgets_total. by apply total_returning. Qed.

Lemma on_counter_total {A} (f : C → A * C) : live (on_counter f).
Proof. apply total_returning. intros g Hg. by destruct (f _). Qed.

Lemma current_period_total b : total always (current_period b).
Proof.
  apply total_bind; [by apply total_returning|]. intros t.
  eapply total_lifted, period_start_for_day.
Qed.

Lemma check_block_total cfg project key : total always (check_block cfg project key).
Proof.
  unfold check_block. induction (matching_budgets cfg project key) as [|b bs IH]; simpl;
    [apply total_ret|].
  apply total_bind; [apply current_period_total|]. intros start.
  apply total_bind; [by apply total_returning|]. intros used.
  by destruct (existsb _ _); [apply total_ret|].
Qed.

Lemma record_cost_total cfg project key cost : total always (record_cost cfg project key cost).
Proof.
  unfold record_cost. destruct (f64_leb _ _); [apply total_ret|].
  apply total_for. intros b. unfold record_on.
  apply total_bind; [apply current_period_total|]. intros start.
  apply total_bind; [by apply total_returning|]. intros used.
  apply total_for. intros th. unfold cross_threshold.
  destruct (f64_leb _ _); [|apply total_ret].
  apply total_bind; [by apply total_returning|]. intros fresh.
  destruct fresh; [by apply total_returning|apply total_ret].
Qed.

(** The cache is left alone by the clocks, the log, the budgets and the limits. *)
Lemma wall_ms_kv : moves (same gw_kv) (wall_ms : prog G Z).
Proof. intros g a g' Hr. by apply within_Ret in Hr as (m & _ & ->). Qed.
Lemma elapsed_kv started : moves (same gw_kv) (elapsed_since started : prog G Z).
Proof.
  apply moves_bind; [apply _| |intros a; apply moves_ret, _].
  apply moves_returning. intros g. by destruct (read_instant _).
Qed.
Lemma submit_log_kv r : moves (same gw_kv) (submit_log r : prog G unit).
Proof.
  apply moves_bind; [apply _| |intros a; by apply moves_returning].
  intros g a g' Hr. by apply within_Ret in Hr as (l & _ & ->).
Qed.
Lemma submit_refusal_kv started st http e log :
  moves (same gw_kv) (submit_refusal started st http e log : prog G unit).
Proof. apply moves_bind; [apply _|apply elapsed_kv|intros el; apply submit_log_kv]. Qed.
Lemma admit_kv config started who log :
  moves (same gw_kv) (admission config started who log : prog G (result RatePermit ApiError)).
Proof.
  apply moves_bind; [apply _|by apply moves_returning|]. intros cfg.
  apply moves_bind; [apply _| |intros []].
  { intros g a g' Hr. by apply within_Ret in Hr as (m & _ & ->). }
  { apply moves_bind; [apply _|apply submit_refusal_kv|intros u; apply moves_ret, _]. }
  apply moves_bind; [apply _| |].
  { apply moves_returning. intros g. by destruct (check_limits _ _ _ _). }
  intros [p|e]; [apply moves_ret, _|].
  apply moves_bind; [apply _|apply submit_refusal_kv|intros u; apply moves_ret, _].
Qed.

(** ** The streaming task *)

(** The cache store takes what the task may put into it. *)
Definition accepts_put (t : StreamTask) (g : G) : Prop :=
  ∀ ttl key blob, tk_cache_ttl t = Some ttl →
  ∃ r k, kv_put key blob ttl (gw_kv g) = Ret (r, k).

Lemma write_back_returns (t : StreamTask) p (g : G) :
  logging g → accepts_put t g →
  ∃ u g', write_back t p g = Ret (u, g') ∧ logging g'.
Proof.
  intros Hg Hput. unfold write_back. destruct (_ && _); [|by eexists _, _].
  unfold prog_bind. destruct (wall_ms_total g Hg) as (now & g1 & Hw & Hg1). rewrite Hw.
  apply wall_ms_kv in Hw. unfold same in Hw. unfold accepts_put in Hput. rewrite <- Hw in Hput.
  destruct (encode _) as [blob|], (tk_cache_ttl t) as [ttl|], (tk_cache_key t) as [key|];
    try by eexists _, _.
  unfold within. destruct (Hput ttl key blob eq_refl) as (r & k & ->). by eexists _, _.
Qed.

Lemma charge_request_total (t : StreamTask) usage : live (charge_request t usage).
Proof.
  unfold charge_request. destruct (is_success _); [|apply total_ret].
  destruct (model _); [|apply total_ret].
  apply total_bind; [apply load_total|]. intros catalog.
  destruct (compute_cost _ _ _ _); [|apply total_ret].
  apply total_bind; [apply load_total|]. intros cfg.
  apply total_bind; [apply on_budgets_total, record_cost_total|auto with gateway].
Qed.

Lemma run_task_returns accepts (t : StreamTask) (g : G) :
  logging g → accepts_put t g →
  ∃ out g', run_task accepts t g = Ret (out, g').
Proof.
  intros Hg Hput. unfold run_task. destruct (pump _ _ _ _) as [p c].
  enough (∃ u g', (if c then finished t p else broken_off t p) g = Ret (u, g'))
    as (u & g' & Hr) by (unfold prog_bind; rewrite Hr; by eexists _, _).
  destruct c.
  - unfold finished, prog_bind at 1.
    destruct (write_back_returns t p g Hg Hput) as (u & g1 & -> & Hg1).
    apply (total_run logging); [|exact Hg1].
    apply total_bind; [apply on_counter_total|]. intros _.
    apply total_bind; [apply charge_request_total|]. intros cost.
    apply total_bind; [apply elapsed_since_total|]. intros el. apply submit_log_total.
  - apply (total_run logging); [|exact Hg].
    apply total_bind; [apply elapsed_since_total|]. intros el.
    apply total_bind; [apply submit_log_total|]. intros _. apply on_counter_total.
Qed.

(** What the end of a task leaves: the whole body with a client that stays, one
    log record of what was served, the permit settled, the reported tokens
    charged, and the response cached if it is to be. *)
Definition work_done (accepts : nat → bool) (t : StreamTask) (g : G) (out : stream) (g' : G) :
    Prop :=
  let body := logged_part t in
  let usage := extract_token_usage body in
  let cost := request_cost (gw_pricing g) t usage in
  ((∀ n, accepts n = true) → out = delivered (tk_items t)) ∧
  ∃ r,
    gw_submitted g' = gw_submitted g ++ [r] ∧
    id r = default (id (tk_log t)) (extract_response_id body) ∧
    http_status r = Some (tk_status t) ∧
    response_body r =
      captured_body_to_string body (MAX_LOG_BODY_BYTES <? length (body_of t))%nat ∧
    match error_of (tk_items t) with
    | Some _ =>
        status r = "upstream_error" ∧
        gw_budgets g' =
          set_counter (gw_budgets g) (drop_permit (tk_permit t) (counter (gw_budgets g))) ∧
        gw_kv g' = gw_kv g
    | None =>
        Models.total_tokens r = Tokens.total_tokens usage ∧ cost_usd r = cost ∧
        (∃ m,
          counter m = reconcile_tokens (tk_permit t) (default 0 (Tokens.total_tokens usage))
                        (counter (gw_budgets g)) ∧
          match cost with
          | Some c => record_cost (gw_config g) (tk_project_id t) (tk_key_id t) c m =
                      Ret ((), gw_budgets g')
          | None => gw_budgets g' = m
          end) ∧
        if tk_should_write t && (blen (body_of t) <=? MAX_CACHEABLE_BODY_BYTES)
        then ∃ now, cache_put t (stored_response t now) (gw_kv g) (gw_kv g')
        else gw_kv g' = gw_kv g
    end.

Lemma run_task_done accepts (t : StreamTask) (g : G) out g' :
  run_task accepts t g = Ret (out, g') → work_done accepts t g out g'.
Proof.
  intros Hr. unfold work_done. cbv zeta. apply run_task_Ret in Hr as (-> & Hend).
  split; [intros Ha; by rewrite pump_all|].
  destruct (task_captured accepts t) as [Hc Hmore].
  destruct Hend as [[He Hf]|[[e He] Hb]]; rewrite He.
  - pose proof (finished_stores accepts t g g' Hf) as Hkv.
    apply finished_Ret in Hf as (g1 & m & el & Hw & _ & Hm & Hb & Hs).
    rewrite Hc in Hm, Hb, Hs. eexists. split; [exact Hs|].
    pose proof (final_log_fields t _ (extract_token_usage (logged_part t))
      (request_cost (gw_pricing g) t (extract_token_usage (logged_part t))) el _ _ Hc Hmore)
      as (Hid & Hst & Hbody & _ & _ & _ & _ & Htot & Hcost & _).
    split; [exact Hid|]. split; [exact Hst|]. split; [exact Hbody|].
    split; [exact Htot|]. split; [exact Hcost|]. split; [|exact Hkv].
    apply write_back_counter in Hw. unfold same, counter_of in Hw.
    exists m. split; [by rewrite Hm, Hw|exact Hb].
  - apply broken_off_Ret in Hb as (el & Hkv & Hd & Hs). eexists. split; [exact Hs|].
    pose proof (broken_log_fields t _ el _ _ Hc Hmore) as (Hid & Hst & Hbody & Hstat & _).
    repeat split; done.
Qed.

(** ** The handler *)

Lemma submit_refusal_total started st http e log : live (submit_refusal started st http e log).
Proof.
  apply total_bind; [apply elapsed_since_total|]. intros el. apply submit_log_total.
Qed.

Lemma admit_total config started who log : live (admission config started who log).
Proof.
  apply total_bind; [apply load_total|]. intros cfg.
  apply total_bind; [apply on_budgets_total, check_block_total|]. intros [].
  { apply total_bind; [apply submit_refusal_total|auto with gateway]. }
  apply total_bind; [apply on_counter_total|]. intros [p|e]; [apply total_ret|].
  apply total_bind; [apply submit_refusal_total|auto with gateway].
Qed.

Lemma insert_cache_headers_total headers status key age :
  (∀ k, key = Some k → ascii_text k = true) →
  ∃ m, insert_cache_headers headers status key age = Ret m.
Proof.
  intros Hk. unfold insert_cache_headers. destruct key as [k|]; [|by eexists].
  destruct (slice_ascii k (String.length k `min` 48) (Hk k eq_refl) ltac:(lia)) as [s ->].
  by eexists.
Qed.

Lemma build_cached_total cached cs key now :
  ascii_text key = true → ∃ r, build_cached_response cached cs key now = Ret r.
Proof.
  intros Hk. unfold build_cached_response. cbv zeta.
  destruct (insert_cache_headers_total (reply_headers (cached_reply cached)) cs (Some key)
    (Some (Z.max 0 (as_i64 (now - finished_at_ms cached)) / 1000)) ltac:(by intros k [= <-]))
    as [m ->]. by eexists.
Qed.

Lemma replay_total started route cached cs key log preview :
  cached_body_preview cached = Ret preview → ascii_text key = true →
  live (replay started route cached cs (Some key) log).
Proof.
  intros Hp Hk. apply total_bind; [apply elapsed_since_total|]. intros el.
  eapply total_bind_lifted; [exact Hp|].
  apply total_bind; [apply load_total|]. intros catalog.
  apply total_bind; [apply submit_log_total|]. intros _.
  eapply total_bind_lifted; [done|].
  apply total_bind; [apply wall_ms_total|]. intros now.
  destruct (build_cached_total cached cs key now Hk) as [r Hr]. by eapply total_lifted.
Qed.
End Parts.

(** * The request *)

Section Request.
Context `{HashOrder} `{HttpTypes} `{SerdeJson} `{Codecs} `{CounterStore C} `{LogStore L}
  `{KvStore K} `{ChronoLaws} {U : Type}.
Context (send : U → OutgoingRequest → result IncomingResponse SendError * U)
  (engine : gmap string ResolvedProvider)
  (json_pieces : Value → list bytes) (blake3_hex : bytes → string)
  (debug_body : option string → string).
Abbreviation G := (Gateway C L K U).
Context (log_ok : L → Prop) (append_ok : ∀ r, total log_ok (append r)).
Abbreviation live m := (total (logging (C:=C) (K:=K) (U:=U) log_ok) m).
(** A digest prints in ASCII. *)
Context (hex_ascii : ∀ b, ascii_text (blake3_hex b) = true).

(** Every cached response can be previewed. *)
Definition previewable (k : K) : Prop := ∀ key blob k' cached,
  kv_get k key = (Ok (Some blob), k') → decode blob = Ok cached →
  ∃ preview, cached_body_preview cached = Ret preview.

Lemma plan_key_ascii route rq pa key :
  ascii_text (rq_namespace rq) = true →
  plan_key (plan_cache blake3_hex route rq pa) = Some key → ascii_text key = true.
Proof.
  intros Hns. unfold plan_cache. cbn [plan_key].
  destruct (cache_key_needed _ _); [|done].
  destruct (from_headers _ _ _ _) as [p|]; [|done]. intros [= <-].
  rewrite !ascii_text_append, Hns. unfold fingerprint. by rewrite hex_ascii.
Qed.

(** What a lookup at a previewable cache finds can be replayed. *)
Lemma cache_lookup_total route rq pa (g : G) :
  let plan := plan_cache blake3_hex route rq pa in
  previewable (gw_kv g) → logging log_ok g →
  ∃ cs found g', cache_lookup plan g = Ret ((cs, found), g') ∧ logging log_ok g' ∧
    ∀ cached, found = Some cached →
      is_Some (plan_key plan) ∧ ∃ preview, cached_body_preview cached = Ret preview.
Proof.
  intros plan Hp Hlog. unfold cache_lookup.
  destruct (plan_policy plan) as [p|] eqn:Hpol; [|by eexists _, _, _].
  destruct (plan_cacheable plan) eqn:Hc; cbn [negb]; [|by eexists _, _, _].
  assert (Hkey : directive p ≠ CBypass → ∃ key, plan_key plan = Some key).
  { intros Hd. unfold plan, plan_cache in *. cbn [plan_policy plan_cacheable plan_key] in *.
    rewrite Hpol in *. unfold cache_key_needed. rewrite Hc, bool_decide_false by done.
    by eexists. }
  destruct (directive p) eqn:Hd; try by eexists _, _, _.
  all: destruct Hkey as [key Hkey]; [done|]; rewrite Hkey; unfold prog_bind, lifted, lookup_key,
    prog_bind, within, returning;
    destruct (kv_get (gw_kv g) key) as [[[blob|]|e] k'] eqn:Hg; try by eexists _, _, _.
  all: destruct (decode blob) as [cached|e] eqn:Hdec; [|by eexists _, _, _].
  all: eexists _, _, _; split; [done|]; split; [done|]; intros c [= <-]; split; [by eexists|]; eauto.
Qed.

Lemma forward_phase_total started who rq pa route cs permit log :
  let plan := plan_cache blake3_hex route rq pa in
  ascii_text (rq_namespace rq) = true →
  live (forward_phase send engine debug_body started who rq pa route plan cs permit log).
Proof.
  intros plan Hns. apply total_bind; [apply instant_now_total|]. intros fs.
  apply total_bind; [|intros result].
  { apply total_returning. intros g Hg. by destruct (execute_chain _ _ _ _ _ _). }
  apply total_bind; [apply elapsed_since_total|]. intros fms.
  destruct (cr_response result) as [response|e].
  - destruct (insert_cache_headers_total (copied_headers (resp_headers response)) cs
      (plan_key plan) None) as [m Hm].
    { intros k. by apply plan_key_ascii. }
    apply total_bind; [by eapply total_lifted|]. auto with gateway.
  - apply total_bind; [apply elapsed_since_total|]. intros el.
    apply total_bind; [by apply submit_log_total|]. intros _.
    apply total_bind; [apply on_counter_total|auto with gateway].
Qed.

Lemma serve_returns config started who rq pa permit log (g : G) :
  ascii_text (rq_namespace rq) = true → previewable (gw_kv g) → logging log_ok g →
  ∃ r g', serve send engine blake3_hex debug_body config started who rq pa permit log g =
          Ret (r, g').
Proof.
  intros Hns Hp Hg. unfold serve. destruct (find_route _ _ _) as [route|].
  2: { apply (total_run (logging log_ok)); [|exact Hg].
       apply total_bind; [by apply submit_refusal_total|]. intros _.
       apply total_bind; [apply on_counter_total|auto with gateway]. }
  destruct (cache_lookup_total route rq pa g Hp Hg) as (cs & found & g1 & Hl & Hg1 & Hfound).
  cbv zeta. unfold prog_bind at 1. rewrite Hl.
  apply (total_run (logging log_ok)); [|exact Hg1].
  destruct found as [cached|].
  - destruct (Hfound cached eq_refl) as [[key Hkey] [preview Hpv]]. rewrite Hkey.
    apply total_bind.
    { eapply replay_total; [done|exact Hpv|]. by eapply plan_key_ascii. }
    intros r. apply total_bind; [apply on_counter_total|auto with gateway].
  - case_bool_decide; [|by apply forward_phase_total].
    apply total_bind; [by apply submit_refusal_total|]. intros _.
    apply total_bind; [apply on_counter_total|auto with gateway].
Qed.

End Request.
