(* ===== verification/Boot.v ===== *)
(** Starting the gateway: [main] of gateway-bin/src/main.rs from the configuration file to the
    shared state the server runs on, the fetch of pricing/openrouter.rs, the constructors of
    the in-memory stores, and what holds when it succeeds.

    The command line, the files, the environment, the network and the opened databases are
    parameters; installing the metrics recorder and tracing have no result. *)
From Stdlib Require Import ZArith Lia Bool Ascii String SpecFloat.
From stdpp Require Import prelude gmap strings list.
From S2P Require Import Prelude Text F64 Json Errors Models Stores HttpTypes MemoryCounter.
From S2P Require Import MemoryMeta MemoryLog MemoryKv Pricing Config Engine Budget Security Auth.
From S2P Require Import Seeding HotReload AdminPricing AdminApi PriceFrames Startup Logging Streaming System SystemPrices Watcher.
Open Scope Z_scope.

(** * Fetching prices *)

Definition MODELS_URL : string := "https://openrouter.ai/api/v1/models".

Section Fetch.
Context `{HashOrder}.
Context (models_response : string → result (list Value) string)
  (from_value : Value → option Model).
(** A GET within ten seconds: the status and the body, each of which may fail to come. *)
Context (get : string → result (Z * result string string) string)
  (status_error : Z → string).

Definition fetch_openrouter (url : string) : result PricingCatalog GatewayError :=
  let? response := map_err Http (get url) in
  let? _ := guard_err ((400 <=? response.1) && (response.1 <? 600))
              (Http (status_error response.1)) in
  let? json := map_err Http response.2 in
  parse_openrouter models_response from_value json.

Definition from_openrouter : result PricingCatalog GatewayError := fetch_openrouter MODELS_URL.
End Fetch.

(** * The state *)

(** [BudgetManager::new] *)
Definition budget_manager_new {C} (counter : C) (wall : Clock) : BudgetManager C :=
  {| counter := counter; wall := wall; notified := ∅; crossed := []; posts := [] |}.

(** The stores of the Memory profile. *)
Definition memory_bundle (utc mono : Clock) :
    MemMeta * MemoryLogStore * MemoryKvStore * MemoryCounterStore :=
  (meta_new utc, log_new (Z.to_nat 10000), kv_new mono, counter_new utc).

Section Boot.
Context `{HashOrder} `{HttpTypes} `{Crypto} `{MetadataStore M} {L K C U : Type}.
Context (parse_yaml : string → result AppConfig string)
  (parse_catalog : string → result (list PricingEntry) string)
  (debug_body : option string → string).
Context (env : string → option string).
Abbreviation S := (System M C L K U).

(** The part of [AppState] that never changes, the engine, and the rest. *)
Record Booted : Type := {
  booted_app : AuthState;
  booted_engine : gmap string ResolvedProvider;
  booted_system : S;
  booted_watcher : Watcher M
}.

(** What [main] meets outside: the paths given and what is found there, the stores opened for
    the configuration, the answer of OpenRouter, the clocks, the network and the generator. *)
Record Surroundings : Type := {
  su_config_path : string;
  su_config_file : FileText;
  su_catalog_path : string;
  su_catalog_file : result string ReadError;
  su_open : AppConfig → result (M * L * K * C) string;
  su_remote : result PricingCatalog GatewayError;
  su_watchable : bool;
  su_wall : Clock;
  su_net : Net (U:=U);
  su_rng : nat → f64
}.

Definition gateway_error (what : string) (e : GatewayError) : string :=
  (what +:+ gateway_error_to_string debug_body e)%string.

(** The parts of the state, once everything has been read. *)
Definition app_state (su : Surroundings) (config : AppConfig) (app : AuthState)
    (engine : gmap string ResolvedProvider) (stores : M * L * K * C) (prices : PricingState M) :
    Booted :=
  let '(_, logs, kv, counters) := stores in
  let metadata := ps_metadata prices in
  {| booted_app := app; booted_engine := engine;
     booted_system :=
       {| sys_metadata := metadata; sys_base := ps_base prices;
          sys_gateway :=
            {| gw_config := config; gw_budgets := budget_manager_new counters (su_wall su);
               gw_logs := logs; gw_kv := kv; gw_pricing := ps_effective prices;
               gw_net := su_net su; gw_rng := su_rng su; gw_submitted := [] |};
          sys_streams := []; sys_touches := []; sys_accepted := [] |};
     booted_watcher :=
       watch_start (su_watchable su) 0 (su_config_file su) (config, metadata) |}.

(** [main], up to serving. *)
Definition boot (su : Surroundings) : result Booted string :=
  let? config :=
    map_err (gateway_error ("failed to load config " +:+ su_config_path su +:+ ": "))
      (load_from_path parse_yaml (su_config_path su) (su_config_file su)) in
  let? _ := validate_runtime_environment env config in
  let? master := load_master_key env debug_body in
  let? root := read_admin_token env config in
  let? stores := su_open su config in
  let '(metadata, logs, kv, counters) := stores in
  let project := default_project_id (server config) in
  match seed_stores env master project (gateway_keys config) metadata with
  | (Err e, _) => Err e
  | (Ok _, metadata) =>
      let? engine := map_err (gateway_error "failed to construct proxy engine: ")
                       (engine_new env config) in
      let? prices_file :=
        map_err (gateway_error ("failed to load pricing catalog " +:+ su_catalog_path su +:+ ": "))
          (from_optional_path parse_catalog (su_catalog_path su) (su_catalog_file su)) in
      let? prices := boot_prices (su_remote su) prices_file metadata in
      let app := {| default_project := project; admin_root_token := root;
                    master_key := master |} in
      Ok (app_state su config app engine stores prices)
  end.
End Boot.

(** * What a start-up that succeeds gives *)

Section Engine.
Context `{HashOrder} (env : string → option string).

(** Every configured provider is resolved. *)
Lemma resolve_all_dom l acc m n :
  resolve_all env l acc = Ok m → is_Some (acc !! n) ∨ n ∈ l.*1 → is_Some (m !! n).
Proof.
  revert acc. induction l as [|[name cfg] l IH]; intros acc; cbn [resolve_all].
  - intros [= <-] [?|Hn]; [done|by apply not_elem_of_nil in Hn].
  - destruct (resolve_provider env name cfg ∅) as [r|e]; [|done]. cbn. intros Hr Hn.
    apply (IH _ Hr). rewrite elem_of_cons in Hn. destruct (decide (n = name)) as [->|Hne].
    + left. rewrite lookup_insert_eq. by eexists.
    + rewrite lookup_insert_ne by done. tauto.
Qed.

Lemma engine_new_provider config engine n :
  engine_new env config = Ok engine → is_Some (providers config !! n) → is_Some (engine !! n).
Proof.
  intros He [p Hp]. apply (resolve_all_dom _ _ _ _ He). right.
  apply list_elem_of_fmap. exists (n, p). split; [done|by apply elem_of_hash_iter].
Qed.

End Engine.

Section Ready.
Context `{HashOrder} `{HttpTypes} `{Crypto} `{KeyLaws M, !PricingLaws M, !PriceFrame M,
  !ProjectFrame M}.
Context (env : string → option string).

(** What seeding at start-up does to the metadata store. *)
Lemma seed_stores_Ok master project keys (m m' : M) :
  seed_stores env master project keys m = (Ok (), m') → keys_wf m →
  ∃ m1, same_keys m m1 ∧ same_prices m m1 ∧
    seed_apply env master project keys m1 = (Ok (), m').
Proof.
  unfold seed_stores, seed_default_project. intros Hs Hwf.
  destruct (get_project m project) as [[p|]|e]; [| |done].
  - exists m. destruct (seed_apply _ _ _ _ m) as [[[]|e] m1] eqn:Ha; [|done].
    by injection Hs as <-.
  - pose proof (keys_create_project m {| np_id := project; np_name := project |}) as Hk.
    pose proof (prices_create_project m {| np_id := project; np_name := project |}) as Hp.
    destruct (create_project m _) as [[p|e] m1]; [|done]. exists m1.
    destruct (seed_apply _ _ _ _ m1) as [[[]|e] m2] eqn:Ha; [|done]. by injection Hs as <-.
Qed.

(** What [main] did when it got as far as serving. *)
Lemma boot_parts {L K C U : Type} parse_yaml parse_catalog debug_body
    (su : Surroundings (M:=M) (L:=L) (K:=K) (C:=C) (U:=U)) b :
  boot parse_yaml parse_catalog debug_body env su = Ok b →
  ∃ config master root m logs kv counters m1 engine prices_file prices,
    load_from_path parse_yaml (su_config_path su) (su_config_file su) = Ok config ∧
    su_open su config = Ok (m, logs, kv, counters) ∧
    seed_stores env master (default_project_id (server config)) (gateway_keys config) m =
      (Ok (), m1) ∧
    engine_new env config = Ok engine ∧
    boot_prices (su_remote su) prices_file m1 = Ok prices ∧
    b = app_state su config
          {| default_project := default_project_id (server config); admin_root_token := root;
             master_key := master |} engine (m, logs, kv, counters) prices.
Proof.
  unfold boot. intros Hb.
  destruct (load_from_path _ _ _) as [cfg|e]; [|done]. cbn in Hb.
  destruct (validate_runtime_environment _ _) as [[]|e]; [|done]. cbn in Hb.
  destruct (load_master_key _ _) as [master|e]; [|done]. cbn in Hb.
  destruct (read_admin_token _ _) as [root|e]; [|done]. cbn in Hb.
  destruct (su_open su cfg) as [[[[m l] k] c]|e] eqn:Hsu; [|done]. cbn in Hb.
  destruct (seed_stores _ _ _ _ m) as [[[]|e] m1] eqn:Hseed; [|done].
  destruct (engine_new env cfg) as [engine|e] eqn:Hengine; [|done]. cbn in Hb.
  destruct (from_optional_path _ _ _) as [file|e]; [|done]. cbn in Hb.
  destruct (boot_prices _ _ m1) as [prices|e] eqn:Hprices; [|done]. cbn in Hb.
  injection Hb as <-. by exists cfg, master, root, m, l, k, c, m1, engine, file, prices.
Qed.

(** The prices it starts with. *)
Lemma start_prices master project keys remote file (m m1 : M) prices :
  seed_stores env master project keys m = (Ok (), m1) → boot_prices remote file m1 = Ok prices →
  keys_wf m → prices_wf m → prices_wf m1 ∧ in_force prices ∧ ps_metadata prices = m1.
Proof.
  intros Hseed Hprices Hwf Hpwf.
  destruct (seed_stores_Ok _ _ _ _ _ Hseed Hwf) as (m0 & _ & [_ Hp0] & Ha).
  assert (Hpw1 : prices_wf m1).
  { pose proof (seed_apply_prices env master project keys m0) as [_ Hp1].
    rewrite Ha in Hp1. by apply Hp1, Hp0. }
  destruct (boot_in_force _ _ _ _ Hpw1 Hprices) as [Hforce Hmeta]. by split_and!.
Qed.
End Ready.


(** * A concrete start: the Memory profile, one declared key, no price file, no network. *)

Section Example.
#[local] Existing Instance tree_order.
#[local] Existing Instance plain_http.
#[local] Existing Instance toy_crypto.

Definition boot_env (var : string) : option string :=
  if String.eqb var MASTER_KEY_ENV then Some "0123456789abcdef0123456789abcdef"
  else sample_env var.

Definition sample_surroundings (text : string) :
    Surroundings (M:=MemMeta) (L:=MemoryLogStore) (K:=MemoryKvStore) (C:=MemoryCounterStore)
      (U:=nat) :=
  {| su_config_path := "gateway.yaml"; su_config_file := Ok text;
     su_catalog_path := "pricing-catalog.json"; su_catalog_file := Err NotFound;
     su_open := λ _, Ok (memory_bundle (λ _, 7) (λ _, 0));
     su_remote := Err (Http "offline"); su_watchable := true; su_wall := λ _, 7;
     su_net := {| upstream := 0%nat; instant := λ _, 0 |}; su_rng := λ _, f64_zero |}.

Definition sample_boot (text : string) : result Booted string :=
  boot two_texts (λ _, Err "?"%string) (λ _, ""%string) boot_env (sample_surroundings text).

Example bad_file_does_not_start :
  sample_boot "x" = Err "failed to load config gateway.yaml: internal: failed to parse config yaml: ?"%string.
Proof. vm_compute. reflexivity. Qed.

End Example.
