(* ===== verification/ProxyExamples.v ===== *)
(** One deployment, evaluated: in-memory stores, one route, one upstream.  The
    third-party parameters are instantiated by small concrete functions, and the
    properties of Streaming and ProxyCorrect are applied to the requests it
    serves. *)
From Stdlib Require Import ZArith Lia Bool Ascii String SpecFloat.
From stdpp Require Import prelude gmap strings list relations.
From S2P Require Import Prelude Text F64 Json Errors Models Config Stores HttpTypes.
From S2P Require Import MemoryCounter MemoryLog MemoryKv.
From S2P Require Import Retry Engine Executor Fingerprint Cache Tokens Pricing LogBody.
From S2P Require Import RateLimit Budget Auth Logging Streaming Proxy ProxyCorrect Liveness.
Open Scope Z_scope.

(** * Parameters *)

Definition ask : bytes := str_bytes "ask".
Definition answer : bytes := str_bytes "answer".
Definition ask_json : Value := VObject [("model", VString "gpt-4o-mini")].
Definition answer_json : Value :=
  VObject [("id", VString "resp-1");
           ("usage", VObject [("completion_tokens", VNumber (PosInt 2000));
                              ("prompt_tokens", VNumber (PosInt 1000))])].

#[local] Instance demo_serde : SerdeJson :=
  {| from_slice b :=
       if bool_decide (b = ask) then Some ask_json
       else if bool_decide (b = answer) then Some answer_json else None;
     to_vec _ := []; number_to_string _ := "" |}.
#[local] Instance demo_order : HashOrder := tree_order.
#[local] Instance demo_http : HttpTypes := plain_http.
#[local] Instance demo_http_laws : @HttpLaws demo_http := plain_http_laws.
#[local] Instance demo_calendar : Chrono := plain_calendar.
#[local] Instance demo_calendar_laws : @ChronoLaws demo_calendar := plain_calendar_laws.

Definition demo_headers : list (string * string) := [("content-type", "application/json")].

(** The response the demo upstream's body is cached as. *)
Definition demo_stored : CachedResponse :=
  {| cached_status := 200; cached_headers := demo_headers;
     chunks := [{| data := answer |}]; finished_at_ms := 5000;
     served_by := Some "openai" |}.

(** A codec that knows this one response. *)
#[local] Instance demo_codecs : Codecs :=
  {| bincode_encode r := if bool_decide (r = demo_stored) then Ok [] else Err "?";
     bincode_decode b := if bool_decide (b = []) then Ok demo_stored else Err "?";
     zstd_encode_all b := Ok b; zstd_decode_all b := Ok b |}.
#[local] Instance demo_codec_laws : CodecLaws.
Proof.
  constructor; simpl.
  - intros r b. case_bool_decide as Hr; [intros [= <-]; by subst|done].
  - by intros b c [= <-].
Defined.

Definition demo_send (body : list (result bytes string)) (calls : nat) (_ : OutgoingRequest) :
    result IncomingResponse SendError * nat :=
  (Ok {| in_status := 200; in_headers := demo_headers : HeaderMap; in_body := body |},
   S calls).

(** * Configuration *)

Definition demo_target : RouteTarget :=
  {| provider := "openai"; target_model := None; trigger := [] |}.
Definition demo_route : RouteConfig :=
  {| match_ := {| match_namespace := Some "ns"; model_prefix := None |};
     primary := demo_target;
     cache := {| enabled := true; ttl := 60; allow_nondeterministic := false |};
     retry := default_retry; fallbacks := [] |}.
Definition demo_limit : LimitConfig :=
  {| limit_target := {| limit_kind := "key"; limit_id := None; limit_key := None |};
     rpm := Some 10; tpm := Some 10000; conc := Some 1 |}.
Definition demo_config : AppConfig :=
  {| server := default_server; storage := Memory default_cache_config;
     admin := {| root_token := ""; password_login := false |};
     providers := ∅; routes := [demo_route]; limits := [demo_limit];
     budget_configs := [sample_budget]; observability := default_observability;
     gateway_keys := [] |}.
Definition demo_engine : gmap string ResolvedProvider :=
  {["openai" := {| rp_base_url := "http://up"; rp_api_key := "key";
                   rp_injector := OpenAiAuth; rp_extra_headers := ∅ |}]}.

Abbreviation World := (Gateway MemoryCounterStore MemoryLogStore MemoryKvStore nat).
Definition demo_start : World :=
  {| gw_config := demo_config; gw_budgets := fresh_manager; gw_logs := log_new 100;
     gw_kv := kv_new (λ _, 0); gw_pricing := sample_catalog;
     gw_net := {| upstream := 0%nat; instant := λ _, 0 |}; gw_rng := λ _, f64_zero;
     gw_submitted := [] |}.

Definition demo_key : GatewayKeyPrincipal :=
  {| principal_key_id := "k"; principal_project_id := "p" |}.
Definition demo_request : Request :=
  {| rq_namespace := "ns"; rq_tail := "v1/chat"; rq_remote_ip := "10.0.0.1";
     rq_headers := [] : HeaderMap; rq_method := "POST"; rq_body := Ok ask |}.

Definition pieces (_ : Value) : list bytes := [].
Definition digest (_ : bytes) : string := "d".
Definition debug (_ : option string) : string := "".

(** The handler on an upstream that answers with [body]. *)
Definition demo_handler (body : list (result bytes string)) (id : string) (g : World) :
    outcome ((Reply * option StreamTask) * World) :=
  proxy_handler (demo_send body) demo_engine pieces digest debug id demo_key demo_request g.

(** A client that stays. *)
Definition stays (_ : nat) : bool := true.

Definition whole : list (result bytes string) := [Ok answer].
Definition broken : list (result bytes string) := [Ok answer; Err "reset"].

(** * Runs *)

(** The state and the task after the first request. *)
Definition after_request (body : list (result bytes string)) : option (StreamTask * World) :=
  match demo_handler body "rid" demo_start with
  | Ret ((_, Some t), g) => Some (t, g)
  | _ => None
  end.
Definition after_stream (body : list (result bytes string)) : option World :=
  '(t, g) ← after_request body;
  match run_task stays t g with Ret (_, g) => Some g | Panic => None end.

Definition completes {A} (o : outcome A) : bool :=
  match o with Ret _ => true | Panic => false end.
Definition task_left {A} (o : outcome ((Reply * option StreamTask) * A)) : bool :=
  match o with Ret ((_, Some _), _) => true | _ => false end.

(** The first request is forwarded and streamed, with one upstream call and one
    slot taken. *)
Example first_request_streams :
  match after_request whole with
  | Some (t, g) =>
      tk_status t = 200 ∧ tk_should_write t = true ∧ upstream_of g = 1%nat ∧
      live (counter_of g) "conc:key:k" = 1 ∧ gw_submitted g = []
  | None => False
  end.
Proof. vm_compute. repeat split. Qed.

(** The second one is answered from the cache. *)
Example second_request_hits :
  match after_stream whole with
  | Some g =>
      match demo_handler whole "rid2" g with
      | Ret ((reply, None), g') =>
          reply_status reply = 200 ∧ reply_body reply = Replayed [answer] ∧
          upstream_of g' = 1%nat ∧ live (counter_of g') "conc:key:k" = 0 ∧
          length (gw_submitted g') = 2%nat
      | _ => False
      end
  | None => False
  end.
Proof. vm_compute. repeat split. Qed.

(** * Witnesses *)

(** The first request and its stream, run to the end. *)
Record Run : Type := {
  run_reply : Reply;
  run_task_left : StreamTask;
  run_mid : World;
  run_out : list (result bytes string);
  run_end : World
}.
Definition demo_run (body : list (result bytes string)) : option Run :=
  match demo_handler body "rid" demo_start with
  | Ret ((reply, Some t), g) =>
      match run_task stays t g with
      | Ret (out, g') =>
          Some {| run_reply := reply; run_task_left := t; run_mid := g; run_out := out;
                  run_end := g' |}
      | Panic => None
      end
  | _ => None
  end.

Lemma demo_run_Some body r :
  demo_run body = Some r →
  demo_handler body "rid" demo_start =
    Ret ((run_reply r, Some (run_task_left r)), run_mid r) ∧
  run_task stays (run_task_left r) (run_mid r) = Ret (run_out r, run_end r).
Proof.
  unfold demo_run. destruct (demo_handler _ _ _) as [[[reply [t|]] g]|]; try done.
  destruct (run_task stays t g) as [[out g']|] eqn:Hr; [|done]. by intros [= <-].
Qed.

Lemma demo_runs body :
  body = whole ∨ body = broken →
  ∃ r, demo_run body = Some r ∧ tk_items (run_task_left r) = body.
Proof.
  intros Hb. assert (Hi : (tk_items ∘ run_task_left) <$> demo_run body = Some body).
  { destruct Hb as [-> | ->]; vm_compute; reflexivity. }
  destruct (demo_run body) as [r|]; [|done]. exists r. by injection Hi.
Qed.

Lemma streaming_transparent_witness :
  ∃ r, demo_run broken = Some r ∧ run_out r = delivered broken.
Proof.
  destruct (demo_runs broken ltac:(by right)) as (r & Hr & Hi).
  exists r. split; [exact Hr|]. rewrite <- Hi.
  apply demo_run_Some in Hr as [_ Hrun].
  exact (proj1 (proj2 (streaming_transparent _ _ _ _ _ Hrun)) ltac:(done)).
Defined.

Lemma stream_logged_witness :
  ∃ r rec, demo_run whole = Some r ∧
    gw_submitted (run_end r) = gw_submitted (run_mid r) ++ [rec] ∧
    prompt_tokens rec = usage_prompt (extract_token_usage (logged_part (run_task_left r))).
Proof.
  destruct (demo_runs whole ltac:(by left)) as (r & Hr & Hi).
  pose proof (demo_run_Some _ _ Hr) as [_ Hrun].
  destruct (stream_logged _ _ _ _ _ Hrun) as (rec & Hs & _ & _ & _ & Hm).
  rewrite Hi in Hm. exists r, rec. split; [exact Hr|]. split; [exact Hs|].
  exact (proj1 (proj2 Hm)).
Defined.

Lemma fmap_eq_Some {A B} (f : A → B) o a b : f <$> o = Some b → o = Some a → f a = b.
Proof. intros Hf ->. revert Hf. by intros [= ->]. Qed.

Lemma stream_settled_witness :
  (∃ r m cost, demo_run whole = Some r ∧
    counter m = reconcile_tokens (tk_permit (run_task_left r)) 3000
      (counter (gw_budgets (run_mid r))) ∧
    f64_leb cost f64_zero = false ∧
    record_cost (gw_config (run_mid r)) "p" "k" cost m = Ret ((), gw_budgets (run_end r))) ∧
  ∃ r, demo_run broken = Some r ∧
    counter (gw_budgets (run_end r)) =
      drop_permit (tk_permit (run_task_left r)) (counter (gw_budgets (run_mid r))).
Proof.
  split.
  - destruct (demo_runs whole ltac:(by left)) as (r & Hr & Hi).
    assert (Hu : (λ r, let u := extract_token_usage (logged_part (run_task_left r)) in
        (default 0 (Tokens.total_tokens u),
         (λ c, f64_leb c f64_zero) <$>
           request_cost (gw_pricing (run_mid r)) (run_task_left r) u,
         tk_project_id (run_task_left r), tk_key_id (run_task_left r))) <$> demo_run whole =
      Some (3000, Some false, "p", "k")) by (vm_compute; reflexivity).
    apply (fmap_eq_Some _ _ r _) in Hu; [|exact Hr]. cbv beta zeta in Hu.
    apply pair_eq in Hu as [[[Ht Hc]%pair_eq Hp]%pair_eq Hk].
    pose proof (demo_run_Some _ _ Hr) as [_ Hrun].
    pose proof (stream_settled _ _ _ _ _ Hrun) as Hs. rewrite Hi in Hs.
    destruct Hs as (m & Hm & _ & Hcost).
    destruct (request_cost _ _ _) as [cost|]; [|done]. injection Hc as Hc.
    rewrite Hp, Hk in Hcost. rewrite Ht in Hm. exists r, m, cost. auto.
  - destruct (demo_runs broken ltac:(by right)) as (r & Hr & Hi).
    pose proof (demo_run_Some _ _ Hr) as [_ Hrun].
    pose proof (stream_settled _ _ _ _ _ Hrun) as Hs. rewrite Hi in Hs.
    cbn [error_of broken] in Hs. exists r. split; [exact Hr|]. rewrite Hs. reflexivity.
Defined.

Lemma cache_written_exactly_witness :
  ∃ r, demo_run broken = Some r ∧ gw_kv (run_end r) = gw_kv (run_mid r).
Proof.
  destruct (demo_runs broken ltac:(by right)) as (r & Hr & Hi).
  exists r. split; [exact Hr|].
  apply demo_run_Some in Hr as [_ Hrun].
  pose proof (cache_written_exactly _ _ _ _ _ Hrun) as Hc. rewrite Hi in Hc.
  rewrite bool_decide_false, andb_false_r in Hc by done. exact Hc.
Defined.

Lemma broken_stream_keeps_tokens_witness :
  ∃ r, demo_run broken = Some r ∧
    charged (counter (gw_budgets (run_end r))) "tpm:key:k" WINDOW_MS =
    charged (counter (gw_budgets (run_mid r))) "tpm:key:k" WINDOW_MS.
Proof.
  destruct (demo_runs broken ltac:(by right)) as (r & Hr & Hi).
  exists r. split; [exact Hr|].
  apply demo_run_Some in Hr as [_ Hrun].
  exact (proj2 (broken_stream_keeps_tokens _ _ _ _ _ Hrun
    ltac:(rewrite Hi; by eexists)) _ _).
Defined.

Lemma one_record_per_request_witness :
  ∃ r, demo_run whole = Some r ∧ gw_submitted (run_mid r) = [] ∧
    ∃ rec, gw_submitted (run_end r) = gw_submitted (run_mid r) ++ [rec] ∧
      gateway_key_id rec = Some "k".
Proof.
  destruct (demo_runs whole ltac:(by left)) as (r & Hr & _).
  exists r. split; [exact Hr|].
  apply demo_run_Some in Hr as [Hh Hrun].
  destruct (one_record_per_request _ _ _ _ _ _ _ _ _ _ _ _ Hh) as [Hs Hend].
  split; [exact Hs|]. destruct (Hend _ _ _ _ Hrun) as (rec & Hrec & Hat).
  exists rec. split; [exact Hrec|]. apply Hat.
Defined.

Lemma request_slots_returned_witness :
  ∃ r, demo_run whole = Some r ∧
    rtc (store_step (λ _, True) [demo_limit])
      (counter_of (run_mid r), concurrency_permits (tk_permit (run_task_left r)))
      (counter_of (run_end r), []).
Proof.
  destruct (demo_runs whole ltac:(by left)) as (r & Hr & _).
  exists r. split; [exact Hr|].
  apply demo_run_Some in Hr as [Hh Hrun].
  apply request_slots_returned with (hs := []) in Hh as [_ Hs].
  exact (Hs _ _ _ _ _ eq_refl Hrun).
Defined.

Lemma upstream_needs_admission_witness :
  ∃ r, demo_run whole = Some r ∧
    (upstream_of (run_mid r) = 0%nat ∨
     ∃ route, find_route demo_config "ns" (Some "gpt-4o-mini") = Some route).
Proof.
  destruct (demo_runs whole ltac:(by left)) as (r & Hr & _).
  exists r. split; [exact Hr|].
  apply demo_run_Some in Hr as [Hh _].
  apply upstream_needs_admission in Hh
    as [Hu|(body & route & permit & m & m' & g2 & g3 & cs & Hb & _ & _ & _ & Hf & _)].
  - left. exact Hu.
  - right. exists route. injection Hb as <-. exact Hf.
Defined.

Lemma reply_transparent_witness :
  ∃ r, demo_run whole = Some r ∧
    reply_status (run_reply r) = tk_status (run_task_left r).
Proof.
  destruct (demo_runs whole ltac:(by left)) as (r & Hr & _).
  exists r. split; [exact Hr|].
  apply demo_run_Some in Hr as [Hh _].
  apply (reply_transparent (demo_send whole) demo_engine pieces digest debug
    (H7 := demo_http_laws)) in Hh
    as (body & route & n & rng & result & es & resp & _ & _ & _ & _ & Hst & _ & _ & Ht & _).
  rewrite Hst, Ht. reflexivity.
Defined.

(** A cache that holds what the first request stored. *)
Definition demo_task : StreamTask :=
  {| tk_items := whole; tk_log := log_builder_new "rid" "p" None None 0; tk_started := 0;
     tk_permit := no_permit; tk_status := 200; tk_headers := demo_headers : HeaderMap;
     tk_upstream_ms := 0; tk_ttfb_ms := 0; tk_provider := "openai"; tk_project_id := "p";
     tk_key_id := "k"; tk_should_write := true; tk_cache_ttl := Some 60;
     tk_cache_key := Some "resp:ns:d" |}.
Definition demo_warm : World :=
  put_kv demo_start {| MemoryKv.entries := {["resp:ns:d" := ([], 100)]};
       kv_instant := λ _, 0 |}.
Definition demo_log : RequestLogRecord := set_model (Some "gpt-4o-mini") (tk_log demo_task).
Definition demo_policy : CachePolicy :=
  {| directive := CDefault; policy_ttl := 60; cache_scope := None;
     policy_nondeterministic := false |}.

Lemma replay_is_stored_witness :
  ∃ res g',
    serve (demo_send whole) demo_engine digest debug demo_config 0 demo_key demo_request
      (parse_request demo_request ask) no_permit demo_log demo_warm = Ret (res, g') ∧
    upstream_of g' = 0%nat ∧
    ∃ reply, res = Ok (reply, None) ∧ reply_body reply = Replayed [answer].
Proof.
  destruct (serve _ _ _ _ _ _ _ _ _ _ _ demo_warm) as [[res g']|] eqn:Hs.
  - exists res, g'. split; [reflexivity|].
    destruct (replay_is_stored (demo_send whole) demo_engine pieces digest debug demo_task
      5000 [] demo_config 0 demo_key demo_request (parse_request demo_request ask) no_permit
      demo_log demo_warm res g' demo_route demo_policy "resp:ns:d" (gw_kv demo_warm))
      as (Hu & reply & rec & Hres & _ & Hb & _).
    + vm_compute. reflexivity.
    + reflexivity.
    + intros name v Hin. apply list_elem_of_singleton in Hin as [= -> ->]. reflexivity.
    + vm_compute. reflexivity.
    + vm_compute. reflexivity.
    + left. reflexivity.
    + vm_compute. reflexivity.
    + vm_compute. reflexivity.
    + exact Hs.
    + split; [exact Hu|]. exists reply. split; [exact Hres|exact Hb].
  - exfalso. vm_compute in Hs. discriminate Hs.
Defined.

(** A cache key that is cut inside a character: the 48 bytes of the cache-key
    header end after the first byte of an e-acute of the namespace. *)
Example non_ascii_namespace_panics :
  insert_cache_headers ([] : HeaderMap) Miss
    (Some ("resp:" +:+ string_of_list_ascii (repeat "a"%char 42) +:+
           String (ascii_of_nat 195) (String (ascii_of_nat 169) ":digest"))) None = Panic.
Proof. vm_compute. reflexivity. Qed.

Definition roomy (l : MemoryLogStore) : Prop := (0 < capacity l)%nat.

Lemma roomy_append r : total roomy (append r).
Proof.
  intros l Hl. simpl. unfold mem_append. unfold roomy in *.
  destruct (Nat.leb_spec (capacity l) (length (log_records l))) as [Hle|Hlt].
  - destruct (log_records l) as [|x rest]; [simpl in Hle; lia|]. by eexists _, _.
  - by eexists _, _.
Qed.

(** Whatever the demo cache holds can be previewed. *)
Lemma demo_previewable kv : previewable kv.
Proof.
  intros key blob k' cached _. unfold decode.
  destruct (zstd_decode_all blob) as [bin|]; [|done]. simpl.
  case_bool_decide; [|done]. intros [= <-]. eexists. vm_compute. reflexivity.
Qed.


