(* ===== verification/SystemExamples.v ===== *)
(** The deployment of ProxyExamples with its keys and its Admin API: whole runs, and the
    properties of SystemCorrect applied to them. *)
From Stdlib Require Import ZArith Lia Bool Ascii String SpecFloat.
From stdpp Require Import prelude gmap strings list relations.
From S2P Require Import Prelude Text F64 Json Errors Models Config Stores HttpTypes.
From S2P Require Import MemoryCounter MemoryLog MemoryKv MemoryMeta.
From S2P Require Import Engine Fingerprint Cache Tokens Pricing LogBody RateLimit Budget.
From S2P Require Import Security Auth Seeding AdminLogs AdminPricing AdminApi Revocation.
From S2P Require Import Logging Streaming Proxy ProxyCorrect ProxyExamples System SystemCorrect.
From S2P Require Import F64Order BudgetBlocks SystemBudgets.
From S2P Require Import PriceFrames SystemPrices.
Open Scope Z_scope.

#[local] Existing Instance demo_serde.
#[local] Existing Instance demo_order.
#[local] Existing Instance demo_http.
#[local] Existing Instance demo_calendar.
#[local] Existing Instance demo_codecs.
#[local] Existing Instance toy_crypto.

Abbreviation Whole := (System MemMeta MemoryCounterStore MemoryLogStore MemoryKvStore nat).

(** A key "id-1" has been made; nothing is in flight. *)
Definition whole_start : Whole :=
  {| sys_metadata := sample_created.2; sys_base := sample_catalog; sys_gateway := demo_start;
     sys_streams := []; sys_touches := []; sys_accepted := [] |}.

Definition ask_as (token : string) : Request :=
  {| rq_namespace := "ns"; rq_tail := "v1/chat"; rq_remote_ip := "10.0.0.1";
     rq_headers := bearer token : HeaderMap; rq_method := "POST"; rq_body := Ok ask |}.

Definition no_env (_ : string) : option string := None.

Definition run_whole (es : list Event) (s : Whole) : outcome (list Observed * Whole) :=
  sys_run (demo_send whole) demo_engine pieces digest debug no_env sample_app es s.

(** A request, its stream and the record of the key's use. *)
Definition one_request : list Event :=
  [Proxied "rid" 100 (ask_as sample_secret); StreamEnds 0 stays; TouchEnds 0].
(** A request whose stream is still in flight when a second one is refused its slot. *)
Definition two_requests : list Event :=
  [Proxied "rid" 100 (ask_as sample_secret); Proxied "rid2" 101 (ask_as sample_secret)].
(** The revocation of the key, and attempts to use it. *)
Definition revoke_call : Call := root_call (ReqRevokeKey "id-1").
Definition after_revocation : list Event :=
  [Proxied "rid" 100 (ask_as sample_secret); TouchEnds 0; FileChanges (Ok demo_config);
   Proxied "rid2" 101 (ask_as sample_secret)].
(** Events without a usable credential. *)
Definition strangers : list Event :=
  [Proxied "rid" 100 (ask_as "sk-gw-live-unknown"); AdminCalls (bare_call ReqListPricing);
   AdminCalls (bare_call (ReqRevokeKey "id-1")); StreamEnds 3 stays].

Definition end_of (es : list Event) (s : Whole) : option Whole :=
  match run_whole es s with Ret (_, s') => Some s' | Panic => None end.

Lemma end_of_run es s s' : end_of es s = Some s' → ∃ os, run_whole es s = Ret (os, s').
Proof. unfold end_of. destruct (run_whole es s) as [[os x]|]; [intros [= <-]; eauto|done]. Qed.

Example one_request_runs :
  (λ s, (length (sys_streams s), length (sys_accepted s),
         length (gw_submitted (sys_gateway s)))) <$> end_of one_request whole_start =
  Some (0, 1, 1)%nat.
Proof. vm_compute. reflexivity. Qed.

Example revoked_requests_refused :
  match run_whole (AdminCalls revoke_call :: after_revocation) whole_start with
  | Ret (AdminAnswered (Ok _) :: Answered r1 :: _, s) =>
      reply_status r1 = 401 ∧ sys_accepted s = []
  | _ => False
  end.
Proof. vm_compute. by split. Qed.

(** * Witnesses *)

Lemma demo_slot_max k : slot_max (limits demo_config) k 1.
Proof.
  intros limit key project scope m Hin _ _ Hm.
  apply list_elem_of_singleton in Hin as ->. injection Hm as <-. lia.
Qed.

Lemma slots_in_flight_witness :
  ∃ s, end_of two_requests whole_start = Some s ∧ length (sys_streams s) = 1%nat ∧
    live (sys_counter s) "conc:key:id-1" = held (slots_of (sys_streams s)) "conc:key:id-1" ∧
    live (sys_counter s) "conc:key:id-1" ≤ 1.
Proof.
  assert (Hl : (length ∘ sys_streams) <$> end_of two_requests whole_start = Some 1%nat)
    by (vm_compute; reflexivity).
  destruct (end_of two_requests whole_start) as [s|] eqn:He; [|discriminate Hl].
  injection Hl as Hl. destruct (end_of_run _ _ _ He) as [os Hr].
  assert (Hz : ∀ k, live (sys_counter whole_start) k = 0) by (intros k; reflexivity).
  destruct (slots_in_flight _ _ _ _ _ _ _ _ _ _ _ Hr eq_refl Hz "conc:key:id-1") as (Hk & _ & Hmax).
  exists s. split; [reflexivity|]. split; [exact Hl|]. split; [exact Hk|].
  apply Hmax; [lia|apply demo_slot_max|].
  assert (Hno : Forall (λ e, match e with FileChanges _ => False | _ => True end) two_requests)
    by (repeat (apply Forall_cons; split; [exact I|]); by apply Forall_nil).
  intros new Hin. destruct (proj1 (Forall_forall _ _) Hno _ Hin).
Defined.

Lemma requests_accounted_witness :
  ∃ s recs, end_of one_request whole_start = Some s ∧
    gw_submitted (sys_gateway s) = gw_submitted (sys_gateway whole_start) ++ recs ∧
    length recs = 1%nat.
Proof.
  assert (Hl : (λ s, (length (sys_streams s), length (List.filter readable (sys_accepted s)))) <$>
      end_of one_request whole_start = Some (0, 1)%nat) by (vm_compute; reflexivity).
  destruct (end_of one_request whole_start) as [s|] eqn:He; [|discriminate Hl].
  injection Hl as Hs Hf. destruct (end_of_run _ _ _ He) as [os Hr].
  destruct (requests_accounted _ _ _ _ _ _ _ _ _ _ _ Hr eq_refl eq_refl)
    as (recs & logged & pending & Hrec & Hp & Hl & Ht).
  exists s, recs. split; [reflexivity|]. split; [exact Hrec|].
  apply nil_length_inv in Hs. rewrite Hs in Ht. apply Forall2_nil_inv_r in Ht as ->.
  rewrite app_nil_r in Hp. rewrite Hp in Hf. rewrite <- Hf. symmetry.
  exact (Forall2_length _ _ _ Hl).
Defined.

Lemma whole_start_wf : keys_wf (sys_metadata whole_start).
Proof.
  intros i row Hrow.
  assert (Hm : map_Forall (λ i row, key_id row = i) (keys sample_created.2))
    by (refine (bool_decide_unpack _ _); vm_compute; exact I).
  exact (Hm i row Hrow).
Qed.

Lemma revoked_stays_out_witness :
  ∃ s accs, end_of (AdminCalls revoke_call :: after_revocation) whole_start = Some s ∧
    sys_accepted s = sys_accepted whole_start ++ accs ∧
    Forall (λ a, principal_key_id (acc_who a) ≠ "id-1"%string) accs.
Proof.
  assert (Ho : match run_whole (AdminCalls revoke_call :: after_revocation) whole_start with
    | Ret (AdminAnswered (Ok v) :: os, s) => True | _ => False end) by (vm_compute; exact I).
  unfold end_of.
  destruct (run_whole (AdminCalls revoke_call :: after_revocation) whole_start)
    as [[[|[| |[v|]|] os] s]|] eqn:Hr; try destruct Ho.
  destruct (revoked_stays_out (demo_send whole) demo_engine pieces digest debug no_env sample_app
    "id-1" revoke_call v after_revocation whole_start s os eq_refl Hr)
    as (accs & Ha & Hf).
  - exact whole_start_wf.
  - repeat (apply Forall_cons; split; [exact I|]). by apply Forall_nil.
  - exists s, accs. split; [reflexivity|]. split; [exact Ha|exact Hf].
Defined.

Lemma strangers_change_nothing_witness :
  ∃ s, end_of strangers whole_start = Some s ∧ sys_gateway s = sys_gateway whole_start.
Proof.
  assert (Ha : sys_accepted <$> end_of strangers whole_start = Some [])
    by (vm_compute; reflexivity).
  destruct (end_of strangers whole_start) as [s|] eqn:He; [|discriminate Ha].
  injection Ha as Ha. destruct (end_of_run _ _ _ He) as [os Hr].
  exists s. split; [reflexivity|].
  refine (proj1 (strangers_change_nothing (demo_send whole) demo_engine pieces digest
    debug no_env sample_app strangers whole_start s os Hr _ Ha eq_refl eq_refl)).
  repeat (apply Forall_cons; split; [vm_compute; reflexivity || exact I|]). by apply Forall_nil.
Defined.

(** A price is set between two requests. *)
Definition repriced : list Event :=
  [Proxied "rid" 100 (ask_as sample_secret); AdminCalls (root_call (ReqUpsertPricing new_price));
   StreamEnds 0 stays; FileChanges (Ok demo_config)].


(** * A day on which the budget is spent *)

(** Nine of the ten dollars of the budget are spent. *)
Definition spent_manager : BudgetManager MemoryCounterStore :=
  match spend 9 fresh_manager with Ret (_, m) => m | Panic => fresh_manager end.
Definition spent_start : Whole := put_gateway whole_start (put_budgets demo_start spent_manager).

Definition after_spending : list Event :=
  [Proxied "rid" 100 (ask_as sample_secret); TouchEnds 0; FileChanges (Ok demo_config);
   AdminCalls (root_call ReqListPricing)].

Lemma amount_ok_bool x : valid x && ge0 x = true → amount_ok x.
Proof. by intros [? ?]%andb_true_iff. Qed.

(** The sums of the in-memory store, one by one. *)
Lemma memory_spent_ok (c : MemoryCounterStore) :
  forallb (λ kv, valid kv.2 && ge0 kv.2) (map_to_list (MemoryCounter.budgets c)) = true → spent_ok c.
Proof.
  rewrite forallb_forall. intros Hall b p. simpl.
  destruct (MemoryCounter.budgets c !! (b, p)) as [x|] eqn:Hx; simpl; [|by split].
  apply amount_ok_bool, (Hall ((b, p), x)), list_elem_of_In. by apply elem_of_map_to_list.
Qed.

Lemma logged_costs_ok {M C L K U : Type} (s : System M C L K U) :
  forallb (λ r, match cost_usd r with Some c => valid c && ge0 c | None => true end)
    (gw_submitted (sys_gateway s)) = true → costs_ok s.
Proof.
  rewrite forallb_forall. intros Hall r c Hr%list_elem_of_In Hc. apply Hall in Hr.
  rewrite Hc in Hr. by apply amount_ok_bool.
Qed.

Lemma blocked_stays_blocked_witness :
  ∃ os s', run_whole after_spending spent_start = Ret (os, s') ∧
    ∃ reply s'', sys_step (demo_send whole) demo_engine pieces digest debug no_env sample_app
      (Proxied "rid2" 101 (ask_as sample_secret)) s' = Ret (Answered reply, s'') ∧
      reply_status reply = 429 ∧
      upstream_of (sys_gateway s'') = upstream_of (sys_gateway s').
Proof.
  set (again := Proxied "rid2" 101 (ask_as sample_secret)).
  assert (Hall : match run_whole after_spending spent_start with
    | Ret (_, s') =>
        match sys_step (demo_send whole) demo_engine pieces digest debug no_env sample_app again s' with
        | Ret _ => true | Panic => false end &&
        forallb (λ r, match cost_usd r with Some c => valid c && ge0 c | None => true end)
          (gw_submitted (sys_gateway s')) &&
        match gateway_principal sample_app (sys_metadata s') 101 (rq_headers (ask_as sample_secret)) with
        | Ok (who, _) => budget_matches (principal_project_id who) (principal_key_id who) sample_budget
        | Err _ => false end &&
        bool_decide (budget_name <$> budget_configs (gw_config (sys_gateway s')) = ["b"])
    | Panic => false end = true) by (vm_compute; reflexivity).
  assert (Hcfg : match run_whole after_spending spent_start with
    | Ret (_, s') => gw_config (sys_gateway s') = demo_config
    | Panic => False end) by (vm_compute; reflexivity).
  assert (Hper : match run_whole after_spending spent_start with
    | Ret (_, s') => in_period 0 sample_budget (gw_budgets (sys_gateway s'))
    | Panic => False end) by (vm_compute; intros n; reflexivity).
  destruct (run_whole after_spending spent_start) as [[os s']|] eqn:Hr; [|done].
  exists os, s'. split; [reflexivity|].
  destruct (sys_step _ _ _ _ _ _ _ again s') as [[o s'']|] eqn:Hs; [|done].
  apply andb_true_iff in Hall as [Hall _]. apply andb_true_iff in Hall as [Hall Hwho].
  apply andb_true_iff in Hall as [_ Hcosts].
  destruct (gateway_principal _ _ _ _) as [[who touch]|e] eqn:Hp; [|discriminate].
  destruct (@blocked_stays_blocked _ _ _ _ _ _ _ _ _ _ _ _ _ _ _ _ _ plain_calendar_laws _
    (demo_send whole) demo_engine pieces digest debug no_env sample_app 0 sample_budget
    after_spending "rid2" 101 (ask_as sample_secret) ask who touch spent_start s' s'' os o Hr Hs)
    as (reply & -> & Hst & _ & Hu).
  - apply memory_spent_ok. vm_compute. reflexivity.
  - by apply logged_costs_ok.
  - split; [vm_compute; reflexivity|]. split; [vm_compute; reflexivity|].
    repeat constructor; vm_compute; reflexivity.
  - vm_compute. reflexivity.
  - rewrite Hcfg. by left.
  - exact Hper.
  - exact Hp.
  - exact Hwho.
  - reflexivity.
  - exists reply, s''. split; [reflexivity|]. split; [exact Hst|exact Hu].
Defined.
