(* ===== verification/Server.v ===== *)
(** The HTTP server: the routes of build_router in gateway-api/src/server.rs with the
    extractors of their handlers, the /metrics endpoint (metrics.rs, routes/metrics.rs),
    serve, and what a caller without a credential can reach.

    How axum matches a path against the patterns, how its extractors make a document of a
    query or a body and how they word a refusal are parameters, and so are the sockets and the
    Prometheus recorder.  What a document must hold is AdminBodies'. *)
From Stdlib Require Import ZArith Lia Bool Ascii String SpecFloat.
From stdpp Require Import prelude gmap strings list relations.
From S2P Require Import Prelude Text F64 Json Serde Errors Models Config Stores HttpTypes.
From S2P Require Import MemoryCounter MemoryLog MemoryKv MemoryMeta.
From S2P Require Import Engine Fingerprint Cache Tokens Pricing LogBody RateLimit Budget.
From S2P Require Import Security Auth Seeding AdminLogs AdminPricing AdminApi ConfigSerde AdminBodies.
From S2P Require Import Logging Streaming Proxy ProxyCorrect ProxyExamples System SystemExamples.
Open Scope Z_scope.

(** * Routes *)

Inductive AdminEndpoint : Type :=
| Login | Me | CreateAdmin | ListAdmins | CreateKey | ListKeys | RevokeKey | ListLogs | GetLog
| GetRoutes | AggregateCost | ListPricing | UpsertPricing | RecomputeCosts | DeletePricing
| ListBudgets.

Inductive Endpoint : Type :=
| RedirectToUi | UiPage | Healthz | Readyz | Metrics | ProxyEndpoint
| AdminAt (e : AdminEndpoint).

(** [get], [post], [put] and [delete] of axum, or [any]. *)
Inductive MethodFilter : Type := Only (method : string) | AnyMethod.

Record Route : Type := { pattern : string; filter_on : MethodFilter; handler : Endpoint }.

Definition on (p method : string) (e : Endpoint) : Route :=
  {| pattern := p; filter_on := Only method; handler := e |}.

Definition admin : list Route :=
  [on "/auth/login" "POST" (AdminAt Login); on "/auth/me" "GET" (AdminAt Me);
   on "/admins" "POST" (AdminAt CreateAdmin); on "/admins" "GET" (AdminAt ListAdmins);
   on "/keys" "POST" (AdminAt CreateKey); on "/keys" "GET" (AdminAt ListKeys);
   on "/keys/:id" "DELETE" (AdminAt RevokeKey);
   on "/logs" "GET" (AdminAt ListLogs); on "/logs/:id" "GET" (AdminAt GetLog);
   on "/routes" "GET" (AdminAt GetRoutes); on "/cost" "GET" (AdminAt AggregateCost);
   on "/pricing" "GET" (AdminAt ListPricing); on "/pricing" "PUT" (AdminAt UpsertPricing);
   on "/pricing/recompute" "POST" (AdminAt RecomputeCosts);
   on "/pricing/:provider/:model" "DELETE" (AdminAt DeletePricing);
   on "/budgets" "GET" (AdminAt ListBudgets)]%string.

(** [Router::nest] *)
Definition nest (prefix : string) (rs : list Route) : list Route :=
  map (λ r, {| pattern := (prefix +:+ pattern r)%string; filter_on := filter_on r;
               handler := handler r |}) rs.

Definition build_router : list Route :=
  [on "/" "GET" RedirectToUi; on "/ui/" "GET" UiPage; on "/ui/*rest" "GET" UiPage;
   on "/healthz" "GET" Healthz; on "/readyz" "GET" Readyz; on "/metrics" "GET" Metrics;
   {| pattern := "/v1/:namespace/*tail"; filter_on := AnyMethod; handler := ProxyEndpoint |}]%string
  ++ nest "/admin" admin.

(** A [get] route answers HEAD too. *)
Definition takes (f : MethodFilter) (method : string) : bool :=
  match f with
  | AnyMethod => true
  | Only m => String.eqb m method || (String.eqb m "GET" && String.eqb method "HEAD")
  end.

(** Where a request goes: to a handler with what the pattern captured, or nowhere. *)
Inductive Routed : Type :=
| NoRoute
| WrongMethod
| To (e : Endpoint) (captures : list string).

(** [at_path] gives the pattern the path matches, with its captures. *)
Definition dispatch (at_path : list string → string → option (string * list string))
    (path method : string) : Routed :=
  match at_path (map pattern build_router) path with
  | None => NoRoute
  | Some (p, captures) =>
      match List.find (λ r, String.eqb (pattern r) p && takes (filter_on r) method)
              build_router with
      | Some r => To (handler r) captures
      | None => WrongMethod
      end
  end.

(** * Requests and answers *)

Section Http.
Context `{HttpTypes}.

Record HttpRequest : Type := {
  ht_method : string;
  ht_path : string;
  ht_query : string;
  ht_headers : HeaderMap;
  ht_peer : string;
  ht_body : result bytes string
}.

(** An extractor's refusal. *)
Record Rejection : Type := { rej_status : Z; rej_text : string }.

(** axum's router and its [Path], [Query] and [Json] extractors: the captures, the document a
    query or a body is parsed to, [None] when it is none, and the refusal of a request whose
    document is missing or not what the handler of an endpoint asks for. *)
Class Extractors : Type := {
  at_path : list string → string → option (string * list string);
  path_one : list string → result string Rejection;
  path_two : list string → result (string * string) Rejection;
  QueryDoc : Type;
  query_deserializer :: Deserializer QueryDoc;
  query_document : string → option QueryDoc;
  BodyDoc : Type;
  body_deserializer :: Deserializer BodyDoc;
  json_document : HttpRequest → option BodyDoc;
  rejection : AdminEndpoint → HttpRequest → Rejection
}.

(** [Query<T>] and [Json<T>], with the decoder of [T]. *)
Definition query_of `{Extractors} {A} (e : AdminEndpoint) (dec : QueryDoc → option A)
    (rq : HttpRequest) : result A Rejection :=
  ok_or (query_document (ht_query rq) ≫= dec) (rejection e rq).
Definition json_of `{Extractors} {A} (e : AdminEndpoint) (dec : BodyDoc → option A)
    (rq : HttpRequest) : result A Rejection :=
  ok_or (json_document rq ≫= dec) (rejection e rq).

(** The arguments of an admin handler, after its principal. *)
Definition extract `{Extractors} (e : AdminEndpoint) (captures : list string)
    (rq : HttpRequest) : result AdminRequest Rejection :=
  match e with
  | Login => result_map ReqLogin (json_of e de_login_request rq)
  | Me => Ok ReqMe
  | CreateAdmin => result_map (λ c, ReqCreateAdmin c.1 c.2) (json_of e de_create_admin_request rq)
  | ListAdmins => Ok ReqListAdmins
  | CreateKey => result_map ReqCreateKey (json_of e de_create_key_request rq)
  | ListKeys => result_map ReqListKeys (query_of e de_list_keys_query rq)
  | RevokeKey => result_map ReqRevokeKey (path_one captures)
  | ListLogs => result_map ReqListLogs (query_of e de_list_logs_query rq)
  | GetLog => result_map ReqGetLog (path_one captures)
  | GetRoutes => Ok ReqGetRoutes
  | AggregateCost => result_map ReqCost (query_of e de_cost_query rq)
  | ListPricing => Ok ReqListPricing
  | UpsertPricing => result_map ReqUpsertPricing (json_of e de_upsert_pricing_body rq)
  | RecomputeCosts =>
      (* an [Option<Json<_>>] is [None] when the body is refused *)
      let b := match json_of e de_recompute_body rq with
               | Ok b => b
               | Err _ => default_recompute_body
               end in
      Ok (ReqRecompute b.1 b.2)
  | DeletePricing => result_map (λ c, ReqDeletePricing c.1 c.2) (path_two captures)
  | ListBudgets => result_map ReqListBudgets (query_of e de_budgets_query rq)
  end.

(** The endpoint of a decoded call. *)
Definition endpoint_of (r : AdminRequest) : AdminEndpoint :=
  match r with
  | ReqLogin _ => Login | ReqMe => Me | ReqCreateAdmin _ _ => CreateAdmin
  | ReqListAdmins => ListAdmins | ReqCreateKey _ => CreateKey | ReqListKeys _ => ListKeys
  | ReqRevokeKey _ => RevokeKey | ReqListLogs _ => ListLogs | ReqGetLog _ => GetLog
  | ReqGetRoutes => GetRoutes | ReqCost _ => AggregateCost | ReqListPricing => ListPricing
  | ReqUpsertPricing _ => UpsertPricing | ReqRecompute _ _ => RecomputeCosts
  | ReqDeletePricing _ _ => DeletePricing | ReqListBudgets _ => ListBudgets
  end.

(** What goes back: a redirect, a page, the JSON of a health check, the answer of a handler,
    a refusal.  (To HEAD the framework sends the same without the body.) *)
Inductive HttpAnswer : Type :=
| Permanent (location : string)
| Page (content_type body : string)
| Health (status : Z) (fields : list (string * Value))
| Handled (o : Observed)
| Refused (r : Rejection)
| NotFoundPage
| MethodNotAllowed.
End Http.

(** * Metrics *)

Section MetricsEndpoint.
Context {Recorder Handle : Type}.
(** [PrometheusBuilder::install_recorder], which refuses a second recorder, and
    [PrometheusHandle::render]. *)
Context (install_recorder : Recorder → result Handle string * Recorder)
  (render_handle : Handle → Recorder → string).

(** The static [HANDLE] and the process's recorder. *)
Record Meters : Type := { HANDLE : option Handle; recorder : Recorder }.

Definition install_prometheus : prog Meters Handle := λ m,
  match HANDLE m with
  | Some h => Ret (h, m)
  | None =>
      match install_recorder (recorder m) with
      | (Err _, _) => Panic
      | (Ok handle, r) => Ret (handle, {| HANDLE := Some handle; recorder := r |})
      end
  end.

Definition render (h : Handle) (m : Meters) : string := render_handle h (recorder m).

(** The content type and the body, with status 200. *)
Definition metrics_handler : prog Meters (string * string) :=
  let! h := install_prometheus in
  λ m, Ret ("text/plain; version=0.0.4; charset=utf-8"%string, render h m, m).

(** Once installed the recorder stays, and the endpoint never fails. *)
Lemma install_once m h m' :
  install_prometheus m = Ret (h, m') →
  HANDLE m' = Some h ∧ install_prometheus m' = Ret (h, m').
Proof.
  unfold install_prometheus. destruct (HANDLE m) as [h0|] eqn:Hh.
  - intros [= <- <-]. by rewrite Hh.
  - destruct (install_recorder (recorder m)) as [[h0|e] r]; [|done]. by intros [= <- <-].
Qed.

Lemma metrics_once m h : HANDLE m = Some h → ∃ a, metrics_handler m = Ret (a, m).
Proof.
  intros Hh. unfold metrics_handler, prog_bind, install_prometheus. rewrite Hh. by eexists.
Qed.
End MetricsEndpoint.
Arguments Meters : clear implicits.

(** * The server *)

Section Serving.
Context `{HashOrder} `{HttpTypes} `{Crypto} `{SerdeJson} `{Codecs} `{CounterStore C}
  `{LogStore L} `{KvStore K} `{MetadataStore M} `{Chrono} {U : Type}.
Context (send : U → OutgoingRequest → result IncomingResponse SendError * U)
  (engine : gmap string ResolvedProvider)
  (json_pieces : Value → list bytes) (blake3_hex : bytes → string)
  (debug_body : option string → string).
Context (app : AuthState) `{!Extractors} (ui_index_html : string).
Context {Recorder Handle : Type} (install_recorder : Recorder → result Handle string * Recorder)
  (render_handle : Handle → Recorder → string).
Abbreviation S := (System M C L K U).

Record Live : Type := { lv_system : S; lv_meters : Meters Recorder Handle }.

Definition with_system (l : Live) (s : S) : Live :=
  {| lv_system := s; lv_meters := lv_meters l |}.
Definition with_meters (l : Live) (m : Meters Recorder Handle) : Live :=
  {| lv_system := lv_system l; lv_meters := m |}.

(** A handler of the shared state. *)
Definition handled (h : prog S Observed) : prog Live HttpAnswer := λ l,
  match h (lv_system l) with
  | Panic => Panic
  | Ret (o, s) => Ret (Handled o, with_system l s)
  end.

Definition answer (a : HttpAnswer) : prog Live HttpAnswer := λ l, Ret (a, l).

(** The identifiers and clock readings a request draws. *)
Record Arrival : Type := {
  ar_request_id : string;
  ar_now : Z;
  ar_draws : Draws;
  ar_request : HttpRequest
}.

Definition proxy_request (rq : HttpRequest) (namespace tail : string) : Request :=
  {| rq_namespace := namespace; rq_tail := tail; rq_remote_ip := ht_peer rq;
     rq_headers := ht_headers rq; rq_method := ht_method rq; rq_body := ht_body rq |}.

(** [proxy_handler] behind its extractors.  The principal comes before the path, so that a
    path that does not decode is refused after the use of the key has been noted. *)
Definition proxy_endpoint (ar : Arrival) (captures : list string) : prog Live HttpAnswer :=
  let rq := ar_request ar in
  match path_two captures with
  | Ok (namespace, tail) =>
      handled (proxied send engine json_pieces blake3_hex debug_body app
                 (ar_request_id ar) (ar_now ar) (proxy_request rq namespace tail))
  | Err rejection => λ l,
      let s := lv_system l in
      match gateway_principal app (sys_metadata s) (ar_now ar) (ht_headers rq) with
      | Err e => Ret (Handled (Answered (error_reply debug_body e)), l)
      | Ok (_, touch) =>
          Ret (Refused rejection, with_system l (put_touches s (sys_touches s ++ [touch])))
      end
  end.

Definition is_login_endpoint (e : AdminEndpoint) : bool :=
  match e with Login => true | _ => false end.

(** The handler, as [p]; [login] takes no principal. *)
Definition admin_handler (p : AdminPrincipal) (d : Draws) (r : AdminRequest) :
    prog S Observed := λ s,
  match handle_as app p d r (admin_view s) with
  | Panic => Panic
  | Ret (x, a) => Ret (AdminAnswered x, put_admin s a)
  end.

(** An admin handler behind its extractors: the principal, except for [login], then the
    arguments. *)
Definition admin_endpoint (e : AdminEndpoint) (ar : Arrival) (captures : list string) :
    prog Live HttpAnswer :=
  let rq := ar_request ar in
  let run (p : AdminPrincipal) :=
    match extract e captures rq with
    | Err rejection => answer (Refused rejection)
    | Ok r => handled (admin_handler p (ar_draws ar) r)
    end in
  if is_login_endpoint e then run Root
  else
    match admin_principal app (d_auth_s (ar_draws ar)) (ht_headers rq) with
    | Ok p => run p
    | Err error => answer (Handled (AdminAnswered (Err error)))
    end.

Definition serve_endpoint (e : Endpoint) (ar : Arrival) (captures : list string) :
    prog Live HttpAnswer :=
  match e with
  | RedirectToUi => answer (Permanent "/ui/")
  | UiPage => answer (Page "text/html; charset=utf-8" ui_index_html)
  | Healthz => answer (Health healthz.1 healthz.2)
  | Readyz => λ l,
      let '(status, fields) := readyz (sys_metadata (lv_system l)) in
      Ret (Health status fields, l)
  | Metrics => λ l,
      match metrics_handler install_recorder render_handle (lv_meters l) with
      | Panic => Panic
      | Ret ((content_type, body), m) => Ret (Page content_type body, with_meters l m)
      end
  | ProxyEndpoint => proxy_endpoint ar captures
  | AdminAt e => admin_endpoint e ar captures
  end.

Definition http_step (ar : Arrival) : prog Live HttpAnswer :=
  match dispatch at_path (ht_path (ar_request ar)) (ht_method (ar_request ar)) with
  | NoRoute => answer NotFoundPage
  | WrongMethod => answer MethodNotAllowed
  | To e captures => serve_endpoint e ar captures
  end.

Fixpoint http_run (ars : list Arrival) : prog Live (list HttpAnswer) :=
  match ars with
  | [] => prog_ret []
  | ar :: rest =>
      let! a := http_step ar in
      let! answers := http_run rest in
      prog_ret (a :: answers)
  end.

(** The status line of an answer. *)
Definition answer_status (a : HttpAnswer) : option Z :=
  match a with
  | Permanent _ => Some 308
  | Page _ _ => Some 200
  | Health status _ => Some status
  | Handled (Answered r) => Some (reply_status r)
  | Handled (AdminAnswered (Ok _)) => Some 200
  | Handled (AdminAnswered (Err e)) => Some (into_response debug_body e).1.1
  | Handled _ => None
  | Refused r => Some (rej_status r)
  | NotFoundPage => Some 404
  | MethodNotAllowed => Some 405
  end.

(** The JSON of an answer that is a document of the gateway's own. *)
Definition answer_document (a : HttpAnswer) : option Value :=
  let error (code message : string) := Some (json_error code message) in
  match a with
  | Health _ fields => Some (VObject fields)
  | Handled (Answered r) =>
      match reply_body r with ErrorBody code message => error code message | _ => None end
  | Handled (AdminAnswered (Ok r)) => Some (json_answer r)
  | Handled (AdminAnswered (Err e)) =>
      let '(_, code, message) := into_response debug_body e in error code message
  | _ => None
  end.

(** [server::serve]: the address the listener got, with what runs on it. *)
Definition server_serve {Addr Listener : Type} (parse_addr : string → result Addr string)
    (bind_listener : Addr → result Listener string) (local_addr : Listener → result Addr string)
    (state : Live) (bind : string) : result (Addr * Listener * Live) string :=
  let? addr := map_err (λ e, "invalid bind address " +:+ bind +:+ ": " +:+ e)%string
                 (parse_addr bind) in
  let? listener := bind_listener addr in
  let? local := local_addr listener in
  Ok (local, listener, state).
End Serving.

(** * What requests reach *)

Section Reach.
Context `{HashOrder} `{HttpTypes} `{Crypto} `{SerdeJson} `{Codecs} `{CounterStore C}
  `{LogStore L} `{KvStore K} `{KeyFrame M} `{Chrono} {U : Type}.
Context (send : U → OutgoingRequest → result IncomingResponse SendError * U)
  (engine : gmap string ResolvedProvider)
  (json_pieces : Value → list bytes) (blake3_hex : bytes → string)
  (debug_body : option string → string).
Context (app : AuthState) `{!Extractors} (ui_index_html : string).
Context {Recorder Handle : Type} (install_recorder : Recorder → result Handle string * Recorder)
  (render_handle : Handle → Recorder → string).
Abbreviation S := (System M C L K U).
Abbreviation step := (http_step send engine json_pieces blake3_hex debug_body app ui_index_html
                        install_recorder render_handle).
Abbreviation Run := (http_run send engine json_pieces blake3_hex debug_body app ui_index_html
                       install_recorder render_handle).

Lemma put_admin_view (s : S) : put_admin s (admin_view s) = s.
Proof. by destruct s as [m b [] ts us acc]. Qed.

(** Every route of the Admin API is in the table. *)
Lemma admin_dispatch path r captures :
  at_path (map pattern build_router) path = Some ((admin_route r).2, captures) →
  dispatch at_path path (admin_route r).1 = To (AdminAt (endpoint_of r)) captures.
Proof. unfold dispatch. intros ->. by destruct r. Qed.

Lemma login_endpoint r : is_login_endpoint (endpoint_of r) = is_login r.
Proof. by destruct r. Qed.

Lemma extract_endpoint e captures rq r : extract e captures rq = Ok r → endpoint_of r = e.
Proof.
  destruct e; cbn [extract]; try (by intros [= <-]);
    match goal with |- result_map _ ?x = _ → _ => by destruct x; intros [= <-] end.
Qed.

Lemma admin_endpoint_calls (l : Live (M:=M) (C:=C) (L:=L) (K:=K) (U:=U)) ar r captures :
  extract (endpoint_of r) captures (ar_request ar) = Ok r →
  admin_endpoint (Recorder:=Recorder) (Handle:=Handle) app (endpoint_of r) ar captures l =
  handled (admin_calls app {| c_draws := ar_draws ar; c_headers := ht_headers (ar_request ar);
                              c_request := r |}) l.
Proof.
  intros He. unfold admin_endpoint. rewrite He, login_endpoint.
  unfold handled, admin_handler, admin_calls, admin_api. cbn [c_draws c_headers c_request].
  destruct (is_login r); [done|].
  destruct (admin_principal _ _ _) as [p|e]; [done|]. rewrite put_admin_view. by destruct l.
Qed.

(** ** Callers without a credential *)

(** No administrator's token, and no key of the store under the hash of what is sent. *)
Definition stranger (m : M) (ar : Arrival) : Prop :=
  let headers := ht_headers (ar_request ar) in
  is_ok (admin_principal app (d_auth_s (ar_draws ar)) headers) = false ∧
  ∀ token i row, extract_bearer headers = Some token → keys_of m !! i = Some row →
    key_hash row ≠ derive_hash (master_key app) token.

Lemma stranger_refused m ar now :
  stranger m ar → ∃ e, gateway_principal app m now (ht_headers (ar_request ar)) = Err e.
Proof.
  intros [_ Hno]. destruct (gateway_principal _ _ _ _) as [[who touch]|e] eqn:Hp; [|by exists e].
  destruct (gateway_principal_Ok app m now _ who touch Hp)
    as (token & row & i & Ht & _ & Hi & Hh & _). by destruct (Hno token i row Ht Hi).
Qed.

(** What such a caller leaves alone: everything, but that an administrator whose password it
    gives has logged in. *)
Definition undisturbed_by (s s' : S) : Prop :=
  sys_base s' = sys_base s ∧ sys_gateway s' = sys_gateway s ∧ sys_streams s' = sys_streams s ∧
  sys_touches s' = sys_touches s ∧ sys_accepted s' = sys_accepted s ∧
  rtc login_noted (sys_metadata s) (sys_metadata s').

#[export] Instance undisturbed_preorder : PreOrder undisturbed_by.
Proof.
  split; [intros s; by split_and!|].
  intros s1 s2 s3 (Hb & Hg & Hs & Ht & Ha & Hk) (Hb' & Hg' & Hs' & Ht' & Ha' & Hk').
  split_and!; [congruence..|by etrans].
Qed.

Lemma stranger_calls ar r (s : S) o s' :
  is_ok (admin_principal app (d_auth_s (ar_draws ar)) (ht_headers (ar_request ar))) = false →
  admin_calls app {| c_draws := ar_draws ar; c_headers := ht_headers (ar_request ar);
                     c_request := r |} s = Ret (o, s') →
  undisturbed_by s s'.
Proof.
  intros Ha (x & a & Hr & _ & ->)%admin_calls_Ret.
  pose proof (unauthorized_notes _ {| c_draws := _; c_headers := _; c_request := _ |}
    _ _ _ Ha Hr) as Hk.
  apply unauthorized_untouched in Hr as (_ & He & Hl & Hb & Hc); [|exact Ha].
  split_and!; try done. unfold put_admin, put_pricing, put_logs, put_budgets. cbn in *.
  rewrite He, Hl, Hb. by destruct (sys_gateway s).
Qed.

Lemma stranger_step ar (l : Live (M:=M) (C:=C) (L:=L) (K:=K) (U:=U)) a l' :
  stranger (sys_metadata (lv_system l)) ar → step ar l = Ret (a, l') →
  undisturbed_by (lv_system l) (lv_system l').
Proof.
  intros Hs. pose proof (stranger_refused _ _ (ar_now ar) Hs) as [e He]. destruct Hs as [Ha _].
  unfold http_step. destruct (dispatch _ _ _) as [| |ep captures]; [by intros [= _ <-]..|].
  destruct ep as [| | | | | |ep]; cbn [serve_endpoint]; try (by intros [= _ <-]).
  - destruct (readyz _). by intros [= _ <-].
  - destruct (metrics_handler _ _ _) as [[[t b] m]|]; [|done]. by intros [= _ <-].
  - unfold proxy_endpoint. destruct (path_two captures) as [[ns tail]|rej].
    + unfold handled, proxied. cbn [proxy_request rq_headers]. rewrite He. by intros [= _ <-].
    + rewrite He. by intros [= _ <-].
  - destruct (extract ep captures (ar_request ar)) as [r|rej] eqn:Hx.
    + pose proof (extract_endpoint _ _ _ _ Hx) as <-. rewrite (admin_endpoint_calls _ _ _ _ Hx).
      unfold handled. destruct (admin_calls _ _ _) as [[o s]|] eqn:Hc; [|done].
      intros [= _ <-]. by apply stranger_calls in Hc.
    + unfold admin_endpoint. rewrite Hx. destruct (is_login_endpoint ep); [by intros [= _ <-]|].
      destruct (admin_principal _ _ _); by intros [= _ <-].
Qed.
End Reach.

(** Requests get where the route table sends them.  A path that no pattern matches is
    answered 404 and one whose method no route takes 405, with nothing changed; a request
    whose arguments decode to an Admin API call, on that call's method and path, is exactly
    that call; and every method on the proxy's path is a proxied request with the namespace
    and tail of the path. *)
Theorem http_routes `{HashOrder} `{HttpTypes} `{Crypto} `{SerdeJson} `{Codecs}
    `{CounterStore C} `{LogStore L} `{KvStore K} `{MetadataStore M} `{Chrono} {U : Type}
    send engine json_pieces blake3_hex debug_body app `{!Extractors} ui_index_html
    {Recorder Handle : Type} install_recorder render_handle ar
    (l : Live (M:=M) (C:=C) (L:=L) (K:=K) (U:=U) (Recorder:=Recorder) (Handle:=Handle)) :
  let rq := ar_request ar in
  let matched := at_path (map pattern build_router) (ht_path rq) in
  let step := http_step send engine json_pieces blake3_hex debug_body app ui_index_html
                install_recorder render_handle ar l in
  (matched = None → step = Ret (NotFoundPage, l)) ∧
  (∀ p captures, matched = Some (p, captures) →
     Forall (λ r, pattern r = p → takes (filter_on r) (ht_method rq) = false) build_router →
     step = Ret (MethodNotAllowed, l)) ∧
  (∀ r captures, matched = Some ((admin_route r).2, captures) →
     ht_method rq = (admin_route r).1 → extract (endpoint_of r) captures rq = Ok r →
     step = handled (admin_calls app {| c_draws := ar_draws ar; c_headers := ht_headers rq;
                                        c_request := r |}) l) ∧
  (∀ captures namespace tail,
     matched = Some ("/v1/:namespace/*tail"%string, captures) →
     path_two captures = Ok (namespace, tail) →
     step = handled (proxied send engine json_pieces blake3_hex debug_body app
                       (ar_request_id ar) (ar_now ar) (proxy_request rq namespace tail)) l).
Proof.
  intros rq matched step. subst step. unfold http_step. fold rq.
  split_and!.
  - intros Hm. unfold dispatch. fold matched. by rewrite Hm.
  - intros p captures Hm Hall. unfold dispatch. fold matched. rewrite Hm.
    destruct (List.find _ _) as [r|] eqn:Hf; [|done].
    apply List.find_some in Hf as [Hin [Hp Ht]%andb_true_iff].
    apply list_elem_of_In in Hin. rewrite Forall_forall in Hall.
    by rewrite (Hall r Hin (proj1 (String.eqb_eq _ _) Hp)) in Ht.
  - intros r captures Hm Hmeth He. rewrite Hmeth, (admin_dispatch _ _ captures Hm).
    cbn [serve_endpoint]. by apply admin_endpoint_calls.
  - intros captures namespace tail Hm Hp. unfold dispatch. fold matched. rewrite Hm. cbn.
    unfold proxy_endpoint. by rewrite Hp.
Qed.

(** C8: The network surface is guarded.  Whatever requests come, on whatever paths, with
    whatever methods and bodies, as long as none of them carries an administrator's token or
    a key of the store: its configuration, prices, budgets, logs, caches and counters stay as
    they are, no request is let in, no task is left behind, and the stored metadata (keys,
    administrators, projects, routes, budgets, price overrides) is what it was but for the
    last login of administrators whose password a request gave. *)
Theorem http_guarded `{HashOrder} `{HttpTypes} `{Crypto} `{SerdeJson} `{Codecs}
    `{CounterStore C} `{LogStore L} `{KvStore K} `{KeyFrame M} `{Chrono} {U : Type}
    send engine json_pieces blake3_hex debug_body app `{!Extractors} ui_index_html
    {Recorder Handle : Type} install_recorder render_handle ars
    (l l' : Live (M:=M) (C:=C) (L:=L) (K:=K) (U:=U) (Recorder:=Recorder) (Handle:=Handle))
    answers :
  http_run send engine json_pieces blake3_hex debug_body app ui_index_html install_recorder
    render_handle ars l = Ret (answers, l') →
  Forall (stranger app (sys_metadata (lv_system l))) ars →
  undisturbed_by (lv_system l) (lv_system l').
Proof.
  set (m0 := sys_metadata (lv_system l)). intros Hr Hall.
  assert (Hstart : keys_of (sys_metadata (lv_system l)) = keys_of m0) by done.
  clearbody m0. revert l answers Hr Hstart.
  induction Hall as [|ar ars Har _ IH]; intros l answers Hr Hm; cbn [http_run] in Hr; prog_inv;
    [by apply undisturbed_preorder|].
  assert (Hs : stranger app (sys_metadata (lv_system l)) ar).
  { destruct Har as [Ha Hno]. split; [done|]. by rewrite Hm. }
  pose proof (stranger_step _ _ _ _ _ _ _ _ _ _ _ _ _ Hs Hrun) as Hu.
  etrans; [exact Hu|]. destruct Hu as (_ & _ & _ & _ & _ & [Hk _]%login_noted_keys).
  eapply IH; [exact Hrun0|]. by rewrite Hk.
Qed.

(** * The deployment of SystemExamples behind its server *)

Section Example.
#[local] Existing Instance demo_serde.
#[local] Existing Instance demo_order.
#[local] Existing Instance demo_http.
#[local] Existing Instance demo_calendar.
#[local] Existing Instance demo_codecs.
#[local] Existing Instance toy_crypto.

Definition no_body : Rejection := {| rej_status := 415; rej_text := "no" |}.

(** Static patterns, and the paths the examples use. *)
Definition demo_path (patterns : list string) (path : string) :
    option (string * list string) :=
  if String.eqb path "/v1/ns/v1/chat" then Some ("/v1/:namespace/*tail", ["ns"; "v1/chat"])
  else if String.eqb path "/admin/keys/id-1" then Some ("/admin/keys/:id", ["id-1"])
  else if existsb (String.eqb path) patterns then Some (path, []) else None.

(** A key and a price to create. *)
Definition demo_document (rq : HttpRequest) : option Value :=
  if String.eqb (ht_path rq) "/admin/keys" then Some (VObject [("name", VString "n")])
  else if String.eqb (ht_path rq) "/admin/pricing" then
    Some (VObject [("input_per_1k", VNumber (PosInt 1)); ("model", VString "gpt-4o-mini");
                   ("output_per_1k", VNumber (PosInt 2)); ("provider", VString " openai ")])
  else None.

#[local] Instance demo_extractors : Extractors := {
  at_path := demo_path;
  path_one c := match c with [a] => Ok a | _ => Err no_body end;
  path_two c := match c with [a; b] => Ok (a, b) | _ => Err no_body end;
  QueryDoc := Value;
  query_deserializer := json_deserializer;
  query_document q := if str_is_empty q then Some (VObject []) else None;
  BodyDoc := Value;
  body_deserializer := json_deserializer;
  json_document := demo_document;
  rejection _ _ := no_body
}.

Definition arrive (method path token : string) : Arrival :=
  {| ar_request_id := "rid"; ar_now := 100; ar_draws := sample_draws;
     ar_request := {| ht_method := method; ht_path := path; ht_query := "";
                      ht_headers := bearer token : HeaderMap; ht_peer := "10.0.0.1";
                      ht_body := Ok ask |} |}.

(** A recorder that counts its installations. *)
Definition first_only (n : nat) : result unit string * nat :=
  if Nat.eqb n 0 then (Ok (), 1%nat) else (Err "installed"%string, n).

Definition live_start : Live (Recorder:=nat) (Handle:=unit) :=
  {| lv_system := whole_start; lv_meters := {| HANDLE := None; recorder := 0%nat |} |}.

Definition http_demo (ars : list Arrival) :=
  http_run (demo_send whole) demo_engine pieces digest debug sample_app "<html>" first_only
    (λ _ _, "up 1"%string) ars live_start.

Definition statuses (ars : list Arrival) : option (list (option Z)) :=
  match http_demo ars with
  | Ret (answers, _) => Some (map (answer_status debug) answers)
  | Panic => None
  end.

Definition passers_by : list Arrival :=
  [arrive "GET" "/" "?"; arrive "HEAD" "/ui/" "?"; arrive "GET" "/metrics" "?";
   arrive "GET" "/metrics" "?"; arrive "GET" "/nowhere" "?"; arrive "POST" "/healthz" "?";
   arrive "POST" "/v1/ns/v1/chat" "?"; arrive "DELETE" "/admin/keys/id-1" "?";
   arrive "POST" "/admin/auth/login" "?"].

Example passers_by_answers :
  statuses passers_by =
  Some [Some 308; Some 200; Some 200; Some 200; Some 404; Some 405; Some 401; Some 401;
        Some 415].
Proof. vm_compute. reflexivity. Qed.

Example holders_answers :
  statuses [arrive "POST" "/v1/ns/v1/chat" sample_secret;
            arrive "DELETE" "/admin/keys/id-1" "root";
            arrive "POST" "/v1/ns/v1/chat" sample_secret] =
  Some [Some 200; Some 200; Some 401].
Proof. vm_compute. reflexivity. Qed.

(** What is read from the documents: the configuration as it is, the key created, the refusal
    of a stranger. *)
Example documents :
  match http_demo [arrive "GET" "/admin/routes" "root"; arrive "POST" "/admin/keys" "root";
                   arrive "GET" "/admin/keys" "?"] with
  | Ret ([routes; key; refused], l') =>
      (bool_decide (is_Some (answer_document debug routes ≫= de_app_config)),
       answer_document debug key ≫= (λ v, get v "name"),
       answer_document debug refused)
  | _ => (false, None, None)
  end =
  (true, Some (VString "n"),
   Some (VObject [("error", VObject [("code", VString "unauthorized");
                                     ("message", VString "unauthorized")])])).
Proof. vm_compute. reflexivity. Qed.

Lemma http_routes_witness :
  http_demo [arrive "DELETE" "/admin/keys/id-1" "root"] =
  prog_bind (handled (admin_calls sample_app (root_call (ReqRevokeKey "id-1"))))
    (λ a, prog_ret [a]) live_start.
Proof.
  destruct (http_routes (demo_send whole) demo_engine pieces digest debug sample_app "<html>"
    first_only (λ _ _, "up 1"%string) (arrive "DELETE" "/admin/keys/id-1" "root") live_start)
    as (_ & _ & Hadmin & _).
  specialize (Hadmin (ReqRevokeKey "id-1") ["id-1"%string] eq_refl eq_refl eq_refl).
  unfold http_demo, http_run, prog_bind at 1. rewrite Hadmin. reflexivity.
Defined.

Lemma http_guarded_witness :
  ∃ answers l', http_demo passers_by = Ret (answers, l') ∧
    sys_gateway (lv_system l') = sys_gateway whole_start ∧
    rtc login_noted (sys_metadata whole_start) (sys_metadata (lv_system l')).
Proof.
  assert (Hok : is_Some (statuses passers_by)) by (vm_compute; by eexists).
  unfold statuses in Hok.
  destruct (http_demo passers_by) as [[answers l']|] eqn:Hr; [|by destruct Hok].
  exists answers, l'. split; [reflexivity|].
  destruct (http_guarded (demo_send whole) demo_engine pieces digest debug sample_app "<html>"
    first_only (λ _ _, "up 1"%string) passers_by live_start l' answers Hr)
    as (_ & Hg & _ & _ & _ & Hk); [|split; [exact Hg|exact Hk]].
  assert (Hrow : map_Forall (λ _ row, key_hash row ≠ derive_hash (master_key sample_app) "?")
                   (keys sample_created.2))
    by (refine (bool_decide_unpack _ _); vm_compute; exact I).
  repeat (apply Forall_cons; split;
    [split; [vm_compute; reflexivity
            |intros token i row Ht Hi; injection Ht as <-; exact (Hrow i row Hi)]|]).
  by apply Forall_nil.
Defined.
End Example.
