(* ===== verification/Gateway.v ===== *)
(** The program from start to last request: main (Boot) up to serving, then whatever arrives
    at the server (Server) and whatever its background tasks do (System), and what holds
    throughout. *)
From Stdlib Require Import ZArith Lia Bool Ascii String SpecFloat.
From stdpp Require Import prelude gmap strings list relations.
From S2P Require Import Prelude Text F64 Json Serde Errors Models Config Stores HttpTypes.
From S2P Require Import MemoryCounter MemoryLog MemoryKv MemoryMeta.
From S2P Require Import Engine Fingerprint Cache Tokens Pricing LogBody RateLimit Budget.
From S2P Require Import Security Auth Seeding AdminLogs AdminPricing AdminApi PriceFrames.
From S2P Require Import Startup Logging Streaming Proxy ProxyCorrect System SystemCorrect.
From S2P Require Import ConfigSerde SystemPrices Watcher Boot ProxyExamples SystemExamples Server.
From S2P Require Import Config.
Open Scope Z_scope.

Section Life.
Context `{HashOrder} `{HttpTypes} `{Crypto} `{SerdeJson} `{Codecs} `{CounterStore C}
  `{LogStore L} `{KvStore K} `{MetadataStore M} `{Chrono} {U : Type}.
Context (send : U → OutgoingRequest → result IncomingResponse SendError * U)
  (engine : gmap string ResolvedProvider)
  (json_pieces : Value → list bytes) (blake3_hex : bytes → string)
  (debug_body : option string → string).
Context (env : string → option string) (app : AuthState) `{!Extractors} (ui_index_html : string).
Context {Recorder Handle : Type} (install_recorder : Recorder → result Handle string * Recorder)
  (render_handle : Handle → Recorder → string).
Abbreviation S := (System M C L K U).
Abbreviation live_state :=
  (Live (M:=M) (C:=C) (L:=L) (K:=K) (U:=U) (Recorder:=Recorder) (Handle:=Handle)).

(** A request arrives, or a task in the background makes its move. *)
Inductive LifeEvent : Type :=
| Arrives (ar : Arrival)
| StreamDone (n : nat) (accepts : nat → bool)
| TouchDone (n : nat)
| ConfigChanges (loaded : result AppConfig GatewayError).

Definition life_step (e : LifeEvent) : prog live_state HttpAnswer :=
  match e with
  | Arrives ar =>
      http_step send engine json_pieces blake3_hex debug_body app ui_index_html
        install_recorder render_handle ar
  | StreamDone n accepts => handled (stream_ends n accepts)
  | TouchDone n => handled (touch_ends n)
  | ConfigChanges loaded => handled (file_changes env app loaded)
  end.

Fixpoint life_run (es : list LifeEvent) : prog live_state (list HttpAnswer) :=
  match es with
  | [] => prog_ret []
  | e :: rest =>
      let! a := life_step e in
      let! answers := life_run rest in
      prog_ret (a :: answers)
  end.

Abbreviation step := (sys_step send engine json_pieces blake3_hex debug_body env app).

Lemma handled_Ret (h : prog S Observed) (l : live_state) a l' :
  handled h l = Ret (a, l') →
  ∃ o, a = Handled o ∧ h (lv_system l) = Ret (o, lv_system l').
Proof.
  unfold handled. destruct (h (lv_system l)) as [[o s]|]; [|done]. intros [= <- <-].
  by exists o.
Qed.

(** What an event does to the shared state is a step of the system, or the note that a key
    was used, or nothing. *)
Lemma life_step_system e (l : live_state) a l' :
  life_step e l = Ret (a, l') →
  (∃ ev o, a = Handled o ∧ step ev (lv_system l) = Ret (o, lv_system l')) ∨
  (∃ ts, lv_system l' = put_touches (lv_system l) ts) ∨
  lv_system l' = lv_system l.
Proof.
  destruct e as [ar|n accepts|n|loaded]; cbn [life_step].
  2: { intros (o & -> & Hs)%handled_Ret. left. by exists (StreamEnds n accepts), o. }
  2: { intros (o & -> & Hs)%handled_Ret. left. by exists (TouchEnds n), o. }
  2: { intros (o & -> & Hs)%handled_Ret. left. by exists (FileChanges loaded), o. }
  unfold http_step, answer. destruct (dispatch _ _ _) as [| |ep captures];
    [by intros [= _ <-]; right; right..|].
  destruct ep as [| | | | | |ep]; cbn [serve_endpoint]; unfold answer;
    try (by intros [= _ <-]; right; right).
  - destruct (readyz _). by intros [= _ <-]; right; right.
  - destruct (metrics_handler _ _ _) as [[[t b] m]|]; [|done]. by intros [= _ <-]; right; right.
  - unfold proxy_endpoint. destruct (path_two captures) as [[ns tail]|rej].
    + intros (o & -> & Hs)%handled_Ret. left.
      by exists (Proxied (ar_request_id ar) (ar_now ar) (proxy_request (ar_request ar) ns tail)), o.
    + destruct (gateway_principal _ _ _ _) as [[who touch]|e']; intros [= _ <-].
      * right; left. by eexists.
      * by right; right.
  - destruct (extract ep captures (ar_request ar)) as [r|rej] eqn:Hx.
    + pose proof (extract_endpoint _ _ _ _ Hx) as <-. rewrite (admin_endpoint_calls _ _ _ _ _ Hx).
      intros (o & -> & Hs)%handled_Ret. left. by eexists (AdminCalls _), o.
    + unfold admin_endpoint. rewrite Hx. unfold answer.
      destruct (is_login_endpoint ep); [by intros [= _ <-]; right; right|].
      destruct (admin_principal _ _ _); by intros [= _ <-]; right; right.
Qed.

(** An invariant of the system is one of the program's life. *)
Lemma life_keeps (P : S → Prop) (ok : HttpAnswer → Prop) es (l : live_state) answers l' :
  (∀ ev s o s', ok (Handled o) → step ev s = Ret (o, s') → P s → P s') →
  (∀ s ts, P s → P (put_touches s ts)) →
  life_run es l = Ret (answers, l') → Forall ok answers → P (lv_system l) → P (lv_system l').
Proof.
  intros Hstep Htouch. revert l answers. induction es as [|e es IH]; intros l answers Hr Hok Hl;
    cbn [life_run] in Hr; prog_inv; [done|].
  apply Forall_cons in Hok as [Ha Hok]. eapply IH; [exact Hrun0|exact Hok|].
  destruct (life_step_system _ _ _ _ Hrun) as [(ev & o & -> & Hs)|[(ts & ->)| ->]];
    [by eapply Hstep|by apply Htouch|done].
Qed.
End Life.

(** The Admin API did not answer with a failure of the store. *)
Definition store_held `{HttpTypes} (a : HttpAnswer) : Prop :=
  ∀ err, a ≠ Handled (AdminAnswered (Err (AStorage err))).

(** C1: The gateway from start to last request, as long as nothing panics.  Once [main] has
    started on stores with no slot in use and a counter store that counts exactly
    ([CounterLaws]: the in-memory one, not Redis, whose keys expire and whose commands fail),
    whatever HTTP requests are answered and whatever streams end, last uses are noted and
    configuration files are loaded, in any order, without a panic (a panic ends its request
    with the run: [cached_body_preview_panics], [non_ascii_namespace_panics] and
    [put_huge_ttl_panics] tell which there are): the concurrency slots in use are exactly
    those of the streams in flight; every request let in whose body could be read has been
    given to the log store, once and as its own, or has its stream in flight; and, if the
    Admin API met no failure of the store, costs are computed from the base prices overlaid
    with the overrides stored at that moment. *)
Theorem gateway_life `{HashOrder} `{HttpTypes} `{Crypto} `{SerdeJson} `{Codecs} `{CounterLaws C}
    `{LogStore L} `{KvStore K} `{KeyLaws M, !PricingLaws M, !PriceFrame M, !ProjectFrame M}
    `{Chrono} {U : Type} send json_pieces blake3_hex debug_body env `{!Extractors} ui_index_html
    {Recorder Handle : Type} install_recorder render_handle parse_yaml parse_catalog
    (su : Surroundings (M:=M) (L:=L) (K:=K) (C:=C) (U:=U)) b m logs kv counters es answers
    meters (l' : Live (M:=M) (C:=C) (L:=L) (K:=K) (U:=U) (Recorder:=Recorder) (Handle:=Handle)) :
  boot parse_yaml parse_catalog debug_body env su = Ok b →
  let s := booted_system b in
  su_open su (gw_config (sys_gateway s)) = Ok (m, logs, kv, counters) →
  keys_wf m → prices_wf m → (∀ k, live counters k = 0) →
  life_run send (booted_engine b) json_pieces blake3_hex debug_body env (booted_app b)
    ui_index_html install_recorder render_handle es {| lv_system := s; lv_meters := meters |} =
    Ret (answers, l') →
  let s' := lv_system l' in
  (∀ k, live (sys_counter s') k = held (slots_of (sys_streams s')) k) ∧
  (∃ recs logged pending,
     gw_submitted (sys_gateway s') = recs ∧
     List.filter readable (sys_accepted s') ≡ₚ logged ++ pending ∧
     Forall2 (about json_pieces) logged recs ∧
     Forall2 (λ a t, about json_pieces a (tk_log t)) pending (sys_streams s')) ∧
  (Forall store_held answers → ∀ p mo,
     by_key (gw_pricing (sys_gateway s')) !! (p, mo) =
     match price_of (sys_metadata s') p mo with
     | Some r => Some (row_to_entry r)
     | None => by_key (sys_base s) !! (p, mo)
     end).
Proof.
  intros Hb s Hopen Hwf Hpwf Hzero Hr s'.
  destruct (boot_parts _ _ _ _ _ _ Hb) as (cfg & master & root & m' & l0 & k' & c' & m1 & engine &
    file & prices & _ & Hsu & Hseed & _ & Hprices & ->).
  subst s. cbn in Hopen. rewrite Hsu in Hopen. injection Hopen as -> -> -> ->.
  destruct (start_prices _ _ _ _ _ _ _ _ _ Hseed Hprices Hwf Hpwf) as (Hpw1 & Hforce & Hmeta).
  set (s := booted_system _) in *.
  assert (Hall : Forall (λ _, True) answers) by (by apply Forall_true).
  split; [|split].
  - intros k. assert (Hs : slots_settled s) by (intros k0; apply (Hzero k0)).
    assert (Hs' : slots_settled s'); [|specialize (Hs' k); simpl in Hs'; lia].
    refine (life_keeps _ _ _ _ _ _ _ _ _ _ slots_settled _ es _ _ _ _ _ Hr Hall Hs); [|done].
    intros ev x o x' _ Hstep. by eapply counter_move_settled, (step_counter _ _ _ _ _ _ _ (λ _, True)).
  - assert (Ha : accounted json_pieces (sys_gateway s) s') by
      (refine (life_keeps _ _ _ _ _ _ _ _ _ _ (accounted json_pieces (sys_gateway s)) _ es _ _ _
         _ _ Hr Hall _); [intros ev x o x' _ Hstep; by eapply step_accounted|done|];
       exists [], [], []; by split_and!).
    destruct Ha as (recs & logged & pending & Hrec & Hp & Hl & Ht). by exists recs, logged, pending.
  - intros Hok p mo.
    assert (Hs' : priced s' ∧ sys_base s' = sys_base s); [|].
    { refine (life_keeps _ _ _ _ _ _ _ _ _ _
        (λ x : System M C L K U, priced x ∧ sys_base x = sys_base s) store_held es _ _ _ _ _ Hr Hok _).
      - intros ev x o x' Ho Hstep. eapply step_priced; [|exact Hstep].
        intros err ->. by apply (Ho err).
      - done.
      - split; [|done]. split; cbn; [by rewrite Hmeta|]. by destruct prices. }
    destruct Hs' as [[_ [Hl _]] Hbase]. rewrite <- Hbase. apply Hl.
Qed.

(** * A life: a request is streamed while a price is set, the file is loaded again *)

Section Example.
#[local] Existing Instance demo_serde.
#[local] Existing Instance demo_order.
#[local] Existing Instance demo_http.
#[local] Existing Instance demo_calendar.
#[local] Existing Instance demo_codecs.
#[local] Existing Instance toy_crypto.
#[local] Existing Instance demo_extractors.

Definition deployed_config : AppConfig :=
  {| server := default_server; storage := Memory default_cache_config;
     admin := {| root_token := "root"; password_login := false |};
     providers := {["openai" := sample_openai]}; routes := [demo_route]; limits := [demo_limit];
     budget_configs := [sample_budget]; observability := default_observability;
     gateway_keys := [declared_key] |}.

Definition deployed : result Booted string :=
  boot (config_from_str (λ _, Ok (json_app_config deployed_config)) (λ _, "?"%string)) (λ _, Err "?"%string) debug boot_env (sample_surroundings "").

Definition live_from (b : Booted (M:=MemMeta) (L:=MemoryLogStore) (K:=MemoryKvStore)
    (C:=MemoryCounterStore) (U:=nat)) : Live (Recorder:=nat) (Handle:=unit) :=
  {| lv_system := booted_system b; lv_meters := {| HANDLE := None; recorder := 0%nat |} |}.

Definition live_it (es : list LifeEvent) (b : Booted) :=
  life_run (demo_send whole) (booted_engine b) pieces digest debug boot_env (booted_app b)
    "<html>" first_only (λ _ _, "up 1"%string) es (live_from b).

Definition a_day : list LifeEvent :=
  [Arrives (arrive "POST" "/v1/ns/v1/chat" "sk-gw-live-0123456789");
   Arrives (arrive "PUT" "/admin/pricing" "root"); StreamDone 0 stays; TouchDone 0;
   Arrives (arrive "GET" "/metrics" "?"); ConfigChanges (Ok deployed_config);
   Arrives (arrive "POST" "/v1/ns/v1/chat" "sk-gw-live-0123456789");
   Arrives (arrive "POST" "/v1/ns/v1/chat" "sk-gw-live-0123456789")].

Definition day_of (r : result Booted string) :=
  match r with
  | Err _ => None
  | Ok b =>
      match live_it a_day b with
      | Ret (answers, l') =>
          Some (map (answer_status debug) answers, length (sys_streams (lv_system l')),
                length (gw_submitted (sys_gateway (lv_system l'))),
                length (List.filter readable (sys_accepted (lv_system l'))))
      | Panic => None
      end
  end.

(** The third request is refused its slot: two records, one stream in flight. *)
Example the_day :
  day_of deployed =
  Some ([Some 200; Some 200; None; None; Some 200; None; Some 200; Some 429], 1%nat, 2%nat, 3%nat).
Proof. vm_compute. reflexivity. Qed.

Lemma gateway_life_witness :
  ∃ b answers l', deployed = Ok b ∧ live_it a_day b = Ret (answers, l') ∧
    live (sys_counter (lv_system l')) "conc:key:cfg-new" =
      held (slots_of (sys_streams (lv_system l'))) "conc:key:cfg-new" ∧
    ∃ logged pending,
      List.filter readable (sys_accepted (lv_system l')) ≡ₚ logged ++ pending ∧
      Forall2 (about pieces) logged (gw_submitted (sys_gateway (lv_system l'))).
Proof.
  assert (Hd : is_Some (day_of deployed)) by (vm_compute; by eexists).
  assert (Hc : result_map (λ b, gw_config (sys_gateway (booted_system b))) deployed =
    Ok deployed_config) by (vm_compute; reflexivity).
  unfold day_of in Hd. destruct deployed as [b|e] eqn:Hb; [|discriminate Hc].
  injection Hc as Hc. exists b.
  destruct (live_it a_day b) as [[answers l']|] eqn:Hr; [|by destruct Hd].
  exists answers, l'. split; [reflexivity|]. split; [reflexivity|].
  destruct (gateway_life (demo_send whole) pieces digest debug boot_env "<html>" first_only
    (λ _ _, "up 1"%string) _ _ _ b (meta_new (λ _, 7)) (log_new (Z.to_nat 10000)) (kv_new (λ _, 0))
    (counter_new (λ _, 7)) a_day answers {| HANDLE := None; recorder := 0%nat |} l' Hb)
    as (Hslots & (recs & logged & pending & Hrec & Hp & Hl & _) & _).
  - rewrite Hc. reflexivity.
  - intros i row Hrow. change ((∅ : gmap string GatewayKeyRow) !! i = Some row) in Hrow.
    rewrite lookup_empty in Hrow. discriminate Hrow.
  - intros p mo r Hrow. change ((∅ : gmap (string * string) PricingRow) !! (p, mo) = Some r) in Hrow.
    rewrite lookup_empty in Hrow. discriminate Hrow.
  - intros k. reflexivity.
  - exact Hr.
  - split; [apply Hslots|]. exists logged, pending. split; [exact Hp|]. rewrite Hrec. exact Hl.
Defined.
End Example.
